(* ===== verification/_CoqProject ===== *)
-Q . S2P
Prelude.v
MemoryManager.v
FreeList.v
Buddy.v
Queue.v
CircularBuffer.v
KState.v
ProcTable.v
Semaphore.v
Pipe.v
PipeSpec.v
Process.v
KernelInv.v
KernelCheck.v
Descriptors.v
Scheduler.v
LifeCycle.v
Creation.v
Channels.v
Steady.v
Syscall.v
NamedSems.v
Keyboard.v
LibC.v
Font.v
Video.v
Devices.v
Kernel.v
DeviceCalls.v
Packer.v
Reach.v
CStandard.v
Terminal.v
Shell.v
Userland.v
Music.v
Threads.v
SemRefine.v
Departures.v
Mvar.v
TestSync.v
TestProc.v
TestPrio.v
TestMM.v
Commands.v
Session.v
