(* ===== verification/Prelude.v ===== *)
(** * Verification of the TP2_SO_G18 operating system

    The repository is a small operating system for x86-64: a kernel ([src/Kernel]), one userland
    module with a shell, its commands and the tests of the course ([src/Userland]), the host tool
    that packs both into one image ([src/Toolchain/ModulePacker]), and a third-party boot loader.
    This library models its C code and proves what makes it correct.  This file is the prelude:
    fixed-width integers, the lemmas on lists and sums over maps, and the tactics the other files
    share.

    ** The program

    The boot loader leaves the packed image in memory and calls the kernel.  [kernel.c] clears its
    statics, copies the modules out of the image ([moduleLoader.c]), starts the heap (one of two
    managers, chosen at build time), the process layer and the interrupt table, and halts until
    the first interrupt.  The timer interrupt calls the scheduler, which switches processes; the
    keyboard interrupt writes characters into a pipe; system calls are the only way in from
    userland.  Processes own descriptors, descriptors refer to file accesses, file accesses to
    pipes, pipes to semaphores, and all these objects live in the heap.  The first process, init,
    makes the pipe of the keyboard and starts the shell, which puts a terminal process between
    itself and the screen and runs lines of commands, each a process of its own.

    ** How it is modelled

    An integer of [w] bits is a [Z] with its wrap-around written out ([u8] to [u64], [i8] to
    [i64] below); a byte is a [Z]; a C string is the list of its bytes before the terminator; memory that
    is read and written byte by byte is a map from addresses to bytes.  Definitions keep the names
    of the functions they translate.  What the model fixes for each layer:

    - The two memory managers keep the addresses, headers, nodes and 64-bit arithmetic of the code.
      An access to an address that holds nothing is [None].
    - The process layer ([KState]) keeps its objects in typed stores indexed by address, and its
      globals in one record, [kst].  The queues owned by one object are lists there; [Queue]
      proves that the linked queues of the code implement lists.  Allocation hands out fresh
      addresses until the list [k_mem] says that memory runs out.
    - Kernel code runs with interrupts disabled, so it is atomic between two forced switches.
      [K] is a resumption monad: a run ends ([KDone]), faults ([KFault]: an access through NULL or to a
      freed object), spins on a lock ([KHang]), runs out of the fuel of a loop ([KFuel]) or gives
      up the processor ([KSwitch]) with the rest of the run as a function of the state in which
      the process is resumed.
    - Interrupts and calls that interleave are the steps of an inductive relation ([Reach.reach]).
    - A userland program ([Userland.prog]) is a tree of system calls; the system that answers them
      is any function with a state, and a run is the list of the calls made.  Programs that share
      semaphores and variables run interleaved ([Threads.step]).

    ** The files

    The heap.
    - [MemoryManager]: the interface [MemoryManager] (operations) and [MemoryManagerLaws] (what
      clients may rely on), type classes that the two managers instantiate and that [Queue],
      [CircularBuffer] and [TestMM] are proved against.
    - [FreeList] ([memory/memoryManager.c]): [mem_init], [mem_alloc], [mem_free], [mem_status] over
      the list of headers; refinement to the list of segments of the heap.
    - [Buddy] ([memory/memoryManagerBuddy.c]): the pool of nodes, splitting and merging;
      refinement to a binary tree of blocks.
    - [Queue] ([queue.c]), [CircularBuffer] ([circularBuffer.c]): data structures in that heap,
      refined to lists.

    The process layer.
    - [KState]: the records of the kernel, [kst], and the monad [K].
    - [ProcTable] ([process.c], [scheduler.c]): descriptors, the table, states, the ready queue and the
      foreground set; [sched_inv], the invariant of the scheduler.
    - [Semaphore] ([semaphore.c], [sharedSemaphores.c]), [Pipe] ([pipe.c], [fileAccess.c]),
      [Process] ([process.c]), [Scheduler] ([scheduler.c]), [Syscall] ([syscallDispatcher.c]):
      the operations, in the order in which they call each other.
    - [PipeSpec]: pipes are bounded channels.  [NamedSems]: the table of the named semaphores.
    - [KernelInv]: the invariant [kinv] of the heap's objects (no dangling pointer, exact
      reference counts, one owner per semaphore), with ghost offsets for the moments between two
      stores; [KernelCheck]: its decision procedure, and the small kernel most witnesses use.
    - [Descriptors], [Channels], [Creation], [LifeCycle]: what each operation does, against that
      invariant; [Steady]: the changes that keep all invariants together ([sound]).
    - [Reach]: the reachable states of the kernel.  [Departures]: runs in which the code departs
      from what it promises.

    Devices and the boot.
    - [Keyboard] ([keyboardDriver.c]), [Video] and [Font] ([videoDriver.c]), [Devices]
      ([timer.c], [soundDriver.c], [idtLoader.c], [irqDispatcher.c], [exceptions.c],
      [registers.c]), [LibC] ([lib.c], [dateTime.c], [moduleLoader.c]), [Kernel] ([kernel.c]),
      [DeviceCalls] (the system calls on devices and heap), [Packer] ([ModulePacker/main.c]).

    Userland.
    - [CStandard] ([cstandard.c]), [Terminal] ([terminal.c]), [Shell] and [Session] ([shell.c],
      [_loader.c]), [Userland] (programs and runs), [Commands] ([commands.c]), [Music]
      ([music.c], [point.c]).
    - [Threads]: interleavings over shared semaphores and variables; [SemRefine]: the kernel's named
      semaphores implement them; [Mvar] ([mvar.c]), [TestSync] ([test_sync.c]), [TestProc],
      [TestPrio], [TestMM]: the programs that use them.

    ** What is proved

    - The kernel as a whole: from the end of the boot, under any sequence of timer interrupts,
      keyboard interrupts that type nothing and system calls on processes, descriptors and named
      semaphores that wait neither for a pipe nor for the end of a process, nothing faults, hangs
      or runs away, and the data stay well formed ([kernel_never_fails], [kernel_well_formed]); the
      boot reaches such a state ([kernel_boots]).
    - Scheduling: the context switch refines round robin with quantums, and nobody starves
      ([schedule_refines], [round_robin_fair]).
    - Processes: creation, inheritance of descriptors, termination, adoption of orphans and reaping
      ([startNewProcess_inherits], [startNewProcess_no_memory], [terminateProcess_ends],
      [wait_pid_reaps], [prepareStack_frame]).
    - Semaphores ([semWait_correct], [semPost_correct]) and named semaphores
      ([named_semaphores_refine]): they implement the abstract semaphores over which the programs
      that share them are proved ([mvar_delivers], [test_sync_zero]).
    - Pipes and descriptors ([pipeWrite_appends], [pipeRead_takes], [pipeRead_sleeps],
      [sysPipe_opens], [closeFd_releases], [dupFd_shares], [closeFd_eof]).
    - The heap: both managers against their contract ([mem_alloc_correct], [mem_free_correct],
      [buddy_alloc_correct], [buddy_free_correct]) and the structures in it ([queue_fifo],
      [buffer_fifo]).
    - The image: what the packer packs, the kernel unpacks ([packed_modules_load]); waiting for the
      clock ends ([sleep_waits]).
    - Userland: the line editor, tokens, pipelines and what the shell asks of the system
      ([readLine_edits], [tokenize_words], [splitPipeline_stages], [runLine_settles],
      [session_runs]), the filters and the counts of the commands ([filters_stream], [wc_counts]),
      the terminal's bounds ([terminal_inside]), [scanf] against [printf] ([scanf_printf]), and the
      tests of the course over systems that keep their contracts ([test_mm_passes],
      [test_proc_passes]).

    ** Bounds and fuel

    - Sizes of the code are kept: 64 processes, 16 descriptors each, pipes of 1024 bytes, 64 named
      semaphores.  The values of semaphores are [int]s; the invariant carries a bound [N] on them,
      every operation says by how much it may raise [N], and the theorems ask that it stays below
      [2 ^ 30].
    - The blocking read and write loops take fuel, one unit for each round, and the contracts of
      [PipeSpec] give how much is enough (for a write, one more than the bytes to write).  The loops
      that the code bounds by data recurse on that data and need none: the bytes in a buffer, the
      waiters of a semaphore, the entries of a table.
    - Endless loops of userland are cut at a number of turns which is an argument of the theorem;
      a program still running then is [Later], never an answer.

    ** Not modelled

    - [src/Bootloader] is third-party (Pure64 and the BMFS disk tool).  The assembly files save
      registers and switch stacks; the model starts where they call C, and the numbers that the userland
      stubs load are in [Syscall].
    - What the hardware answers (ports, the tick counter, the clock, mode information), the
      files of the host and the calls made by [argp_parse] are arguments.
    - The memory of a process is not shared with the kernel's model: what a system call reads
      through its pointers is an argument, and what it stores is part of its answer.
    - The calls that sleep until another process acts (blocking reads and writes, [sys_wait_pid],
      [sys_reap_zombies]) are modelled and have their own theorems, but are outside the relation
      of [Reach]: a process may be woken by [sys_unblock] without what it waited for, and the code
      then goes on, so nothing can be promised after it (the runs of [Departures]). *)

From Stdlib Require Export ZArith Lia.
From stdpp Require Export base numbers list gmap option.

#[global] Open Scope Z_scope.

(** ** Fixed-width integers

    A C integer of width [w] is a [Z]; the wrap-around of the unsigned types and the
    two's-complement reading of the narrow signed casts are written out here. *)

Definition wrap (w x : Z) : Z := x mod 2 ^ w.
Definition u8 (x : Z) : Z := wrap 8 x.
Definition u16 (x : Z) : Z := wrap 16 x.
Definition u32 (x : Z) : Z := wrap 32 x.
Definition u64 (x : Z) : Z := wrap 64 x.

Definition swrap (w x : Z) : Z :=
  let y := wrap w x in if y <? 2 ^ (w - 1) then y else y - 2 ^ w.
Definition i8 (x : Z) : Z := swrap 8 x.
Definition i16 (x : Z) : Z := swrap 16 x.
Definition i32 (x : Z) : Z := swrap 32 x.
Definition i64 (x : Z) : Z := swrap 64 x.

Lemma wrap_small w x : 0 ≤ x < 2 ^ w → wrap w x = x.
Proof. intros. unfold wrap. by apply Z.mod_small. Qed.

Lemma wrap_range w x : 0 ≤ w → 0 ≤ wrap w x < 2 ^ w.
Proof. intros. unfold wrap. apply Z.mod_pos_bound. by apply Z.pow_pos_nonneg. Qed.

Lemma swrap_small w x : 0 < w → - 2 ^ (w - 1) ≤ x < 2 ^ (w - 1) → swrap w x = x.
Proof.
  intros Hw Hx. unfold swrap, wrap.
  assert (Hp : 2 ^ w = 2 * 2 ^ (w - 1)).
  { replace w with (Z.succ (w - 1)) at 1 by lia. rewrite Z.pow_succ_r by lia. lia. }
  assert (0 < 2 ^ (w - 1)) by (apply Z.pow_pos_nonneg; lia).
  destruct (Z_lt_le_dec x 0).
  - rewrite <- (Z.mod_unique x (2 ^ w) (-1) (x + 2 ^ w)) by lia.
    destruct (Z.ltb_spec (x + 2 ^ w) (2 ^ (w - 1))); lia.
  - rewrite Z.mod_small by lia. destruct (Z.ltb_spec x (2 ^ (w - 1))); lia.
Qed.

(** ** Generic lemmas on lists and options *)

Lemma bind_Some_intro {A B} (m : option A) (f : A → option B) a b :
  m = Some a → f a = Some b → m ≫= f = Some b.
Proof. intros -> H. exact H. Qed.

Lemma bool_neg_ltb a b : (a <? b) = negb (b <=? a).
Proof. destruct (Z.ltb_spec a b), (Z.leb_spec b a); simpl; lia || done. Qed.

(** Case analysis on the first boolean comparison of integers found in the goal or in a
    hypothesis; the arithmetic fact goes to the context. *)
Ltac zcase_one :=
  match goal with
  | |- context [Z.eqb ?a ?b] => destruct (Z.eqb_spec a b)
  | |- context [Z.ltb ?a ?b] => destruct (Z.ltb_spec a b)
  | |- context [Z.leb ?a ?b] => destruct (Z.leb_spec a b)
  | H : context [Z.eqb ?a ?b] |- _ => destruct (Z.eqb_spec a b)
  | H : context [Z.ltb ?a ?b] |- _ => destruct (Z.ltb_spec a b)
  | H : context [Z.leb ?a ?b] |- _ => destruct (Z.leb_spec a b)
  end.
Ltac zcase := repeat (zcase_one; simpl in *; try lia).

(** Remove the wrap-arounds whose argument [lia] proves in range. *)
Ltac unwrap :=
  repeat match goal with
  | |- context [wrap ?w ?x] => rewrite (wrap_small w x) by lia
  end.

(** Linear arithmetic with quotients and remainders by constants. *)
Ltac divlia := Z.to_euclidean_division_equations; lia.


(** ** Notations, hints and the lemmas the userland files share *)

Declare Scope kernel_scope.
Delimit Scope kernel_scope with kernel.
Open Scope kernel_scope.

(** The length of a list as an integer, the type C compares it with. *)
Notation "'len' l" := (Z.of_nat (length l)) (at level 10, l at level 9) : kernel_scope.

Create HintDb kernel.

Lemma u64_range x : 0 ≤ u64 x < 2 ^ 64.
Proof. by apply wrap_range. Qed.
Lemma u32_range x : 0 ≤ u32 x < 2 ^ 32.
Proof. by apply wrap_range. Qed.
Lemma u64_small x : 0 ≤ x < 2 ^ 64 → u64 x = x.
Proof. apply wrap_small. Qed.
Lemma u32_small x : 0 ≤ x < 2 ^ 32 → u32 x = x.
Proof. apply wrap_small. Qed.
Lemma u8_small x : 0 ≤ x < 2 ^ 8 → u8 x = x.
Proof. apply wrap_small. Qed.

Lemma i16_small x : - 2 ^ 15 ≤ x < 2 ^ 15 → i16 x = x.
Proof. intros. apply swrap_small; lia. Qed.
Lemma i32_small x : - 2 ^ 31 ≤ x < 2 ^ 31 → i32 x = x.
Proof. intros. apply swrap_small; lia. Qed.

#[export] Hint Resolve u64_range u32_range : kernel.
#[export] Hint Rewrite u64_small u32_small u8_small i16_small i32_small using lia : kernel.

(** A character buffer read as a C string: the bytes before the first NUL. *)
Fixpoint c_str (buf : list Z) : list Z :=
  match buf with [] => [] | c :: rest => if c =? 0 then [] else c :: c_str rest end.

Lemma c_str_all buf : Forall (λ c, c ≠ 0) buf → c_str buf = buf.
Proof. induction 1 as [|c l Hc _ IH]; [done|]. simpl. destruct (Z.eqb_spec c 0); [done|]. by rewrite IH. Qed.

#[export] Hint Rewrite c_str_all using done : kernel.

(** Folding over a list preserves what every step preserves. *)
Lemma foldl_invariant {A B} (P : A → Prop) (f : A → B → A) (l : list B) a :
  P a → (∀ a b, P a → P (f a b)) → P (foldl f a l).
Proof. intros H Hf. revert a H. induction l as [|b l IH]; simpl; auto. Qed.

(** ** Sums over maps *)

(** The sum of a measure over the values of a map. *)
Definition sum_of {A} (f : A → Z) (m : gmap Z A) : Z := map_fold (λ _ a n, f a + n) 0 m.

Lemma sum_of_empty {A} (f : A → Z) : sum_of f ∅ = 0.
Proof. apply map_fold_empty. Qed.

Lemma sum_of_insert {A} (f : A → Z) m k a : m !! k = None → sum_of f (<[k := a]> m) = f a + sum_of f m.
Proof. intros H. unfold sum_of. rewrite map_fold_insert_L; [done| |done]. intros. lia. Qed.

Lemma sum_of_delete {A} (f : A → Z) m k a : m !! k = Some a → sum_of f (delete k m) = sum_of f m - f a.
Proof.
  intros H. rewrite <- (insert_delete_id m k a) at 2 by done. rewrite sum_of_insert by apply lookup_delete_eq. lia.
Qed.

Lemma sum_of_update {A} (f : A → Z) m k a a' : m !! k = Some a →
  sum_of f (<[k := a']> m) = sum_of f m - f a + f a'.
Proof.
  intros H. rewrite <- insert_delete_eq, sum_of_insert by apply lookup_delete_eq.
  rewrite (sum_of_delete f m k a) by done. lia.
Qed.

Lemma sum_of_bound {A} (f : A → Z) (b : Z) m : (∀ k a, m !! k = Some a → 0 ≤ f a ≤ b) →
  0 ≤ sum_of f m ≤ b * Z.of_nat (size m).
Proof.
  induction m as [|k a m Hk IH] using map_ind; intros H.
  - rewrite sum_of_empty, map_size_empty. lia.
  - rewrite sum_of_insert, map_size_insert_None by done. pose proof (H k a (lookup_insert_eq _ _ _)).
    destruct IH; [|lia]. intros k' a' Hk'. apply (H k'). rewrite lookup_insert_ne; [done|]. congruence.
Qed.

Lemma sum_of_nonneg {A} (f : A → Z) m : (∀ a, 0 ≤ f a) → 0 ≤ sum_of f m.
Proof.
  intros H. induction m as [|k a m Hk IH] using map_ind; [by rewrite sum_of_empty|].
  rewrite sum_of_insert by done. specialize (H a). lia.
Qed.

Lemma sum_of_ge {A} (f : A → Z) m k a : (∀ a, 0 ≤ f a) → m !! k = Some a → f a ≤ sum_of f m.
Proof.
  intros H Hk. rewrite <- (insert_delete_id m k a) by done. rewrite sum_of_insert by apply lookup_delete_eq.
  pose proof (sum_of_nonneg f (delete k m) H). lia.
Qed.

Lemma sum_of_fmap {A} (f : A → Z) (m : gmap Z A) : sum_of f m = sum_of id (f <$> m).
Proof. unfold sum_of. by rewrite map_fold_fmap. Qed.
