(* ===== verification/MemoryManager.v ===== *)
(** * The contract of a memory manager

    [Kernel/include/memoryManager.h] is implemented by two files that are exchanged at build
    time: the free list and the buddy tree.  The operations are one class, and what a client
    may rely on is a second class; each implementation file ends with its instances. *)

From S2P Require Import Prelude.

(** The heap that [main] hands to [mem_init]. *)
Definition MEM_HEAP_START : Z := 0x1000000.
Definition MEM_HEAP_SIZE : Z := 256 * 1024 * 1024.

(** [mm_alloc] and [mm_free] answer [None] where the C code would dereference an address
    that holds no header. *)
Class MemoryManager (M : Type) := {
  mm_alloc : Z → M → option (Z * M);
  mm_free : Z → M → option M;
  mm_inv : M → Prop;
  mm_live : M → gmap Z Z;     (* payload address ↦ bytes the caller owns *)
  mm_lo : M → Z;
  mm_hi : M → Z;
  mm_max : M → Z;             (* largest request the contract covers *)
}.

Class MemoryManagerLaws (M : Type) `{MemoryManager M} := {
  mm_alloc_ok : ∀ m n, mm_inv m → 0 < n ≤ mm_max m →
    ∃ p m', mm_alloc n m = Some (p, m') ∧ mm_inv m' ∧
      mm_lo m' = mm_lo m ∧ mm_hi m' = mm_hi m ∧ mm_max m' = mm_max m ∧
      ((p = 0 ∧ mm_live m' = mm_live m) ∨
       (p ≠ 0 ∧ mm_live m !! p = None ∧
        ∃ s, n ≤ s ∧ mm_live m' = <[p := s]> (mm_live m)));
  mm_free_ok : ∀ m p s, mm_inv m → mm_live m !! p = Some s →
    ∃ m', mm_free p m = Some m' ∧ mm_inv m' ∧
      mm_lo m' = mm_lo m ∧ mm_hi m' = mm_hi m ∧ mm_max m' = mm_max m ∧
      mm_live m' = delete p (mm_live m);
  mm_disjoint : ∀ m p s q t, mm_inv m → mm_live m !! p = Some s → mm_live m !! q = Some t →
    p ≠ q → p + s ≤ q ∨ q + t ≤ p;
  mm_bounds : ∀ m p s, mm_inv m → mm_live m !! p = Some s →
    p ≠ 0 ∧ 0 < s ∧ mm_lo m ≤ p ∧ p + s ≤ mm_hi m;
}.
