(* ===== verification/FreeList.v ===== *)
(** * The free-list memory manager ([Kernel/memory/memoryManager.c])

    The heap is a doubly linked list of headers, kept at their addresses in [heap]; a
    header that a merge made unreachable stays in memory, as in C. *)

From Stdlib Require Import Btauto.
From S2P Require Import Prelude MemoryManager.

Module FreeList.

Record Block := mkBlock {
  b_size : Z;     (* payload bytes *)
  b_free : bool;
  b_prev : Z;     (* address, 0 = NULL *)
  b_next : Z;
}.

Definition ALIGNMENT : Z := 8.
Definition HEADER_SIZE : Z := 32.

(** The two statics and the memory the headers live in. *)
Record state := mkState {
  heap : gmap Z Block;
  baseBlock : Z;
  totalBytes : Z;
}.

Definition set_size (b : Block) (v : Z) : Block := mkBlock v (b_free b) (b_prev b) (b_next b).
Definition set_free (b : Block) (v : bool) : Block := mkBlock (b_size b) v (b_prev b) (b_next b).
Definition set_prev (b : Block) (v : Z) : Block := mkBlock (b_size b) (b_free b) v (b_next b).
Definition set_next (b : Block) (v : Z) : Block := mkBlock (b_size b) (b_free b) (b_prev b) v.

(** A store through a pointer: [None] when no header is at [p]. *)
Definition upd (h : gmap Z Block) (p : Z) (f : Block → Block) : option (gmap Z Block) :=
  b ← h !! p; Some (<[p := f b]> h).

Definition alignUp (n : Z) : Z :=
  Z.land (u64 (n + (ALIGNMENT - 1))) (u64 (Z.lnot (ALIGNMENT - 1))).

Definition mem_init (st : state) (start size : Z) : state :=
  mkState (<[start := mkBlock (u64 (size - HEADER_SIZE)) true 0 0]> (heap st)) start size.

(** The body of the loop once a block fits: split when the remainder holds a header and
    an aligned payload, then mark the block as taken. *)
Definition take_block (h : gmap Z Block) (b : Z) (blk : Block) (size : Z)
  : option (Z * gmap Z Block) :=
  h1 ← (if u64 (u64 (size + HEADER_SIZE) + ALIGNMENT) <=? b_size blk then
          let split := u64 (b + HEADER_SIZE + size) in
          let h1 := <[split := mkBlock (u64 (b_size blk - size - HEADER_SIZE)) true b (b_next blk)]> h in
          h2 ← (if b_next blk =? 0 then Some h1 else upd h1 (b_next blk) (λ x, set_prev x split));
          h3 ← upd h2 b (λ x, set_next x split);
          upd h3 b (λ x, set_size x size)
        else Some h);
  h4 ← upd h1 b (λ x, set_free x false);
  Some (u64 (b + HEADER_SIZE), h4).

Fixpoint alloc_walk (fuel : nat) (h : gmap Z Block) (b size : Z) : option (Z * gmap Z Block) :=
  match fuel with
  | O => None
  | S fuel =>
    if b =? 0 then Some (0, h)
    else
      blk ← h !! b;
      if negb (b_free blk) || (b_size blk <? size) then alloc_walk fuel h (b_next blk) size
      else take_block h b blk size
  end.

(** The walk visits each header once: one more step than headers is enough. *)
Definition walk_fuel (st : state) : nat := S (base.size (heap st)).

Definition mem_alloc (size : Z) (st : state) : option (Z * state) :=
  if (size =? 0) || (baseBlock st =? 0) then Some (0, st)
  else
    '(p, h) ← alloc_walk (walk_fuel st) (heap st) (baseBlock st) (alignUp size);
    Some (p, mkState h (baseBlock st) (totalBytes st)).

Definition merge_next (h : gmap Z Block) (b : Z) : option (gmap Z Block) :=
  blk ← h !! b;
  if b_next blk =? 0 then Some h
  else
    nb ← h !! b_next blk;
    if b_free nb then
      h1 ← upd h b (λ x, set_size x (u64 (b_size x + HEADER_SIZE + b_size nb)));
      h2 ← upd h1 b (λ x, set_next x (b_next nb));
      if b_next nb =? 0 then Some h2 else upd h2 (b_next nb) (λ x, set_prev x b)
    else Some h.

Definition merge_prev (h : gmap Z Block) (b : Z) : option (gmap Z Block) :=
  blk ← h !! b;
  if b_prev blk =? 0 then Some h
  else
    pb ← h !! b_prev blk;
    if b_free pb then
      h1 ← upd h (b_prev blk) (λ x, set_size x (u64 (b_size x + HEADER_SIZE + b_size blk)));
      h2 ← upd h1 (b_prev blk) (λ x, set_next x (b_next blk));
      if b_next blk =? 0 then Some h2 else upd h2 (b_next blk) (λ x, set_prev x (b_prev blk))
    else Some h.

Definition mem_free (ptr : Z) (st : state) : option state :=
  if ptr =? 0 then Some st
  else
    let b := u64 (ptr - HEADER_SIZE) in
    h0 ← upd (heap st) b (λ x, set_free x true);
    h1 ← merge_next h0 b;
    h2 ← merge_prev h1 b;
    Some (mkState h2 (baseBlock st) (totalBytes st)).

Record MemoryInfo := mkInfo { i_total : Z; i_occupied : Z; i_free : Z; i_fragments : Z }.

Fixpoint status_walk (fuel : nat) (h : gmap Z Block) (b fr frags : Z) : option (Z * Z) :=
  match fuel with
  | O => None
  | S fuel =>
    if b =? 0 then Some (fr, frags)
    else
      blk ← h !! b;
      if b_free blk then status_walk fuel h (b_next blk) (u64 (fr + b_size blk)) (u64 (frags + 1))
      else status_walk fuel h (b_next blk) fr frags
  end.

Definition mem_status (st : state) : option MemoryInfo :=
  '(fr, frags) ← status_walk (walk_fuel st) (heap st) (baseBlock st) 0 0;
  Some (mkInfo (totalBytes st) (u64 (totalBytes st - fr)) fr frags).

(** ** Abstract heap: the blocks in physical order *)

Definition seg : Type := Z * bool.

Fixpoint span (l : list seg) : Z :=
  match l with [] => 0 | (sz, _) :: l' => HEADER_SIZE + sz + span l' end.

(** First fit with splitting, on the abstract heap whose first header is at [p]. *)
Fixpoint aalloc (p : Z) (l : list seg) (n : Z) : option (Z * list seg) :=
  match l with
  | [] => None
  | (sz, fr) :: l' =>
    if fr && (n <=? sz) then
      if n + HEADER_SIZE + ALIGNMENT <=? sz
      then Some (p + HEADER_SIZE, (n, false) :: (sz - n - HEADER_SIZE, true) :: l')
      else Some (p + HEADER_SIZE, (sz, false) :: l')
    else
      match aalloc (p + HEADER_SIZE + sz) l' n with
      | Some (q, l'') => Some (q, (sz, fr) :: l'')
      | None => None
      end
  end.

(** Put a block in front of a list, merging it with the first one when both are free. *)
Definition join (s : seg) (l : list seg) : list seg :=
  match s, l with
  | (sz, true), (sz', true) :: l' => (sz + HEADER_SIZE + sz', true) :: l'
  | _, _ => s :: l
  end.

Fixpoint afree (p : Z) (l : list seg) (ptr : Z) : list seg :=
  match l with
  | [] => []
  | (sz, fr) :: l' =>
    if p + HEADER_SIZE =? ptr then join (sz, true) l'
    else join (sz, fr) (afree (p + HEADER_SIZE + sz) l' ptr)
  end.

(** The payloads in use. *)
Fixpoint alive (p : Z) (l : list seg) : gmap Z Z :=
  match l with
  | [] => ∅
  | (sz, fr) :: l' =>
    let rest := alive (p + HEADER_SIZE + sz) l' in
    if fr then rest else <[p + HEADER_SIZE := sz]> rest
  end.

Fixpoint no_adjacent_free (l : list seg) : Prop :=
  match l with
  | (_, true) :: ((_, true) :: _) => False
  | _ :: l' => no_adjacent_free l'
  | [] => True
  end.

(** [chain h pv p l nx]: from address [p] the memory holds exactly the blocks [l], back to
    back and linked both ways; the first one's [prev] is [pv], the last one's [next] [nx]. *)
Fixpoint chain (h : gmap Z Block) (pv p : Z) (l : list seg) (nx : Z) : Prop :=
  match l with
  | [] => True
  | (sz, fr) :: l' =>
    h !! p = Some (mkBlock sz fr pv (match l' with [] => nx | _ => p + HEADER_SIZE + sz end)) ∧
    chain h p (p + HEADER_SIZE + sz) l' nx
  end.

Definition seg_ok (s : seg) : Prop := 0 < s.1 ∧ s.1 mod ALIGNMENT = 0.

(** The heap invariant: the blocks tile the managed range exactly, sizes are positive
    multiples of the alignment, the links agree, and free blocks are maximal. *)
Record wf (st : state) (l : list seg) : Prop := {
  wf_base : 0 < baseBlock st;
  wf_base_al : baseBlock st mod ALIGNMENT = 0;
  wf_end : baseBlock st + totalBytes st < 2 ^ 64;
  wf_span : span l = totalBytes st;
  wf_nonempty : l ≠ [];
  wf_segs : Forall seg_ok l;
  wf_chain : chain (heap st) 0 (baseBlock st) l 0;
  wf_coalesced : no_adjacent_free l;
}.

(** ** The representation predicate *)

Lemma upd_Some h p b f : h !! p = Some b → upd h p f = Some (<[p := f b]> h).
Proof. intros H. unfold upd. by rewrite H. Qed.

Lemma span_app l1 l2 : span (l1 ++ l2) = span l1 + span l2.
Proof. induction l1 as [|[sz fr] l1 IH]; simpl; lia. Qed.

Lemma span_nonneg l : Forall seg_ok l → 0 ≤ span l.
Proof.
  induction 1 as [|[sz fr] l [H1 H2] _ IH]; simpl in *; [lia|].
  unfold HEADER_SIZE. lia.
Qed.

(** Address of the last header of [l], or [pv] when there is none. *)
Fixpoint last_addr (pv p : Z) (l : list seg) : Z :=
  match l with [] => pv | (sz, _) :: l' => last_addr p (p + HEADER_SIZE + sz) l' end.

Lemma chain_app h pv p l1 l2 nx :
  l2 ≠ [] →
  chain h pv p (l1 ++ l2) nx ↔
  chain h pv p l1 (p + span l1) ∧ chain h (last_addr pv p l1) (p + span l1) l2 nx.
Proof.
  intros Hne. revert pv p. induction l1 as [|[sz fr] l1 IH]; intros pv p; simpl.
  { replace (p + 0) with p by lia. tauto. }
  rewrite IH. replace (p + (HEADER_SIZE + sz + span l1)) with (p + HEADER_SIZE + sz + span l1) by lia.
  destruct l1 as [|s l1']; simpl.
  - destruct l2 as [|s2 l2]; [done|]. replace (p + HEADER_SIZE + sz + 0) with (p + HEADER_SIZE + sz) by lia. tauto.
  - tauto.
Qed.

(** A chain only depends on the memory between its ends. *)
Lemma chain_frame h h' pv p l nx :
  Forall seg_ok l →
  (∀ a, p ≤ a < p + span l → h' !! a = h !! a) →
  chain h pv p l nx → chain h' pv p l nx.
Proof.
  intros Hok. revert pv p. induction Hok as [|[sz fr] l [H1 H2] Hok IH]; intros pv p Hfr; simpl; [done|].
  simpl in *. pose proof (span_nonneg l Hok). unfold HEADER_SIZE in *.
  intros [Hl Hc]. split; [rewrite Hfr by lia; done|].
  apply IH; [|done]. intros a Ha. apply Hfr. lia.
Qed.

Lemma chain_insert_out h a b pv p l nx :
  Forall seg_ok l → a < p ∨ p + span l ≤ a →
  chain h pv p l nx → chain (<[a := b]> h) pv p l nx.
Proof.
  intros Hok Ha. apply chain_frame; [done|]. intros a' Ha'. apply lookup_insert_ne. lia.
Qed.

(** Relinking the first block of a chain to another predecessor. *)
Lemma chain_relink h pv pv' p l nx b :
  Forall seg_ok l → l ≠ [] → chain h pv p l nx → h !! p = Some b →
  chain (<[p := set_prev b pv']> h) pv' p l nx.
Proof.
  destruct l as [|[sz fr] l]; intros Hok Hne Hc Hb; [done|].
  simpl in *. destruct Hc as [Hl Hc]. rewrite Hb in Hl. injection Hl as ->.
  apply Forall_cons_1 in Hok as [[H1 H2] Hok]; simpl in *. unfold HEADER_SIZE in *.
  split; [by rewrite lookup_insert_eq|].
  apply chain_insert_out; [done|lia|done].
Qed.

Lemma chain_addrs h pv p l nx :
  Forall seg_ok l → chain h pv p l nx → (length l ≤ base.size h)%nat.
Proof.
  revert h pv p. induction l as [|[sz fr] l IH]; intros h pv p Hok Hc; simpl; [lia|].
  apply Forall_cons_1 in Hok as [[H1 H2] Hok]; simpl in *. destruct Hc as [Hl Hc].
  assert (Hd : chain (delete p h) p (p + HEADER_SIZE + sz) l nx).
  { eapply chain_frame; [done| |exact Hc]. intros a Ha. apply lookup_delete_ne.
    unfold HEADER_SIZE in *. lia. }
  specialize (IH _ _ _ Hok Hd). rewrite map_size_delete_Some in IH by eauto.
  assert (0 < base.size h)%nat; [|lia].
  destruct (base.size h) eqn:E; [|lia]. apply map_size_empty_inv in E. by subst h.
Qed.

Lemma wf_fuel st l : wf st l → (length l < walk_fuel st)%nat.
Proof. intros []. unfold walk_fuel. apply chain_addrs in wf_chain0; [lia|done]. Qed.

(** ** Allocation *)

Lemma alignUp_eq n : 0 ≤ n < 2 ^ 64 - 7 → alignUp n = 8 * ((n + 7) / 8).
Proof.
  intros Hn. unfold alignUp, u64, ALIGNMENT.
  replace (n + (8 - 1)) with (n + 7) by lia.
  rewrite (wrap_small 64 (n + 7)) by lia.
  change (wrap 64 (Z.lnot (8 - 1))) with (Z.ldiff (Z.ones 64) (Z.ones 3)).
  assert (E : Z.land (n + 7) (Z.ldiff (Z.ones 64) (Z.ones 3)) = Z.ldiff (n + 7) (Z.ones 3)).
  { rewrite <- (Z.mod_small (n + 7) (2 ^ 64)) at 2 by lia.
    rewrite <- Z.land_ones by lia. apply Z.bits_inj'. intros i _.
    rewrite ?Z.land_spec, ?Z.ldiff_spec, ?Z.land_spec. btauto. }
  rewrite E, Z.ldiff_ones_r by lia.
  rewrite Z.shiftl_mul_pow2, Z.shiftr_div_pow2 by lia. change (2 ^ 3) with 8. lia.
Qed.

Lemma alignUp_bounds n :
  0 < n < 2 ^ 64 - 7 → n ≤ alignUp n < n + 8 ∧ alignUp n mod ALIGNMENT = 0.
Proof.
  intros Hn. rewrite alignUp_eq by lia. unfold ALIGNMENT.
  pose proof (Z.div_mod (n + 7) 8 ltac:(lia)) as E.
  pose proof (Z.mod_pos_bound (n + 7) 8 ltac:(lia)).
  split; [lia|]. rewrite Z.mul_comm. by apply Z.mod_mul.
Qed.

(** What a fitting block of [sz] bytes followed by [l] becomes. *)
Definition taken (n sz : Z) (l : list seg) : list seg :=
  if n + HEADER_SIZE + ALIGNMENT <=? sz
  then (n, false) :: (sz - n - HEADER_SIZE, true) :: l else (sz, false) :: l.

Lemma take_block_split h pv p sz l n :
  Forall seg_ok ((sz, true) :: l) → 0 < p → p + span ((sz, true) :: l) < 2 ^ 64 →
  0 < n → n + HEADER_SIZE + ALIGNMENT ≤ sz →
  chain h pv p ((sz, true) :: l) 0 →
  ∃ h', take_block h p (mkBlock sz true pv (match l with [] => 0 | _ => p + HEADER_SIZE + sz end)) n
        = Some (p + HEADER_SIZE, h') ∧
    chain h' pv p ((n, false) :: (sz - n - HEADER_SIZE, true) :: l) 0 ∧
    (∀ a, a < p → h' !! a = h !! a).
Proof.
  intros Hok Hp Hend Hn Hfit Hc.
  apply Forall_cons_1 in Hok as [[H1 H2] Hok]; simpl in *. destruct Hc as [Hl Hc].
  pose proof (span_nonneg _ Hok). unfold take_block. simpl.
  unfold HEADER_SIZE, ALIGNMENT, u64 in *.
  unwrap.
  destruct (Z.leb_spec (n + 32 + 8) sz); [|lia]. simpl.
  assert (Hsplit : p + 32 + n ≠ p) by lia.
  set (sp := mkBlock (sz - n - 32) true p (match l with [] => 0 | _ => p + 32 + sz end)).
  set (h1 := <[p + 32 + n := sp]> h).
  destruct l as [|s2 l2]; simpl.
  - erewrite upd_Some by (unfold h1; rewrite lookup_insert_ne by lia; exact Hl). simpl.
    erewrite upd_Some by apply lookup_insert_eq. simpl.
    erewrite upd_Some by apply lookup_insert_eq. simpl.
    eexists. split; [reflexivity|]. split.
    + split; [by rewrite !insert_insert_eq, lookup_insert_eq|]. split; [|done].
      rewrite !lookup_insert_ne by lia. unfold h1. rewrite lookup_insert_eq. done.
    + intros a Ha. unfold h1. by rewrite !lookup_insert_ne by lia.
  - destruct (Z.eqb_spec (p + 32 + sz) 0); [lia|].
    destruct s2 as [sz2 fr2]. pose proof Hc as [Hl2 _].
    erewrite upd_Some by (unfold h1; rewrite lookup_insert_ne by lia; exact Hl2). simpl.
    erewrite upd_Some by (unfold h1; rewrite !lookup_insert_ne by lia; exact Hl). simpl.
    erewrite upd_Some by apply lookup_insert_eq. simpl.
    erewrite upd_Some by apply lookup_insert_eq. simpl.
    eexists. split; [reflexivity|]. split.
    + split; [by rewrite !insert_insert_eq, lookup_insert_eq|].
      rewrite !insert_insert_eq. split.
      * rewrite !lookup_insert_ne by lia. unfold h1. rewrite lookup_insert_eq.
        unfold sp. by replace (p + 32 + n + 32 + (sz - n - 32)) with (p + 32 + sz) by lia.
      * replace (p + 32 + n + 32 + (sz - n - 32)) with (p + 32 + sz) by lia.
        change (chain (<[p := mkBlock n false pv (p + 32 + n)]>
          (<[p + 32 + sz := set_prev (mkBlock sz2 fr2 p
               (match l2 with [] => 0 | _ => p + 32 + sz + 32 + sz2 end)) (p + 32 + n)]> h1))
          (p + 32 + n) (p + 32 + sz) ((sz2, fr2) :: l2) 0).
        apply chain_insert_out; [done|lia|].
        eapply chain_relink; [done|done| |].
        -- apply chain_insert_out; [done|lia|exact Hc].
        -- unfold h1. rewrite lookup_insert_ne by lia. exact Hl2.
    + intros a Ha. unfold h1. by rewrite !lookup_insert_ne by lia.
Qed.

Lemma take_block_spec h pv p sz l n :
  Forall seg_ok ((sz, true) :: l) → 0 < p → p + span ((sz, true) :: l) < 2 ^ 64 →
  0 < n → n ≤ sz → n + HEADER_SIZE + ALIGNMENT < 2 ^ 64 →
  chain h pv p ((sz, true) :: l) 0 →
  ∃ h', take_block h p (mkBlock sz true pv (match l with [] => 0 | _ => p + HEADER_SIZE + sz end)) n
        = Some (p + HEADER_SIZE, h') ∧
    chain h' pv p (taken n sz l) 0 ∧ (∀ a, a < p → h' !! a = h !! a).
Proof.
  intros Hok Hp Hend Hn Hfit Hov Hc. unfold taken.
  destruct (Z.leb_spec (n + HEADER_SIZE + ALIGNMENT) sz); [by apply take_block_split|].
  pose proof Hok as [[H1 H2] Hok']%Forall_cons_1; simpl in *. destruct Hc as [Hl Hc].
  pose proof (span_nonneg _ Hok'). unfold take_block. simpl.
  unfold HEADER_SIZE, ALIGNMENT, u64 in *.
  unwrap.
  destruct (Z.leb_spec (n + 32 + 8) sz); [lia|]. simpl.
  erewrite upd_Some by exact Hl. simpl.
  eexists. split; [reflexivity|]. split.
  - split; [by rewrite lookup_insert_eq|]. apply chain_insert_out; [done|lia|done].
  - intros a Ha. by rewrite lookup_insert_ne by lia.
Qed.

Definition head_addr (p : Z) (l : list seg) : Z := match l with [] => 0 | _ => p end.

(** The loop of [mem_alloc] computes the abstract first fit. *)
Lemma alloc_walk_spec l : ∀ fuel h pv p n,
  Forall seg_ok l → 0 < p → p + span l < 2 ^ 64 → (length l < fuel)%nat →
  0 < n → n + HEADER_SIZE + ALIGNMENT < 2 ^ 64 → chain h pv p l 0 →
  match aalloc p l n with
  | None => alloc_walk fuel h (head_addr p l) n = Some (0, h)
  | Some (q, l') => ∃ h', alloc_walk fuel h (head_addr p l) n = Some (q, h') ∧
      chain h' pv p l' 0 ∧ (∀ a, a < p → h' !! a = h !! a)
  end.
Proof.
  induction l as [|[sz fr] l IH]; intros fuel h pv p n Hok Hp Hend Hf Hn Hov Hc; simpl in Hf.
  { destruct fuel; [lia|]. done. }
  destruct fuel as [|fuel]; [lia|]. pose proof Hok as [[H1 H2] Hok']%Forall_cons_1.
  pose proof (span_nonneg _ Hok'). simpl in H1, H2.
  pose proof Hc as [Hl Hc']. cbn [span] in Hend. cbn [aalloc alloc_walk head_addr].
  destruct (Z.eqb_spec p 0); [lia|]. rewrite Hl. cbn [mbind option_bind b_free b_size b_next].
  rewrite bool_neg_ltb, <- negb_andb. destruct (fr && (n <=? sz)) eqn:E; cbn [negb].
  - apply andb_true_iff in E as [-> Hle]. apply Z.leb_le in Hle.
    destruct (take_block_spec h pv p sz l n) as (h' & Ht & Hch & Hfr); try done.
    unfold taken in Hch. destruct (_ <=? sz); by exists h'.
  - specialize (IH fuel h p (p + HEADER_SIZE + sz) n Hok' ltac:(unfold HEADER_SIZE in *; lia)
      ltac:(lia) ltac:(lia) Hn Hov Hc').
    assert (Hh : match l with [] => 0 | _ => p + HEADER_SIZE + sz end
                 = head_addr (p + HEADER_SIZE + sz) l) by (by destruct l).
    rewrite Hh. destruct (aalloc (p + HEADER_SIZE + sz) l n) as [[q l']|] eqn:Ea.
    + destruct IH as (h' & Hw & Hch & Hfr). exists h'. split; [done|]. split.
      * assert (Hne : l' ≠ []).
        { destruct l as [|[? ?] ?]; simpl in Ea; [done|].
          repeat case_match; by simplify_eq. }
        split; [|done]. rewrite Hfr by (unfold HEADER_SIZE in *; lia). rewrite Hl.
        destruct l; [done|]. by destruct l'.
      * intros a Ha. apply Hfr. unfold HEADER_SIZE in *. lia.
    + done.
Qed.

(** ** Release *)

Lemma chain_replace h h' pv p l1 l2 l2' :
  Forall seg_ok l1 → l2 ≠ [] → l2' ≠ [] →
  chain h pv p (l1 ++ l2) 0 →
  chain h' (last_addr pv p l1) (p + span l1) l2' 0 →
  (∀ a, a < p + span l1 → h' !! a = h !! a) →
  chain h' pv p (l1 ++ l2') 0.
Proof.
  intros Hok Hne Hne' Hc Hc' Hfr. apply chain_app; [done|].
  apply chain_app in Hc as [Hc1 _]; [|done]. split; [|done].
  eapply chain_frame; [done| |exact Hc1]. intros a Ha. apply Hfr. lia.
Qed.

Lemma join_nonempty s l : join s l ≠ [].
Proof. destruct s as [sz []]; [|done]. by destruct l as [|[? []] ?]. Qed.

Lemma span_join s l : span (join s l) = span (s :: l).
Proof.
  destruct s as [sz []]; [|done]. destruct l as [|[? []] ?]; simpl; try done.
  unfold HEADER_SIZE. lia.
Qed.

(** Two adjacent blocks, the second one free, fused at address [b]. *)
Lemma fuse_chain h pv b s fr sn r n :
  Forall seg_ok ((s, fr) :: (sn, true) :: r) → 0 < b →
  chain h pv b ((s, fr) :: (sn, true) :: r) 0 →
  n = s + HEADER_SIZE + sn →
  let nx := match r with [] => 0 | _ => b + HEADER_SIZE + n end in
  ∃ h', (h1 ← Some (<[b := mkBlock n fr pv nx]> h);
         if nx =? 0 then Some h1 else upd h1 nx (λ x, set_prev x b)) = Some h' ∧
    chain h' pv b ((n, fr) :: r) 0 ∧ (∀ a, a < b → h' !! a = h !! a).
Proof.
  intros Hok Hb Hc -> nx.
  apply Forall_cons_1 in Hok as [[H1 H2] Hok]; apply Forall_cons_1 in Hok as [[H3 H4] Hok].
  simpl in *. destruct Hc as (Hl & Hl2 & Hc). unfold HEADER_SIZE in *.
  replace (b + 32 + s + 32 + sn) with (b + 32 + (s + 32 + sn)) in * by lia.
  destruct r as [|[sz2 fr2] r]; subst nx; simpl.
  - eexists. split; [done|]. split; [by rewrite lookup_insert_eq|].
    intros a Ha. by rewrite lookup_insert_ne by lia.
  - destruct (Z.eqb_spec (b + 32 + (s + 32 + sn)) 0); [lia|].
    pose proof Hc as [Hl3 _].
    erewrite upd_Some by (rewrite lookup_insert_ne by lia; exact Hl3).
    eexists. split; [done|]. rewrite insert_insert_ne by lia.
    split; [split; [by rewrite lookup_insert_eq|]|].
    + apply (chain_insert_out _ b _ b (b + 32 + (s + 32 + sn)) ((sz2, fr2) :: r)); [done|lia|].
      eapply (chain_relink _ _ b _ ((sz2, fr2) :: r)); done.
    + intros a Ha. by rewrite !lookup_insert_ne by lia.
Qed.

Lemma merge_next_spec h pv b s l :
  Forall seg_ok ((s, true) :: l) → 0 < b → b + span ((s, true) :: l) < 2 ^ 64 →
  chain h pv b ((s, true) :: l) 0 →
  ∃ h', merge_next h b = Some h' ∧ chain h' pv b (join (s, true) l) 0 ∧
    (∀ a, a < b → h' !! a = h !! a).
Proof.
  intros Hok Hb Hend Hc. pose proof Hc as [Hl Hc']. unfold merge_next. rewrite Hl. simpl.
  destruct l as [|[sn []] r]; simpl; [by exists h| |].
  - pose proof Hc' as [Hl2 _].
    pose proof Hok as [[Hs _] [[Hs2 _] Hokr]%Forall_cons_1]%Forall_cons_1. simpl in *.
    pose proof (span_nonneg _ Hokr). unfold HEADER_SIZE, u64 in *.
    destruct (Z.eqb_spec (b + 32 + s) 0); [lia|]. rewrite Hl2. simpl.
    erewrite upd_Some by exact Hl. simpl. unwrap.
    erewrite upd_Some by apply lookup_insert_eq. simpl. rewrite insert_insert_eq.
    edestruct (fuse_chain h pv b s true sn r) as (h' & Hu & Hrest); [done..|].
    exists h'. split; [|exact Hrest]. rewrite <- Hu. simpl. unfold HEADER_SIZE, set_next, set_size. simpl.
    by replace (b + 32 + s + 32 + sn) with (b + 32 + (s + 32 + sn)) by lia.
  - pose proof Hc' as [Hl2 _]. pose proof Hok as [[Hs _] _]%Forall_cons_1. simpl in *.
    unfold HEADER_SIZE in *. destruct (Z.eqb_spec (b + 32 + s) 0); [lia|]. rewrite Hl2. simpl.
    by exists h.
Qed.

Lemma merge_prev_spec h pv b0 s0 f0 s l :
  Forall seg_ok ((s0, f0) :: (s, true) :: l) → 0 < b0 →
  b0 + span ((s0, f0) :: (s, true) :: l) < 2 ^ 64 →
  chain h pv b0 ((s0, f0) :: (s, true) :: l) 0 →
  ∃ h', merge_prev h (b0 + HEADER_SIZE + s0) = Some h' ∧
    chain h' pv b0 (join (s0, f0) ((s, true) :: l)) 0 ∧
    (∀ a, a < b0 → h' !! a = h !! a).
Proof.
  intros Hok Hb Hend Hc. pose proof Hc as (Hl & Hl2 & _).
  pose proof Hok as [[Hs0 _] [[Hs _] Hokr]%Forall_cons_1]%Forall_cons_1. simpl in Hs, Hs0, Hend.
  pose proof (span_nonneg _ Hokr).
  unfold merge_prev. rewrite Hl2. simpl. destruct (Z.eqb_spec b0 0); [lia|]. rewrite Hl. simpl.
  destruct f0; [|by exists h].
  erewrite upd_Some by exact Hl. simpl. unfold HEADER_SIZE, u64 in *. unwrap.
  erewrite upd_Some by apply lookup_insert_eq. simpl. rewrite insert_insert_eq.
  edestruct (fuse_chain h pv b0 s0 true s l) as (h' & Hu & Hrest); [done..|].
  exists h'. split; [|exact Hrest]. rewrite <- Hu. simpl. unfold HEADER_SIZE, set_next, set_size. simpl.
  by replace (b0 + 32 + s0 + 32 + s) with (b0 + 32 + (s0 + 32 + s)) by lia.
Qed.

(** ** The abstract operations keep the abstract heap well formed *)

Lemma naf_cons x l :
  no_adjacent_free (x :: l) ↔
  ¬ (x.2 = true ∧ match l with (_, true) :: _ => True | _ => False end) ∧ no_adjacent_free l.
Proof. destruct x as [s []], l as [|[s' []] l]; simpl; intuition congruence. Qed.

Lemma naf_tail l1 l2 : no_adjacent_free (l1 ++ l2) → no_adjacent_free l2.
Proof. induction l1 as [|x l1 IH]; simpl app; [done|]. intros [_ H]%naf_cons. auto. Qed.

Lemma naf_join x l : no_adjacent_free l → no_adjacent_free (join x l).
Proof.
  by destruct x as [s []], l as [|[s' []] l].
Qed.

Lemma naf_replace l1 x l y l' :
  no_adjacent_free (l1 ++ x :: l) → no_adjacent_free (y :: l') → x.2 = y.2 →
  no_adjacent_free (l1 ++ y :: l').
Proof.
  intros Hx Hy E. induction l1 as [|z l1 IH]; [done|]. simpl app in *.
  apply naf_cons in Hx as [Hn Hx]. apply naf_cons. split; [|auto].
  destruct l1 as [|? ?]; [|done]. destruct x as [? fx], y as [? fy]. simpl in *. by subst fy.
Qed.

Lemma foldr_join_id l1 l2 : no_adjacent_free (l1 ++ l2) → foldr join l2 l1 = l1 ++ l2.
Proof.
  induction l1 as [|x l1 IH]; [done|]. simpl app. intros [Hn H]%naf_cons.
  simpl. rewrite (IH H). destruct x as [s []]; [|done]. destruct (l1 ++ l2) as [|[? []] ?]; [done| |done].
  exfalso. apply Hn. done.
Qed.

Lemma seg_ok_join x l : seg_ok x → Forall seg_ok l → Forall seg_ok (join x l).
Proof.
  intros Hx Hl. destruct x as [s []]; [|by constructor].
  destruct l as [|[s' []] l]; [by apply Forall_cons| |by apply Forall_cons].
  apply Forall_cons_1 in Hl as [[H1 H2] Hl]. destruct Hx as [H3 H4]. constructor; [|done].
  unfold seg_ok, HEADER_SIZE, ALIGNMENT in *; simpl in *. split; [lia|divlia].
Qed.

Lemma foldr_join_props l1 l2 :
  Forall seg_ok l1 → Forall seg_ok l2 → no_adjacent_free l2 →
  Forall seg_ok (foldr join l2 l1) ∧ no_adjacent_free (foldr join l2 l1) ∧
  span (foldr join l2 l1) = span (l1 ++ l2).
Proof.
  intros H1 H2 H3. induction H1 as [|x l1 Hx H1 (IH1 & IH2 & IH3)]; simpl; [done|].
  split_and!; [by apply seg_ok_join|by apply naf_join|].
  rewrite span_join. destruct x as [sx fx]. simpl. lia.
Qed.

Lemma afree_split p l1 s f l2 :
  Forall seg_ok l1 →
  afree p (l1 ++ (s, f) :: l2) (p + span l1 + HEADER_SIZE) = foldr join (join (s, true) l2) l1.
Proof.
  intros H. revert p. induction H as [|[sz fr] l1 [H1 H2] H IH]; intros p; simpl in *.
  - destruct (Z.eqb_spec (p + HEADER_SIZE) (p + 0 + HEADER_SIZE)); [done|lia].
  - pose proof (span_nonneg _ H). unfold HEADER_SIZE in *.
    destruct (Z.eqb_spec (p + 32) (p + (32 + sz + span l1) + 32)); [lia|].
    replace (p + (32 + sz + span l1) + 32) with (p + 32 + sz + span l1 + 32) by lia.
    by rewrite IH.
Qed.

Lemma alive_bounds p l q s :
  Forall seg_ok l → alive p l !! q = Some s →
  p + HEADER_SIZE ≤ q ∧ q + s ≤ p + span l ∧ 0 < s ∧ s mod ALIGNMENT = 0.
Proof.
  intros H. revert p. induction H as [|[sz fr] l [H1 H2] H IH]; intros p; simpl in *; [done|].
  pose proof (span_nonneg _ H). unfold HEADER_SIZE in *. destruct fr.
  - intros Hq. apply IH in Hq. lia.
  - intros [[<- <-]|[Hne Hq]]%lookup_insert_Some; [lia|]. apply IH in Hq. lia.
Qed.

Lemma alive_fresh p l q : Forall seg_ok l → q < p + HEADER_SIZE → alive p l !! q = None.
Proof.
  intros H Hq. destruct (alive p l !! q) eqn:E; [|done].
  apply alive_bounds in E; [|done]. lia.
Qed.

Lemma alive_join p x l : alive p (join x l) = alive p (x :: l).
Proof.
  destruct x as [s []]; [|done]. destruct l as [|[s' []] l]; simpl; try done.
  f_equal. unfold HEADER_SIZE. lia.
Qed.

Lemma alive_foldr_join l1 l2 : ∀ p, alive p (foldr join l2 l1) = alive p (l1 ++ l2).
Proof.
  induction l1 as [|[s f] l1 IH]; intros p; [done|].
  cbn [foldr app]. rewrite alive_join. cbn [alive].
  by rewrite IH.
Qed.

Lemma alive_split p l q s :
  alive p l !! q = Some s →
  ∃ l1 l2, l = l1 ++ (s, false) :: l2 ∧ q = p + span l1 + HEADER_SIZE.
Proof.
  revert p. induction l as [|[sz fr] l IH]; intros p; simpl; [done|].
  assert (Hrec : alive (p + HEADER_SIZE + sz) l !! q = Some s →
    ∃ l1 l2, (sz, fr) :: l = l1 ++ (s, false) :: l2 ∧ q = p + span l1 + HEADER_SIZE).
  { intros (l1 & l2 & -> & ->)%IH. exists ((sz, fr) :: l1), l2. split; [done|]. simpl. lia. }
  destruct fr; [done|]. intros [[<- <-]|[_ Hq]]%lookup_insert_Some; [|auto].
  exists [], l. split; [done|]. simpl. lia.
Qed.

Lemma alive_release l1 l2 s : ∀ p,
  Forall seg_ok (l1 ++ (s, false) :: l2) →
  alive p (l1 ++ (s, true) :: l2)
  = delete (p + span l1 + HEADER_SIZE) (alive p (l1 ++ (s, false) :: l2)).
Proof.
  induction l1 as [|[sz fr] l1 IH]; intros p Hok; simpl in *; apply Forall_cons_1 in Hok as [[H1 H2] Hok].
  - simpl in *. replace (p + 0 + HEADER_SIZE) with (p + HEADER_SIZE) by lia.
    rewrite delete_insert_id; [done|]. apply alive_fresh; [done|]. unfold HEADER_SIZE. lia.
  - rewrite IH by done. simpl in *. pose proof Hok as Hok1. apply Forall_app in Hok1 as [Hok1 _].
    pose proof (span_nonneg _ Hok1). unfold HEADER_SIZE in *.
    replace (p + 32 + sz + span l1 + 32) with (p + (32 + sz + span l1) + 32) by lia.
    destruct fr; [done|]. by rewrite delete_insert_ne by lia.
Qed.

Lemma aalloc_inv l : ∀ p n q l',
  Forall seg_ok l → no_adjacent_free l → 0 < n → n mod ALIGNMENT = 0 →
  aalloc p l n = Some (q, l') →
  Forall seg_ok l' ∧ no_adjacent_free l' ∧ span l' = span l ∧
  (match l' with (_, true) :: _ => True | _ => False end →
   match l with (_, true) :: _ => True | _ => False end) ∧
  alive p l !! q = None ∧ p + HEADER_SIZE ≤ q ∧ (q - p) mod ALIGNMENT = 0 ∧
  ∃ s, n ≤ s ∧ alive p l' = <[q := s]> (alive p l).
Proof.
  induction l as [|[sz fr] l IH]; intros p n q l' Hok Hn Hpos Hal Ha; [done|].
  apply Forall_cons_1 in Hok as [[H1 H2] Hok]; simpl in H1, H2. apply naf_cons in Hn as [Hh Hn].
  cbn [aalloc] in Ha. destruct (fr && (n <=? sz)) eqn:E.
  - apply andb_true_iff in E as [-> Hle%Z.leb_le].
    assert (Hf : alive (p + HEADER_SIZE + sz) l !! (p + HEADER_SIZE) = None)
      by (apply alive_fresh; [done|unfold HEADER_SIZE; lia]).
    unfold seg_ok, ALIGNMENT, HEADER_SIZE in *.
    destruct (Z.leb_spec (n + 32 + 8) sz); simplify_eq; simpl.
    + assert ((sz - n - 32) mod 8 = 0) by divlia. assert ((p + 32 - p) mod 8 = 0) by divlia.
      split_and!; try done; try (unfold HEADER_SIZE; lia).
      * repeat (apply Forall_cons; [simpl; split; lia|]). done.
      * destruct l as [|[? []] ?]; [done| |done]. exfalso. by apply Hh.
      * exists n. split; [lia|]. f_equal. f_equal. unfold HEADER_SIZE. lia.
    + assert ((p + 32 - p) mod 8 = 0) by divlia. split_and!; try done; try (unfold HEADER_SIZE; lia).
      * repeat (apply Forall_cons; [simpl; split; lia|]). done.
      * exists sz. done.
  - destruct (aalloc (p + HEADER_SIZE + sz) l n) as [[q0 l0]|] eqn:Ea; [|done].
    simplify_eq. apply IH in Ea as (G1 & G2 & G3 & G4 & G5 & G6 & G7 & s & Hs & G8); try done.
    pose proof (span_nonneg _ Hok). cbn [span].
    split_and!.
    + constructor; [done|done].
    + apply naf_cons. split; [|done]. intros [E1 E2]. apply Hh. split; [exact E1|exact (G4 E2)].
    + lia.
    + done.
    + simpl. destruct fr; [done|]. rewrite lookup_insert_ne by (unfold HEADER_SIZE in *; lia). done.
    + unfold HEADER_SIZE in *. lia.
    + unfold ALIGNMENT, HEADER_SIZE in *. divlia.
    + exists s. split; [done|]. simpl. rewrite G8. destruct fr; [done|].
      rewrite insert_insert_ne by (unfold HEADER_SIZE in *; lia). done.
Qed.

(** ** Refinement: the pointer code implements the abstract heap *)

(** The largest request whose rounding and split test do not wrap around. *)
Definition max_request : Z := 2 ^ 64 - 64.

Lemma mem_alloc_refines st l n :
  wf st l → 0 < n ≤ max_request →
  match aalloc (baseBlock st) l (alignUp n) with
  | None => mem_alloc n st = Some (0, st)
  | Some (q, l') => ∃ st', mem_alloc n st = Some (q, st') ∧ wf st' l' ∧
      baseBlock st' = baseBlock st ∧ totalBytes st' = totalBytes st
  end.
Proof.
  intros Hwf [Hn1 Hn2]. unfold max_request in *. pose proof (wf_fuel _ _ Hwf) as Hf.
  destruct (alignUp_bounds n) as [Hb Hal]; [lia|].
  pose proof Hwf as [B1 B2 B3 B4 B5 B6 B7 B8].
  pose proof (alloc_walk_spec l (walk_fuel st) (heap st) 0 (baseBlock st) (alignUp n) B6 B1
    ltac:(lia) Hf ltac:(lia) ltac:(unfold HEADER_SIZE, ALIGNMENT; lia) B7) as Hw.
  assert (Hh : head_addr (baseBlock st) l = baseBlock st) by (by destruct l).
  rewrite Hh in Hw. unfold mem_alloc.
  destruct (Z.eqb_spec n 0); [lia|]. destruct (Z.eqb_spec (baseBlock st) 0); [lia|]. cbn [orb].
  destruct (aalloc (baseBlock st) l (alignUp n)) as [[q l']|] eqn:Ea.
  - destruct Hw as (h' & Hw & Hch & _). rewrite Hw. simpl.
    eexists. split; [done|]. split; [|done].
    apply aalloc_inv in Ea as (G1 & G2 & G3 & _ & _ & _ & _ & s & _ & G8); try done; [|lia].
    split; simpl; try done; [lia|]. intros ->. simpl in *.
    pose proof (f_equal (.!! q) G8) as E. simpl in E. by rewrite lookup_empty, lookup_insert_eq in E.
  - rewrite Hw. simpl. by destruct st.
Qed.

Lemma wf_in_range st l1 s f l2 :
  wf st (l1 ++ (s, f) :: l2) →
  0 < baseBlock st + span l1 ∧ baseBlock st + span l1 + span ((s, f) :: l2) < 2 ^ 64 ∧
  Forall seg_ok l1 ∧ Forall seg_ok ((s, f) :: l2) ∧ 0 ≤ span l1 ∧ 0 < s ∧ 0 ≤ span l2.
Proof.
  intros [B1 B2 B3 B4 B5 B6 B7 B8]. apply Forall_app in B6 as [F1 F2].
  rewrite span_app in B4. pose proof (span_nonneg _ F1).
  pose proof F2 as [[Hs _] F3]%Forall_cons_1. pose proof (span_nonneg _ F3). simpl in Hs.
  split_and!; try done; lia.
Qed.

(** Freeing the block after [l1] and merging forward. *)
Lemma free_forward st l1 s l2 (b := baseBlock st + span l1) :
  wf st (l1 ++ (s, false) :: l2) →
  ∃ h0 h1, upd (heap st) b (λ x, set_free x true) = Some h0 ∧ merge_next h0 b = Some h1 ∧
    chain h1 0 (baseBlock st) (l1 ++ join (s, true) l2) 0.
Proof.
  intros Hwf. destruct (wf_in_range _ _ _ _ _ Hwf) as (R1 & R2 & F1 & F2 & R3 & R4 & R5).
  destruct Hwf as [B1 B2 B3 B4 B5 B6 B7 B8]. fold b in R1, R2. cbn [span] in R2.
  pose proof F2 as [Hs F3]%Forall_cons_1.
  pose proof B7 as B7'. apply chain_app in B7' as [_ [Hl Hc]]; [|done]. fold b in Hl, Hc.
  erewrite upd_Some by exact Hl. set (h0 := <[b := _]> (heap st)). exists h0.
  assert (Hc0 : chain h0 (last_addr 0 (baseBlock st) l1) b ((s, true) :: l2) 0).
  { split; [by unfold h0; rewrite lookup_insert_eq|].
    apply chain_insert_out; [done|unfold HEADER_SIZE; lia|done]. }
  destruct (merge_next_spec h0 (last_addr 0 (baseBlock st) l1) b s l2) as (h1 & Hm & Hc1 & Hf1);
    [by apply Forall_cons|lia|cbn [span]; lia|done|].
  exists h1. split; [done|]. split; [done|].
  eapply chain_replace; [done| |apply join_nonempty|exact B7|exact Hc1|]; [done|].
  intros a Ha. rewrite Hf1 by done. unfold h0. by rewrite lookup_insert_ne by (fold b in Ha; lia).
Qed.

(** Merging backward from the free block [(s, true)] that follows [l1]. *)
Lemma free_backward h p l1 s l2 :
  0 < p → p + span (l1 ++ (s, true) :: l2) < 2 ^ 64 →
  Forall seg_ok (l1 ++ (s, true) :: l2) →
  no_adjacent_free l1 → no_adjacent_free ((s, true) :: l2) →
  chain h 0 p (l1 ++ (s, true) :: l2) 0 →
  ∃ h', merge_prev h (p + span l1) = Some h' ∧ chain h' 0 p (foldr join ((s, true) :: l2) l1) 0.
Proof.
  intros Hp Hend Hok N1 N2 Hc. destruct l1 as [|[s0 f0] l1 _] using rev_ind.
  { exists h. split; [|done]. unfold merge_prev. destruct Hc as [Hl _].
    cbn [span]. rewrite Z.add_0_r, Hl. done. }
  rewrite foldr_app, span_app. cbn [foldr span]. rewrite <- app_assoc in *. cbn [app] in *.
  pose proof Hok as Hok'. apply Forall_app in Hok' as [F1 F2]. pose proof (span_nonneg _ F1).
  rewrite span_app in Hend.
  apply chain_app in Hc as Hc'; [|done]. destruct Hc' as [_ Hc'].
  destruct (merge_prev_spec h (last_addr 0 p l1) (p + span l1) s0 f0 s l2) as (h' & Hm & Hc2 & Hf);
    [done|lia|lia|done|].
  exists h'. replace (p + (span l1 + (HEADER_SIZE + s0 + 0))) with (p + span l1 + HEADER_SIZE + s0) by lia.
  split; [done|].
  rewrite foldr_join_id;
    [by eapply chain_replace; [done| |apply join_nonempty|exact Hc|exact Hc2|exact Hf]|].
  apply (naf_join (s0, f0)) in N2.
  destruct f0; simpl in N2 |- *; by eapply naf_replace; [exact N1|exact N2|].
Qed.

Lemma naf_prefix l1 l2 : no_adjacent_free (l1 ++ l2) → no_adjacent_free l1.
Proof.
  induction l1 as [|x l1 IH]; [done|]. cbn [app]. intros [Hn H]%naf_cons.
  apply naf_cons. split; [|auto]. intros [E1 E2]. apply Hn. split; [done|].
  by destruct l1 as [|[? []] ?].
Qed.

Lemma join_free s l : ∃ s' r, join (s, true) l = (s', true) :: r.
Proof. destruct l as [|[? []] ?]; simpl; eauto. Qed.

Lemma mem_free_refines st l ptr s :
  wf st l → alive (baseBlock st) l !! ptr = Some s →
  ∃ st', mem_free ptr st = Some st' ∧ wf st' (afree (baseBlock st) l ptr) ∧
    baseBlock st' = baseBlock st ∧ totalBytes st' = totalBytes st.
Proof.
  intros Hwf Hp. apply alive_split in Hp as (l1 & l2 & -> & ->).
  destruct (free_forward _ _ _ _ Hwf) as (h0 & h1 & Hu & Hm & Hc).
  destruct (wf_in_range _ _ _ _ _ Hwf) as (R1 & R2 & F1 & F2 & R3 & R4 & R5).
  destruct Hwf as [B1 B2 B3 B4 B5 B6 B7 B8]. rewrite afree_split by done. cbn [span] in R2.
  pose proof F2 as [Hs F3]%Forall_cons_1.
  pose proof (naf_join (s, true) l2) as N2. apply naf_tail in B8 as B8'.
  apply naf_cons in B8' as [_ B8']. specialize (N2 B8').
  destruct (foldr_join_props l1 (join (s, true) l2)) as (G1 & G2 & G3);
    [done|by apply seg_ok_join|done|].
  rewrite span_app, span_join in G3. rewrite span_app in B4. cbn [span] in G3, B4.
  unfold mem_free. destruct (Z.eqb_spec (baseBlock st + span l1 + HEADER_SIZE) 0); [unfold HEADER_SIZE in *; lia|].
  replace (u64 (baseBlock st + span l1 + HEADER_SIZE - HEADER_SIZE)) with (baseBlock st + span l1)
    by (unfold u64, HEADER_SIZE in *; rewrite wrap_small; lia).
  rewrite Hu. cbn [mbind option_bind]. rewrite Hm. cbn [mbind option_bind].
  pose proof (seg_ok_join (s, true) l2 Hs F3) as Fj. pose proof (span_join (s, true) l2) as Sj.
  cbn [span] in Sj. destruct (join_free s l2) as (sx & r & Ej). rewrite Ej in *.
  destruct (free_backward h1 (baseBlock st) l1 sx r) as (h2 & -> & Hc2);
    [done|rewrite span_app; lia|by apply Forall_app|by eapply naf_prefix|done|done|].
  eexists. split; [done|]. split; [|done].
  split; cbn [baseBlock totalBytes heap]; try done; [lia|].
  destruct l1; [done|]. apply join_nonempty.
Qed.

(** ** Accounting *)

Fixpoint free_bytes (l : list seg) : Z :=
  match l with [] => 0 | (sz, fr) :: l' => (if fr then sz else 0) + free_bytes l' end.
Fixpoint free_blocks (l : list seg) : Z :=
  match l with [] => 0 | (_, fr) :: l' => (if fr then 1 else 0) + free_blocks l' end.
Fixpoint used_bytes (l : list seg) : Z :=
  match l with [] => 0 | (sz, fr) :: l' => (if fr then 0 else sz) + used_bytes l' end.

Lemma span_split l : span l = HEADER_SIZE * Z.of_nat (length l) + free_bytes l + used_bytes l.
Proof. induction l as [|[sz []] l IH]; simpl; unfold HEADER_SIZE in *; lia. Qed.

Lemma free_blocks_bounds l : Forall seg_ok l → 0 ≤ free_blocks l ≤ free_bytes l ∧ 0 ≤ free_bytes l ≤ span l.
Proof.
  induction 1 as [|[sz fr] l [H1 _] _ IH]; simpl in *; [lia|].
  unfold HEADER_SIZE in *. destruct fr; lia.
Qed.

Lemma status_walk_spec l : ∀ fuel h pv p fr frags,
  Forall seg_ok l → 0 < p → p + span l < 2 ^ 64 → (length l < fuel)%nat → chain h pv p l 0 →
  0 ≤ fr → 0 ≤ frags → fr + free_bytes l < 2 ^ 64 → frags + free_blocks l < 2 ^ 64 →
  status_walk fuel h (head_addr p l) fr frags = Some (fr + free_bytes l, frags + free_blocks l).
Proof.
  induction l as [|[sz f] l IH]; intros fuel h pv p fr frags Hok Hp Hend Hf Hc Hfr Hfrags Hb1 Hb2.
  { destruct fuel; [simpl in Hf; lia|]. simpl. do 2 f_equal; lia. }
  destruct fuel as [|fuel]; simpl in Hf; [lia|]. pose proof Hok as [[H1 H2] Hok']%Forall_cons_1.
  pose proof (free_blocks_bounds _ Hok'). pose proof (span_nonneg _ Hok'). simpl in H1.
  destruct Hc as [Hl Hc]. cbn [span free_bytes free_blocks head_addr status_walk] in *.
  unfold HEADER_SIZE, u64 in *.
  destruct (Z.eqb_spec p 0); [lia|]. rewrite Hl. cbn [mbind option_bind b_free b_size b_next].
  assert (Hh : match l with [] => 0 | _ => p + 32 + sz end = head_addr (p + 32 + sz) l) by (by destruct l).
  rewrite Hh. destruct f; unwrap; rewrite (IH fuel h p) by (done || lia); do 2 f_equal; lia.
Qed.

Lemma mem_status_spec st l :
  wf st l →
  mem_status st = Some (mkInfo (totalBytes st)
    (HEADER_SIZE * Z.of_nat (length l) + used_bytes l) (free_bytes l) (free_blocks l)).
Proof.
  intros Hwf. pose proof (wf_fuel _ _ Hwf) as Hf. destruct Hwf as [B1 B2 B3 B4 B5 B6 B7 B8].
  destruct (free_blocks_bounds _ B6) as [? ?]. unfold mem_status.
  assert (Hh : baseBlock st = head_addr (baseBlock st) l) by (by destruct l). rewrite Hh at 1.
  rewrite (status_walk_spec l _ _ 0) by (done || lia).
  cbn [mbind option_bind]. pose proof (span_split l). unfold u64. do 2 f_equal.
  rewrite wrap_small; lia.
Qed.

(** ** Initial heap *)

Definition empty_state : state := mkState ∅ 0 0.

Lemma free_list_mem_init_wf st start size :
  0 < start → start mod ALIGNMENT = 0 → start + size < 2 ^ 64 →
  HEADER_SIZE < size → size mod ALIGNMENT = 0 →
  wf (mem_init st start size) [(size - HEADER_SIZE, true)].
Proof.
  unfold HEADER_SIZE, ALIGNMENT. intros H1 H2 H3 H4 H5.
  split; cbn [mem_init baseBlock totalBytes heap]; try done.
  - cbn [span]. unfold HEADER_SIZE. lia.
  - apply Forall_cons; [|done]. unfold seg_ok, ALIGNMENT; simpl. split; [lia|divlia].
  - split; [|done]. rewrite lookup_insert_eq. unfold u64, HEADER_SIZE. by rewrite wrap_small by lia.
Qed.


(** The heap as [main] sets it up. *)
Definition boot_heap : state := mem_init empty_state MEM_HEAP_START MEM_HEAP_SIZE.

Lemma free_list_boot_heap_wf : wf boot_heap [(MEM_HEAP_SIZE - HEADER_SIZE, true)].
Proof. apply free_list_mem_init_wf; done. Qed.

(** ** More about the abstract operations *)

Lemma aalloc_none l : ∀ p n,
  aalloc p l n = None ↔ Forall (λ s : seg, s.2 = true → s.1 < n) l.
Proof.
  induction l as [|[sz fr] l IH]; intros p n; cbn [aalloc]; [by split|].
  rewrite list.Forall_cons. destruct (fr && (n <=? sz)) eqn:E.
  - apply andb_true_iff in E as [-> E%Z.leb_le]. split.
    + by destruct (_ <=? sz).
    + intros [H _]. specialize (H eq_refl). simpl in H. lia.
  - specialize (IH (p + HEADER_SIZE + sz) n).
    destruct (aalloc (p + HEADER_SIZE + sz) l n) as [[??]|] eqn:Ea.
    + split; [done|]. intros [_ H]. apply IH in H. done.
    + split; [|done]. intros _. split; [|by apply IH].
      simpl. intros ->. simpl in E. apply Z.leb_gt in E. done.
Qed.

(** Freeing what was just allocated gives the same blocks back. *)
Lemma afree_aalloc l : ∀ p n q l',
  Forall seg_ok l → no_adjacent_free l → 0 < n → n mod ALIGNMENT = 0 →
  aalloc p l n = Some (q, l') → afree p l' q = l.
Proof.
  induction l as [|[sz fr] l IH]; intros p n q l' Hok Hn Hpos Hal Ha; [done|].
  pose proof Hok as [[H1 H2] Hok']%Forall_cons_1. pose proof Hn as [Hh Hn']%naf_cons.
  cbn [aalloc] in Ha. destruct (fr && (n <=? sz)) eqn:E.
  - apply andb_true_iff in E as [-> Hle%Z.leb_le].
    destruct (_ <=? sz); simplify_eq; cbn [afree]; rewrite Z.eqb_refl.
    + simpl. do 2 f_equal. lia.
    + destruct l as [|[? []] ?]; [done| |done]. exfalso. by apply Hh.
  - destruct (aalloc (p + HEADER_SIZE + sz) l n) as [[q0 l0]|] eqn:Ea; [|done].
    simplify_eq. pose proof Ea as Ea'. apply aalloc_inv in Ea' as (_ & _ & _ & _ & _ & G & _); try done.
    apply IH in Ea; try done. simpl in H1. cbn [afree].
    destruct (Z.eqb_spec (p + HEADER_SIZE) q); [unfold HEADER_SIZE in *; lia|].
    rewrite Ea. destruct fr; [|done]. destruct l as [|[? []] ?]; [done| |done]. exfalso. by apply Hh.
Qed.

(** ** The contract *)

(** Existence of a block list is what [mm_inv] states; the list is recovered by following
    the links, so the live payloads are a function of the state. *)
Fixpoint walk_segs (fuel : nat) (h : gmap Z Block) (b : Z) : list seg :=
  match fuel with
  | O => []
  | S fuel =>
    if b =? 0 then []
    else match h !! b with
         | None => []
         | Some blk => (b_size blk, b_free blk) :: walk_segs fuel h (b_next blk)
         end
  end.

Definition segs_of (st : state) : list seg := walk_segs (walk_fuel st) (heap st) (baseBlock st).

Lemma walk_segs_chain l : ∀ fuel h pv p,
  Forall seg_ok l → 0 < p → (length l < fuel)%nat → chain h pv p l 0 →
  walk_segs fuel h (head_addr p l) = l.
Proof.
  induction l as [|[sz f] l IH]; intros fuel h pv p Hok Hp Hf Hc.
  { by destruct fuel. }
  destruct fuel as [|fuel]; simpl in Hf; [lia|]. pose proof Hok as [[H1 H2] Hok']%Forall_cons_1.
  destruct Hc as [Hl Hc]. cbn [walk_segs head_addr]. destruct (Z.eqb_spec p 0); [lia|].
  rewrite Hl. cbn [b_size b_free b_next]. simpl in H1. f_equal.
  rewrite <- (IH fuel h p (p + HEADER_SIZE + sz)) at 2; [|done|unfold HEADER_SIZE; lia|lia|done].
  by destruct l.
Qed.

Lemma segs_of_wf st l : wf st l → segs_of st = l.
Proof.
  intros Hwf. pose proof (wf_fuel _ _ Hwf) as Hf. destruct Hwf as [B1 B2 B3 B4 B5 B6 B7 B8].
  unfold segs_of. assert (Hh : baseBlock st = head_addr (baseBlock st) l) by (by destruct l).
  rewrite Hh. by apply walk_segs_chain with 0.
Qed.

Definition live (st : state) : gmap Z Z := alive (baseBlock st) (segs_of st).

Lemma live_wf st l : wf st l → live st = alive (baseBlock st) l.
Proof. intros H. unfold live. by rewrite (segs_of_wf _ _ H). Qed.

#[global] Instance free_list_manager : MemoryManager state := {|
  mm_alloc := mem_alloc;
  mm_free := mem_free;
  mm_inv st := wf st (segs_of st);
  mm_live := live;
  mm_lo := baseBlock;
  mm_hi st := baseBlock st + totalBytes st;
  mm_max _ := max_request;
|}.

Lemma alive_disjoint l : ∀ p a s b t,
  Forall seg_ok l → alive p l !! a = Some s → alive p l !! b = Some t → a ≠ b →
  a + s ≤ b ∨ b + t ≤ a.
Proof.
  induction l as [|[sz fr] l IH]; intros p a s b t Hok Ha Hb Hne; [done|].
  pose proof Hok as [[H1 H2] Hok']%Forall_cons_1. simpl in Ha, Hb, H1. destruct fr; [by eapply IH|].
  apply lookup_insert_Some in Ha as [[<- <-]|[Ha1 Ha]]; apply lookup_insert_Some in Hb as [[<- <-]|[Hb1 Hb]].
  - done.
  - apply alive_bounds in Hb; [|done]. unfold HEADER_SIZE in *. lia.
  - apply alive_bounds in Ha; [|done]. unfold HEADER_SIZE in *. lia.
  - by eapply IH.
Qed.

(** A heap with one block of 104 bytes in use at its start. *)
Definition heap1 : state :=
  match mem_alloc 100 boot_heap with Some (_, st) => st | None => boot_heap end.

Lemma free_list_heap1_wf : wf heap1 [(104, false); (MEM_HEAP_SIZE - HEADER_SIZE - 104 - HEADER_SIZE, true)].
Proof.
  pose proof (mem_alloc_refines _ _ 100 free_list_boot_heap_wf ltac:(done)) as H.
  assert (E : aalloc (baseBlock boot_heap) [(MEM_HEAP_SIZE - HEADER_SIZE, true)] (alignUp 100)
    = Some (MEM_HEAP_START + HEADER_SIZE,
        [(104, false); (MEM_HEAP_SIZE - HEADER_SIZE - 104 - HEADER_SIZE, true)])) by done.
  rewrite E in H. destruct H as (st' & Ha & Hwf & _). unfold heap1. by rewrite Ha.
Qed.

#[global] Instance free_list_laws : MemoryManagerLaws state.
Proof.
  split; cbn [mm_alloc mm_free mm_inv mm_live mm_lo mm_hi mm_max free_list_manager].
  - intros st n Hwf Hn. pose proof (mem_alloc_refines _ _ _ Hwf Hn) as Hr.
    destruct (alignUp_bounds n) as [Hb Hal]; [unfold max_request in *; lia|].
    destruct (aalloc _ _ _) as [[q l']|] eqn:Ea.
    + destruct Hr as (st' & -> & Hwf' & E1 & E2). exists q, st'. split; [done|].
      rewrite (segs_of_wf _ _ Hwf'), E1, E2. split_and!; try done. right.
      pose proof Hwf as [B1 B2 B3 B4 B5 B6 B7 B8].
      apply aalloc_inv in Ea as (_ & _ & _ & _ & G5 & G6 & _ & s & Hs & G8); try done; [|lia].
      split; [unfold HEADER_SIZE in *; lia|]. split; [done|]. exists s. split; [lia|].
      rewrite (live_wf _ _ Hwf'), E1. done.
    + exists 0, st. rewrite Hr. auto 10.
  - intros st p s Hwf Hp. destruct (mem_free_refines _ _ _ _ Hwf Hp) as (st' & -> & Hwf' & E1 & E2).
    exists st'. split; [done|]. rewrite (segs_of_wf _ _ Hwf'), E1, E2. split_and!; try done.
    rewrite (live_wf _ _ Hwf'), E1. unfold live in *.
    pose proof Hwf as [B1 B2 B3 B4 B5 B6 B7 B8].
    apply alive_split in Hp as (l1 & l2 & El & ->). rewrite El in *.
    pose proof B6 as B6'. apply Forall_app in B6' as [F1 _].
    rewrite afree_split, alive_foldr_join, <- alive_release by done.
    clear. generalize (baseBlock st). induction l1 as [|[sz fr] l1 IH]; intros b; cbn [app].
    + by rewrite alive_join.
    + cbn [alive]. by rewrite IH.
  - intros st p s q t Hwf Hp Hq Hne. eapply alive_disjoint; [apply Hwf|done..].
  - intros st p s Hwf Hp. apply alive_bounds in Hp; [|apply Hwf].
    destruct Hwf as [B1 B2 B3 B4 B5 B6 B7 B8]. unfold HEADER_SIZE in *. lia.
Qed.

(** ** Properties *)



(** C17. Freeing a payload in use removes exactly that payload, keeps the heap well formed
    and leaves it fully coalesced (no two neighbouring free blocks). *)
Theorem mem_free_correct st l ptr s :
  wf st l → live st !! ptr = Some s →
  ∃ st' l', mem_free ptr st = Some st' ∧ wf st' l' ∧ no_adjacent_free l' ∧
    live st' = delete ptr (live st) ∧ span l' = span l.
Proof.
  intros Hwf Hp. pose proof Hp as Hp'. rewrite (live_wf _ _ Hwf) in Hp'.
  destruct (mem_free_refines _ _ _ _ Hwf Hp') as (st' & Hf & Hwf' & E1 & E2).
  assert (Hwfs : mm_inv st) by (change (wf st (segs_of st)); by rewrite (segs_of_wf _ _ Hwf)).
  destruct (mm_free_ok st ptr s Hwfs Hp) as (st'' & Hf' & _ & _ & _ & _ & El).
  change (mem_free ptr st = Some st'') in Hf'. change (live st'' = delete ptr (live st)) in El.
  assert (st'' = st') as -> by congruence.
  exists st', (afree (baseBlock st) l ptr). split_and!; try done.
  - apply Hwf'.
  - rewrite (wf_span _ _ Hwf), (wf_span _ _ Hwf'). done.
Qed.

Lemma mem_free_correct_witness :
  live heap1 !! (MEM_HEAP_START + HEADER_SIZE) = Some 104 ∧
  ∃ st' l', mem_free (MEM_HEAP_START + HEADER_SIZE) heap1 = Some st' ∧ wf st' l' ∧ no_adjacent_free l' ∧
    live st' = delete (MEM_HEAP_START + HEADER_SIZE) (live heap1) ∧
    span l' = span [(104, false); (MEM_HEAP_SIZE - HEADER_SIZE - 104 - HEADER_SIZE, true)].
Proof.
  split; [vm_compute; reflexivity|].
  apply (mem_free_correct _ _ _ 104 free_list_heap1_wf). vm_compute; reflexivity.
Defined.

(** Round trip: freeing a block right after allocating it restores the very same block
    list (the split is undone by the merge), whatever the heap looked like. *)
Theorem mem_alloc_free_roundtrip st l n p st1 :
  wf st l → 0 < n ≤ max_request → mem_alloc n st = Some (p, st1) → p ≠ 0 →
  ∃ st2, mem_free p st1 = Some st2 ∧ wf st2 l.
Proof.
  intros Hwf Hn Ha Hp. pose proof (mem_alloc_refines _ _ _ Hwf Hn) as Hr.
  destruct (alignUp_bounds n) as [Hb Hal]; [unfold max_request in *; lia|].
  pose proof Hwf as [B1 B2 B3 B4 B5 B6 B7 B8].
  destruct (aalloc _ _ _) as [[q l']|] eqn:Ea; [|congruence].
  destruct Hr as (st' & Hm & Hwf' & E1 & E2). simplify_eq.
  pose proof Ea as Ea'. apply afree_aalloc in Ea'; try done; [|lia].
  apply aalloc_inv in Ea as (_ & _ & _ & _ & _ & _ & _ & s & _ & G8); try done; [|lia].
  destruct (mem_free_refines st1 l' p s) as (st2 & Hf & Hwf2 & _); [done| |].
  - rewrite E1, G8. apply lookup_insert_eq.
  - exists st2. split; [done|]. by rewrite E1, Ea' in Hwf2.
Qed.

Lemma mem_alloc_free_roundtrip_witness :
  mem_alloc 100 boot_heap = Some (MEM_HEAP_START + HEADER_SIZE, heap1) ∧
  ∃ st2, mem_free (MEM_HEAP_START + HEADER_SIZE) heap1 = Some st2 ∧
    wf st2 [(MEM_HEAP_SIZE - HEADER_SIZE, true)].
Proof.
  assert (E : mem_alloc 100 boot_heap = Some (MEM_HEAP_START + HEADER_SIZE, heap1))
    by (vm_compute; reflexivity).
  split; [exact E|].
  exact (mem_alloc_free_roundtrip _ _ 100 _ _ free_list_boot_heap_wf ltac:(done) E ltac:(done)).
Defined.

(** Accounting: [mem_status] terminates and reports the exact figures: [free] is the sum
    of the free payloads, [fragments] their number, and [occupied] the payloads in use plus
    one 32-byte header per block; nothing wraps around. *)
Theorem mem_status_exact st l :
  wf st l →
  ∃ info, mem_status st = Some info ∧ i_total info = totalBytes st ∧
    i_free info = free_bytes l ∧ i_fragments info = free_blocks l ∧
    i_occupied info = used_bytes l + HEADER_SIZE * Z.of_nat (length l) ∧
    i_occupied info + i_free info = i_total info.
Proof.
  intros Hwf. rewrite (mem_status_spec _ _ Hwf). eexists. split; [done|].
  cbn [i_total i_free i_fragments i_occupied]. pose proof (span_split l).
  destruct Hwf. split_and!; lia.
Qed.

Lemma mem_status_exact_witness :
  wf heap1 [(104, false); (MEM_HEAP_SIZE - HEADER_SIZE - 104 - HEADER_SIZE, true)] ∧
  ∃ info, mem_status heap1 = Some info ∧ i_total info = totalBytes heap1 ∧
    i_free info = 268435288 ∧ i_fragments info = 1 ∧ i_occupied info = 168 ∧
    i_occupied info + i_free info = i_total info.
Proof. split; [exact free_list_heap1_wf|]. exact (mem_status_exact _ _ free_list_heap1_wf). Defined.

(** A request within seven bytes of [2^64] wraps around to zero in [alignUp]: on the
    booted heap it is granted, with a block whose payload has zero bytes. *)
Theorem mem_alloc_wraps n :
  2 ^ 64 - 8 < n < 2 ^ 64 →
  alignUp n = 0 ∧
  ∃ st', mem_alloc n boot_heap = Some (MEM_HEAP_START + HEADER_SIZE, st') ∧
    heap st' !! MEM_HEAP_START = Some (mkBlock 0 false 0 (MEM_HEAP_START + HEADER_SIZE)).
Proof.
  intros Hn. assert (E : alignUp n = 0).
  { assert (Hc : n = 2 ^ 64 - 7 ∨ n = 2 ^ 64 - 6 ∨ n = 2 ^ 64 - 5 ∨ n = 2 ^ 64 - 4 ∨
      n = 2 ^ 64 - 3 ∨ n = 2 ^ 64 - 2 ∨ n = 2 ^ 64 - 1) by lia.
    destruct_or! Hc; subst n; reflexivity. }
  split; [done|]. unfold mem_alloc. rewrite E.
  destruct (Z.eqb_spec n 0); [lia|].
  eexists. split; vm_compute; reflexivity.
Qed.

Lemma mem_alloc_wraps_witness :
  2 ^ 64 - 8 < 2 ^ 64 - 1 < 2 ^ 64 ∧ alignUp (2 ^ 64 - 1) = 0 ∧
  ∃ st', mem_alloc (2 ^ 64 - 1) boot_heap = Some (MEM_HEAP_START + HEADER_SIZE, st') ∧
    heap st' !! MEM_HEAP_START = Some (mkBlock 0 false 0 (MEM_HEAP_START + HEADER_SIZE)).
Proof. split; [lia|]. apply mem_alloc_wraps. lia. Defined.

End FreeList.
