(* ===== verification/Buddy.v ===== *)
(** * The buddy memory manager ([Kernel/memory/memoryManagerBuddy.c])

    The node pool is the static array [nodes], a map from indices to nodes whose missing
    entries are the zeros of the BSS.  The tree is materialised lazily; recycled slots form a
    free list threaded through [leftChild]. *)

From S2P Require Import Prelude MemoryManager.

Module Buddy.

Definition MIN_ORDER : Z := 4.
Definition MAX_NODES : Z := 8192.

Record BuddyNode := mkNode {
  isFree : bool;
  order : Z;
  offset : Z;
  leftChild : Z;    (* -1: none *)
  rightChild : Z;
  parent : Z;       (* -1: root or recycled *)
}.

Record state := mkState {
  minAddress : Z;
  totalSize : Z;
  maxOrder : Z;
  nodes : gmap Z BuddyNode;
  nodeCount : Z;
  rootIndex : Z;
  firstFreeNode : Z;
}.

Definition zero_node : BuddyNode := mkNode false 0 0 0 0 0.

Definition nd (st : state) (i : Z) : BuddyNode := default zero_node (nodes st !! i).

Definition set_nodes (st : state) (ns : gmap Z BuddyNode) (count ff : Z) : state :=
  mkState (minAddress st) (totalSize st) (maxOrder st) ns count (rootIndex st) ff.

(** [nodes[i] = f(nodes[i])]. *)
Definition upd (st : state) (i : Z) (f : BuddyNode → BuddyNode) : state :=
  set_nodes st (<[i := f (nd st i)]> (nodes st)) (nodeCount st) (firstFreeNode st).

Definition set_isFree (b : bool) (n : BuddyNode) : BuddyNode :=
  mkNode b (order n) (offset n) (leftChild n) (rightChild n) (parent n).
Definition set_children (l r : Z) (n : BuddyNode) : BuddyNode :=
  mkNode (isFree n) (order n) (offset n) l r (parent n).

(** The first [fuel] right shifts; 64 are enough for a 64-bit word. *)
Fixpoint log2_loop (fuel : nat) (n r : Z) : Z :=
  match fuel with
  | O => r
  | S fuel => if 1 <? n then log2_loop fuel (Z.shiftr n 1) (r + 1) else r
  end.
Definition log2Int (n : Z) : Z := log2_loop 64 n 0.

Definition createNode (o off parentIdx : Z) (st : state) : Z * state :=
  let fresh := mkNode true o off (-1) (-1) parentIdx in
  if negb (firstFreeNode st =? -1) then
    let idx := firstFreeNode st in
    (idx, set_nodes st (<[idx := fresh]> (nodes st)) (nodeCount st) (leftChild (nd st idx)))
  else if MAX_NODES <=? nodeCount st then (-1, st)
  else
    let idx := nodeCount st in
    (idx, set_nodes st (<[idx := fresh]> (nodes st)) (nodeCount st + 1) (firstFreeNode st)).

(** [nodes[i].parent = -1; nodes[i].leftChild = firstFreeNode; firstFreeNode = i]. *)
Definition recycle (i : Z) (st : state) : state :=
  let n := nd st i in
  set_nodes st
    (<[i := mkNode (isFree n) (order n) (offset n) (firstFreeNode st) (rightChild n) (-1)]> (nodes st))
    (nodeCount st) i.

Definition splitNode (nodeIdx : Z) (st : state) : Z * state :=
  if (nodeIdx <? 0) || (nodeCount st <=? nodeIdx) then (-1, st)
  else if order (nd st nodeIdx) <=? MIN_ORDER then (-1, st)
  else if negb (leftChild (nd st nodeIdx) =? -1) then (0, st)
  else
    let childOrder := order (nd st nodeIdx) - 1 in
    let childSize := u64 (Z.shiftl 1 childOrder) in
    let off := offset (nd st nodeIdx) in
    let '(leftIdx, st1) := createNode childOrder off nodeIdx st in
    if leftIdx <? 0 then (-1, st1)
    else
      let '(rightIdx, st2) := createNode childOrder (u64 (off + childSize)) nodeIdx st1 in
      if rightIdx <? 0 then (-1, recycle leftIdx st2)
      else (0, upd st2 nodeIdx (set_children leftIdx rightIdx)).

Fixpoint maxOrder_loop (fuel : nat) (size capacity mo : Z) : Z :=
  match fuel with
  | O => mo
  | S fuel =>
    if (u64 (Z.shiftl 1 (mo + 1)) <=? size) && (mo <? capacity)
    then maxOrder_loop fuel size capacity (mo + 1) else mo
  end.

Definition mem_init (startInclusive size : Z) (ns : gmap Z BuddyNode) : state :=
  let mo := maxOrder_loop 64 size (log2Int size) MIN_ORDER in
  let st0 := mkState startInclusive size mo ns 0 0 (-1) in
  let '(root, st1) := createNode mo 0 (-1) st0 in
  mkState (minAddress st1) (totalSize st1) (maxOrder st1) (nodes st1) (nodeCount st1) root (firstFreeNode st1).

Fixpoint getOrder_loop (fuel : nat) (size mo o : Z) : Z :=
  match fuel with
  | O => o
  | S fuel =>
    if (u64 (Z.shiftl 1 o) <? size) && (o <? mo) then getOrder_loop fuel size mo (o + 1) else o
  end.
Definition getOrder (size : Z) (st : state) : Z := getOrder_loop 64 size (maxOrder st) MIN_ORDER.

Definition updateNodeStatus (nodeIdx : Z) (st : state) : state :=
  if (nodeIdx <? 0) || (nodeCount st <=? nodeIdx) then st
  else if leftChild (nd st nodeIdx) =? -1 then st
  else
    let leftIdx := leftChild (nd st nodeIdx) in
    let rightIdx := rightChild (nd st nodeIdx) in
    upd st nodeIdx (set_isFree (isFree (nd st leftIdx) && isFree (nd st rightIdx))).

Definition tryAllocateExactSize (nodeIdx requiredOrder : Z) (st : state) : Z * state :=
  let node := nd st nodeIdx in
  if (order node =? requiredOrder) && (leftChild node =? -1) then
    if negb (isFree node) then (-1, st)
    else (nodeIdx, upd st nodeIdx (set_isFree false))
  else (-1, st).

(** The search of both children that [findAndAllocate] and [trySplitAndAllocate] share:
    the right child is read after the left one was searched. *)
Definition search_children (rec : Z → Z → state → option (Z * state))
    (nodeIdx requiredOrder : Z) (st : state) : option (Z * state) :=
  '(result, st1) ← rec (leftChild (nd st nodeIdx)) requiredOrder st;
  if negb (result =? -1) then Some (result, updateNodeStatus nodeIdx st1)
  else
    '(result, st2) ← rec (rightChild (nd st1 nodeIdx)) requiredOrder st1;
    if negb (result =? -1) then Some (result, updateNodeStatus nodeIdx st2)
    else Some (result, st2).

Definition trySplitAndAllocate (rec : Z → Z → state → option (Z * state))
    (nodeIdx requiredOrder : Z) (st : state) : option (Z * state) :=
  if negb (isFree (nd st nodeIdx)) then Some (-1, st)
  else
    let '(r, st1) := splitNode nodeIdx st in
    if r <? 0 then Some (-1, st1)
    else search_children rec nodeIdx requiredOrder st1.

Fixpoint findAndAllocate (fuel : nat) (nodeIdx requiredOrder : Z) (st : state)
  : option (Z * state) :=
  match fuel with
  | O => None
  | S fuel =>
    if (nodeIdx <? 0) || (nodeCount st <=? nodeIdx) then Some (-1, st)
    else if order (nd st nodeIdx) <? requiredOrder then Some (-1, st)
    else
      let '(exactResult, st1) := tryAllocateExactSize nodeIdx requiredOrder st in
      if negb (exactResult =? -1) then Some (exactResult, st1)
      else if leftChild (nd st1 nodeIdx) =? -1
      then trySplitAndAllocate (findAndAllocate fuel) nodeIdx requiredOrder st1
      else search_children (findAndAllocate fuel) nodeIdx requiredOrder st1
  end.

(** One level of recursion per order, and there are at most 64 orders. *)
Definition find_fuel : nat := 65.

Definition findNodeByAddress (address : Z) (st : state) : Z :=
  if (address <? minAddress st) || (u64 (minAddress st + totalSize st) <=? address) then -1
  else
    let off := u64 (address - minAddress st) in
    match List.find (λ i, (offset (nd st i) =? off) && negb (isFree (nd st i)) &&
                          (leftChild (nd st i) =? -1)) (seqZ 0 (nodeCount st)) with
    | Some i => i
    | None => -1
    end.

Definition recycleChildNodes (leftIdx rightIdx : Z) (st : state) : state :=
  recycle rightIdx (recycle leftIdx st).

(** [tryMerge] and [mergeBuddies] call each other; the recursion climbs to the root. *)
Definition mergeBuddies (rec : Z → state → option state) (parentIdx leftIdx rightIdx : Z)
    (st : state) : option state :=
  if isFree (nd st leftIdx) && isFree (nd st rightIdx) &&
     (leftChild (nd st leftIdx) =? -1) && (leftChild (nd st rightIdx) =? -1) then
    let st1 := upd st parentIdx (set_isFree true) in
    let st2 := recycleChildNodes leftIdx rightIdx st1 in
    let st3 := upd st2 parentIdx (set_children (-1) (-1)) in
    rec parentIdx st3
  else Some st.

Fixpoint tryMerge (fuel : nat) (nodeIdx : Z) (st : state) : option state :=
  match fuel with
  | O => None
  | S fuel =>
    if (nodeIdx <? 0) || (nodeCount st <=? nodeIdx) then Some st
    else
      let parentIdx := parent (nd st nodeIdx) in
      if parentIdx <? 0 then Some st
      else
        let p := nd st parentIdx in
        if (0 <=? leftChild p) && (0 <=? rightChild p)
        then mergeBuddies (tryMerge fuel) parentIdx (leftChild p) (rightChild p) st
        else Some st
  end.

Definition mem_alloc (bytes : Z) (st : state) : option (Z * state) :=
  if bytes =? 0 then Some (0, st)
  else
    let requiredOrder := u8 (getOrder bytes st) in
    '(nodeIdx, st1) ← findAndAllocate find_fuel (rootIndex st) requiredOrder st;
    if nodeIdx <? 0 then Some (0, st1)
    else Some (u64 (minAddress st1 + offset (nd st1 nodeIdx)), st1).

Definition mem_free (chunkStart : Z) (st : state) : option state :=
  if chunkStart =? 0 then Some st
  else
    let nodeIdx := findNodeByAddress chunkStart st in
    if nodeIdx <? 0 then Some st
    else
      let st1 := upd st nodeIdx (set_isFree true) in
      let parentIdx := parent (nd st1 nodeIdx) in
      let st2 := if 0 <=? parentIdx then updateNodeStatus parentIdx st1 else st1 in
      tryMerge find_fuel nodeIdx st2.

(** The four counters that [countLeafNodes] updates through pointers. *)
Record counts := mkCounts { c_allocN : Z; c_allocM : Z; c_freeN : Z; c_freeM : Z }.

Fixpoint countLeafNodes (fuel : nat) (nodeIdx : Z) (st : state) (c : counts) : option counts :=
  match fuel with
  | O => None
  | S fuel =>
    if (nodeIdx <? 0) || (nodeCount st <=? nodeIdx) then Some c
    else
      let node := nd st nodeIdx in
      if (parent node =? -1) && negb (nodeIdx =? rootIndex st) then Some c
      else if leftChild node =? -1 then
        let blockSize := u64 (Z.shiftl 1 (order node)) in
        Some (if isFree node
              then mkCounts (c_allocN c) (c_allocM c) (u64 (c_freeN c + 1)) (u64 (c_freeM c + blockSize))
              else mkCounts (u64 (c_allocN c + 1)) (u64 (c_allocM c + blockSize)) (c_freeN c) (c_freeM c))
      else
        c1 ← countLeafNodes fuel (leftChild node) st c;
        countLeafNodes fuel (rightChild node) st c1
  end.

Record MemoryInfo := mkInfo { i_total : Z; i_occupied : Z; i_free : Z; i_fragments : Z }.

Definition mem_status (st : state) : option MemoryInfo :=
  c ← countLeafNodes find_fuel (rootIndex st) st (mkCounts 0 0 0 0);
  Some (mkInfo (totalSize st) (c_allocM c) (c_freeM c) (c_freeN c)).

(** ** The abstract tree *)

Inductive tree := Leaf (i : Z) (fr : bool) | Node (i : Z) (l r : tree).

Definition idx (t : tree) : Z := match t with Leaf i _ => i | Node i _ _ => i end.

Fixpoint indices (t : tree) : list Z :=
  match t with Leaf i _ => [i] | Node i l r => i :: indices l ++ indices r end.

(** Blocks in use of a subtree of order [o] at [off]: offset ↦ size. *)
Fixpoint live (o off : Z) (t : tree) : gmap Z Z :=
  match t with
  | Leaf _ true => ∅
  | Leaf _ false => {[off := 2 ^ o]}
  | Node _ l r => live (o - 1) off l ∪ live (o - 1) (off + 2 ^ (o - 1)) r
  end.

(** Some free leaf has at least the order asked for. *)
Fixpoint has_free (o : Z) (t : tree) (req : Z) : bool :=
  match t with
  | Leaf _ fr => fr && (req <=? o)
  | Node _ l r => has_free (o - 1) l req || has_free (o - 1) r req
  end.

(** No two sibling leaves are both free. *)
Fixpoint merged (t : tree) : Prop :=
  match t with
  | Leaf _ _ => True
  | Node _ (Leaf _ true) (Leaf _ true) => False
  | Node _ l r => merged l ∧ merged r
  end.

(** The nodes [f] hold the tree [t], of order [o] at offset [off], under parent [par].  The
    [isFree] flag of an inner node is not constrained: the code never reads it. *)
Fixpoint repr (f : Z → BuddyNode) (par o off : Z) (t : tree) : Prop :=
  match t with
  | Leaf i fr => MIN_ORDER ≤ o ∧ f i = mkNode fr o off (-1) (-1) par
  | Node i l r =>
    MIN_ORDER < o ∧ (∃ b, f i = mkNode b o off (idx l) (idx r) par) ∧
    repr f i (o - 1) off l ∧ repr f i (o - 1) (off + 2 ^ (o - 1)) r
  end.

(** The list of recycled slots. *)
Fixpoint flist (f : Z → BuddyNode) (ff : Z) (fl : list Z) : Prop :=
  match fl with
  | [] => ff = -1
  | i :: fl' => ff = i ∧ isFree (f i) = true ∧ flist f (leftChild (f i)) fl'
  end.

(** Every slot below [nodeCount] is either used or recycled, and never both. *)
Definition pool (st : state) (used : list Z) : Prop :=
  ∃ fl, flist (nd st) (firstFreeNode st) fl ∧ NoDup (used ++ fl) ∧
    (∀ i, i ∈ used ++ fl ↔ 0 ≤ i < nodeCount st) ∧ 0 ≤ nodeCount st ≤ MAX_NODES.

(** The fields an allocation or a release never changes. *)
Definition same (st st' : state) : Prop :=
  minAddress st' = minAddress st ∧ totalSize st' = totalSize st ∧
  maxOrder st' = maxOrder st ∧ rootIndex st' = rootIndex st.

Lemma same_refl st : same st st.
Proof. done. Qed.
Lemma same_trans a b c : same a b → same b c → same a c.
Proof. unfold same. intuition congruence. Qed.
#[local] Hint Resolve same_refl : core.

Lemma idx_in t : idx t ∈ indices t.
Proof. destruct t; set_solver. Qed.

Lemma repr_ext f g t : ∀ par o off,
  (∀ i, i ∈ indices t → g i = f i) → repr f par o off t → repr g par o off t.
Proof.
  induction t as [i fr|i l IHl r IHr]; intros par o off Hg; simpl.
  - intros [? ?]. split; [done|]. rewrite Hg by set_solver. done.
  - intros (? & [b ?] & ? & ?). split; [done|]. split; [exists b; rewrite Hg by set_solver; done|].
    split; [apply IHl|apply IHr]; try done; intros; apply Hg; set_solver.
Qed.

Lemma repr_order f par o off t : repr f par o off t → MIN_ORDER ≤ o.
Proof. destruct t; simpl; intuition lia. Qed.

Lemma repr_root f par o off t : repr f par o off t →
  order (f (idx t)) = o ∧ offset (f (idx t)) = off ∧ parent (f (idx t)) = par.
Proof. destruct t; simpl; [intros [_ ->]; done|]. intros (_ & [b ->] & _). done. Qed.

Lemma flist_ext f g ff fl :
  (∀ i, i ∈ fl → g i = f i) → flist f ff fl → flist g ff fl.
Proof.
  revert ff. induction fl as [|i fl IH]; intros ff Hg; simpl; [done|].
  intros (-> & Hf & Hl). rewrite Hg by set_solver. split_and!; try done.
  apply IH; [|done]. intros. apply Hg. set_solver.
Qed.

(** ** Slots *)

Lemma nd_set_nodes st ns c ff i : nd (set_nodes st ns c ff) i = default zero_node (ns !! i).
Proof. done. Qed.

Lemma nd_upd st i f j : nd (upd st i f) j = if decide (j = i) then f (nd st i) else nd st j.
Proof.
  unfold upd. rewrite nd_set_nodes. case_decide as E.
  - subst. by rewrite lookup_insert_eq.
  - by rewrite lookup_insert_ne.
Qed.

Lemma nd_upd_eq st i f : nd (upd st i f) i = f (nd st i).
Proof. rewrite nd_upd. by rewrite decide_True. Qed.
Lemma nd_upd_ne st i f j : j ≠ i → nd (upd st i f) j = nd st j.
Proof. intros. rewrite nd_upd. by rewrite decide_False. Qed.

(** The order in which the used slots are listed is irrelevant. *)
#[export] Instance pool_proper st : Proper (Permutation ==> iff) (pool st).
Proof.
  assert (H : ∀ u u', u ≡ₚ u' → pool st u → pool st u').
  { intros u u' Hu (fl & H1 & H2 & H3 & H4). exists fl. split; [done|].
    split; [by rewrite <- Hu|]. split; [|done]. intros i. by rewrite <- Hu. }
  intros u u' Hu. split; apply H; [done|by symmetry].
Qed.

Lemma pool_range st u i : pool st u → i ∈ u → 0 ≤ i < nodeCount st.
Proof. intros (fl & _ & _ & H & _) Hi. apply H. set_solver. Qed.

Lemma pool_NoDup st u : pool st u → NoDup u.
Proof. intros (fl & _ & H & _ & _). by apply list.NoDup_app in H as (? & _). Qed.

Lemma pool_length st u : pool st u → Z.of_nat (length u) ≤ nodeCount st ≤ MAX_NODES.
Proof.
  intros (fl & _ & N & H & ?). split; [|lia].
  assert (P : u ++ fl ≡ₚ seqZ 0 (nodeCount st)).
  { apply NoDup_Permutation; [done|apply NoDup_seqZ|]. intros i. rewrite H, elem_of_seqZ. lia. }
  apply Permutation_length in P. rewrite length_app, length_seqZ in P. lia.
Qed.

Lemma pool_upd st u i f : pool st u → i ∈ u → pool (upd st i f) u.
Proof.
  intros (fl & H1 & H2 & H3 & H4) Hi. exists fl. split_and!; try done; try apply H4.
  eapply flist_ext; [|exact H1]. intros j Hj. apply nd_upd_ne. intros ->.
  apply list.NoDup_app in H2 as (_ & N & _). by apply (N i).
Qed.

Lemma createNode_spec o off par st u :
  pool st u →
  let '(r, st') := createNode o off par st in
  (r = -1 ∧ st' = st ∧ Z.of_nat (length u) = MAX_NODES) ∨
  (0 ≤ r ∧ r ∉ u ∧ pool st' (r :: u) ∧ nd st' r = mkNode true o off (-1) (-1) par ∧
   (∀ i, i ≠ r → nd st' i = nd st i) ∧ same st st').
Proof.
  intros (fl & H1 & H2 & H3 & H4). unfold createNode.
  destruct (Z.eqb_spec (firstFreeNode st) (-1)) as [E|E]; simpl.
  - assert (fl = []) as ->.
    { destruct fl as [|i fl]; [done|]. destruct H1 as [E' _].
      assert (i ∈ u ++ i :: fl) as Hi by set_solver. apply H3 in Hi. lia. }
    rewrite app_nil_r in *. destruct (Z.leb_spec MAX_NODES (nodeCount st)).
    + left. split_and!; try done.
      assert (P : u ≡ₚ seqZ 0 (nodeCount st)).
      { apply NoDup_Permutation; [done|apply NoDup_seqZ|]. intros i. rewrite H3, elem_of_seqZ. lia. }
      apply Permutation_length in P. rewrite length_seqZ in P. lia.
    + right. assert (Hn : nodeCount st ∉ u) by (rewrite H3; lia).
      split; [lia|]. split; [done|]. split.
      { exists []. rewrite app_nil_r. split_and!; simpl; try lia; try done.
        - by apply list.NoDup_cons.
        - intros i. rewrite list_elem_of_In. simpl. rewrite <- list_elem_of_In, H3. lia. }
      split_and!; try done.
      * rewrite nd_set_nodes. by rewrite lookup_insert_eq.
      * intros i Hi. rewrite nd_set_nodes. by rewrite lookup_insert_ne.
  - right. destruct fl as [|i fl]; [done|]. destruct H1 as (E' & Hf & Hl).
    apply list.NoDup_app in H2 as (N1 & N2 & [N3 N4]%list.NoDup_cons).
    rewrite E' in *. assert (Hi : i ∉ u) by (intros Hi; apply (N2 i); set_solver).
    split; [assert (i ∈ u ++ i :: fl) as Hj by set_solver; apply H3 in Hj; lia|].
    split; [done|]. split.
    { exists fl. split_and!; simpl; try lia.
      - eapply flist_ext; [|exact Hl]. intros j Hj. rewrite nd_set_nodes, lookup_insert_ne; [done|].
        intros ->. done.
      - apply list.NoDup_cons. split; [set_solver|]. apply list.NoDup_app. split_and!; try done. set_solver.
      - intros j. rewrite <- H3. set_solver. }
    split_and!; try done.
    + rewrite nd_set_nodes. by rewrite lookup_insert_eq.
    + intros j Hj. rewrite nd_set_nodes. by rewrite lookup_insert_ne.
Qed.

Lemma nd_recycle_ne r st i : i ≠ r → nd (recycle r st) i = nd st i.
Proof. intros. unfold recycle. rewrite nd_set_nodes. by rewrite lookup_insert_ne. Qed.

Lemma nd_recycle_eq r st :
  nd (recycle r st) r = mkNode (isFree (nd st r)) (order (nd st r)) (offset (nd st r))
    (firstFreeNode st) (rightChild (nd st r)) (-1).
Proof. unfold recycle. by rewrite nd_set_nodes, lookup_insert_eq. Qed.

Lemma recycle_spec r st u :
  pool st (r :: u) → isFree (nd st r) = true → pool (recycle r st) u ∧ same st (recycle r st).
Proof.
  intros (fl & H1 & H2 & H3 & H4) Hf. split; [|done].
  simpl in H2. apply list.NoDup_cons in H2 as [Hr H2]. apply list.NoDup_app in H2 as (N1 & N2 & N3).
  exists (r :: fl). cbn [flist]. rewrite nd_recycle_eq. split_and!; simpl; try lia; try done.
  - eapply flist_ext; [|exact H1]. intros j Hj. apply nd_recycle_ne. intros ->. set_solver.
  - apply list.NoDup_app. split_and!; [done|set_solver|]. apply list.NoDup_cons. set_solver.
  - intros i. rewrite <- H3. set_solver.
Qed.

Lemma shl1 o : 0 ≤ o < 64 → u64 (Z.shiftl 1 o) = 2 ^ o.
Proof.
  intros Ho. rewrite Z.shiftl_mul_pow2 by lia. unfold u64. rewrite wrap_small; [lia|].
  pose proof (Z.pow_lt_mono_r 2 o 64). pose proof (Z.pow_pos_nonneg 2 o). lia.
Qed.

Lemma pow2_half o : 0 < o → 2 ^ o = 2 ^ (o - 1) + 2 ^ (o - 1) ∧ 0 < 2 ^ (o - 1).
Proof.
  intros Ho. replace o with (Z.succ (o - 1)) at 1 by lia. rewrite Z.pow_succ_r by lia.
  pose proof (Z.pow_pos_nonneg 2 (o - 1)). lia.
Qed.

(** Splitting a free-standing leaf: either the node gets two fresh leaf children, or at
    most one slot was left and nothing visible changed. *)
Lemma splitNode_spec st u i fr o off par :
  pool st u → i ∈ u → nd st i = mkNode fr o off (-1) (-1) par →
  MIN_ORDER < o < 64 → 0 ≤ off → off + 2 ^ o < 2 ^ 64 →
  let '(r, st') := splitNode i st in
  same st st' ∧
  ((r = -1 ∧ pool st' u ∧ (∀ j, j ∈ u → nd st' j = nd st j) ∧ MAX_NODES ≤ Z.of_nat (length u) + 1) ∨
   (r = 0 ∧ ∃ a b, pool st' (a :: b :: u) ∧ nd st' i = mkNode fr o off a b par ∧
     nd st' a = mkNode true (o - 1) off (-1) (-1) i ∧
     nd st' b = mkNode true (o - 1) (off + 2 ^ (o - 1)) (-1) (-1) i ∧
     (∀ j, j ∈ u → j ≠ i → nd st' j = nd st j))).
Proof.
  intros Hp Hi Hn Ho Hoff Hend. unfold MIN_ORDER in *. pose proof (pool_range _ _ _ Hp Hi).
  destruct (pow2_half o) as [E1 E2]; [lia|].
  unfold splitNode. rewrite Hn. simpl.
  destruct (Z.ltb_spec i 0); [lia|]. destruct (Z.leb_spec (nodeCount st) i); [lia|]. simpl.
  unfold MIN_ORDER. destruct (Z.leb_spec o 4); [lia|].
  rewrite shl1 by lia. unfold u64. rewrite (wrap_small 64 (off + 2 ^ (o - 1))) by lia.
  pose proof (createNode_spec (o - 1) off i st u Hp) as C1.
  destruct (createNode (o - 1) off i st) as [a st1].
  destruct C1 as [(-> & -> & El)|(Ha & Hau & Hp1 & Hn1 & Hf1 & Hs1)].
  { simpl. split; [done|]. left. split_and!; try done. lia. }
  destruct (Z.ltb_spec a 0); [lia|].
  pose proof (createNode_spec (o - 1) (off + 2 ^ (o - 1)) i st1 (a :: u) Hp1) as C2.
  destruct (createNode (o - 1) (off + 2 ^ (o - 1)) i st1) as [b st2].
  destruct C2 as [(-> & -> & El)|(Hb & Hbu & Hp2 & Hn2 & Hf2 & Hs2)]; simpl.
  - destruct (recycle_spec a st1 u Hp1) as [Hp3 Hs3]; [by rewrite Hn1|].
    split; [by eapply same_trans|]. left. split_and!; try done.
    + intros j Hj. rewrite nd_recycle_ne, Hf1 by (intros ->; done). done.
    + simpl in El. lia.
  - destruct (Z.ltb_spec b 0); [lia|]. apply not_elem_of_cons in Hbu as [Hab Hbu].
    assert (i ≠ a) by (intros ->; done). assert (i ≠ b) by (intros ->; done).
    split; [by eapply same_trans|]. right. split; [done|]. exists a, b. split_and!.
    + apply pool_upd; [|set_solver]. by rewrite (Permutation_swap b a).
    + by rewrite nd_upd_eq, Hf2, Hf1, Hn by done.
    + by rewrite nd_upd_ne, Hf2, Hn1 by done.
    + by rewrite nd_upd_ne, Hn2 by done.
    + intros j Hj Hji. rewrite nd_upd_ne, Hf2, Hf1 by (intros ->; done). done.
Qed.

Lemma updateNodeStatus_frame i st :
  same st (updateNodeStatus i st) ∧ nodeCount (updateNodeStatus i st) = nodeCount st ∧
  ∀ j, ∃ b, nd (updateNodeStatus i st) j = set_isFree b (nd st j) ∧ (j ≠ i → b = isFree (nd st j)).
Proof.
  assert (Hid : ∀ n, n = set_isFree (isFree n) n) by (by intros []).
  unfold updateNodeStatus. destruct (_ || _); [split_and!; eauto|].
  destruct (_ =? _); [split_and!; eauto|]. split; [done|]. split; [done|]. intros j.
  rewrite nd_upd. case_decide as E; [subst; eauto; eexists; split; [done|congruence]|eauto].
Qed.

Lemma updateNodeStatus_pool i st u : pool st u → i ∈ u → pool (updateNodeStatus i st) u.
Proof.
  intros Hp Hi. unfold updateNodeStatus.
  destruct (_ || _); [done|]. destruct (_ =? _); [done|]. by apply pool_upd.
Qed.

Lemma updateNodeStatus_ne i st j : j ≠ i → nd (updateNodeStatus i st) j = nd st j.
Proof.
  intros Hj. destruct (updateNodeStatus_frame i st) as (_ & _ & H).
  destruct (H j) as (b & -> & Hb). rewrite (Hb Hj). by destruct (nd st j).
Qed.

(** Refreshing the flag of an inner node does not change the tree it stands for. *)
Lemma updateNodeStatus_repr i st par o off l r :
  NoDup (indices (Node i l r)) → repr (nd st) par o off (Node i l r) →
  repr (nd (updateNodeStatus i st)) par o off (Node i l r).
Proof.
  simpl. intros [Hi Hn]%list.NoDup_cons (Ho & [b Hb] & Hl & Hr). split; [done|].
  destruct (updateNodeStatus_frame i st) as (_ & _ & H).
  split; [destruct (H i) as (b' & -> & _); rewrite Hb; by exists b'|].
  split; (eapply repr_ext; [|done]); intros j Hj; apply updateNodeStatus_ne; set_solver.
Qed.

(** ** Live blocks of a subtree *)

Fixpoint tree_ok (o : Z) (t : tree) : Prop :=
  match t with
  | Leaf _ _ => MIN_ORDER ≤ o
  | Node _ l r => MIN_ORDER < o ∧ tree_ok (o - 1) l ∧ tree_ok (o - 1) r
  end.

Lemma repr_tree_ok f t : ∀ par o off, repr f par o off t → tree_ok o t.
Proof.
  induction t as [i fr|i l IHl r IHr]; intros par o off; simpl; [tauto|].
  intros (? & _ & ? & ?). eauto.
Qed.

Lemma tree_ok_order o t : tree_ok o t → MIN_ORDER ≤ o.
Proof. destruct t; simpl; [done|lia]. Qed.

(** Blocks are powers of two, inside the subtree, aligned to their size. *)
Lemma live_bounds t : ∀ o off q s,
  tree_ok o t → live o off t !! q = Some s →
  off ≤ q ∧ q + s ≤ off + 2 ^ o ∧ ∃ k, MIN_ORDER ≤ k ≤ o ∧ s = 2 ^ k ∧ (q - off) mod s = 0.
Proof.
  induction t as [i fr|i l IHl r IHr]; intros o off q s Hok Hq; simpl in Hok, Hq.
  - destruct fr; [done|]. apply lookup_singleton_Some in Hq as [<- <-].
    split_and!; try lia. exists o. rewrite Z.sub_diag. split_and!; try lia. by apply Z.mod_0_l, Z.pow_nonzero; unfold MIN_ORDER in *; lia.
  - destruct Hok as (Ho & Hl & Hr). unfold MIN_ORDER in *. destruct (pow2_half o) as [E1 E2]; [lia|].
    apply lookup_union_Some_raw in Hq as [Hq|[_ Hq]].
    + apply IHl in Hq as (? & ? & k & ? & ? & ?); [|done]. split_and!; try lia. exists k. split_and!; lia.
    + apply IHr in Hq as (? & ? & k & ? & -> & Hm); [|done]. split_and!; try lia. exists k. split_and!; try lia.
      replace (q - off) with ((q - (off + 2 ^ (o - 1))) + 2 ^ (o - 1 - k) * 2 ^ k)
        by (rewrite <- Z.pow_add_r by lia; replace (o - 1 - k + k) with (o - 1) by lia; lia).
      rewrite Z.mod_add; [done|]. apply Z.pow_nonzero; lia.
Qed.

Lemma live_pos t o off q s : tree_ok o t → live o off t !! q = Some s → 0 < s.
Proof.
  intros Hok Hq. apply live_bounds in Hq as (_ & _ & k & ? & -> & _); [|done].
  apply Z.pow_pos_nonneg; unfold MIN_ORDER in *; lia.
Qed.

(** The two halves of an inner node have separate addresses. *)
Lemma live_halves o off l r q :
  tree_ok (o - 1) l → tree_ok (o - 1) r →
  is_Some (live (o - 1) off l !! q) → live (o - 1) (off + 2 ^ (o - 1)) r !! q = None.
Proof.
  intros Hl Hr [s Hs]. destruct (live (o - 1) _ r !! q) as [s'|] eqn:E; [|done].
  pose proof (live_pos _ _ _ _ _ Hl Hs). apply live_bounds in E as (? & _); [|done].
  apply live_bounds in Hs as (? & ? & _); [|done]. lia.
Qed.

Lemma live_not_free o off t q s : live o off t !! q = Some s → ∀ i, t ≠ Leaf i true.
Proof. intros H i ->. done. Qed.

Lemma merged_node i l r :
  (∀ j, l ≠ Leaf j true) ∨ (∀ j, r ≠ Leaf j true) → merged l → merged r → merged (Node i l r).
Proof.
  intros H Hl Hr. destruct l as [j []|], r as [k []|]; simpl in *; try tauto.
  destruct H as [H|H]; [by destruct (H j)|by destruct (H k)].
Qed.

Lemma merged_children i l r : merged (Node i l r) → merged l ∧ merged r.
Proof. destruct l as [j []|], r as [k []|]; simpl; tauto. Qed.

(** ** The search *)

Definition room (u : list Z) (o req : Z) : Prop := Z.of_nat (length u) + 2 * (o - req) ≤ MAX_NODES.

(** What a search for a block of order [req] in [t] may answer: -1, with the same blocks in
    use, and then, if the pool had room, nothing changed and no leaf fits; or a node, which
    is exactly one new block in use. *)
Definition outcome (R : Prop) (st st' : state) (o off req : Z) (t t' : tree) (r : Z) : Prop :=
  (r = -1 ∧ live o off t' = live o off t ∧
   (R → st' = st ∧ t' = t ∧ has_free o t req = false)) ∨
  (0 ≤ r ∧ ∃ q, offset (nd st' r) = q ∧ live o off t !! q = None ∧
   live o off t' = <[q := 2 ^ req]> (live o off t)).

Definition find_spec (rec : Z → Z → state → option (Z * state)) (n : Z) : Prop :=
  ∀ t par o off st ctx req,
    pool st (ctx ++ indices t) → repr (nd st) par o off t → MIN_ORDER ≤ req → o < 64 →
    0 ≤ off → off + 2 ^ o < 2 ^ 64 → Z.max 0 (o - req + 1) < n →
    ∃ r st' t', rec (idx t) req st = Some (r, st') ∧ same st st' ∧
      pool st' (ctx ++ indices t') ∧ repr (nd st') par o off t' ∧ idx t' = idx t ∧
      (∀ i, i ∈ ctx → nd st' i = nd st i) ∧
      outcome (room (ctx ++ indices t) o req) st st' o off req t t' r ∧
      (room (ctx ++ indices t) o req → merged t → merged t').

Lemma room_perm u u' o req : length u' = length u → room u o req → room u' o req.
Proof. unfold room. by intros ->. Qed.

Lemma perm_left (ctx L R : list Z) i : ctx ++ i :: L ++ R ≡ₚ (ctx ++ i :: R) ++ L.
Proof. rewrite <- app_assoc. apply Permutation_app_head. simpl. by rewrite (Permutation_app_comm L R). Qed.
Lemma perm_right (ctx L R : list Z) i : ctx ++ i :: L ++ R ≡ₚ (ctx ++ i :: L) ++ R.
Proof. by rewrite <- app_assoc. Qed.

Lemma pool_NoDup_r st ctx u : pool st (ctx ++ u) → NoDup u.
Proof. intros H%pool_NoDup. by apply list.NoDup_app in H as (_ & _ & ?). Qed.

Lemma pool_disj st ctx u i : pool st (ctx ++ u) → i ∈ ctx → i ∉ u.
Proof. intros H%pool_NoDup. apply list.NoDup_app in H as (_ & H & _). apply H. Qed.

(** Refreshing the flag after a successful search in a child. *)
Lemma finish_search st ctx par o off i l r :
  pool st (ctx ++ indices (Node i l r)) → repr (nd st) par o off (Node i l r) →
  let st' := updateNodeStatus i st in
  same st st' ∧ pool st' (ctx ++ indices (Node i l r)) ∧ repr (nd st') par o off (Node i l r) ∧
  (∀ j, j ∈ ctx → nd st' j = nd st j) ∧ (∀ j, offset (nd st' j) = offset (nd st j)).
Proof.
  intros Hp Hr st'. destruct (updateNodeStatus_frame i st) as (Hs & _ & Hf).
  split_and!.
  - done.
  - apply updateNodeStatus_pool; [done|]. simpl. set_solver.
  - apply updateNodeStatus_repr; [by eapply pool_NoDup_r|done].
  - intros j Hj. apply updateNodeStatus_ne. intros ->.
    eapply (pool_disj _ _ _ _ Hp Hj). simpl. set_solver.
  - intros j. destruct (Hf j) as (b & E & _). unfold st'. by rewrite E.
Qed.

(** The part of a search in the left child [l] (resp. right child [r]) that is the same for
    success and failure: the parent still represents a node with the new child. *)
Lemma search_left rec n i l r par o off st ctx req :
  find_spec rec n → pool st (ctx ++ indices (Node i l r)) → repr (nd st) par o off (Node i l r) →
  MIN_ORDER ≤ req → o < 64 → 0 ≤ off → off + 2 ^ o < 2 ^ 64 → Z.max 0 (o - req) < n →
  ∃ res st' l', rec (leftChild (nd st i)) req st = Some (res, st') ∧ same st st' ∧
    pool st' (ctx ++ indices (Node i l' r)) ∧ repr (nd st') par o off (Node i l' r) ∧
    (∀ j, j ∈ ctx → nd st' j = nd st j) ∧
    outcome (room (ctx ++ i :: indices r ++ indices l) (o - 1) req) st st' (o - 1) off req l l' res ∧
    (room (ctx ++ i :: indices r ++ indices l) (o - 1) req → merged l → merged l').
Proof.
  intros Hrec Hp (Ho & [b Hb] & Hl & Hr) Hreq Ho64 Hoff Hend Hn.
  destruct (pow2_half o) as [E1 E2]; [unfold MIN_ORDER in *; lia|].
  pose proof Hp as Hp'. cbn [indices] in Hp'. rewrite perm_left in Hp'.
  destruct (Hrec l i (o - 1) off st (ctx ++ i :: indices r) req Hp' Hl Hreq)
    as (res & st' & l' & Hres & Hs & Hp2 & Hl2 & Hi & Hf & Hout & Hm); [lia..|].
  exists res, st', l'. rewrite Hb. cbn [leftChild].
  rewrite <- app_assoc in Hout, Hm. cbn [app] in Hout, Hm. split_and!; try done.
  - cbn [indices]. by rewrite perm_left.
  - split; [done|]. split; [exists b; rewrite Hf by set_solver; by rewrite Hb, Hi|]. split; [done|].
    eapply repr_ext; [|exact Hr]. intros j Hj. apply Hf. set_solver.
  - intros j Hj. apply Hf. set_solver.
Qed.

Lemma search_right rec n i l r par o off st ctx req :
  find_spec rec n → pool st (ctx ++ indices (Node i l r)) → repr (nd st) par o off (Node i l r) →
  MIN_ORDER ≤ req → o < 64 → 0 ≤ off → off + 2 ^ o < 2 ^ 64 → Z.max 0 (o - req) < n →
  ∃ res st' r', rec (rightChild (nd st i)) req st = Some (res, st') ∧ same st st' ∧
    pool st' (ctx ++ indices (Node i l r')) ∧ repr (nd st') par o off (Node i l r') ∧
    (∀ j, j ∈ ctx → nd st' j = nd st j) ∧
    outcome (room (ctx ++ i :: indices l ++ indices r) (o - 1) req) st st' (o - 1) (off + 2 ^ (o - 1)) req r r' res ∧
    (room (ctx ++ i :: indices l ++ indices r) (o - 1) req → merged r → merged r').
Proof.
  intros Hrec Hp (Ho & [b Hb] & Hl & Hr) Hreq Ho64 Hoff Hend Hn.
  destruct (pow2_half o) as [E1 E2]; [unfold MIN_ORDER in *; lia|].
  pose proof Hp as Hp'. cbn [indices] in Hp'. rewrite perm_right in Hp'.
  destruct (Hrec r i (o - 1) (off + 2 ^ (o - 1)) st (ctx ++ i :: indices l) req Hp' Hr Hreq)
    as (res & st' & r' & Hres & Hs & Hp2 & Hr2 & Hi & Hf & Hout & Hm); [lia..|].
  exists res, st', r'. rewrite Hb. cbn [rightChild].
  rewrite <- app_assoc in Hout, Hm. cbn [app] in Hout, Hm. split_and!; try done.
  - cbn [indices]. by rewrite perm_right.
  - split; [done|]. split; [exists b; rewrite Hf by set_solver; by rewrite Hb, Hi|]. split; [|done].
    eapply repr_ext; [|exact Hl]. intros j Hj. apply Hf. set_solver.
  - intros j Hj. apply Hf. set_solver.
Qed.

Lemma live_insert_left o off i l r l' q s :
  live (o - 1) off l' = <[q := s]> (live (o - 1) off l) →
  live o off (Node i l' r) = <[q := s]> (live o off (Node i l r)).
Proof. simpl. intros ->. by rewrite insert_union_l. Qed.

Lemma live_insert_right o off i l r r' q s :
  tree_ok (o - 1) l → tree_ok (o - 1) r' →
  live (o - 1) (off + 2 ^ (o - 1)) r' = <[q := s]> (live (o - 1) (off + 2 ^ (o - 1)) r) →
  live o off (Node i l r') = <[q := s]> (live o off (Node i l r)) ∧ live (o - 1) off l !! q = None.
Proof.
  intros Hl Hr E. simpl. rewrite E.
  assert (Hq : live (o - 1) off l !! q = None).
  { destruct (live (o - 1) off l !! q) eqn:El; [|done].
    pose proof (live_halves o off l r' q Hl Hr (mk_is_Some _ _ El)) as H.
    by rewrite E, lookup_insert_eq in H. }
  split; [|done]. by rewrite insert_union_r.
Qed.

Lemma search_children_spec rec n i l r par o off st ctx req :
  find_spec rec n → pool st (ctx ++ indices (Node i l r)) → repr (nd st) par o off (Node i l r) →
  MIN_ORDER ≤ req → o < 64 → 0 ≤ off → off + 2 ^ o < 2 ^ 64 → Z.max 0 (o - req) < n →
  ∃ res st' l' r', search_children rec i req st = Some (res, st') ∧ same st st' ∧
    pool st' (ctx ++ indices (Node i l' r')) ∧ repr (nd st') par o off (Node i l' r') ∧
    (∀ j, j ∈ ctx → nd st' j = nd st j) ∧
    outcome (room (ctx ++ indices (Node i l r)) (o - 1) req) st st' o off req (Node i l r) (Node i l' r') res ∧
    (room (ctx ++ indices (Node i l r)) (o - 1) req → res ≠ -1 → merged l → merged r → merged (Node i l' r')).
Proof.
  intros Hrec Hp Hr Hreq Ho64 Hoff Hend Hn. unfold search_children.
  destruct (search_left rec n i l r par o off st ctx req)
    as (res & st1 & l' & E1 & S1 & P1 & R1 & F1 & O1 & M1); try done.
  rewrite E1. cbn [mbind option_bind].
  assert (Hc1 : room (ctx ++ indices (Node i l r)) (o - 1) req → room (ctx ++ i :: indices r ++ indices l) (o - 1) req).
  { apply room_perm. cbn [indices]. rewrite !length_app. simpl. rewrite !length_app. lia. }
  destruct O1 as [(-> & L1 & Rm1)|(Hpos & q & Q1 & Q2 & Q3)]; cycle 1.
  - destruct (Z.eqb_spec res (-1)); [lia|]. cbn [negb].
    destruct (finish_search st1 ctx par o off i l' r P1 R1) as (Sf & Pf & Rf & Ff & Of).
    eexists res, _, l', r. split; [done|]. split; [by eapply same_trans|]. split_and!; try done.
    + intros j Hj. rewrite Ff by done. by apply F1.
    + right. split; [lia|]. exists q. rewrite Of. split; [done|].
      pose proof R1 as (_ & _ & T1 & T2). apply repr_tree_ok in T1, T2.
      split; [|by apply live_insert_left]. simpl. apply lookup_union_None. split; [done|].
      apply (live_halves o off l' r q); [done|done|]. rewrite Q3, lookup_insert_eq. done.
    + intros Hroom _ Hml Hmr. apply merged_node; [|auto|done]. left.
      apply (live_not_free (o - 1) off l' q (2 ^ req)). by rewrite Q3, lookup_insert_eq.
  - cbn [negb Z.eqb Pos.eqb].
    destruct (search_right rec n i l' r par o off st1 ctx req)
      as (res & st2 & r' & E2 & S2 & P2 & R2 & F2 & O2 & M2); try done.
    rewrite E2. cbn [mbind option_bind].
    assert (Hc2 : room (ctx ++ indices (Node i l r)) (o - 1) req →
                  room (ctx ++ i :: indices l' ++ indices r) (o - 1) req).
    { intros Hroom. destruct (Rm1 (Hc1 Hroom)) as (_ & -> & _). revert Hroom.
      apply room_perm. done. }
    destruct O2 as [(-> & L2 & Rm2)|(Hpos & q & Q1 & Q2 & Q3)]; cycle 1.
    + destruct (Z.eqb_spec res (-1)); [lia|]. cbn [negb].
      destruct (finish_search st2 ctx par o off i l' r' P2 R2) as (Sf & Pf & Rf & Ff & Of).
      eexists res, _, l', r'. split; [done|].
      split; [eapply same_trans; [done|]; by eapply same_trans|]. split_and!; try done.
      * intros j Hj. rewrite Ff, F2, F1 by done. done.
      * right. split; [lia|]. exists q. rewrite Of. split; [done|].
        pose proof R2 as (_ & _ & T1 & T2). apply repr_tree_ok in T1, T2.
        destruct (live_insert_right o off i l' r r' q (2 ^ req) T1 T2 Q3) as [G1 G2].
        simpl in G1 |- *. rewrite L1 in *. split; [|done]. by apply lookup_union_None.
      * intros Hroom _ Hml Hmr. apply merged_node; [| |by apply M2; auto].
        { right. apply (live_not_free (o - 1) (off + 2 ^ (o - 1)) r' q (2 ^ req)).
          by rewrite Q3, lookup_insert_eq. }
        apply M1; auto.
    + cbn [negb Z.eqb Pos.eqb]. eexists (-1), st2, l', r'. split; [done|].
      split; [by eapply same_trans|]. split_and!; try done.
      * intros j Hj. rewrite F2, F1 by done. done.
      * left. split; [done|]. split; [simpl; by rewrite L1, L2|]. intros Hroom.
        destruct (Rm1 (Hc1 Hroom)) as (-> & -> & H1). destruct (Rm2 (Hc2 Hroom)) as (-> & -> & H2).
        simpl. by rewrite H1, H2.
Qed.

(** What one call of the search establishes, as a predicate on its result. *)
Definition found (st : state) (ctx : list Z) (par o off req : Z) (t : tree)
    (res : option (Z * state)) : Prop :=
  ∃ r st' t', res = Some (r, st') ∧ same st st' ∧
    pool st' (ctx ++ indices t') ∧ repr (nd st') par o off t' ∧ idx t' = idx t ∧
    (∀ i, i ∈ ctx → nd st' i = nd st i) ∧
    outcome (room (ctx ++ indices t) o req) st st' o off req t t' r ∧
    (room (ctx ++ indices t) o req → merged t → merged t').

(** The search in a free leaf that is too large: split it and search the halves. *)
Lemma split_leaf rec n i par o off st ctx req :
  find_spec rec n → pool st (ctx ++ [i]) → nd st i = mkNode true o off (-1) (-1) par →
  MIN_ORDER ≤ req → req < o < 64 → 0 ≤ off → off + 2 ^ o < 2 ^ 64 → o - req < n →
  found st ctx par o off req (Leaf i true) (trySplitAndAllocate rec i req st).
Proof.
  intros Hrec Hp Hn Hreq Ho Hoff Hend Hfuel. unfold trySplitAndAllocate. rewrite Hn. cbn [isFree negb].
  assert (Hi : i ∈ ctx ++ [i]) by set_solver.
  pose proof (splitNode_spec st (ctx ++ [i]) i true o off par Hp Hi Hn ltac:(lia) Hoff Hend) as HS.
  destruct (splitNode i st) as [r st1]. destruct HS as (S1 & [(-> & P1 & F1 & Hfull)|(-> & a & b & P1 & Ni & Na & Nb & F1)]).
  - exists (-1), st1, (Leaf i true). rewrite length_app in Hfull. cbn [length] in Hfull.
    split_and!; try done.
    + split; [lia|]. by rewrite F1.
    + intros j Hj. apply F1. set_solver.
    + left. split_and!; try done. unfold room. rewrite length_app. cbn [indices length]. lia.
  - cbn [Z.ltb Z.compare].
    assert (P2 : pool st1 (ctx ++ indices (Node i (Leaf a true) (Leaf b true)))).
    { revert P1. apply pool_proper. cbn [indices app]. solve_Permutation. }
    assert (R2 : repr (nd st1) par o off (Node i (Leaf a true) (Leaf b true))).
    { cbn [repr idx]. split_and!; try lia; try done. by exists true. }
    assert (Hctx : ∀ j, j ∈ ctx → j ≠ i).
    { intros j Hj ->. apply pool_NoDup, list.NoDup_app in Hp as (_ & N & _). apply (N i Hj). set_solver. }
    destruct (search_children_spec rec n i (Leaf a true) (Leaf b true) par o off st1 ctx req)
      as (res & st2 & l' & r' & E2 & S2 & P3 & R3 & F2 & O2 & M2); try done; try lia.
    assert (Hroom : room (ctx ++ [i]) o req → room (ctx ++ indices (Node i (Leaf a true) (Leaf b true))) (o - 1) req).
    { unfold room. rewrite !length_app. cbn [indices app length]. lia. }
    exists res, st2, (Node i l' r'). split; [done|]. split; [by eapply same_trans|]. split_and!; try done.
    + intros j Hj. rewrite F2, F1 by (try apply Hctx; set_solver). done.
    + destruct O2 as [(-> & L2 & Rm)|(Hpos & q & Q1 & Q2 & Q3)].
      * left. split; [done|]. split; [by rewrite L2|]. intros Hr%Hroom.
        destruct (Rm Hr) as (_ & _ & Hf). cbn [has_free] in Hf.
        destruct (Z.leb_spec req (o - 1)); [done|lia].
      * right. split; [done|]. exists q. split; [done|]. split; [done|]. by rewrite Q3.
    + intros Hr%Hroom _. apply M2; try done. intros ->.
      destruct O2 as [(_ & _ & Rm)|(Hpos & _)]; [|lia].
      destruct (Rm Hr) as (_ & _ & Hf). cbn [has_free] in Hf.
      destruct (Z.leb_spec req (o - 1)); [done|lia].
Qed.

(** The search in a leaf. *)
Lemma find_leaf rec n i fr par o off st ctx req :
  find_spec rec n → pool st (ctx ++ [i]) → nd st i = mkNode fr o off (-1) (-1) par →
  MIN_ORDER ≤ req → req ≤ o < 64 → 0 ≤ off → off + 2 ^ o < 2 ^ 64 → o - req < n →
  found st ctx par o off req (Leaf i fr)
    (let '(exactResult, st1) := tryAllocateExactSize i req st in
     if negb (exactResult =? -1) then Some (exactResult, st1)
     else if leftChild (nd st1 i) =? -1 then trySplitAndAllocate rec i req st1
     else search_children rec i req st1).
Proof.
  intros Hrec Hp Hn Hreq Ho Hoff Hend Hfuel. unfold tryAllocateExactSize. rewrite Hn.
  cbn [order leftChild isFree Z.eqb Pos.eqb]. rewrite andb_true_r.
  pose proof (pool_range st _ i Hp ltac:(set_solver)) as Hi.
  assert (Hmiss : fr = false → found st ctx par o off req (Leaf i fr) (Some (-1, st))).
  { intros ->. exists (-1), st, (Leaf i false). split_and!; try done; [split; [lia|done]|]. left. done. }
  destruct (Z.eqb_spec o req) as [->|Hne], fr; cbn [negb Z.eqb Pos.eqb].
  - destruct (Z.eqb_spec i (-1)); [lia|]. cbn [negb].
    eexists i, _, (Leaf i false). split; [done|]. split; [done|]. split_and!.
    + apply pool_upd; [done|set_solver].
    + split; [lia|]. rewrite nd_upd_eq, Hn. done.
    + done.
    + intros j Hj. apply nd_upd_ne. intros ->. apply (pool_disj _ _ _ _ Hp Hj). set_solver.
    + right. split; [lia|]. exists off. rewrite nd_upd_eq, Hn. split_and!; done.
    + done.
  - rewrite Hn. cbn [leftChild Z.eqb Pos.eqb]. unfold trySplitAndAllocate. rewrite Hn. by apply Hmiss.
  - rewrite Hn. cbn [leftChild Z.eqb Pos.eqb]. eapply split_leaf; try done. lia.
  - rewrite Hn. cbn [leftChild Z.eqb Pos.eqb]. unfold trySplitAndAllocate. rewrite Hn. by apply Hmiss.
Qed.

Lemma has_free_small t : ∀ o req, o < req → has_free o t req = false.
Proof.
  induction t as [i fr|i l IHl r IHr]; intros o req H; simpl.
  - destruct (Z.leb_spec req o); [lia|]. apply andb_false_r.
  - by rewrite IHl, IHr by lia.
Qed.

(** The recursive search, at every fuel that covers the remaining orders. *)
Lemma find_correct fuel : find_spec (findAndAllocate fuel) (Z.of_nat fuel).
Proof.
  induction fuel as [|fuel IH]; intros t par o off st ctx req Hp Hr Hreq Ho Hoff Hend Hn; [lia|].
  pose proof (pool_range st _ (idx t) Hp ltac:(apply elem_of_app; right; apply idx_in)) as Hi.
  destruct (repr_root _ _ _ _ _ Hr) as (Eo & Eoff & Ep). pose proof (repr_order _ _ _ _ _ Hr) as Hmin.
  cbn [findAndAllocate].
  destruct (Z.ltb_spec (idx t) 0); [lia|]. destruct (Z.leb_spec (nodeCount st) (idx t)); [lia|]. cbn [orb].
  rewrite Eo. destruct (Z.ltb_spec o req) as [Hlt|Hge].
  { exists (-1), st, t. split_and!; try done. left. split_and!; try done. intros _.
    split_and!; try done. by apply has_free_small. }
  destruct t as [i fr|i l r].
  - destruct Hr as [Hlo Hn1]. cbn [idx]. eapply find_leaf; try done; lia.
  - pose proof Hr as (Hlo & [b Hb] & _). cbn [idx] in *.
    assert (Hli : 0 ≤ idx l).
    { apply (pool_range st _ (idx l) Hp). cbn [indices]. pose proof (idx_in l). set_solver. }
    unfold tryAllocateExactSize. rewrite Hb. cbn [leftChild].
    destruct (Z.eqb_spec (idx l) (-1)); [lia|]. rewrite andb_false_r. cbn [negb Z.eqb Pos.eqb].
    rewrite Hb. cbn [leftChild]. destruct (Z.eqb_spec (idx l) (-1)); [lia|].
    destruct (search_children_spec (findAndAllocate fuel) (Z.of_nat fuel) i l r par o off st ctx req)
      as (res & st2 & l' & r' & E2 & S2 & P3 & R3 & F2 & O2 & M2); try done; try lia.
    assert (Hroom : room (ctx ++ indices (Node i l r)) o req → room (ctx ++ indices (Node i l r)) (o - 1) req).
    { unfold room. lia. }
    exists res, st2, (Node i l' r'). split_and!; try done.
    + destruct O2 as [(-> & L2 & Rm)|?]; [left; auto|by right].
    + intros Hrm Hmg. pose proof (merged_children _ _ _ Hmg) as [Hml Hmr].
      destruct O2 as [(-> & L2 & Rm)|(? & _)]; [|apply M2; auto; lia].
      by destruct (Rm (Hroom Hrm)) as (_ & -> & _).
Qed.

(** ** Orders *)

Lemma getOrder_loop_spec fuel : ∀ size mo o,
  MIN_ORDER ≤ o → o ≤ mo < 64 → mo - o < Z.of_nat fuel →
  (o = MIN_ORDER ∨ 2 ^ (o - 1) < size) →
  let k := getOrder_loop fuel size mo o in
  o ≤ k ≤ mo ∧ (size ≤ 2 ^ k ∨ k = mo) ∧ (k = MIN_ORDER ∨ 2 ^ (k - 1) < size).
Proof.
  unfold MIN_ORDER. induction fuel as [|fuel IH]; intros size mo o Ho Hmo Hf Hs; [lia|].
  cbn [getOrder_loop]. rewrite shl1 by lia.
  destruct (Z.ltb_spec (2 ^ o) size), (Z.ltb_spec o mo); cbn [andb].
  - destruct (IH size mo (o + 1)) as (? & ? & ?); [lia..|replace (o + 1 - 1) with o by lia; lia|].
    split; [lia|]. done.
  - split; [lia|]. split; [right; lia|done].
  - split; [lia|]. split; [left; lia|done].
  - split; [lia|]. split; [left; lia|done].
Qed.

(** [getOrder] answers the least order whose block holds [size], capped by the heap's. *)
Lemma getOrder_spec size st : MIN_ORDER ≤ maxOrder st < 64 →
  let k := getOrder size st in
  MIN_ORDER ≤ k ≤ maxOrder st ∧ (size ≤ 2 ^ k ∨ k = maxOrder st) ∧ (k = MIN_ORDER ∨ 2 ^ (k - 1) < size).
Proof.
  intros H. unfold getOrder. apply getOrder_loop_spec; unfold MIN_ORDER in *; [lia|lia|lia|by left].
Qed.

(** ** Trees with a hole *)

Inductive frame := FL (i : Z) (r : tree) | FR (i : Z) (l : tree).

Fixpoint plug (fs : list frame) (t : tree) : tree :=
  match fs with
  | [] => t
  | FL i r :: fs => plug fs (Node i t r)
  | FR i l :: fs => plug fs (Node i l t)
  end.

(** The nodes [f] hold the frames around a hole of index [h], order [o], offset [off]. *)
Fixpoint rctx (f : Z → BuddyNode) (O : Z) (fs : list frame) (h par o off : Z) : Prop :=
  match fs with
  | [] => par = -1 ∧ o = O ∧ off = 0
  | FL i r :: fs =>
    par = i ∧ MIN_ORDER ≤ o ∧ repr f i o (off + 2 ^ o) r ∧
    ∃ b p, f i = mkNode b (o + 1) off h (idx r) p ∧ rctx f O fs i p (o + 1) off
  | FR i l :: fs =>
    par = i ∧ MIN_ORDER ≤ o ∧ repr f i o (off - 2 ^ o) l ∧
    ∃ b p, f i = mkNode b (o + 1) (off - 2 ^ o) (idx l) h p ∧ rctx f O fs i p (o + 1) (off - 2 ^ o)
  end.

Fixpoint cindices (fs : list frame) : list Z :=
  match fs with
  | [] => []
  | FL i r :: fs => i :: indices r ++ cindices fs
  | FR i l :: fs => i :: indices l ++ cindices fs
  end.

Lemma plug_indices fs : ∀ t, indices (plug fs t) ≡ₚ indices t ++ cindices fs.
Proof.
  induction fs as [|[i r|i l] fs IH]; intros t; cbn [plug cindices]; [by rewrite app_nil_r|..];
    rewrite IH; cbn [indices]; solve_Permutation.
Qed.

Lemma plug_idx fs : ∀ t t', idx t = idx t' → idx (plug fs t) = idx (plug fs t').
Proof. induction fs as [|[i r|i l] fs IH]; intros t t' E; simpl; auto. Qed.

Lemma plug_app fs fs' : ∀ t, plug (fs ++ fs') t = plug fs' (plug fs t).
Proof. induction fs as [|[i r|i l] fs IH]; intros t; simpl; auto. Qed.

Lemma repr_plug f O fs : ∀ t, repr f (-1) O 0 (plug fs t) →
  ∃ par o off, rctx f O fs (idx t) par o off ∧ repr f par o off t.
Proof.
  induction fs as [|[i r|i l] fs IH]; intros t Hr; cbn [plug] in Hr.
  - by exists (-1), O, 0.
  - apply IH in Hr as (par & o & off & Hc & Ho & [b Hb] & Hl & Hr). unfold MIN_ORDER in *.
    exists i, (o - 1), off. split; [|done]. cbn [rctx]. replace (o - 1 + 1) with o by lia.
    split_and!; [done|unfold MIN_ORDER; lia|done|]. by exists b, par.
  - apply IH in Hr as (par & o & off & Hc & Ho & [b Hb] & Hl & Hr). unfold MIN_ORDER in *.
    exists i, (o - 1), (off + 2 ^ (o - 1)). split; [|done]. cbn [rctx].
    replace (off + 2 ^ (o - 1) - 2 ^ (o - 1)) with off by lia. replace (o - 1 + 1) with o by lia.
    split_and!; [done|unfold MIN_ORDER; lia|done|]. by exists b, par.
Qed.

Lemma plug_repr f O fs : ∀ t par o off, rctx f O fs (idx t) par o off → repr f par o off t →
  repr f (-1) O 0 (plug fs t).
Proof.
  induction fs as [|[i r|i l] fs IH]; intros t par o off Hc Ht; cbn [plug rctx] in *.
  - by destruct Hc as (-> & -> & ->).
  - destruct Hc as (-> & Ho & Hr & b & p & Hb & Hc). unfold MIN_ORDER in *.
    eapply IH; [exact Hc|]. cbn [repr]. replace (o + 1 - 1) with o by lia.
    split_and!; [unfold MIN_ORDER; lia|by exists b|done|done].
  - destruct Hc as (-> & Ho & Hr & b & p & Hb & Hc). unfold MIN_ORDER in *.
    eapply IH; [exact Hc|]. cbn [repr]. replace (o + 1 - 1) with o by lia.
    replace (off - 2 ^ o + 2 ^ o) with off by lia.
    split_and!; [unfold MIN_ORDER; lia|by exists b|done|done].
Qed.

Lemma rctx_ext f g O fs : ∀ h par o off,
  (∀ i, i ∈ cindices fs → g i = f i) → rctx f O fs h par o off → rctx g O fs h par o off.
Proof.
  induction fs as [|[i r|i l] fs IH]; intros h par o off Hg Hc; cbn [rctx cindices] in *; [done|..];
    destruct Hc as (-> & Ho & Hr & b & p & Hb & Hc); (split; [done|]; split; [done|]; split;
      [eapply repr_ext; [|done]; intros; apply Hg; set_solver|]; exists b, p; split;
      [rewrite Hg by set_solver; done|apply IH; [|done]; intros; apply Hg; set_solver]).
Qed.

Lemma rctx_depth f O fs : ∀ h par o off, rctx f O fs h par o off → o + Z.of_nat (length fs) = O.
Proof.
  induction fs as [|[i r|i l] fs IH]; intros h par o off Hc; cbn [rctx length] in *.
  - destruct Hc as (_ & -> & _). lia.
  - destruct Hc as (_ & _ & _ & b & p & _ & Hc). apply IH in Hc. lia.
  - destruct Hc as (_ & _ & _ & b & p & _ & Hc). apply IH in Hc. lia.
Qed.

(** A block in use is a leaf that [findNodeByAddress] can find, and what it finds is one. *)
Lemma live_leaf f t : ∀ par o off q s, repr f par o off t → live o off t !! q = Some s →
  ∃ j, j ∈ indices t ∧ offset (f j) = q ∧ isFree (f j) = false ∧ leftChild (f j) = -1.
Proof.
  induction t as [i fr|i l IHl r IHr]; intros par o off q s Hr Hq; simpl in Hr, Hq.
  - destruct fr; [done|]. destruct Hr as [Ho Hi].
    apply lookup_singleton_Some in Hq as [<- <-]. exists i. rewrite Hi. split; [set_solver|done].
  - destruct Hr as (Ho & [b Hb] & Hl & Hr).
    apply lookup_union_Some_raw in Hq as [Hq|[_ Hq]];
      [apply (IHl _ _ _ _ _ Hl) in Hq|apply (IHr _ _ _ _ _ Hr) in Hq];
      destruct Hq as (j & Hj & ?); exists j; simpl; (split; [set_solver|done]).
Qed.

Lemma used_leaf f t : ∀ par o off j, repr f par o off t → (∀ k, k ∈ indices t → 0 ≤ k) →
  j ∈ indices t → isFree (f j) = false → leftChild (f j) = -1 →
  ∃ fs, t = plug fs (Leaf j false) ∧ live o off t !! offset (f j) = Some (2 ^ order (f j)).
Proof.
  induction t as [i fr|i l IHl r IHr]; intros par o off j Hr Hpos Hj Hfree Hleaf; cbn [indices] in *.
  - apply list_elem_of_singleton in Hj as ->. destruct Hr as [Ho Hi]. rewrite Hi in *. simpl in *. subst fr.
    exists []. split; [done|]. apply lookup_singleton_eq.
  - pose proof (repr_tree_ok _ _ _ _ _ Hr) as (Ho & Okl & Okr). destruct Hr as (_ & [b Hb] & Hl & Hr).
    apply elem_of_cons in Hj as [->|Hj].
    { rewrite Hb in Hleaf. simpl in Hleaf. pose proof (Hpos (idx l) ltac:(pose proof (idx_in l); set_solver)). lia. }
    apply elem_of_app in Hj as [Hj|Hj].
    + destruct (IHl _ _ _ j Hl) as (fs & -> & E); try done; [intros; apply Hpos; set_solver|].
      exists (fs ++ [FL i r]). rewrite plug_app. split; [done|]. simpl. by apply lookup_union_Some_l.
    + destruct (IHr _ _ _ j Hr) as (fs & -> & E); try done; [intros; apply Hpos; set_solver|].
      exists (fs ++ [FR i l]). rewrite plug_app. split; [done|]. cbn [live].
      rewrite lookup_union_r; [done|].
      destruct (live (o - 1) off l !! _) eqn:El; [|done].
      pose proof (live_halves _ _ _ _ _ Okl Okr (mk_is_Some _ _ El)). congruence.
Qed.

(** ** Replacing the hole *)

Lemma plug_live_cong fs : ∀ o off t t',
  (∀ o off, live o off t' = live o off t) → live o off (plug fs t') = live o off (plug fs t).
Proof.
  induction fs as [|[i r|i l] fs IH]; intros o off t t' H; cbn [plug]; [done|apply IH..];
    intros; cbn [live]; by rewrite H.
Qed.

Lemma plug_live_delete f O q fs : ∀ t t' par o off,
  rctx f O fs (idx t) par o off → repr f par o off t → off ≤ q < off + 2 ^ o →
  live o off t' = delete q (live o off t) →
  live O 0 (plug fs t') = delete q (live O 0 (plug fs t)).
Proof.
  induction fs as [|[i r|i l] fs IH]; intros t t' par o off Hc Ht Hq E; cbn [plug rctx] in *.
  - by destruct Hc as (_ & -> & ->).
  - destruct Hc as (-> & Ho & Hr & b & p & Hb & Hc). unfold MIN_ORDER in *.
    pose proof (Z.pow_succ_r 2 o ltac:(lia)) as Ep. replace (Z.succ o) with (o + 1) in Ep by lia.
    eapply IH; [exact Hc| |lia|].
    + cbn [repr]. replace (o + 1 - 1) with o by lia. split_and!; [unfold MIN_ORDER; lia|by exists b|done|done].
    + cbn [live]. replace (o + 1 - 1) with o by lia. rewrite E, delete_union. f_equal.
      symmetry. apply delete_id. destruct (live o (off + 2 ^ o) r !! q) eqn:El; [|done].
      apply live_bounds in El; [lia|by eapply repr_tree_ok].
  - destruct Hc as (-> & Ho & Hr & b & p & Hb & Hc). unfold MIN_ORDER in *.
    pose proof (Z.pow_succ_r 2 o ltac:(lia)) as Ep. replace (Z.succ o) with (o + 1) in Ep by lia.
    eapply IH; [exact Hc| |lia|].
    + cbn [repr]. replace (o + 1 - 1) with o by lia. replace (off - 2 ^ o + 2 ^ o) with off by lia.
      split_and!; [unfold MIN_ORDER; lia|by exists b|done|done].
    + cbn [live]. replace (o + 1 - 1) with o by lia. replace (off - 2 ^ o + 2 ^ o) with off by lia.
      rewrite E, delete_union. f_equal.
      symmetry. apply delete_id. destruct (live o (off - 2 ^ o) l !! q) eqn:El; [|done].
      pose proof (live_pos _ _ _ _ _ (repr_tree_ok _ _ _ _ _ Hr) El).
      apply live_bounds in El; [lia|by eapply repr_tree_ok].
Qed.

(** What [tryMerge] leaves of a free leaf in its frames. *)
Fixpoint climb (fs : list frame) (h : Z) : tree :=
  match fs with
  | FL i (Leaf _ true) :: fs => climb fs i
  | FR i (Leaf _ true) :: fs => climb fs i
  | fs => plug fs (Leaf h true)
  end.

Lemma climb_live O fs : ∀ h, live O 0 (climb fs h) = live O 0 (plug fs (Leaf h true)).
Proof.
  assert (∀ i a b, ∀ o off, live o off (Leaf i true) = live o off (Node i (Leaf a true) (Leaf b true))) by done.
  induction fs as [|[i [j []|j l r]|i [j []|j l r]] fs IH]; intros h; try done; cbn [climb plug];
    rewrite IH; by apply plug_live_cong.
Qed.

Fixpoint cmerged (fs : list frame) : Prop :=
  match fs with
  | [] => True
  | FL _ t :: fs | FR _ t :: fs => merged t ∧ cmerged fs
  end.

Lemma plug_cmerged fs : ∀ t, merged (plug fs t) → cmerged fs ∧ merged t.
Proof.
  induction fs as [|[i r|i l] fs IH]; intros t H; cbn [plug cmerged] in *; [done|..];
    apply IH in H as [? [? ?]%merged_children]; done.
Qed.

Lemma cmerged_plug fs : ∀ t, cmerged fs → merged t → (∀ j, t ≠ Leaf j true) → merged (plug fs t).
Proof.
  induction fs as [|[i r|i l] fs IH]; intros t Hc Hm Hn; cbn [plug cmerged] in *; [done|..];
    (apply IH; [tauto|apply merged_node; tauto|done]).
Qed.

Lemma climb_merged fs : ∀ h, cmerged fs → merged (climb fs h).
Proof.
  induction fs as [|[i [j []|j l r]|i [j []|j l r]] fs IH]; intros h Hc; try done; cbn [climb plug];
    cbn [cmerged] in Hc; first [apply IH; tauto | apply (cmerged_plug fs); [tauto| |done]];
      try (apply merged_node; [|done || tauto|done || tauto]).
  all: (right; done) || (left; done).
Qed.

(** ** The manager's invariant *)

Definition wf (st : state) (t : tree) : Prop :=
  repr (nd st) (-1) (maxOrder st) 0 t ∧ idx t = rootIndex st ∧ pool st (indices t) ∧
  maxOrder st < 64 ∧ 0 < minAddress st ∧ 2 ^ maxOrder st ≤ totalSize st ∧
  minAddress st + totalSize st < 2 ^ 64.

Lemma wf_order st t : wf st t → MIN_ORDER ≤ maxOrder st < 64.
Proof. intros (H & _ & _ & ? & _). apply repr_order in H. lia. Qed.

(** *** Looking an address up *)

Lemma wf_size st t : wf st t → 0 < 2 ^ maxOrder st ≤ totalSize st ∧ 0 < minAddress st ∧
  minAddress st + totalSize st < 2 ^ 64.
Proof.
  intros H. pose proof (wf_order _ _ H). destruct H as (_ & _ & _ & _ & ? & ? & ?). unfold MIN_ORDER in *.
  pose proof (Z.pow_pos_nonneg 2 (maxOrder st)). lia.
Qed.

Lemma wf_indices st t i : wf st t → i ∈ indices t → 0 ≤ i < nodeCount st.
Proof. intros (_ & _ & H & _). by apply pool_range. Qed.

(** [findNodeByAddress] as a search of the block [p - minAddress]. *)
Lemma find_node_unfold st t p : wf st t →
  findNodeByAddress p st =
    if decide (minAddress st ≤ p < minAddress st + totalSize st) then
      default (-1) (List.find (λ i, (offset (nd st i) =? p - minAddress st) && negb (isFree (nd st i)) &&
                          (leftChild (nd st i) =? -1)) (seqZ 0 (nodeCount st)))
    else -1.
Proof.
  intros Hwf. pose proof (wf_size _ _ Hwf). unfold findNodeByAddress, u64.
  rewrite (wrap_small 64 (minAddress st + totalSize st)) by lia.
  destruct (Z.ltb_spec p (minAddress st)), (Z.leb_spec (minAddress st + totalSize st) p); simpl;
    case_decide; try lia; try done.
  rewrite (wrap_small 64 (p - minAddress st)) by lia. by destruct (List.find _ _).
Qed.

Lemma find_node_Some st t p :
  wf st t → 0 ≤ findNodeByAddress p st →
  let j := findNodeByAddress p st in
  minAddress st ≤ p ∧ j ∈ indices t ∧ offset (nd st j) = p - minAddress st ∧
  isFree (nd st j) = false ∧ leftChild (nd st j) = -1.
Proof.
  intros Hwf Hj j. unfold j in *. clear j. rewrite (find_node_unfold st t p Hwf) in *.
  case_decide; [|lia]. destruct (List.find _ _) as [k|] eqn:E; simpl in *; [|lia].
  apply List.find_some in E as [Ek E]. rewrite !andb_true_iff, negb_true_iff in E.
  destruct E as [[E1%Z.eqb_eq E2] E3%Z.eqb_eq]. split; [lia|]. split; [|done].
  destruct Hwf as (_ & _ & (fl & F1 & F2 & F3 & F4) & _).
  apply list_elem_of_In, elem_of_seqZ in Ek.
  assert (Hk : k ∈ indices t ++ fl) by (apply F3; lia).
  apply elem_of_app in Hk as [Hk|Hk]; [done|]. exfalso.
  assert (∀ ff, flist (nd st) ff fl → isFree (nd st k) = true) as Hfl; [|by rewrite (Hfl _ F1) in E2].
  clear -Hk. induction fl as [|i fl IH]; [set_solver|]. intros ff (-> & Hf & Hl).
  apply elem_of_cons in Hk as [->|Hk]; [done|]. by eapply IH.
Qed.

Lemma find_node_live st t p s :
  wf st t → live (maxOrder st) 0 t !! (p - minAddress st) = Some s → 0 ≤ findNodeByAddress p st.
Proof.
  intros Hwf Hl. pose proof (wf_size _ _ Hwf). pose proof Hwf as (Hr & _).
  pose proof (live_pos _ _ _ _ _ (repr_tree_ok _ _ _ _ _ Hr) Hl).
  destruct (live_leaf _ _ _ _ _ _ _ Hr Hl) as (j & Hj & E1 & E2 & E3).
  apply live_bounds in Hl as (? & ? & _); [|by eapply repr_tree_ok].
  pose proof (wf_indices _ _ _ Hwf Hj) as Hjr.
  rewrite (find_node_unfold st t p Hwf). rewrite decide_True by lia.
  destruct (List.find _ _) as [k|] eqn:E; simpl.
  - apply List.find_some in E as [Ek _]. apply list_elem_of_In, elem_of_seqZ in Ek. lia.
  - pose proof (List.find_none _ _ E j ltac:(apply list_elem_of_In, elem_of_seqZ; lia)) as E'.
    cbn beta in E'. by rewrite E1, E2, E3, Z.eqb_refl in E'.
Qed.

(** *** Merging *)

(** One merge: the two leaves are recycled and their parent becomes a free leaf. *)
Definition merge_step (i a b : Z) (st : state) : state :=
  upd (recycleChildNodes a b (upd st i (set_isFree true))) i (set_children (-1) (-1)).

Lemma merge_step_spec st i a b fa fb oa ob ra rb u o off par l r c :
  pool st (i :: a :: b :: u) → nd st i = mkNode c o off l r par →
  nd st a = mkNode true oa fa (-1) ra i → nd st b = mkNode true ob fb (-1) rb i →
  pool (merge_step i a b st) (i :: u) ∧ same st (merge_step i a b st) ∧
  nodeCount (merge_step i a b st) = nodeCount st ∧
  nd (merge_step i a b st) i = mkNode true o off (-1) (-1) par ∧
  ∀ j, j ≠ i → j ≠ a → j ≠ b → nd (merge_step i a b st) j = nd st j.
Proof.
  intros Hp Hi Ha Hb. pose proof (pool_NoDup _ _ Hp) as N.
  apply list.NoDup_cons in N as [N1 [N2 N]%list.NoDup_cons].
  assert (i ≠ a ∧ i ≠ b ∧ a ≠ b) as (D1 & D2 & D3) by set_solver.
  unfold merge_step, recycleChildNodes. set (s1 := upd st i (set_isFree true)).
  assert (P1 : pool s1 (a :: i :: b :: u)).
  { apply pool_upd; [|set_solver]. by rewrite (Permutation_swap i a). }
  destruct (recycle_spec a s1 _ P1) as [P2 S2]; [unfold s1; by rewrite nd_upd_ne, Ha|].
  rewrite (Permutation_swap b i) in P2.
  destruct (recycle_spec b (recycle a s1) _ P2) as [P3 S3].
  { rewrite nd_recycle_ne by done. unfold s1. by rewrite nd_upd_ne, Hb by done. }
  split; [apply pool_upd; [done|set_solver]|]. split; [done|]. split; [done|]. split.
  - rewrite nd_upd_eq, !nd_recycle_ne by done. unfold s1. by rewrite nd_upd_eq, Hi.
  - intros j ???. rewrite nd_upd_ne, !nd_recycle_ne by done. unfold s1. by rewrite nd_upd_ne.
Qed.

Lemma climb_idx fs : ∀ h, idx (climb fs h) = idx (plug fs (Leaf h true)).
Proof.
  induction fs as [|[i [j []|j l r]|i [j []|j l r]] fs IH]; intros h; try done; cbn [climb plug];
    rewrite IH; by apply plug_idx.
Qed.

(** [tryMerge] at a free leaf whose sibling is not a free leaf stops. *)
Lemma tryMerge_stop fuel h p l r st :
  0 ≤ h < nodeCount st → parent (nd st h) = p → 0 ≤ p →
  leftChild (nd st p) = l → rightChild (nd st p) = r → 0 ≤ l → 0 ≤ r →
  isFree (nd st l) && isFree (nd st r) && (leftChild (nd st l) =? -1) && (leftChild (nd st r) =? -1) = false →
  tryMerge (S fuel) h st = Some st.
Proof.
  intros Hh Hp Hp0 Hl Hr Hl0 Hr0 E. cbn [tryMerge].
  destruct (Z.ltb_spec h 0); [lia|]. destruct (Z.leb_spec (nodeCount st) h); [lia|]. cbn [orb].
  rewrite Hp. destruct (Z.ltb_spec p 0); [lia|]. rewrite Hl, Hr.
  destruct (Z.leb_spec 0 l); [|lia]. destruct (Z.leb_spec 0 r); [|lia]. cbn [andb].
  unfold mergeBuddies. by rewrite E.
Qed.

Lemma tryMerge_step fuel h p l r st :
  0 ≤ h < nodeCount st → parent (nd st h) = p → 0 ≤ p →
  leftChild (nd st p) = l → rightChild (nd st p) = r → 0 ≤ l → 0 ≤ r →
  isFree (nd st l) = true → isFree (nd st r) = true →
  leftChild (nd st l) = -1 → leftChild (nd st r) = -1 →
  tryMerge (S fuel) h st = tryMerge fuel p (merge_step p l r st).
Proof.
  intros Hh Hp Hp0 Hl Hr Hl0 Hr0 E1 E2 E3 E4. cbn [tryMerge].
  destruct (Z.ltb_spec h 0); [lia|]. destruct (Z.leb_spec (nodeCount st) h); [lia|]. cbn [orb].
  rewrite Hp. destruct (Z.ltb_spec p 0); [lia|]. rewrite Hl, Hr.
  destruct (Z.leb_spec 0 l); [|lia]. destruct (Z.leb_spec 0 r); [|lia]. cbn [andb].
  unfold mergeBuddies. by rewrite E1, E2, E3, E4.
Qed.

(** A leaf or an inner node that is not a free leaf shows it in its flag or its child. *)
Lemma not_free_leaf f par o off t : repr f par o off t → (∀ k, k ∈ indices t → 0 ≤ k) →
  (∀ j, t ≠ Leaf j true) → isFree (f (idx t)) && (leftChild (f (idx t)) =? -1) = false.
Proof.
  destruct t as [i []|i l r]; intros Hr Hpos Hn; [by destruct (Hn i)|..]; cbn [idx].
  - by destruct Hr as [_ ->].
  - destruct Hr as (_ & [b ->] & _). cbn [leftChild isFree].
    pose proof (Hpos (idx l) ltac:(cbn [indices]; pose proof (idx_in l); set_solver)).
    destruct (Z.eqb_spec (idx l) (-1)); [lia|]. apply andb_false_r.
Qed.

Definition climbed (st : state) (fs : list frame) (h : Z) (res : option state) : Prop :=
  ∃ st', res = Some st' ∧ same st st' ∧ pool st' (indices (climb fs h)) ∧
    repr (nd st') (-1) (maxOrder st) 0 (climb fs h).

Lemma climbed_same st st' fs h res : same st st' → climbed st' fs h res → climbed st fs h res.
Proof.
  intros Hs (st2 & -> & S2 & P & R). exists st2. split; [done|]. split; [by eapply same_trans|].
  split; [done|]. destruct Hs as (_ & _ & E & _). by rewrite <- E.
Qed.

Lemma free_leaf_dec t : (∃ j, t = Leaf j true) ∨ (∀ j, t ≠ Leaf j true).
Proof. destruct t as [j []|j l r]; [left; by exists j|by right..]. Qed.

Lemma climbed_stop st fs h par o off :
  rctx (nd st) (maxOrder st) fs h par o off → nd st h = mkNode true o off (-1) (-1) par → MIN_ORDER ≤ o →
  pool st (h :: cindices fs) → climb fs h = plug fs (Leaf h true) → climbed st fs h (Some st).
Proof.
  intros Hc Hh Ho Hp E. exists st. rewrite E. split_and!; [done..|by rewrite plug_indices|].
  eapply plug_repr; [exact Hc|]. by split.
Qed.

Lemma tryMerge_climb fs : ∀ fuel h par o off st,
  (length fs < fuel)%nat → rctx (nd st) (maxOrder st) fs h par o off →
  nd st h = mkNode true o off (-1) (-1) par → MIN_ORDER ≤ o →
  pool st (h :: cindices fs) → climbed st fs h (tryMerge fuel h st).
Proof.
  induction fs as [|fr fs IH]; intros fuel h par o off st Hf Hc Hh Ho Hp;
    (destruct fuel as [|fuel]; [cbn [length] in Hf; lia|]);
    pose proof (pool_range _ _ h Hp ltac:(set_solver)) as Hhr.
  - replace (tryMerge (S fuel) h st) with (Some st); [by eapply climbed_stop|].
    cbn [tryMerge]. destruct (_ || _); [done|]. rewrite Hh. by destruct Hc as (-> & _).
  - assert (Hpos : ∀ k, k ∈ cindices (fr :: fs) → 0 ≤ k).
    { intros k Hk. pose proof (pool_range _ _ k Hp ltac:(set_solver)). lia. }
    destruct fr as [i t|i t]; cbn [rctx cindices] in Hc, Hp, Hpos; pose proof Hc as (-> & _ & Ht & b & p & Hb & Hc');
      pose proof (Hpos i ltac:(set_solver)) as Hi0;
      pose proof (Hpos (idx t) ltac:(pose proof (idx_in t); set_solver)) as Ht0.
    + destruct (free_leaf_dec t) as [[j ->]|Hn].
      * destruct Ht as [_ Hj]. rewrite (tryMerge_step fuel h i h j) by (rewrite ?Hh, ?Hb, ?Hj; done || lia).
        assert (Hp1 : pool st (i :: h :: j :: cindices fs)).
        { revert Hp. apply pool_proper. cbn [indices app]. solve_Permutation. }
        destruct (merge_step_spec _ _ _ _ _ _ _ _ _ _ _ _ _ _ _ _ _ Hp1 Hb Hh Hj) as (P & S & _ & Hi & Hf').
        eapply climbed_same; [exact S|]. eapply IH; [cbn [length] in Hf; lia| |exact Hi|unfold MIN_ORDER in *; lia|exact P].
        destruct S as (_ & _ & -> & _). eapply rctx_ext; [|exact Hc'].
        apply pool_NoDup in Hp1. rewrite !list.NoDup_cons in Hp1.
        intros k Hk. apply Hf'; intros ->; set_solver.
      * rewrite (tryMerge_stop fuel h i h (idx t)); [|rewrite ?Hh, ?Hb; done || lia..|].
        -- eapply climbed_stop; try done. destruct t as [j []|j l r]; try done. by destruct (Hn j).
        -- rewrite Hh. cbn [isFree leftChild Z.eqb Pos.eqb andb]. rewrite andb_true_r.
           eapply not_free_leaf; [exact Ht| |done]. intros k Hk. apply Hpos. set_solver.
    + destruct (free_leaf_dec t) as [[j ->]|Hn].
      * destruct Ht as [_ Hj]. rewrite (tryMerge_step fuel h i j h) by (rewrite ?Hh, ?Hb, ?Hj; done || lia).
        assert (Hp1 : pool st (i :: j :: h :: cindices fs)).
        { revert Hp. apply pool_proper. cbn [indices app]. solve_Permutation. }
        destruct (merge_step_spec _ _ _ _ _ _ _ _ _ _ _ _ _ _ _ _ _ Hp1 Hb Hj Hh) as (P & S & _ & Hi & Hf').
        eapply climbed_same; [exact S|]. eapply IH; [cbn [length] in Hf; lia| |exact Hi|unfold MIN_ORDER in *; lia|exact P].
        destruct S as (_ & _ & -> & _). eapply rctx_ext; [|exact Hc'].
        apply pool_NoDup in Hp1. rewrite !list.NoDup_cons in Hp1.
        intros k Hk. apply Hf'; intros ->; set_solver.
      * rewrite (tryMerge_stop fuel h i (idx t) h); [|rewrite ?Hh, ?Hb; done || lia..|].
        -- eapply climbed_stop; try done. destruct t as [j []|j l r]; try done. by destruct (Hn j).
        -- rewrite Hh. cbn [isFree leftChild Z.eqb Pos.eqb andb]. rewrite andb_true_r.
           rewrite andb_true_r. eapply not_free_leaf; [exact Ht| |done]. intros k Hk. apply Hpos. set_solver.
Qed.

(** *** Release *)

(** Refreshing the flag of the node above the hole does not change the frames. *)
Lemma updateNodeStatus_rctx st O fs h par o off :
  NoDup (cindices fs) → rctx (nd st) O fs h par o off →
  rctx (nd (updateNodeStatus par st)) O fs h par o off.
Proof.
  destruct (updateNodeStatus_frame par st) as (_ & _ & F).
  destruct fs as [|[i t|i t] fs]; cbn [cindices rctx]; [done|..];
    intros [N1 N2]%list.NoDup_cons (-> & Ho & Ht & b & p & Hb & Hc); (split_and!; [done..| |]);
    [eapply repr_ext; [|exact Ht]; intros; apply updateNodeStatus_ne; set_solver| |
     eapply repr_ext; [|exact Ht]; intros; apply updateNodeStatus_ne; set_solver| ];
    (destruct (F i) as (b' & -> & _); rewrite Hb; exists b', p; split; [done|];
     eapply rctx_ext; [|exact Hc]; intros; apply updateNodeStatus_ne; set_solver).
Qed.

(** Freeing the leaf [j] of a well-formed tree. *)
Lemma release_spec st fs j :
  wf st (plug fs (Leaf j false)) →
  ∃ st', (let st1 := upd st j (set_isFree true) in
          let parentIdx := parent (nd st1 j) in
          let st2 := if 0 <=? parentIdx then updateNodeStatus parentIdx st1 else st1 in
          tryMerge find_fuel j st2) = Some st' ∧ same st st' ∧ wf st' (climb fs j).
Proof.
  intros Hwf. pose proof (wf_order _ _ Hwf) as Hmo. destruct Hwf as (Hr & Hi & Hp & Hw).
  rewrite plug_indices in Hp. cbn [indices app] in Hp. pose proof (pool_NoDup _ _ Hp) as [N1 N2]%list.NoDup_cons.
  apply repr_plug in Hr as (par & o & off & Hc & Ho & Hj). cbn [idx] in Hc.
  pose proof (rctx_depth _ _ _ _ _ _ _ Hc) as Hd.
  cbn beta zeta. rewrite nd_upd_eq, Hj. cbn [set_isFree parent order offset leftChild rightChild].
  set (st1 := upd st j (set_isFree true)).
  assert (Hp1 : pool st1 (j :: cindices fs)) by (apply pool_upd; [done|set_solver]).
  assert (Hj1 : nd st1 j = mkNode true o off (-1) (-1) par) by (unfold st1; by rewrite nd_upd_eq, Hj).
  assert (Hc1 : rctx (nd st1) (maxOrder st) fs j par o off).
  { eapply rctx_ext; [|exact Hc]. intros k Hk. apply nd_upd_ne. intros ->. done. }
  set (st2 := if 0 <=? par then updateNodeStatus par st1 else st1).
  assert (H2 : same st st2 ∧ pool st2 (j :: cindices fs) ∧ nd st2 j = mkNode true o off (-1) (-1) par ∧
               rctx (nd st2) (maxOrder st) fs j par o off).
  { unfold st2. destruct (Z.leb_spec 0 par); [|done].
    assert (Hpar : par ∈ cindices fs).
    { destruct fs as [|[? ?|? ?] ?]; simpl in Hc |- *; destruct Hc as (-> & _); [lia|set_solver..]. }
    split; [apply (updateNodeStatus_frame par st1)|]. split_and!.
    - apply updateNodeStatus_pool; [done|set_solver].
    - rewrite updateNodeStatus_ne; [done|]. intros ->. done.
    - by apply updateNodeStatus_rctx. }
  destruct H2 as (S2 & P2 & J2 & C2). destruct S2 as (E1 & E2 & E3 & E4). rewrite <- E3 in C2.
  destruct (tryMerge_climb fs find_fuel j par o off st2) as (st' & Es & (F1 & F2 & F3 & F4) & P & R); try done.
  { unfold find_fuel, MIN_ORDER in *. lia. }
  exists st'. split; [done|]. split; [unfold same; intuition congruence|].
  unfold wf. rewrite F1, F2, F3, F4, E1, E2, E3, E4, climb_idx, <- Hi. rewrite E3 in R.
  split_and!; try done; try apply Hw. by apply plug_idx.
Qed.

(** ** The operations *)

Lemma mem_free_spec st t p :
  wf st t →
  ∃ st' t', mem_free p st = Some st' ∧ same st st' ∧ wf st' t' ∧
    live (maxOrder st') 0 t' =
      (if decide (p = 0) then live (maxOrder st) 0 t else delete (p - minAddress st) (live (maxOrder st) 0 t)) ∧
    (merged t → merged t').
Proof.
  intros Hwf. pose proof (wf_size _ _ Hwf) as Hsz. unfold mem_free.
  destruct (Z.eqb_spec p 0) as [->|Hp0].
  { exists st, t. by rewrite decide_True. }
  rewrite decide_False by done. destruct (Z.ltb_spec (findNodeByAddress p st) 0) as [Hneg|Hpos].
  { exists st, t. split_and!; try done. symmetry. apply delete_id.
    destruct (live _ 0 t !! (p - minAddress st)) eqn:E; [|done].
    pose proof (find_node_live _ _ _ _ Hwf E). lia. }
  destruct (find_node_Some _ _ _ Hwf Hpos) as (_ & Hj & Eo & Ef & El).
  set (j := findNodeByAddress p st) in *. pose proof Hwf as (Hr & _).
  destruct (used_leaf _ _ _ _ _ j Hr) as (fs & -> & Hl); try done.
  { intros k Hk. pose proof (wf_indices _ _ _ Hwf Hk). lia. }
  rewrite Eo in Hl. destruct (release_spec st fs j Hwf) as (st' & Es & Hs & Hwf').
  exists st', (climb fs j). split; [exact Es|]. split; [done|]. split; [done|].
  destruct Hs as (_ & _ & -> & _). rewrite climb_live. split.
  - pose proof Hr as Hr'. apply repr_plug in Hr' as (par & o & off & Hc & Hlf).
    pose proof Hlf as [Ho Hn]. cbn [idx] in Hc.
    assert (off = p - minAddress st) as -> by (rewrite Hn in Eo; done).
    eapply plug_live_delete; [exact Hc|exact Hlf| |].
    + unfold MIN_ORDER in *. pose proof (Z.pow_pos_nonneg 2 o). lia.
    + cbn [live]. symmetry. by rewrite delete_singleton_eq.
  - intros [Hm _]%plug_cmerged. by apply climb_merged.
Qed.

Lemma mem_alloc_spec st t bytes :
  wf st t → 0 < bytes →
  ∃ p st' t', mem_alloc bytes st = Some (p, st') ∧ same st st' ∧ wf st' t' ∧
    (room (indices t) (maxOrder st) (getOrder bytes st) → merged t → merged t') ∧
    ((p = 0 ∧ live (maxOrder st) 0 t' = live (maxOrder st) 0 t ∧
      (room (indices t) (maxOrder st) (getOrder bytes st) →
       st' = st ∧ t' = t ∧ has_free (maxOrder st) t (getOrder bytes st) = false)) ∨
     (minAddress st ≤ p ∧ live (maxOrder st) 0 t !! (p - minAddress st) = None ∧
      live (maxOrder st) 0 t' =
        <[p - minAddress st := 2 ^ getOrder bytes st]> (live (maxOrder st) 0 t))).
Proof.
  intros Hwf Hb. pose proof (wf_size _ _ Hwf) as Hsz. pose proof (wf_order _ _ Hwf) as Hmo.
  pose proof Hwf as (Hr & Hi & Hp & Hw). unfold mem_alloc. destruct (Z.eqb_spec bytes 0); [lia|].
  destruct (getOrder_spec bytes st Hmo) as (G1 & _). set (k := getOrder bytes st) in *.
  unfold u8. rewrite wrap_small by (unfold MIN_ORDER in *; lia).
  destruct (find_correct find_fuel t (-1) (maxOrder st) 0 st [] k) as (r & st' & t' & E & S & P & R & I & _ & O & M);
    try done; try lia.
  { unfold find_fuel. unfold MIN_ORDER in *. lia. }
  rewrite <- Hi, E. cbn [mbind option_bind]. pose proof S as (S1 & S2 & S3 & S4).
  assert (Hwf' : wf st' t').
  { unfold wf. rewrite S1, S2, S3, S4, I. split_and!; try done; try apply Hw. }
  destruct O as [(-> & L & Rm)|(Hr0 & q & Q1 & Q2 & Q3)].
  - exists 0, st', t'. cbn [Z.ltb Z.compare]. split_and!; try done. by left.
  - destruct (Z.ltb_spec r 0); [lia|].
    assert (Hq : 0 ≤ q ∧ q + 2 ^ k ≤ 2 ^ maxOrder st).
    { assert (live (maxOrder st') 0 t' !! q = Some (2 ^ k)) as Hl by (by rewrite S3, Q3, lookup_insert_eq).
      destruct Hwf' as (R' & _). apply live_bounds in Hl; [rewrite S3 in Hl; lia|by eapply repr_tree_ok]. }
    pose proof (Z.pow_pos_nonneg 2 k ltac:(lia) ltac:(unfold MIN_ORDER in *; lia)).
    eexists _, st', t'. split; [done|]. rewrite S1, Q1. unfold u64. rewrite wrap_small by lia.
    replace (minAddress st + q - minAddress st) with q by lia.
    split_and!; try done. right. split_and!; [lia|done|done].
Qed.

(** ** Initialisation *)

Lemma log2_loop_spec fuel : ∀ n r, 0 < n < 2 ^ Z.of_nat fuel → log2_loop fuel n r = r + Z.log2 n.
Proof.
  induction fuel as [|fuel IH]; intros n r Hn; [simpl in Hn; lia|]. cbn [log2_loop].
  destruct (Z.ltb_spec 1 n).
  - rewrite Nat2Z.inj_succ, Z.pow_succ_r in Hn by lia.
    assert (0 < Z.shiftr n 1 < 2 ^ Z.of_nat fuel).
    { rewrite Z.shiftr_div_pow2 by lia. change (2 ^ 1) with 2. divlia. }
    rewrite IH by done. rewrite Z.log2_shiftr by lia.
    pose proof (Z.log2_le_mono 2 n ltac:(lia)) as Hl. change (Z.log2 2) with 1 in Hl. lia.
  - replace n with 1 by lia. simpl. lia.
Qed.

Lemma maxOrder_loop_spec fuel : ∀ size cap mo,
  0 < mo → mo ≤ cap < 64 → cap - mo < Z.of_nat fuel → 2 ^ cap ≤ size →
  maxOrder_loop fuel size cap mo = cap.
Proof.
  induction fuel as [|fuel IH]; intros size cap mo Hmo Hc Hf Hs; [lia|]. cbn [maxOrder_loop].
  destruct (Z.ltb_spec mo cap); [|rewrite andb_false_r; lia].
  rewrite shl1 by lia. pose proof (Z.pow_le_mono_r 2 (mo + 1) cap ltac:(lia) ltac:(lia)).
  destruct (Z.leb_spec (2 ^ (mo + 1)) size); [|lia]. cbn [andb]. apply IH; lia.
Qed.

(** A fresh heap is one free block: the largest power of two that fits. *)
Lemma buddy_mem_init_wf start size ns :
  2 ^ MIN_ORDER ≤ size → 0 < start → start + size < 2 ^ 64 →
  let st := mem_init start size ns in
  wf st (Leaf 0 true) ∧ maxOrder st = Z.log2 size ∧ minAddress st = start ∧ totalSize st = size.
Proof.
  intros Hs Hstart Hend. unfold MIN_ORDER in *. change (2 ^ 4) with 16 in Hs.
  pose proof (Z.log2_spec size ltac:(lia)) as [L1 L2].
  pose proof (Z.log2_le_mono 16 size ltac:(lia)) as L3. change (Z.log2 16) with 4 in L3.
  assert (L4 : Z.log2 size < 64) by (apply Z.log2_lt_pow2; lia).
  assert (E : maxOrder_loop 64 size (log2Int size) MIN_ORDER = Z.log2 size).
  { unfold log2Int. rewrite log2_loop_spec by lia. apply maxOrder_loop_spec; unfold MIN_ORDER; lia. }
  unfold mem_init. rewrite E. cbn. split_and!; try done.
  unfold wf. cbn. split_and!; try done; try lia.
  { unfold nd. cbn [nodes]. by rewrite lookup_insert_eq. }
  exists []. cbn. split_and!; try done; try lia.
  - apply NoDup_singleton.
  - intros i. rewrite list_elem_of_singleton. lia.
Qed.

(** ** Counting the leaves *)

Fixpoint used_bytes (o : Z) (t : tree) : Z :=
  match t with
  | Leaf _ fr => if fr then 0 else 2 ^ o
  | Node _ l r => used_bytes (o - 1) l + used_bytes (o - 1) r
  end.

Fixpoint free_leaves (t : tree) : Z :=
  match t with
  | Leaf _ fr => if fr then 1 else 0
  | Node _ l r => free_leaves l + free_leaves r
  end.

(** The bytes of all the blocks of a live map. *)
Definition msum (m : gmap Z Z) : Z := map_fold (λ _ s acc, s + acc) 0 m.

Lemma msum_union m1 m2 : m1 ##ₘ m2 → msum (m1 ∪ m2) = msum m1 + msum m2.
Proof.
  revert m2. unfold msum. induction m1 as [|k x m1 Hk IH] using map_ind; intros m2 Hd.
  - by rewrite (left_id_L ∅ (∪)), map_fold_empty.
  - apply map_disjoint_insert_l in Hd as [H1 H2]. rewrite <- insert_union_l.
    rewrite !map_fold_insert_L; [rewrite IH by done; lia|intros; lia|done|intros; lia|].
    by apply lookup_union_None.
Qed.

Lemma used_bytes_live t : ∀ o off, tree_ok o t → used_bytes o t = msum (live o off t).
Proof.
  induction t as [i fr|i l IHl r IHr]; intros o off Hok; cbn [used_bytes live].
  - destruct fr; [by unfold msum; rewrite map_fold_empty|].
    unfold msum. rewrite map_fold_singleton. lia.
  - destruct Hok as (? & Hl & Hr). rewrite (IHl _ off), (IHr _ (off + 2 ^ (o - 1))) by done.
    symmetry. apply msum_union. apply map_disjoint_spec. intros q x y Hx Hy.
    pose proof (live_halves _ _ _ _ _ Hl Hr (mk_is_Some _ _ Hx)). congruence.
Qed.

Lemma used_bytes_range t : ∀ o, tree_ok o t → 0 ≤ used_bytes o t ≤ 2 ^ o ∧ 0 ≤ free_leaves t ≤ 2 ^ o.
Proof.
  induction t as [i fr|i l IHl r IHr]; intros o Hok; cbn [used_bytes free_leaves tree_ok] in *;
    unfold MIN_ORDER in *.
  - pose proof (Z.pow_pos_nonneg 2 o). destruct fr; lia.
  - destruct Hok as (? & Hl & Hr). destruct (pow2_half o) as [E1 E2]; [lia|].
    specialize (IHl _ Hl). specialize (IHr _ Hr). lia.
Qed.

(** Counters stay below [2^64], so their wrap-around is never seen. *)
Lemma countLeafNodes_spec fuel : ∀ st t par o off c,
  repr (nd st) par o off t → (∀ k, k ∈ indices t → 0 ≤ k < nodeCount st) →
  (par = -1 → idx t = rootIndex st) → o - MIN_ORDER < Z.of_nat fuel → o < 64 →
  0 ≤ c_allocN c → 0 ≤ c_allocM c → 0 ≤ c_freeN c → 0 ≤ c_freeM c →
  c_freeN c + 2 ^ o < 2 ^ 64 → c_freeM c + 2 ^ o < 2 ^ 64 → c_allocM c + 2 ^ o < 2 ^ 64 →
  ∃ n, countLeafNodes fuel (idx t) st c =
    Some (mkCounts n (c_allocM c + used_bytes o t) (c_freeN c + free_leaves t)
            (c_freeM c + (2 ^ o - used_bytes o t))) ∧ 0 ≤ n.
Proof.
  induction fuel as [|fuel IH]; intros st t par o off c Hr Hk Hroot Hf Ho64 A1 A2 A3 A4 B1 B2 B3;
    [apply repr_order in Hr; lia|].
  pose proof (Hk _ (idx_in t)) as Hi. destruct (repr_root _ _ _ _ _ Hr) as (_ & _ & Ep).
  pose proof (repr_order _ _ _ _ _ Hr) as Hmin. unfold MIN_ORDER in *.
  cbn [countLeafNodes].
  destruct (Z.ltb_spec (idx t) 0); [lia|]. destruct (Z.leb_spec (nodeCount st) (idx t)); [lia|]. cbn [orb].
  rewrite Ep. assert (Eg : (par =? -1) && negb (idx t =? rootIndex st) = false).
  { destruct (Z.eqb_spec par (-1)); [|done]. rewrite Hroot by done. by rewrite Z.eqb_refl. }
  rewrite Eg. destruct t as [i fr|i l r]; cbn [idx] in *.
  - destruct Hr as [_ ->]. cbn [leftChild Z.eqb Pos.eqb order isFree used_bytes free_leaves].
    rewrite shl1 by lia. pose proof (Z.pow_pos_nonneg 2 o ltac:(lia) ltac:(lia)).
    destruct fr; unfold u64.
    + rewrite !wrap_small by lia. eexists. split; [|exact A1]. f_equal. f_equal; lia.
    + eexists. rewrite (wrap_small 64 (c_allocM c + 2 ^ o)) by lia.
      split; [do 2 f_equal; lia|]. pose proof (wrap_range 64 (c_allocN c + 1)). lia.
  - pose proof (repr_tree_ok _ _ _ _ _ Hr) as (_ & Okl & Okr).
    destruct Hr as (_ & [b Hb] & Hl & Hr). rewrite Hb. cbn [leftChild rightChild indices] in *.
    pose proof (Hk (idx l) ltac:(pose proof (idx_in l); set_solver)).
    destruct (Z.eqb_spec (idx l) (-1)); [lia|].
    destruct (pow2_half o) as [E1 E2]; [lia|].
    pose proof (used_bytes_range _ _ Okl). pose proof (used_bytes_range _ _ Okr).
    destruct (IH st l i (o - 1) off c Hl) as (n1 & -> & ?); try lia; [intros; apply Hk; set_solver|].
    cbn [mbind option_bind].
    edestruct (IH st r i (o - 1)) as (n2 & -> & ?); [exact Hr|intros; apply Hk; set_solver|..];
      cbn [c_allocN c_allocM c_freeN c_freeM]; try lia.
    exists n2. split; [|done]. cbn [used_bytes free_leaves]. do 2 f_equal; lia.
Qed.

(** ** The live map at addresses, and the tree of a state *)

Lemma live_shift d t : ∀ o off q, live o (d + off) t !! (d + q) = live o off t !! q.
Proof.
  induction t as [i fr|i l IHl r IHr]; intros o off q; cbn [live].
  - destruct fr; [done|]. destruct (decide (off = q)) as [->|].
    + by rewrite !lookup_singleton_eq.
    + rewrite !lookup_singleton_ne by lia. done.
  - rewrite !lookup_union, IHl. replace (d + off + 2 ^ (o - 1)) with (d + (off + 2 ^ (o - 1))) by lia.
    by rewrite IHr.
Qed.

(** The blocks in use: address ↦ size. *)
Definition blocks (st : state) (t : tree) : gmap Z Z := live (maxOrder st) (minAddress st) t.

Lemma blocks_lookup st t p : blocks st t !! p = live (maxOrder st) 0 t !! (p - minAddress st).
Proof.
  unfold blocks. pose proof (live_shift (minAddress st) t (maxOrder st) 0 (p - minAddress st)) as H.
  by rewrite Z.add_0_r, Zplus_minus in H.
Qed.

(** An equation on offsets is one on addresses. *)
Lemma blocks_insert st st' t t' q s : same st st' →
  live (maxOrder st) 0 t' = <[q - minAddress st := s]> (live (maxOrder st) 0 t) →
  blocks st' t' = <[q := s]> (blocks st t).
Proof.
  intros (E1 & E2 & E3 & E4) H. apply map_eq. intros p. rewrite blocks_lookup, E1, E3, H.
  destruct (decide (p = q)) as [->|]; [by rewrite !lookup_insert_eq|].
  rewrite !lookup_insert_ne by lia. by rewrite blocks_lookup.
Qed.

Lemma blocks_delete st st' t t' q : same st st' →
  live (maxOrder st) 0 t' = delete (q - minAddress st) (live (maxOrder st) 0 t) →
  blocks st' t' = delete q (blocks st t).
Proof.
  intros (E1 & E2 & E3 & E4) H. apply map_eq. intros p. rewrite blocks_lookup, E1, E3, H.
  destruct (decide (p = q)) as [->|]; [by rewrite !lookup_delete_eq|].
  rewrite !lookup_delete_ne by lia. by rewrite blocks_lookup.
Qed.

Lemma blocks_same st st' t t' : same st st' →
  live (maxOrder st) 0 t' = live (maxOrder st) 0 t → blocks st' t' = blocks st t.
Proof.
  intros (E1 & E2 & E3 & E4) H. apply map_eq. intros p. by rewrite !blocks_lookup, E1, E3, H.
Qed.

Lemma live_disjoint t : ∀ o off a s b s', tree_ok o t →
  live o off t !! a = Some s → live o off t !! b = Some s' → a ≠ b → a + s ≤ b ∨ b + s' ≤ a.
Proof.
  induction t as [i fr|i l IHl r IHr]; intros o off a s b s' Hok Ha Hb Hne; cbn [live tree_ok] in *.
  - destruct fr; [done|]. apply lookup_singleton_Some in Ha as [<- <-].
    by apply lookup_singleton_Some in Hb as [<- <-].
  - destruct Hok as (? & Hl & Hr).
    apply lookup_union_Some_raw in Ha as [Ha|[_ Ha]]; apply lookup_union_Some_raw in Hb as [Hb|[_ Hb]];
      [by eapply IHl| | |by eapply IHr];
      [apply live_bounds in Ha, Hb|apply live_bounds in Ha, Hb]; try done; lia.
Qed.

Lemma blocks_bounds st t p s : wf st t → blocks st t !! p = Some s →
  0 < s ∧ minAddress st ≤ p ∧ p + s ≤ minAddress st + 2 ^ maxOrder st.
Proof.
  intros (Hr & _) H. apply repr_tree_ok in Hr. pose proof (live_pos _ _ _ _ _ Hr H).
  apply live_bounds in H; [lia|done].
Qed.

Lemma blocks_disjoint st t p s q s' : wf st t →
  blocks st t !! p = Some s → blocks st t !! q = Some s' → p ≠ q → p + s ≤ q ∨ q + s' ≤ p.
Proof. intros (Hr & _). apply repr_tree_ok in Hr. unfold blocks. by apply live_disjoint. Qed.

(** The tree the nodes hold, read from the root. *)
Fixpoint tree_of (fuel : nat) (st : state) (i : Z) : tree :=
  match fuel with
  | O => Leaf i (isFree (nd st i))
  | S fuel =>
    if leftChild (nd st i) =? -1 then Leaf i (isFree (nd st i))
    else Node i (tree_of fuel st (leftChild (nd st i))) (tree_of fuel st (rightChild (nd st i)))
  end.

Lemma tree_of_repr fuel : ∀ st par o off t,
  repr (nd st) par o off t → (∀ k, k ∈ indices t → 0 ≤ k) → o - MIN_ORDER < Z.of_nat fuel →
  tree_of fuel st (idx t) = t.
Proof.
  induction fuel as [|fuel IH]; intros st par o off t Hr Hk Hf; [apply repr_order in Hr; lia|].
  cbn [tree_of]. destruct t as [i fr|i l r]; cbn [idx].
  - by destruct Hr as [_ ->].
  - destruct Hr as (_ & [b ->] & Hl & Hr). cbn [leftChild rightChild indices] in *.
    pose proof (Hk (idx l) ltac:(pose proof (idx_in l); set_solver)).
    destruct (Z.eqb_spec (idx l) (-1)); [lia|].
    rewrite (IH _ _ _ _ _ Hl), (IH _ _ _ _ _ Hr); [done|intros; apply Hk; set_solver|lia|intros; apply Hk; set_solver|lia].
Qed.

Definition the_tree (st : state) : tree := tree_of find_fuel st (rootIndex st).

Lemma the_tree_wf st t : wf st t → the_tree st = t.
Proof.
  intros Hwf. pose proof (wf_order _ _ Hwf). pose proof Hwf as (Hr & Hi & _). unfold the_tree. rewrite <- Hi.
  eapply tree_of_repr; [exact Hr| |unfold find_fuel, MIN_ORDER in *; lia].
  intros k Hk. pose proof (wf_indices _ _ _ Hwf Hk). lia.
Qed.

#[global] Instance buddy_manager : MemoryManager state := {|
  mm_alloc := mem_alloc;
  mm_free := mem_free;
  mm_inv st := wf st (the_tree st);
  mm_live st := blocks st (the_tree st);
  mm_lo := minAddress;
  mm_hi st := minAddress st + totalSize st;
  mm_max st := 2 ^ maxOrder st;
|}.

#[global] Instance buddy_laws : MemoryManagerLaws state.
Proof.
  split; cbn [mm_alloc mm_free mm_inv mm_live mm_lo mm_hi mm_max buddy_manager].
  - intros st n Hwf Hn. pose proof (wf_size _ _ Hwf). pose proof (wf_order _ _ Hwf).
    destruct (mem_alloc_spec _ _ n Hwf) as (p & st' & t' & E & S & Hwf' & _ & O); [lia|].
    exists p, st'. rewrite (the_tree_wf _ _ Hwf'). pose proof S as (S1 & S2 & S3 & S4).
    rewrite S1, S2, S3. split_and!; try done. destruct O as [(-> & L & _)|(Hp & L1 & L2)].
    + left. split; [done|]. by apply blocks_same.
    + right. split; [lia|]. split; [by rewrite blocks_lookup|].
      exists (2 ^ getOrder n st). split; [|by apply blocks_insert].
      destruct (getOrder_spec n st) as (_ & [?| ->] & _); lia.
  - intros st p s Hwf Hp. pose proof (blocks_bounds _ _ _ _ Hwf Hp). pose proof (wf_size _ _ Hwf).
    destruct (mem_free_spec _ _ p Hwf) as (st' & t' & E & S & Hwf' & L & _).
    exists st'. rewrite (the_tree_wf _ _ Hwf'). pose proof S as (S1 & S2 & S3 & S4).
    rewrite S1, S2, S3. split_and!; try done. rewrite decide_False in L by lia.
    apply blocks_delete; [done|]. by rewrite <- L, S3.
  - intros st p s q t Hwf. by apply blocks_disjoint.
  - intros st p s Hwf Hp. pose proof (blocks_bounds _ _ _ _ Hwf Hp). pose proof (wf_size _ _ Hwf). lia.
Qed.

(** ** Properties *)

(** A tree without blocks in use and without unmerged siblings is one free leaf. *)
Lemma merged_empty t : ∀ o off, merged t → live o off t = ∅ → t = Leaf (idx t) true.
Proof.
  induction t as [i []|i l IHl r IHr]; intros o off Hm Hl; cbn [live idx] in *; [done|..].
  - by apply map_non_empty_singleton in Hl.
  - pose proof (merged_children _ _ _ Hm) as [Hml Hmr].
    pose proof (IHl _ _ Hml (map_positive_l _ _ Hl)) as El.
    rewrite (map_positive_l _ _ Hl), (left_id_L ∅ (∪)) in Hl.
    pose proof (IHr _ _ Hmr Hl) as Er. rewrite El, Er in Hm. done.
Qed.

(** The heap of [kernel.c], and the same heap with 100 bytes in use. *)
Definition boot_heap : state := mem_init MEM_HEAP_START MEM_HEAP_SIZE ∅.
Definition heap1 : state := match mem_alloc 100 boot_heap with Some (_, st) => st | None => boot_heap end.

Lemma buddy_boot_heap_wf : wf boot_heap (Leaf 0 true).
Proof. apply buddy_mem_init_wf; done. Qed.

Lemma buddy_heap1_wf : wf heap1 (the_tree heap1).
Proof.
  destruct (mem_alloc_spec _ _ 100 buddy_boot_heap_wf) as (p & st' & t' & E & _ & Hwf & _); [done|].
  unfold heap1. rewrite E. by rewrite (the_tree_wf _ _ Hwf).
Qed.

(** C18. Buddy allocation is correct: a request the heap can hold yields NULL with the same
    blocks in use, or a new block, aligned to its own power-of-two size, that covers the
    request, wastes less than half of it above the minimum order, and is disjoint from every
    other block.  While the node pool has room, NULL means that no free block has the order
    needed, and no pair of free siblings is ever left unmerged. *)
Theorem buddy_alloc_correct st t n :
  wf st t → 0 < n ≤ 2 ^ maxOrder st →
  ∃ p st' t' k, mem_alloc n st = Some (p, st') ∧ wf st' t' ∧
    MIN_ORDER ≤ k ∧ n ≤ 2 ^ k ∧ (k = MIN_ORDER ∨ 2 ^ (k - 1) < n) ∧
    (room (indices t) (maxOrder st) k → merged t → merged t') ∧
    ((p = 0 ∧ blocks st' t' = blocks st t ∧
      (room (indices t) (maxOrder st) k → st' = st ∧ has_free (maxOrder st) t k = false)) ∨
     (p ≠ 0 ∧ blocks st t !! p = None ∧ blocks st' t' = <[p := 2 ^ k]> (blocks st t) ∧
      (p - minAddress st) mod 2 ^ k = 0 ∧ p + 2 ^ k ≤ minAddress st + totalSize st ∧
      ∀ q s, blocks st t !! q = Some s → p + 2 ^ k ≤ q ∨ q + s ≤ p)).
Proof.
  intros Hwf Hn. pose proof (wf_size _ _ Hwf) as Hsz. pose proof (wf_order _ _ Hwf) as Hmo.
  destruct (mem_alloc_spec _ _ n Hwf) as (p & st' & t' & E & S & Hwf' & M & O); [lia|].
  pose proof S as (S1 & S2 & S3 & S4).
  destruct (getOrder_spec n st Hmo) as (K1 & K2 & K3). exists p, st', t', (getOrder n st).
  split_and!; try done; [lia|destruct K2 as [?|K2]; [lia|rewrite K2; lia]|].
  destruct O as [(-> & L & Rm)|(Hp & L1 & L2)].
  - left. split; [done|]. split; [by apply blocks_same|]. intros Hr. by destruct (Rm Hr) as (? & _ & ?).
  - right. set (k := getOrder n st) in *.
    assert (L3 : blocks st' t' = <[p := 2 ^ k]> (blocks st t)) by (by apply blocks_insert).
    assert (L4 : blocks st' t' !! p = Some (2 ^ k)) by (by rewrite L3, lookup_insert_eq).
    pose proof (blocks_bounds _ _ _ _ Hwf' L4) as B. rewrite S1, S3 in B. split; [lia|]. split; [by rewrite blocks_lookup|].
    split; [done|]. split_and!.
    + pose proof Hwf' as (R' & _). rewrite blocks_lookup in L4.
      apply live_bounds in L4 as (_ & _ & j & _ & _ & Hmod); [|by eapply repr_tree_ok].
      by rewrite Z.sub_0_r, S1 in Hmod.
    + lia.
    + intros q s Hq. assert (p ≠ q) as Hne by (intros ->; rewrite blocks_lookup in Hq; congruence).
      eapply blocks_disjoint; [exact Hwf'|exact L4| |done]. by rewrite L3, lookup_insert_ne.
Qed.

Lemma buddy_alloc_correct_witness : wf boot_heap (Leaf 0 true) ∧ 0 < 100 ≤ 2 ^ maxOrder boot_heap ∧
  ∃ p st' t' k, mem_alloc 100 boot_heap = Some (p, st') ∧ wf st' t' ∧ 100 ≤ 2 ^ k ∧ MIN_ORDER ≤ k.
Proof.
  split; [exact buddy_boot_heap_wf|]. split; [done|].
  destruct (buddy_alloc_correct boot_heap (Leaf 0 true) 100 buddy_boot_heap_wf ltac:(done))
    as (p & st' & t' & k & H1 & H2 & H3 & H4 & _). exists p, st', t', k. split_and!; assumption.
Defined.

(** C19. Buddy release is correct for every address: freeing a block in use removes exactly
    that block; any other address (NULL, outside the heap, inside a block, already freed)
    changes no block; the manager stays well formed, and a tree without unmerged free siblings
    has none afterwards. *)
Theorem buddy_free_correct st t p :
  wf st t →
  ∃ st' t', mem_free p st = Some st' ∧ wf st' t' ∧ blocks st' t' = delete p (blocks st t) ∧
    (merged t → merged t').
Proof.
  intros Hwf. pose proof (wf_size _ _ Hwf) as Hsz.
  destruct (mem_free_spec _ _ p Hwf) as (st' & t' & E & S & Hwf' & L & M).
  exists st', t'. split_and!; try done. pose proof S as (_ & _ & S3 & _). rewrite S3 in L.
  case_decide as Hp.
  - subst p. rewrite delete_id; [by apply blocks_same|].
    destruct (blocks st t !! 0) eqn:E0; [|done]. pose proof (blocks_bounds _ _ _ _ Hwf E0). lia.
  - by apply blocks_delete.
Qed.

Lemma buddy_free_correct_witness : wf heap1 (the_tree heap1) ∧
  ∃ st' t', mem_free MEM_HEAP_START heap1 = Some st' ∧ wf st' t'.
Proof.
  split; [exact buddy_heap1_wf|].
  destruct (buddy_free_correct heap1 _ MEM_HEAP_START buddy_heap1_wf) as (st' & t' & H1 & H2 & _).
  exists st', t'. split; assumption.
Defined.

(** No fragmentation survives: when every block of a merged tree has been freed, the
    manager is back to one free block, and the whole heap can be granted again. *)
Theorem buddy_coalesces st t :
  wf st t → merged t → blocks st t = ∅ →
  t = Leaf (rootIndex st) true ∧ ∃ st', mem_alloc (2 ^ maxOrder st) st = Some (minAddress st, st').
Proof.
  intros Hwf Hm Hb. pose proof (wf_size _ _ Hwf) as Hsz. pose proof (wf_order _ _ Hwf) as Hmo.
  pose proof Hwf as (Hr & Hi & Hp & _). apply (merged_empty _ _ _ Hm) in Hb as Ht.
  rewrite Hi in Ht. split; [done|].
  destruct (mem_alloc_spec _ _ (2 ^ maxOrder st) Hwf) as (p & st' & t' & E & S & Hwf' & M & O); [lia|].
  destruct (getOrder_spec (2 ^ maxOrder st) st Hmo) as (K1 & K2 & K3).
  assert (K : getOrder (2 ^ maxOrder st) st = maxOrder st).
  { destruct K2 as [K2|K2]; [|done]. unfold MIN_ORDER in *.
    destruct (Z.eq_dec (getOrder (2 ^ maxOrder st) st) (maxOrder st)) as [|Hne]; [done|].
    pose proof (Z.pow_lt_mono_r 2 (getOrder (2 ^ maxOrder st) st) (maxOrder st)). lia. }
  rewrite K in *. exists st'. destruct O as [(-> & L & Rm)|(Hp' & L1 & L2)].
  - exfalso. destruct Rm as (_ & _ & Hf).
    + unfold room. rewrite Ht. simpl. unfold MAX_NODES. lia.
    + rewrite Ht in Hf. cbn [has_free] in Hf. by rewrite Z.leb_refl in Hf.
  - rewrite E. do 2 f_equal.
    assert (L4 : blocks st' t' !! p = Some (2 ^ maxOrder st)).
    { rewrite (blocks_insert st st' t t' p _ S L2). apply lookup_insert_eq. }
    pose proof (blocks_bounds _ _ _ _ Hwf' L4) as B. destruct S as (S1 & _ & S3 & _). rewrite S1, S3 in B. lia.
Qed.

Lemma buddy_coalesces_witness : wf boot_heap (Leaf 0 true) ∧ merged (Leaf 0 true) ∧
  blocks boot_heap (Leaf 0 true) = ∅ ∧
  ∃ st', mem_alloc (2 ^ maxOrder boot_heap) boot_heap = Some (minAddress boot_heap, st').
Proof.
  split; [exact buddy_boot_heap_wf|]. split; [done|]. split; [done|].
  destruct (buddy_coalesces boot_heap (Leaf 0 true) buddy_boot_heap_wf ltac:(done) ltac:(done)) as [_ [st' E]].
  exists st'. assumption.
Defined.

(** [mem_status] is exact: it reports the heap size, the bytes of the blocks in use, the
    bytes of the free leaves (together the block the tree covers), and how many free leaves
    there are. *)
Theorem buddy_status_exact st t :
  wf st t →
  mem_status st = Some (mkInfo (totalSize st) (msum (blocks st t))
                          (2 ^ maxOrder st - msum (blocks st t)) (free_leaves t)).
Proof.
  intros Hwf. pose proof (wf_size _ _ Hwf) as Hsz. pose proof (wf_order _ _ Hwf) as Hmo.
  pose proof Hwf as (Hr & Hi & Hp & _). unfold mem_status. rewrite <- Hi.
  destruct (countLeafNodes_spec find_fuel st t (-1) (maxOrder st) 0 (mkCounts 0 0 0 0)) as (n & E & _);
    try done; try lia; cbn [c_allocN c_allocM c_freeN c_freeM]; try lia.
  { intros k. by apply wf_indices. }
  { unfold find_fuel, MIN_ORDER in *. lia. }
  rewrite E. cbn [mbind option_bind c_allocM c_freeM c_freeN].
  unfold blocks. rewrite (used_bytes_live t _ (minAddress st)) by (by eapply repr_tree_ok).
  rewrite !Z.add_0_l. done.
Qed.

Lemma buddy_status_exact_witness : wf heap1 (the_tree heap1) ∧
  mem_status heap1 = Some (mkInfo (totalSize heap1) 128 (MEM_HEAP_SIZE - 128) 21).
Proof.
  split; [exact buddy_heap1_wf|]. rewrite (buddy_status_exact heap1 _ buddy_heap1_wf). vm_compute. reflexivity.
Defined.

(** The order of a request is capped by the heap's: a request larger than the whole heap
    is granted, with a block that is too small for it, where the free list answers NULL. *)
Theorem buddy_oversize_granted start size n :
  2 ^ MIN_ORDER ≤ size → 0 < start → start + size < 2 ^ 64 → size < n < 2 ^ 64 →
  let st := mem_init start size ∅ in
  ∃ st' t', mem_alloc n st = Some (start, st') ∧ wf st' t' ∧
    blocks st' t' = {[start := 2 ^ Z.log2 size]} ∧ 2 ^ Z.log2 size < n.
Proof.
  intros H1 H2 H3 Hn st. destruct (buddy_mem_init_wf start size ∅ H1 H2 H3) as (Hwf & I1 & I2 & I3).
  fold st in Hwf, I1, I2, I3. pose proof (wf_size _ _ Hwf) as Hsz. pose proof (wf_order _ _ Hwf) as Hmo.
  destruct (mem_alloc_spec _ _ n Hwf) as (p & st' & t' & E & S & Hwf' & M & O);
    [unfold MIN_ORDER in *; lia|].
  destruct (getOrder_spec n st Hmo) as (K1 & K2 & K3).
  assert (K : getOrder n st = maxOrder st).
  { destruct K2 as [K2|K2]; [|done]. exfalso. unfold MIN_ORDER in *.
    pose proof (Z.pow_le_mono_r 2 (getOrder n st) (maxOrder st)). lia. }
  rewrite K, <- I1 in *. exists st', t'. destruct O as [(-> & L & Rm)|(Hp' & L1 & L2)].
  - exfalso. destruct Rm as (_ & _ & Hf); [unfold room, MAX_NODES; cbn [indices length]; lia|].
    cbn [has_free] in Hf. by rewrite Z.leb_refl in Hf.
  - assert (L3 := blocks_insert st st' (Leaf 0 true) t' p _ S L2).
    assert (L4 : blocks st' t' !! p = Some (2 ^ maxOrder st)) by (rewrite L3; apply lookup_insert_eq).
    pose proof (blocks_bounds _ _ _ _ Hwf' L4) as B. destruct S as (S1 & _ & S3 & _). rewrite S1, S3 in B.
    assert (p = start) as -> by lia. split_and!; [done|done| |lia].
    rewrite L3. done.
Qed.

Lemma buddy_oversize_granted_witness :
  ∃ st' t', mem_alloc (2 * MEM_HEAP_SIZE) boot_heap = Some (MEM_HEAP_START, st') ∧ wf st' t'.
Proof.
  destruct (buddy_oversize_granted MEM_HEAP_START MEM_HEAP_SIZE (2 * MEM_HEAP_SIZE)
    ltac:(done) ltac:(done) ltac:(done) ltac:(done)) as (st' & t' & H1 & H2 & _).
  exists st', t'. split; assumption.
Defined.

End Buddy.
