(* ===== verification/Queue.v ===== *)
(** * Linked queues ([Kernel/queue.c])

    The queues live in the kernel heap, over any memory manager: every [mem_alloc] and
    [mem_free] of the code goes through the interface of [MemoryManager].  An access to an
    address that holds no node (or no queue) is [None]. *)

From S2P Require Import Prelude MemoryManager FreeList.

Module Queue.

Record Node := mkNode { data : Z; tail : Z }.
Record queueCDT := mkQueue { first : Z; last : Z; count : Z }.

Definition NODE_SIZE : Z := 16.    (* sizeof(Node) *)
Definition QUEUE_SIZE : Z := 24.   (* sizeof(queueCDT) *)

Section Queues.
Context {M : Type} `{MemoryManager M}.

Record heap := mkHeap { mm : M; nodes : gmap Z Node; queues : gmap Z queueCDT }.

Definition upd_queue (q : Z) (f : queueCDT → queueCDT) (h : heap) : option heap :=
  c ← queues h !! q; Some (mkHeap (mm h) (nodes h) (<[q := f c]> (queues h))).
Definition upd_node (a : Z) (f : Node → Node) (h : heap) : option heap :=
  n ← nodes h !! a; Some (mkHeap (mm h) (<[a := f n]> (nodes h)) (queues h)).

Definition set_first (v : Z) (c : queueCDT) : queueCDT := mkQueue v (last c) (count c).
Definition set_last (v : Z) (c : queueCDT) : queueCDT := mkQueue (first c) v (count c).
Definition set_count (v : Z) (c : queueCDT) : queueCDT := mkQueue (first c) (last c) v.
Definition set_tail (v : Z) (n : Node) : Node := mkNode (data n) v.

(** [mem_free] of a node or of a queue header: the cell is gone. *)
Definition free_node (a : Z) (h : heap) : option heap :=
  m ← mm_free a (mm h); Some (mkHeap m (delete a (nodes h)) (queues h)).
Definition free_header (q : Z) (h : heap) : option heap :=
  m ← mm_free q (mm h); Some (mkHeap m (nodes h) (delete q (queues h))).

Definition removeNodeFromQueue (q nodeToRemove previousNode nextNode : Z) (h : heap) : option heap :=
  h1 ← (if previousNode =? 0 then upd_queue q (set_first nextNode) h
        else upd_node previousNode (set_tail nextNode) h);
  c ← queues h1 !! q;
  h2 ← (if nodeToRemove =? last c then upd_queue q (set_last previousNode) h1 else Some h1);
  h3 ← free_node nodeToRemove h2;
  c ← queues h3 !! q;
  upd_queue q (set_count (i32 (count c - 1))) h3.

Definition newQueue (h : heap) : option (Z * heap) :=
  '(q, m) ← mm_alloc QUEUE_SIZE (mm h);
  if q =? 0 then Some (0, mkHeap m (nodes h) (queues h))
  else Some (q, mkHeap m (nodes h) (<[q := mkQueue 0 0 0]> (queues h))).

Definition getQueueSize (q : Z) (h : heap) : option Z :=
  if q =? 0 then Some 0 else c ← queues h !! q; Some (count c).
Definition isQueueEmpty (q : Z) (h : heap) : option bool :=
  n ← getQueueSize q h; Some (n =? 0).

Definition enqueue (q elementToAdd : Z) (h : heap) : option (Z * heap) :=
  '(newNode, m) ← mm_alloc NODE_SIZE (mm h);
  if newNode =? 0 then Some (0, mkHeap m (nodes h) (queues h))
  else
    let h1 := mkHeap m (<[newNode := mkNode elementToAdd 0]> (nodes h)) (queues h) in
    empty ← isQueueEmpty q h1;
    h2 ← (if (empty : bool)
          then upd_queue q (λ c, set_first newNode (set_last newNode c)) h1
          else c ← queues h1 !! q;
               h' ← upd_node (last c) (set_tail newNode) h1;
               upd_queue q (set_last newNode) h');
    c ← queues h2 !! q;
    h3 ← upd_queue q (set_count (i32 (count c + 1))) h2;
    Some (1, h3).

Definition pollQueue (q : Z) (h : heap) : option (Z * heap) :=
  empty ← isQueueEmpty q h;
  if (empty : bool) then Some (0, h)
  else
    c ← queues h !! q;
    n ← nodes h !! first c;
    h1 ← free_node (first c) h;
    h2 ← upd_queue q (set_first (tail n)) h1;
    h3 ← upd_queue q (set_count (i32 (count c - 1))) h2;
    h4 ← (if i32 (count c - 1) =? 0 then upd_queue q (set_last 0) h3 else Some h3);
    Some (data n, h4).

Fixpoint free_loop (fuel : nat) (currentNode : Z) (h : heap) : option heap :=
  if currentNode =? 0 then Some h
  else match fuel with
  | O => None
  | S fuel =>
    n ← nodes h !! currentNode;
    h1 ← free_node currentNode h;
    free_loop fuel (tail n) h1
  end.

(** The loops walk at most [count] nodes. *)
Definition freeQueue (q : Z) (h : heap) : option heap :=
  if q =? 0 then Some h
  else
    c ← queues h !! q;
    h1 ← free_loop (Z.to_nat (count c)) (first c) h;
    free_header q h1.

Fixpoint remove_loop (fuel : nat) (q : Z) (eq : Z → Z) (previousNode currentNode removedCount : Z)
    (h : heap) : option (Z * heap) :=
  if currentNode =? 0 then Some (removedCount, h)
  else match fuel with
  | O => None
  | S fuel =>
    n ← nodes h !! currentNode;
    if eq (data n) =? 0 then
      h1 ← removeNodeFromQueue q currentNode previousNode (tail n) h;
      remove_loop fuel q eq previousNode (tail n) (i32 (removedCount + 1)) h1
    else remove_loop fuel q eq currentNode (tail n) removedCount h
  end.

(** [compare] is the caller's function; NULL is [None]. *)
Definition removeFromQueue (q elementToRemove : Z) (compare : option (Z → Z → Z)) (h : heap)
  : option (Z * heap) :=
  match compare with
  | None => Some (0, h)
  | Some compare =>
    if q =? 0 then Some (0, h)
    else
      c ← queues h !! q;
      '(removedCount, h1) ← remove_loop (Z.to_nat (count c)) q (compare elementToRemove) 0 (first c) 0 h;
      empty ← isQueueEmpty q h1;
      if (empty : bool)
      then h2 ← upd_queue q (λ c, set_first 0 (set_last 0 c)) h1; Some (removedCount, h2)
      else Some (removedCount, h1)
  end.

(** ** Representation *)

(** [cells] lists the nodes from [a] up to [e]: address and data. *)
Fixpoint lseg (ns : gmap Z Node) (a : Z) (cells : list (Z * Z)) (e : Z) : Prop :=
  match cells with
  | [] => a = e
  | (b, d) :: cells => a = b ∧ b ≠ 0 ∧ ∃ nx, ns !! b = Some (mkNode d nx) ∧ lseg ns nx cells e
  end.

Definition last_addr (cells : list (Z * Z)) : Z := default 0 (list.last (cells.*1)).
Definition head_addr (cells : list (Z * Z)) : Z := default 0 (head (cells.*1)).

Definition qok (h : heap) (q : Z) (cells : list (Z * Z)) : Prop :=
  q ≠ 0 ∧ NoDup (cells.*1) ∧ Z.of_nat (length cells) < 2 ^ 31 ∧ lseg (nodes h) (head_addr cells) cells 0 ∧
  queues h !! q = Some (mkQueue (head_addr cells) (last_addr cells) (Z.of_nat (length cells))).

Context `{!MemoryManagerLaws M}.

(** The heap holds exactly the queues of [Q], and no two of them share a node. *)
Record wfh (h : heap) (Q : gmap Z (list (Z * Z))) : Prop := {
  w_mm : mm_inv (mm h);
  w_max : QUEUE_SIZE ≤ mm_max (mm h);
  w_nodes : ∀ a, is_Some (nodes h !! a) → ∃ s, mm_live (mm h) !! a = Some s ∧ NODE_SIZE ≤ s;
  w_queues : ∀ q, is_Some (queues h !! q) → ∃ s, mm_live (mm h) !! q = Some s ∧ QUEUE_SIZE ≤ s;
  w_apart : ∀ a, is_Some (nodes h !! a) → queues h !! a = None;
  w_qok : ∀ q cells, Q !! q = Some cells → qok h q cells;
  w_disj : ∀ q q' c c' a, Q !! q = Some c → Q !! q' = Some c' → a ∈ c.*1 → a ∈ c'.*1 → q = q';
}.

Lemma lseg_ext ns ns' cells : ∀ a e, (∀ b, b ∈ cells.*1 → ns' !! b = ns !! b) →
  lseg ns a cells e → lseg ns' a cells e.
Proof.
  induction cells as [|[b d] cells IH]; intros a e Hns; [done|]. cbn [lseg].
  intros (-> & Hb & nx & Hn & Hl). split; [done|]. split; [done|]. exists nx.
  split; [rewrite Hns by set_solver; done|]. apply IH; [|done]. intros. apply Hns. set_solver.
Qed.

Lemma lseg_app ns c1 c2 : ∀ a e, lseg ns a (c1 ++ c2) e ↔ ∃ m, lseg ns a c1 m ∧ lseg ns m c2 e.
Proof.
  induction c1 as [|[b d] c1 IH]; intros a e; cbn [app lseg]; [naive_solver|].
  setoid_rewrite IH. naive_solver.
Qed.

Lemma lseg_head ns a cells : lseg ns a cells 0 → a = head_addr cells.
Proof. destruct cells as [|[b d] cells]; simpl; [done|]. by intros (-> & _). Qed.

Lemma lseg_in ns a cells e b : lseg ns a cells e → b ∈ cells.*1 → b ≠ 0 ∧ is_Some (ns !! b).
Proof.
  revert a. induction cells as [|[c d] cells IH]; intros a Hl Hb; [set_solver|].
  destruct Hl as (-> & Hc & nx & Hn & Hl). cbn in Hb. apply elem_of_cons in Hb as [->|Hb]; [by eauto|].
  by eapply IH.
Qed.

Lemma last_addr_snoc cells a d : last_addr (cells ++ [(a, d)]) = a.
Proof. unfold last_addr. rewrite fmap_app. simpl. by rewrite last_snoc. Qed.

Lemma last_addr_in cells : cells ≠ [] → last_addr cells ∈ cells.*1.
Proof.
  intros Hne. destruct cells as [|[a d] cells _] using rev_ind; [done|].
  rewrite last_addr_snoc, fmap_app. set_solver.
Qed.


(** A lawful manager's answer to an allocation, seen from the heap. *)
Lemma alloc_fresh h Q n :
  wfh h Q → 0 < n ≤ QUEUE_SIZE →
  ∃ p m, mm_alloc n (mm h) = Some (p, m) ∧ mm_inv m ∧ mm_max m = mm_max (mm h) ∧
    ((p = 0 ∧ mm_live m = mm_live (mm h)) ∨
     (p ≠ 0 ∧ nodes h !! p = None ∧ queues h !! p = None ∧
      ∃ s, n ≤ s ∧ mm_live m = <[p := s]> (mm_live (mm h)))).
Proof.
  intros [W1 W2 W3 W4 W5 W6 W7] Hn.
  destruct (mm_alloc_ok (mm h) n W1) as (p & m & E & Hi & _ & _ & Hx & Hc); [lia|].
  exists p, m. split_and!; try done. destruct Hc as [?|(Hp & Hf & s & Hs & Hl)]; [by left|right].
  split; [done|]. split_and!; [| |by exists s].
  - destruct (nodes h !! p) eqn:En; [|done]. destruct (W3 p) as (? & ? & _); [by eauto|]. congruence.
  - destruct (queues h !! p) eqn:En; [|done]. destruct (W4 p) as (? & ? & _); [by eauto|]. congruence.
Qed.

(** ** Changing one queue *)

Lemma qok_frame h h' q cells :
  queues h' !! q = queues h !! q → (∀ a, a ∈ cells.*1 → nodes h' !! a = nodes h !! a) →
  qok h q cells → qok h' q cells.
Proof.
  intros Hq Hn (H1 & H2 & H3 & H4 & H5). unfold qok. rewrite Hq. split_and!; try done.
  by eapply lseg_ext.
Qed.

(** The heap part of the invariant, without the queues' contents. *)
Record heap_ok (h : heap) : Prop := {
  ok_mm : mm_inv (mm h);
  ok_max : QUEUE_SIZE ≤ mm_max (mm h);
  ok_nodes : ∀ a, is_Some (nodes h !! a) → ∃ s, mm_live (mm h) !! a = Some s ∧ NODE_SIZE ≤ s;
  ok_queues : ∀ q, is_Some (queues h !! q) → ∃ s, mm_live (mm h) !! q = Some s ∧ QUEUE_SIZE ≤ s;
  ok_apart : ∀ a, is_Some (nodes h !! a) → queues h !! a = None;
}.

Lemma wfh_heap h Q : wfh h Q → heap_ok h.
Proof. by intros [H1 H2 H3 H4 H5 H6 H7]; split. Qed.

Lemma wfh_change h h' Q q c' :
  wfh h Q → heap_ok h' → qok h' q c' →
  (∀ q', q' ≠ q → queues h' !! q' = queues h !! q') →
  (∀ q' d a, q' ≠ q → Q !! q' = Some d → a ∈ d.*1 → a ∉ c'.*1 ∧ nodes h' !! a = nodes h !! a) →
  wfh h' (<[q := c']> Q).
Proof.
  intros [H1 H2 H3 H4 H5 H6 H7] [G1 G2 G3 G4 G5] Hq Hfr Hn. split; try done.
  - intros q' d. destruct (decide (q' = q)) as [->|Hne].
    + rewrite lookup_insert_eq. by intros [= <-].
    + rewrite lookup_insert_ne by done. intros Hd. eapply qok_frame; [by apply Hfr| |by apply H6].
      intros a Ha. by eapply Hn.
  - intros q1 q2 c1 c2 a. destruct (decide (q1 = q)) as [->|E1], (decide (q2 = q)) as [->|E2];
      rewrite ?lookup_insert_eq, ?lookup_insert_ne by done; [done|..|by apply H7].
    + intros [= <-] Hc Ha1 Ha2. by destruct (Hn _ _ _ E2 Hc Ha2).
    + intros Hc [= <-] Ha1 Ha2. by destruct (Hn _ _ _ E1 Hc Ha1).
Qed.

Lemma heap_ok_free_node h a :
  heap_ok h → is_Some (nodes h !! a) →
  ∃ m, free_node a h = Some (mkHeap m (delete a (nodes h)) (queues h)) ∧
       heap_ok (mkHeap m (delete a (nodes h)) (queues h)).
Proof.
  intros [H1 H2 H3 H4 H5] Ha. destruct (H3 a Ha) as (s & Hs & _).
  destruct (mm_free_ok (mm h) a s H1 Hs) as (m & E & Hi & _ & _ & Hx & Hl).
  exists m. unfold free_node. rewrite E. split; [done|]. split; cbn [mm nodes queues];
  rewrite ?Hx, ?Hl; try done.
  - intros b [n Hb]. apply lookup_delete_Some in Hb as [Hne Hb]. rewrite lookup_delete_ne by done. by eauto.
  - intros q Hq. rewrite lookup_delete_ne; [by eauto|]. intros ->.
    rewrite (H5 q Ha) in Hq. by destruct Hq.
  - intros b [n Hb]. apply lookup_delete_Some in Hb as [Hne Hb]. by eauto.
Qed.

(** Rewriting a cell in place keeps the heap part. *)
Lemma heap_ok_queue m ns qs q c : heap_ok (mkHeap m ns qs) → is_Some (qs !! q) →
  heap_ok (mkHeap m ns (<[q := c]> qs)).
Proof.
  intros [H1 H2 H3 H4 H5]; cbn [mm nodes queues] in *; intros Hq. split; cbn [mm nodes queues]; try done.
  - intros q' Hq'. apply H4. destruct (decide (q' = q)) as [->|]; [done|]. by rewrite lookup_insert_ne in Hq'.
  - intros a Ha. rewrite lookup_insert_ne; [by auto|]. intros ->.
    rewrite (H5 _ Ha) in Hq. by destruct Hq.
Qed.

Lemma heap_ok_node m ns qs a n : heap_ok (mkHeap m ns qs) → is_Some (ns !! a) →
  heap_ok (mkHeap m (<[a := n]> ns) qs).
Proof.
  intros [H1 H2 H3 H4 H5]; cbn [mm nodes queues] in *; intros Ha. split; cbn [mm nodes queues]; try done; intros b Hb; (destruct (decide (b = a)) as [->|];
    [by auto|rewrite lookup_insert_ne in Hb by done; by auto]).
Qed.

Lemma upd_queue_eq q f h c : queues h !! q = Some c →
  upd_queue q f h = Some (mkHeap (mm h) (nodes h) (<[q := f c]> (queues h))).
Proof. intros E. unfold upd_queue. by rewrite E. Qed.
Lemma upd_node_eq a f h n : nodes h !! a = Some n →
  upd_node a f h = Some (mkHeap (mm h) (<[a := f n]> (nodes h)) (queues h)).
Proof. intros E. unfold upd_node. by rewrite E. Qed.

(** ** The operations, on the abstract queues *)

Lemma isQueueEmpty_spec h Q q c : wfh h Q → Q !! q = Some c →
  isQueueEmpty q h = Some (bool_decide (c = [])) ∧ getQueueSize q h = Some (Z.of_nat (length c)).
Proof.
  intros Hw Hc. destruct (w_qok _ _ Hw _ _ Hc) as (Hq & _ & _ & _ & E). unfold isQueueEmpty, getQueueSize.
  destruct (Z.eqb_spec q 0); [done|]. rewrite E. cbn [mbind option_bind count]. split; [|done].
  f_equal. destruct c; case_bool_decide; done.
Qed.

Lemma newQueue_spec h Q : wfh h Q →
  ∃ q h', newQueue h = Some (q, h') ∧
    ((q = 0 ∧ wfh h' Q) ∨ (q ≠ 0 ∧ Q !! q = None ∧ wfh h' (<[q := []]> Q))).
Proof.
  intros Hw. destruct (alloc_fresh h Q QUEUE_SIZE Hw ltac:(done)) as (q & m & E & Hi & Hx & Hc).
  unfold newQueue. rewrite E. cbn [mbind option_bind].
  pose proof (wfh_heap _ _ Hw) as [G1 G2 G3 G4 G5].
  destruct Hc as [[-> Hl]|(Hq & Hn & Hqu & s & Hs & Hl)].
  - rewrite Z.eqb_refl. eexists 0, _. split; [done|]. left. split; [done|].
    destruct Hw as [H1 H2 H3 H4 H5 H6 H7]. split; cbn [mm nodes queues]; rewrite ?Hl, ?Hx; try done.
  - destruct (Z.eqb_spec q 0); [done|]. eexists q, _. split; [done|]. right. split; [done|].
    assert (HQ : Q !! q = None).
    { destruct (Q !! q) eqn:EQ; [|done]. destruct (w_qok _ _ Hw _ _ EQ) as (_ & _ & _ & _ & ?). congruence. }
    split; [done|]. eapply wfh_change; [done| | | |].
    + split; cbn [mm nodes queues]; rewrite ?Hl, ?Hx; try done.
      * intros a Ha. rewrite lookup_insert_ne; [by auto|]. intros ->. rewrite Hn in Ha. by destruct Ha.
      * intros q' Hq'. destruct (decide (q' = q)) as [->|]; [rewrite lookup_insert_eq; eauto|].
        rewrite lookup_insert_ne in Hq' by done. rewrite lookup_insert_ne by done. by auto.
      * intros a Ha. rewrite lookup_insert_ne; [by auto|]. intros ->. rewrite Hn in Ha. by destruct Ha.
    + split_and!; try done; try lia; cbn [queues]. 2:by rewrite lookup_insert_eq. apply NoDup_nil_2.
    + intros q' Hne. cbn [queues]. by rewrite lookup_insert_ne.
    + intros. split; [set_solver|done].
Qed.

Lemma wfh_node_some h Q q c a : wfh h Q → Q !! q = Some c → a ∈ c.*1 → a ≠ 0 ∧ is_Some (nodes h !! a).
Proof. intros Hw Hc Ha. destruct (w_qok _ _ Hw _ _ Hc) as (_ & _ & _ & Hl & _). by eapply lseg_in. Qed.

Lemma lseg_snoc ns a cells x d : x ≠ 0 → x ∉ cells.*1 → NoDup (cells.*1) → lseg ns a cells 0 → cells ≠ [] →
  lseg (<[last_addr cells := set_tail x (default (mkNode 0 0) (ns !! last_addr cells))]> (<[x := mkNode d 0]> ns))
    a (cells ++ [(x, d)]) 0.
Proof.
  intros Hx Hfr Hnd Hl Hne. destruct cells as [|[b e] cells _] using rev_ind; [done|].
  rewrite last_addr_snoc. rewrite fmap_app in Hfr, Hnd. cbn in Hfr, Hnd.
  apply list.NoDup_app in Hnd as (_ & Hnd & _).
  apply lseg_app in Hl as (m & Hl & Hm). cbn [lseg] in Hm. destruct Hm as (-> & Hb & nx & Hn & ->).
  rewrite <- app_assoc. apply lseg_app. exists b. split.
  - eapply lseg_ext; [|exact Hl]. intros c Hc. pose proof (Hnd c Hc). rewrite !lookup_insert_ne by set_solver. done.
  - cbn [app lseg]. rewrite lookup_insert_eq, Hn. cbn [default set_tail data]. split_and!; try done.
    exists x. split; [done|]. split; [done|]. split; [done|]. exists 0.
    rewrite lookup_insert_ne by set_solver. by rewrite lookup_insert_eq.
Qed.

Lemma enqueue_spec h Q q c x : wfh h Q → Q !! q = Some c → Z.of_nat (length c) < 2 ^ 31 - 1 →
  ∃ r h', enqueue q x h = Some (r, h') ∧
    ((r = 0 ∧ wfh h' Q) ∨ (r = 1 ∧ ∃ a, wfh h' (<[q := c ++ [(a, x)]]> Q))).
Proof.
  intros Hw Hc Hlen. destruct (alloc_fresh h Q NODE_SIZE Hw ltac:(done)) as (a & m & E & Hi & Hx & Ha).
  unfold enqueue. rewrite E. cbn [mbind option_bind].
  pose proof (wfh_heap _ _ Hw) as [G1 G2 G3 G4 G5].
  destruct Ha as [[-> Hl]|(Hq & Hn & Hqu & s & Hs & Hl)].
  { rewrite Z.eqb_refl. eexists 0, _. split; [done|]. left. split; [done|].
    destruct Hw as [H1 H2 H3 H4 H5 H6 H7]. split; cbn [mm nodes queues]; rewrite ?Hl, ?Hx; try done. }
  destruct (Z.eqb_spec a 0); [done|].
  set (h1 := mkHeap m (<[a := mkNode x 0]> (nodes h)) (queues h)).
  pose proof (w_qok _ _ Hw _ _ Hc) as (Hq0 & Hnd & _ & Hls & Hqc).
  assert (Hfresh : ∀ q' c', Q !! q' = Some c' → a ∉ c'.*1).
  { intros q' c' Hc' Hin. destruct (wfh_node_some _ _ _ _ _ Hw Hc' Hin) as [_ [? ?]]. congruence. }
  assert (Hh1 : heap_ok h1).
  { split; cbn [mm nodes queues h1]; rewrite ?Hl, ?Hx; try done.
    - intros b Hb. destruct (decide (b = a)) as [->|]; [rewrite lookup_insert_eq; eauto|].
      rewrite lookup_insert_ne in Hb by done. rewrite lookup_insert_ne by done. by auto.
    - intros b Hb. rewrite lookup_insert_ne; [by auto|]. intros ->. rewrite Hqu in Hb. by destruct Hb.
    - intros b Hb. destruct (decide (b = a)) as [->|]; [done|]. rewrite lookup_insert_ne in Hb by done. by auto. }
  assert (Hempty : isQueueEmpty q h1 = Some (bool_decide (c = []))).
  { rewrite <- (proj1 (isQueueEmpty_spec _ _ _ _ Hw Hc)). done. }
  rewrite Hempty. cbn [mbind option_bind].
  assert (Hq1 : queues h1 !! q = Some (mkQueue (head_addr c) (last_addr c) (Z.of_nat (length c)))) by done.
  case_bool_decide as Hemp.
  - subst c. rewrite (upd_queue_eq _ _ _ _ Hq1). cbn [mbind option_bind queues]. rewrite lookup_insert_eq.
    cbn [mbind option_bind]. rewrite (upd_queue_eq _ _ _ (mkQueue a a 0)) by apply lookup_insert_eq.
    cbn [mbind option_bind mm nodes queues]. rewrite insert_insert_eq.
    eexists 1, _. split; [done|]. right. split; [done|]. exists a. eapply wfh_change; [exact Hw| | | |].
    + apply heap_ok_queue; [exact Hh1|]. by rewrite Hq1.
    + split_and!; try done; cbn [nodes queues length app]; [apply NoDup_singleton| |by rewrite lookup_insert_eq].
      cbn. split_and!; try done. exists 0. by rewrite lookup_insert_eq.
    + intros q' Hne. cbn [queues]. by rewrite lookup_insert_ne.
    + intros q' d b Hne Hd Hb. cbn [nodes h1]. rewrite lookup_insert_ne; [|intros ->; by eapply Hfresh].
      split; [|done]. intros [->|[]%elem_of_nil]%elem_of_cons. by eapply Hfresh.
  - assert (Hla : last_addr c ∈ c.*1) by (by apply last_addr_in).
    destruct (wfh_node_some _ _ _ _ _ Hw Hc Hla) as [_ [nl Hnl]].
    assert (Hne : a ≠ last_addr c) by (intros ->; by eapply Hfresh).
    assert (Hnl1 : nodes h1 !! last_addr c = Some nl) by (cbn [nodes h1]; by rewrite lookup_insert_ne).
    rewrite Hq1. cbn [mbind option_bind last]. rewrite (upd_node_eq _ _ _ _ Hnl1). cbn [mbind option_bind].
    erewrite (upd_queue_eq q) by exact Hq1. cbn [mbind option_bind queues]. rewrite lookup_insert_eq.
    cbn [mbind option_bind]. erewrite (upd_queue_eq q) by apply lookup_insert_eq.
    cbn [mbind option_bind mm nodes queues]. rewrite insert_insert_eq.
    eexists 1, _. split; [done|]. right. split; [done|]. exists a. eapply wfh_change; [exact Hw| | | |].
    + apply heap_ok_queue; [|by rewrite Hq1]. apply heap_ok_node; [exact Hh1|]. by rewrite Hnl1.
    + split; [done|]. rewrite fmap_app, length_app. cbn [nodes queues length list_fmap fmap fst]. split_and!.
      * apply list.NoDup_app. split_and!; [done| |apply NoDup_singleton].
        intros b Hb [->|[]%elem_of_nil]%elem_of_cons. by eapply Hfresh.
      * lia.
      * replace (head_addr (c ++ [(a, x)])) with (head_addr c) by (by destruct c).
        pose proof (lseg_snoc (nodes h) (head_addr c) c a x Hq (Hfresh _ _ Hc) Hnd Hls Hemp) as Hsn.
        by rewrite Hnl in Hsn.
      * rewrite lookup_insert_eq, last_addr_snoc. cbn [set_count set_last first last count].
        rewrite i32_small by lia. replace (head_addr (c ++ [(a, x)])) with (head_addr c) by (by destruct c).
        by rewrite Nat2Z.inj_add.
    + intros q' Hq'. cbn [queues]. by rewrite lookup_insert_ne.
    + intros q' d b Hq' Hd Hb. assert (b ∉ c.*1) by (intros Hin; by eapply Hq', w_disj).
      assert (b ≠ a) by (intros ->; by eapply Hfresh).
      split; [rewrite fmap_app; set_solver|]. cbn [nodes h1]. rewrite !lookup_insert_ne; [done|done|].
      intros <-. done.
Qed.

(** Dropping the first node. *)
Lemma pollQueue_spec h Q q c : wfh h Q → Q !! q = Some c →
  match c with
  | [] => pollQueue q h = Some (0, h)
  | (a, d) :: rest => ∃ h', pollQueue q h = Some (d, h') ∧ wfh h' (<[q := rest]> Q)
  end.
Proof.
  intros Hw Hc. destruct (isQueueEmpty_spec _ _ _ _ Hw Hc) as [Hem _].
  pose proof (w_qok _ _ Hw _ _ Hc) as (Hq0 & Hnd & Hlen & Hls & Hqc).
  unfold pollQueue. rewrite Hem. cbn [mbind option_bind]. destruct c as [|[a d] rest]; [done|].
  case_bool_decide; [done|]. rewrite Hqc. cbn [mbind option_bind first].
  assert (Hh : head_addr ((a, d) :: rest) = a) by done. rewrite Hh in *.
  destruct Hls as (_ & Ha0 & nx & Hn & Hls). rewrite Hn. cbn [mbind option_bind tail data count].
  destruct (heap_ok_free_node h a) as (m & -> & Hok); [by eapply wfh_heap|by rewrite Hn|].
  cbn [mbind option_bind]. erewrite (upd_queue_eq q) by exact Hqc.
  cbn [mbind option_bind mm nodes queues]. erewrite (upd_queue_eq q) by apply lookup_insert_eq.
  cbn [mbind option_bind mm nodes queues]. rewrite insert_insert_eq.
  cbn [set_first set_count first last count length].
  rewrite i32_small by (cbn [length] in Hlen; lia).
  apply list.NoDup_cons in Hnd as [Hna Hnd]. fold (fmap (M := list) (fst (A := Z) (B := Z))) in *.
  pose proof (lseg_head _ _ _ Hls) as ->.
  set (c' := mkQueue (head_addr rest) (last_addr rest) (Z.of_nat (length rest))).
  assert (Hfin : wfh (mkHeap m (delete a (nodes h)) (<[q := c']> (queues h))) (<[q := rest]> Q)).
  { eapply wfh_change; [exact Hw| | | |].
    - apply heap_ok_queue; [done|]. by rewrite Hqc.
    - split; [done|]. cbn [nodes queues length] in *. split_and!; [done|lia| |by rewrite lookup_insert_eq].
      eapply lseg_ext; [|exact Hls]. intros b Hb. rewrite lookup_delete_ne; [done|]. by intros ->.
    - intros q' Hq'. cbn [queues]. by rewrite lookup_insert_ne.
    - intros q' e b Hq' He Hb.
      assert (b ∉ ((a, d) :: rest).*1) as Hb' by (intros Hin; by eapply Hq', w_disj).
      cbn in Hb'. cbn [nodes]. rewrite lookup_delete_ne by set_solver. set_solver. }
  destruct (Z.eqb_spec (Z.of_nat (S (length rest)) - 1) 0) as [Ez|Ez].
  - destruct rest as [|? ?]; [|simpl in Ez; lia].
    erewrite (upd_queue_eq q) by apply lookup_insert_eq. cbn [mbind option_bind mm nodes queues].
    rewrite insert_insert_eq. eexists. split; [done|]. exact Hfin.
  - cbn [mbind option_bind]. eexists. split; [done|]. unfold c' in Hfin.
    destruct rest as [|[b e] rest]; [done|]. 
    replace (Z.of_nat (S (length ((b, e) :: rest))) - 1) with (Z.of_nat (length ((b, e) :: rest))) by lia.
    exact Hfin.
Qed.

(** *** Removal *)

Lemma last_addr_app pre a d rest :
  last_addr (pre ++ (a, d) :: rest) = if decide (rest = []) then a else last_addr rest.
Proof.
  case_decide as E; [subst; apply last_addr_snoc|].
  destruct rest as [|[b e] rest _] using rev_ind; [done|].
  rewrite app_comm_cons, app_assoc, !last_addr_snoc. done.
Qed.

Lemma last_addr_zero ns a cells e : lseg ns a cells e → (last_addr cells =? 0) = bool_decide (cells = []).
Proof.
  intros Hl. case_bool_decide as E; [by subst|]. apply Z.eqb_neq. intros H0.
  destruct (lseg_in _ _ _ _ (last_addr cells) Hl (last_addr_in _ E)) as [? _]. done.
Qed.

(** The chain without one of its nodes. *)
Lemma lseg_remove ns pre a d rest :
  NoDup ((pre ++ (a, d) :: rest).*1) → lseg ns (head_addr (pre ++ (a, d) :: rest)) (pre ++ (a, d) :: rest) 0 →
  let p := last_addr pre in
  lseg (delete a (if p =? 0 then ns else <[p := set_tail (head_addr rest) (default (mkNode 0 0) (ns !! p))]> ns))
    (head_addr (pre ++ rest)) (pre ++ rest) 0.
Proof.
  intros Hnd Hl p. unfold p. clear p. rewrite fmap_app in Hnd. apply list.NoDup_app in Hnd as (N1 & N2 & N3).
  cbn in N2, N3. apply list.NoDup_cons in N3 as [N3 N4].
  apply lseg_app in Hl as (m & Hl1 & -> & Ha & nx & Hn & Hl2). pose proof (lseg_head _ _ _ Hl2) as ->.
  rewrite (last_addr_zero _ _ _ _ Hl1). case_bool_decide as E.
  - subst pre. cbn [app]. eapply lseg_ext; [|exact Hl2]. intros b Hb.
    rewrite lookup_delete_ne; [done|]. by intros ->.
  - destruct pre as [|[b e] pre _] using rev_ind; [done|]. rewrite last_addr_snoc.
    rewrite fmap_app in N1, N2. cbn in N1, N2. apply list.NoDup_app in N1 as (N5 & N6 & _).
    apply lseg_app in Hl1 as (m & Hl1 & -> & Hb & nx & Hnb & ->).
    replace (head_addr ((pre ++ [(b, e)]) ++ (a, d) :: rest)) with (head_addr ((pre ++ [(b, e)]) ++ rest))
      in Hl1 by (by destruct pre).
    assert (Hab : a ≠ b) by (intros ->; apply (N2 b); set_solver).
    rewrite <- app_assoc in *. apply lseg_app. exists b. split.
    + eapply lseg_ext; [|exact Hl1]. intros c Hc. pose proof (N6 c Hc).
      assert (a ≠ c) by (intros ->; apply (N2 c); set_solver).
      rewrite lookup_delete_ne, lookup_insert_ne by set_solver. done.
    + cbn [app lseg]. split; [done|]. split; [done|]. exists (head_addr rest).
      rewrite lookup_delete_ne, lookup_insert_eq, Hnb by done. split; [done|].
      eapply lseg_ext; [|exact Hl2]. intros c Hc.
      assert (a ≠ c) by (by intros ->). assert (b ≠ c) by (intros ->; apply (N2 c); set_solver).
      by rewrite lookup_delete_ne, lookup_insert_ne by done.
Qed.

(** What the pointer updates of [removeNodeFromQueue] amount to. *)
Definition unlink (a : Z) (pre rest : list (Z * Z)) (h : heap) : heap :=
  let p := last_addr pre in
  mkHeap (mm h)
    (if p =? 0 then nodes h
     else <[p := set_tail (head_addr rest) (default (mkNode 0 0) (nodes h !! p))]> (nodes h)) (queues h).

Lemma removeNode_unfold h q pre a d rest :
  qok h q (pre ++ (a, d) :: rest) →
  removeNodeFromQueue q a (last_addr pre) (head_addr rest) h =
    (let h' := unlink a pre rest h in
     h3 ← free_node a (mkHeap (mm h') (nodes h') (<[q := mkQueue (head_addr (pre ++ rest)) (last_addr (pre ++ rest))
             (Z.of_nat (length (pre ++ (a, d) :: rest)))]> (queues h')));
     c ← queues h3 !! q;
     upd_queue q (set_count (i32 (count c - 1))) h3).
Proof.
  intros (Hq0 & Hnd & Hlen & Hls & Hqc). unfold removeNodeFromQueue, unlink.
  apply lseg_app in Hls as (m & Hl1 & -> & Ha & nx & Hn & Hl2).
  set (n := Z.of_nat _) in *. set (lo := last_addr (pre ++ (a, d) :: rest)) in *.
  assert (Hlo : (a =? lo) = bool_decide (rest = [])).
  { unfold lo. rewrite last_addr_app. case_decide as E; case_bool_decide; try done; [apply Z.eqb_refl|].
    apply Z.eqb_neq. intros ->. rewrite fmap_app in Hnd. apply list.NoDup_app in Hnd as (_ & _ & Hnd).
    cbn in Hnd. apply list.NoDup_cons in Hnd as [Hnd _]. apply Hnd. by apply last_addr_in. }
  assert (E1 : (if last_addr pre =? 0 then upd_queue q (set_first (head_addr rest)) h
     else upd_node (last_addr pre) (set_tail (head_addr rest)) h) =
     Some (mkHeap (mm h) (nodes (unlink a pre rest h)) (<[q := mkQueue (head_addr (pre ++ rest)) lo n]> (queues h)))).
  { clear Hlo. unfold unlink. rewrite (last_addr_zero _ _ _ _ Hl1). case_bool_decide as E.
    - destruct pre; [|discriminate E]. by rewrite (upd_queue_eq _ _ _ _ Hqc).
    - destruct (lseg_in _ _ _ _ (last_addr pre) Hl1 (last_addr_in _ E)) as [_ [nl Hnl]].
      rewrite (upd_node_eq _ _ _ _ Hnl). cbn [nodes]. rewrite Hnl. cbn [default].
      rewrite (insert_id (queues h) q); [done|]. rewrite Hqc. by destruct pre. }
  rewrite E1. cbn [mbind option_bind queues]. rewrite lookup_insert_eq. cbn [mbind option_bind last].
  rewrite Hlo. case_bool_decide as E; cbn [mbind option_bind].
  - destruct rest; [|discriminate E]. erewrite (upd_queue_eq q) by apply lookup_insert_eq.
    cbn [mbind option_bind mm nodes queues]. by rewrite insert_insert_eq, app_nil_r.
  - cbn [mm nodes queues unlink]. replace lo with (last_addr (pre ++ rest)); [done|].
    unfold lo. rewrite last_addr_app, decide_False by done.
    destruct rest as [|[b e] rest]; [done|]. rewrite last_addr_app. symmetry.
    change ((b, e) :: rest) with ([] ++ (b, e) :: rest). apply last_addr_app.
Qed.

Lemma removeNode_spec h Q q pre a d rest : wfh h Q → Q !! q = Some (pre ++ (a, d) :: rest) →
  ∃ h', removeNodeFromQueue q a (last_addr pre) (head_addr rest) h = Some h' ∧
        wfh h' (<[q := pre ++ rest]> Q).
Proof.
  intros Hw Hc. pose proof (w_qok _ _ Hw _ _ Hc) as Hqk. rewrite (removeNode_unfold _ _ _ _ _ _ Hqk).
  destruct Hqk as (Hq0 & Hnd & Hlen & Hls & Hqc).
  pose proof (lseg_remove _ _ _ _ _ Hnd Hls) as Hrm. cbn zeta in *.
  apply lseg_app in Hls as (m0 & Hl1 & _).
  assert (Hna : a ∈ (pre ++ (a, d) :: rest).*1) by (rewrite fmap_app; set_solver).
  destruct (wfh_node_some _ _ _ _ _ Hw Hc Hna) as [Ha0 Hsa].
  assert (Hsub : (pre ++ rest).*1 ⊆ (pre ++ (a, d) :: rest).*1) by (rewrite !fmap_app; set_solver).
  assert (Hlp : last_addr pre ≠ 0 → last_addr pre ∈ (pre ++ (a, d) :: rest).*1 ∧ is_Some (nodes h !! last_addr pre)).
  { intros E. assert (pre ≠ []) by (by intros ->). pose proof (last_addr_in pre ltac:(done)).
    split; [rewrite fmap_app; set_solver|]. by eapply (lseg_in _ _ _ _ _ Hl1). }
  unfold unlink in *. cbn [mm nodes queues].
  set (ns := if last_addr pre =? 0 then _ else _) in *.
  assert (Hother : ∀ b, b ∉ (pre ++ (a, d) :: rest).*1 → ns !! b = nodes h !! b).
  { intros b Hb. unfold ns. destruct (Z.eqb_spec (last_addr pre) 0); [done|].
    destruct (Hlp ltac:(done)) as [? _]. rewrite lookup_insert_ne; [done|]. by intros <-. }
  assert (Hns : is_Some (ns !! a)).
  { unfold ns. destruct (Z.eqb_spec (last_addr pre) 0); [done|].
    destruct (decide (a = last_addr pre)) as [->|]; [by rewrite lookup_insert_eq|by rewrite lookup_insert_ne]. }
  set (c1 := mkQueue _ _ _).
  assert (Hok1 : heap_ok (mkHeap (mm h) ns (<[q := c1]> (queues h)))).
  { apply heap_ok_queue; [|by rewrite Hqc]. unfold ns. destruct (Z.eqb_spec (last_addr pre) 0).
    - destruct h. by eapply wfh_heap.
    - apply heap_ok_node; [destruct h; by eapply wfh_heap|]. by apply Hlp. }
  destruct (heap_ok_free_node _ a Hok1 Hns) as (m & -> & Hok2). cbn [mbind option_bind queues nodes] in *.
  rewrite lookup_insert_eq. cbn [mbind option_bind]. erewrite (upd_queue_eq q) by apply lookup_insert_eq.
  cbn [mm nodes queues]. rewrite insert_insert_eq. eexists. split; [done|]. rewrite length_app in Hlen. cbn [length] in Hlen.
  eapply wfh_change; [exact Hw| | | |].
  - rewrite <- (insert_insert_eq (queues h) q _ c1). apply heap_ok_queue; [done|]. by rewrite lookup_insert_eq.
  - split; [done|]. cbn [nodes queues]. split_and!; [|rewrite length_app; lia|done|].
    + rewrite fmap_app in *. cbn in Hnd. revert Hnd. rewrite !list.NoDup_app, list.NoDup_cons. set_solver.
    + rewrite lookup_insert_eq. unfold c1, set_count. cbn [first last count].
      rewrite !length_app. cbn [length]. rewrite i32_small by lia. do 2 f_equal. lia.
  - intros q' Hq'. cbn [queues]. by rewrite lookup_insert_ne.
  - intros q' e b Hq' He Hb.
    assert (b ∉ (pre ++ (a, d) :: rest).*1) as Hb' by (intros Hin; by eapply Hq', w_disj).
    split; [set_solver|]. cbn [nodes]. rewrite lookup_delete_ne by (by intros ->). by apply Hother.
Qed.

Definition kept (eq : Z → Z) (cells : list (Z * Z)) : list (Z * Z) :=
  List.filter (λ c, negb (eq c.2 =? 0)) cells.

Lemma kept_length eq cells : (length (kept eq cells) ≤ length cells)%nat.
Proof. induction cells as [|c cells IH]; simpl; [lia|]. destruct (negb _); simpl; lia. Qed.

Lemma remove_loop_spec q eq rest : ∀ fuel pre k h Q,
  wfh h Q → Q !! q = Some (pre ++ rest) → (length rest ≤ fuel)%nat →
  0 ≤ k → k + Z.of_nat (length rest) < 2 ^ 31 →
  ∃ h', remove_loop fuel q eq (last_addr pre) (head_addr rest) k h =
          Some (k + Z.of_nat (length rest - length (kept eq rest)), h') ∧
        wfh h' (<[q := pre ++ kept eq rest]> Q).
Proof.
  induction rest as [|[a d] rest IH]; intros fuel pre k h Q Hw Hc Hf Hk Hk2.
  - exists h. destruct fuel; cbn; rewrite Z.add_0_r, insert_id by done; done.
  - destruct fuel as [|fuel]; [simpl in Hf; lia|]. cbn [length] in *.
    pose proof (w_qok _ _ Hw _ _ Hc) as (Hq0 & Hnd & Hlen & Hls & Hqc).
    apply lseg_app in Hls as (m & Hl1 & -> & Ha & nx & Hn & Hl2). pose proof (lseg_head _ _ _ Hl2) as ->.
    change (head_addr ((a, d) :: rest)) with a. cbn [remove_loop].
    destruct (Z.eqb_spec a 0); [done|]. rewrite Hn. cbn [mbind option_bind data tail kept List.filter snd].
    pose proof (kept_length eq rest). destruct (Z.eqb_spec (eq d) 0) as [E|E]; cbn [negb].
    + destruct (removeNode_spec _ _ _ _ _ _ _ Hw Hc) as (h1 & -> & Hw1). cbn [mbind option_bind].
      rewrite i32_small by lia.
      destruct (IH fuel pre (k + 1) h1 _ Hw1) as (h2 & -> & Hw2); [by rewrite lookup_insert_eq|lia..|].
      exists h2. rewrite insert_insert_eq in Hw2. split; [|done]. do 2 f_equal.
      fold (kept eq rest). lia.
    + destruct (IH fuel (pre ++ [(a, d)]) k h Q Hw) as (h2 & E2 & Hw2); [by rewrite <- app_assoc|lia..|].
      rewrite last_addr_snoc in E2. rewrite E2. exists h2. rewrite <- app_assoc in Hw2. split; [|done].
      done.
Qed.

Lemma removeFromQueue_spec h Q q c x compare : wfh h Q → Q !! q = Some c →
  ∃ h', removeFromQueue q x (Some compare) h =
          Some (Z.of_nat (length c - length (kept (compare x) c)), h') ∧
        wfh h' (<[q := kept (compare x) c]> Q).
Proof.
  intros Hw Hc. pose proof (w_qok _ _ Hw _ _ Hc) as (Hq0 & Hnd & Hlen & Hls & Hqc).
  unfold removeFromQueue. destruct (Z.eqb_spec q 0); [done|]. rewrite Hqc. cbn [mbind option_bind count first].
  destruct (remove_loop_spec q (compare x) c (Z.to_nat (Z.of_nat (length c))) [] 0 h Q) as (h1 & E & Hw1);
    try done; try lia.
  change (last_addr []) with 0 in E. rewrite E. cbn [mbind option_bind app] in *.
  rewrite Z.add_0_l. pose proof (lookup_insert_eq Q q (kept (compare x) c)) as Hc1.
  rewrite (proj1 (isQueueEmpty_spec _ _ _ _ Hw1 Hc1)). cbn [mbind option_bind].
  case_bool_decide as Hk; [|by exists h1].
  pose proof (w_qok _ _ Hw1 _ _ Hc1) as (_ & _ & _ & _ & Hqc1).
  rewrite (upd_queue_eq _ _ _ _ Hqc1). cbn [mbind option_bind]. eexists. split; [done|].
  rewrite Hk in *. cbn. rewrite insert_id by done. by destruct h1.
Qed.

(** *** Disposal *)

Lemma free_loop_spec rest : ∀ fuel h,
  heap_ok h → NoDup (rest.*1) → lseg (nodes h) (head_addr rest) rest 0 → (length rest ≤ fuel)%nat →
  ∃ h', free_loop fuel (head_addr rest) h = Some h' ∧ heap_ok h' ∧ queues h' = queues h ∧
    (∀ b, b ∉ rest.*1 → nodes h' !! b = nodes h !! b).
Proof.
  induction rest as [|[a d] rest IH]; intros fuel h Hok Hnd Hls Hf.
  - exists h. by destruct fuel.
  - destruct fuel as [|fuel]; [simpl in Hf; lia|]. destruct Hls as (_ & Ha & nx & Hn & Hls).
    cbn in Hnd. apply list.NoDup_cons in Hnd as [Hna Hnd].
    pose proof (lseg_head _ _ _ Hls) as ->. cbn [free_loop]. change (head_addr ((a, d) :: rest)) with a.
    destruct (Z.eqb_spec a 0); [done|]. rewrite Hn. cbn [mbind option_bind tail].
    destruct (heap_ok_free_node h a Hok) as (m & -> & Hok1); [by rewrite Hn|]. cbn [mbind option_bind].
    destruct (IH fuel _ Hok1 Hnd) as (h2 & -> & Hok2 & Eq & En); cbn [nodes] in *; [|simpl in Hf; lia|].
    { eapply lseg_ext; [|exact Hls]. intros b Hb. rewrite lookup_delete_ne; [done|]. by intros ->. }
    exists h2. split_and!; try done. intros b Hb. rewrite En by set_solver.
    rewrite lookup_delete_ne; [done|]. set_solver.
Qed.

Lemma freeQueue_spec h Q q c : wfh h Q → Q !! q = Some c →
  ∃ h', freeQueue q h = Some h' ∧ wfh h' (delete q Q).
Proof.
  intros Hw Hc. pose proof (w_qok _ _ Hw _ _ Hc) as (Hq0 & Hnd & Hlen & Hls & Hqc).
  unfold freeQueue. destruct (Z.eqb_spec q 0); [done|]. rewrite Hqc. cbn [mbind option_bind count first].
  destruct (free_loop_spec c (Z.to_nat (Z.of_nat (length c))) h) as (h1 & -> & Hok & Eq & En);
    [by eapply wfh_heap|done..|lia|].
  cbn [mbind option_bind]. destruct Hok as [H1 H2 H3 H4 H5].
  destruct (H4 q) as (s & Hs & _); [by rewrite Eq, Hqc|].
  destruct (mm_free_ok (mm h1) q s H1 Hs) as (m & E & Hi & _ & _ & Hx & Hl).
  unfold free_header. rewrite E. cbn [mbind option_bind]. eexists. split; [done|].
  pose proof Hw as [W1 W2 W3 W4 W5 W6 W7]. split; cbn [mm nodes queues]; rewrite ?Hx, ?Hl, ?Eq; try done.
  - intros a Ha. rewrite lookup_delete_ne; [by auto|]. intros ->. apply H5 in Ha. congruence.
  - intros q' [c' Hq']. apply lookup_delete_Some in Hq' as [Hne Hq']. rewrite lookup_delete_ne by done.
    apply H4. rewrite Eq. by eauto.
  - intros a Ha. destruct (decide (a = q)) as [->|]; [by rewrite lookup_delete_eq|].
    rewrite lookup_delete_ne by done. rewrite <- Eq. by apply H5.
  - intros q' d Hd. apply lookup_delete_Some in Hd as [Hne Hd]. eapply qok_frame; [| |by apply W6].
    + cbn [queues]. by rewrite lookup_delete_ne, ?Eq by done.
    + intros a Ha. cbn [nodes]. apply En. intros Hin. by eapply Hne, W7.
  - intros q1 q2 c1 c2 a Hc1 Hc2. apply lookup_delete_Some in Hc1 as [_ Hc1], Hc2 as [_ Hc2]. by apply W7.
Qed.

(** ** The specification: a finite map of lists *)

(** The heap [h] holds the queues [A], each with its elements in order. *)
Definition holds (h : heap) (A : gmap Z (list Z)) : Prop :=
  ∃ Q, wfh h Q ∧ A = (λ c : list (Z * Z), c.*2) <$> Q.

Lemma holds_lookup h A q l : holds h A → A !! q = Some l →
  ∃ Q c, wfh h Q ∧ A = (λ c : list (Z * Z), c.*2) <$> Q ∧ Q !! q = Some c ∧ l = c.*2.
Proof.
  intros (Q & Hw & ->) Hl. apply lookup_fmap_Some in Hl as (c & <- & Hc). by exists Q, c.
Qed.

Lemma kept_snd eq (c : list (Z * Z)) : (kept eq c).*2 = List.filter (λ d, negb (eq d =? 0)) (c.*2).
Proof.
  induction c as [|[a d] c IH]; [done|]. cbn [kept List.filter fmap list_fmap snd] in *.
  fold (kept eq c). destruct (negb (eq d =? 0)); [|done]. cbn [fmap list_fmap snd]. by f_equal.
Qed.

Lemma kept_count (eq : Z → Z) (c : list (Z * Z)) :
  length c = (length (List.filter (λ d, (eq d =? 0)%Z) (c.*2)) + length (kept eq c))%nat.
Proof.
  induction c as [|[a d] c IH]; [done|]. change (((a, d) :: c).*2) with (d :: c.*2).
  cbn [kept List.filter snd]. fold (kept eq c). destruct (eq d =? 0); cbn [negb length]; lia.
Qed.

(** C33. The linked queues refine a map of lists: creation adds an empty queue or answers
    NULL, an insertion appends (or, out of memory, changes nothing), an extraction takes the
    head (NULL when empty), the size is the length, and no operation touches another queue. *)
Theorem queue_fifo h A q l x :
  holds h A → A !! q = Some l → Z.of_nat (length l) < 2 ^ 31 - 1 →
  getQueueSize q h = Some (Z.of_nat (length l)) ∧
  (∃ r h', enqueue q x h = Some (r, h') ∧
     ((r = 0 ∧ holds h' A) ∨ (r = 1 ∧ holds h' (<[q := l ++ [x]]> A)))) ∧
  (∃ h', pollQueue q h = Some (default 0 (head l), h') ∧ holds h' (<[q := list.tail l]> A)) ∧
  (∃ q' h', newQueue h = Some (q', h') ∧
     ((q' = 0 ∧ holds h' A) ∨ (q' ≠ 0 ∧ A !! q' = None ∧ holds h' (<[q' := []]> A)))).
Proof.
  intros Hh Hl Hlen. destruct (holds_lookup _ _ _ _ Hh Hl) as (Q & c & Hw & -> & Hc & ->).
  rewrite length_fmap in *. split_and!.
  - by destruct (isQueueEmpty_spec _ _ _ _ Hw Hc).
  - destruct (enqueue_spec _ _ _ _ x Hw Hc Hlen) as (r & h' & -> & [[-> ?]|(-> & a & Hw')]);
      eexists _, h'; (split; [done|]); [left|right]; (split; [done|]); [by exists Q|].
    exists (<[q := c ++ [(a, x)]]> Q). split; [done|]. by rewrite fmap_insert, fmap_app.
  - pose proof (pollQueue_spec _ _ _ _ Hw Hc) as Hp. destruct c as [|[a d] rest].
    + exists h. split; [done|]. exists Q. split; [done|]. rewrite insert_id; [done|].
      rewrite lookup_fmap, Hc. done.
    + destruct Hp as (h' & -> & Hw'). exists h'. split; [done|]. exists (<[q := rest]> Q).
      split; [done|]. by rewrite fmap_insert.
  - destruct (newQueue_spec _ _ Hw) as (q' & h' & -> & [[-> ?]|(? & Hf & Hw')]);
      eexists _, h'; (split; [done|]); [left|right]; (split; [done|]); [by exists Q|].
    split; [by rewrite lookup_fmap, Hf|]. exists (<[q' := []]> Q). split; [done|]. by rewrite fmap_insert.
Qed.

(** [removeFromQueue] filters: it removes every element the caller's comparison matches,
    keeps the others in order, answers how many it removed, and always terminates; and
    [freeQueue] disposes of exactly its own queue. *)
Theorem queue_remove_and_free h A q l x compare :
  holds h A → A !! q = Some l →
  (∃ h', removeFromQueue q x (Some compare) h =
           Some (Z.of_nat (length (List.filter (λ d, compare x d =? 0) l)), h') ∧
         holds h' (<[q := List.filter (λ d, negb (compare x d =? 0)) l]> A)) ∧
  (∃ h', freeQueue q h = Some h' ∧ holds h' (delete q A)).
Proof.
  intros Hh Hl. destruct (holds_lookup _ _ _ _ Hh Hl) as (Q & c & Hw & -> & Hc & ->). split.
  - destruct (removeFromQueue_spec _ _ _ _ x compare Hw Hc) as (h' & -> & Hw'). exists h'. split.
    + do 3 f_equal. pose proof (kept_count (compare x) c). lia.
    + eexists. split; [exact Hw'|]. by rewrite fmap_insert, kept_snd.
  - destruct (freeQueue_spec _ _ _ _ Hw Hc) as (h' & -> & Hw'). exists h'. split; [done|].
    eexists. split; [exact Hw'|]. by rewrite fmap_delete.
Qed.

End Queues.

(** A heap over the free-list manager of a freshly booted kernel, with one empty queue. *)
Definition heap0 : heap (M := FreeList.state) := mkHeap FreeList.boot_heap ∅ ∅.
Definition queue1 : Z := match newQueue heap0 with Some (q, _) => q | None => 0 end.
Definition heap1 : heap (M := FreeList.state) := match newQueue heap0 with Some (_, h) => h | None => heap0 end.

Lemma heap0_wf : wfh heap0 ∅.
Proof.
  split; cbn [mm nodes queues heap0].
  - change (FreeList.wf FreeList.boot_heap (FreeList.segs_of FreeList.boot_heap)).
    rewrite (FreeList.segs_of_wf _ _ FreeList.free_list_boot_heap_wf). exact FreeList.free_list_boot_heap_wf.
  - change (QUEUE_SIZE ≤ FreeList.max_request). by vm_compute.
  - intros a [? E]. by rewrite lookup_empty in E.
  - intros a [? E]. by rewrite lookup_empty in E.
  - intros a _. apply lookup_empty.
  - intros q c E. by rewrite lookup_empty in E.
  - intros q q' c c' a E. by rewrite lookup_empty in E.
Qed.

Lemma heap1_holds : holds heap1 {[queue1 := []]}.
Proof.
  destruct (newQueue_spec _ _ heap0_wf) as (q & h & E & Hc).
  assert (Hq : queue1 ≠ 0) by (vm_compute; done).
  unfold heap1, queue1 in *. rewrite E in *. destruct Hc as [[? ?]|(_ & _ & Hw)]; [done|].
  eexists. split; [exact Hw|]. by rewrite fmap_insert, fmap_empty.
Qed.

Lemma queue_fifo_witness : holds heap1 {[queue1 := []]} ∧
  ∃ r h', enqueue queue1 42 heap1 = Some (r, h') ∧
    ((r = 0 ∧ holds h' {[queue1 := []]}) ∨ (r = 1 ∧ holds h' (<[queue1 := [42]]> {[queue1 := []]}))).
Proof.
  split; [exact heap1_holds|].
  destruct (queue_fifo heap1 _ queue1 [] 42 heap1_holds (lookup_singleton_eq _ _) eq_refl) as (_ & He & _).
  exact He.
Defined.

Lemma queue_remove_and_free_witness : holds heap1 {[queue1 := []]} ∧
  ∃ h', freeQueue queue1 heap1 = Some h' ∧ holds h' (delete queue1 {[queue1 := []]}).
Proof.
  split; [exact heap1_holds|].
  exact (proj2 (queue_remove_and_free heap1 _ queue1 [] 0 (λ a b, a - b) heap1_holds (lookup_singleton_eq _ _))).
Defined.

End Queue.
