(* ===== verification/CircularBuffer.v ===== *)
(** * The circular byte buffer ([Kernel/circularBuffer.c])

    A [CircularBuffer] is [option cb]: [None] is the NULL every operation checks for.  The
    descriptor and its storage are two blocks of the memory manager; the storage is a map
    from indices to bytes, and an index never written reads as the byte 0 (its contents are
    not used by any theorem). *)

From S2P Require Import Prelude MemoryManager Buddy.

Module CircularBuffer.

Definition EOF : Z := 0.
Definition CDT_SIZE : Z := 40.   (* sizeof(circularBufferCDT) *)

Record circularBufferCDT := mkCB {
  data : gmap Z Z;
  maxSize : Z;
  readIdx : Z;
  writeIdx : Z;
  count : Z;
  self_ptr : Z;   (* the address of the descriptor *)
  data_ptr : Z;   (* the address of the storage: the field [data] of the C struct *)
}.

Section Memory.
Context {M : Type} `{MemoryManager M}.

Definition newBuffer (size : Z) (m : M) : option (option circularBufferCDT * M) :=
  if size =? 0 then Some (None, m)
  else
    '(cb, m1) ← mm_alloc CDT_SIZE m;
    if cb =? 0 then Some (None, m1)
    else
      '(d, m2) ← mm_alloc size m1;
      if d =? 0 then m3 ← mm_free cb m2; Some (None, m3)
      else Some (Some (mkCB ∅ size 0 0 0 cb d), m2).

Definition freeBuffer (cb : option circularBufferCDT) (m : M) : option M :=
  match cb with
  | None => Some m
  | Some cb => m1 ← mm_free (data_ptr cb) m; mm_free (self_ptr cb) m1
  end.

End Memory.

Definition bufferIsFull (cb : option circularBufferCDT) : bool :=
  match cb with None => false | Some cb => count cb =? maxSize cb end.
Definition bufferHasData (cb : option circularBufferCDT) : bool :=
  match cb with None => false | Some cb => 0 <? count cb end.

Definition bufferWrite (byteToWrite : Z) (cb : option circularBufferCDT)
  : Z * option circularBufferCDT :=
  match cb with
  | None => (0, None)
  | Some b =>
    if bufferIsFull cb then (0, cb)
    else (1, Some (mkCB (<[writeIdx b := byteToWrite]> (data b)) (maxSize b) (readIdx b)
                     (u64 (writeIdx b + 1) mod maxSize b) (u64 (count b + 1)) (self_ptr b) (data_ptr b)))
  end.

Definition bufferRead (cb : option circularBufferCDT) : Z * option circularBufferCDT :=
  match cb with
  | None => (EOF, None)
  | Some b =>
    if negb (bufferHasData cb) then (EOF, cb)
    else (default 0 (data b !! readIdx b),
          Some (mkCB (data b) (maxSize b) (u64 (readIdx b + 1) mod maxSize b) (writeIdx b)
                  (u64 (count b - 1)) (self_ptr b) (data_ptr b)))
  end.

(** ** The bounded FIFO it implements *)

(** [b] holds the bytes [l], oldest first. *)
Record bholds (b : circularBufferCDT) (l : list Z) : Prop := {
  b_size : 0 < maxSize b < 2 ^ 64 - 1;
  b_read : 0 ≤ readIdx b < maxSize b;
  b_count : count b = Z.of_nat (length l);
  b_fit : Z.of_nat (length l) ≤ maxSize b;
  b_write : writeIdx b = (readIdx b + Z.of_nat (length l)) mod maxSize b;
  b_data : ∀ (i : nat) x, l !! i = Some x → data b !! ((readIdx b + Z.of_nat i) mod maxSize b) = Some x;
}.

Lemma bufferWrite_spec b l x : bholds b l → Z.of_nat (length l) < maxSize b →
  ∃ b', bufferWrite x (Some b) = (1, Some b') ∧ bholds b' (l ++ [x]) ∧ maxSize b' = maxSize b ∧
    self_ptr b' = self_ptr b ∧ data_ptr b' = data_ptr b.
Proof.
  intros [H1 H2 H3 H4 H5 H6] Hlt. unfold bufferWrite, bufferIsFull.
  destruct (Z.eqb_spec (count b) (maxSize b)); [lia|]. eexists. split; [done|]. split_and!; try done.
  pose proof (Z.mod_pos_bound (readIdx b + Z.of_nat (length l)) (maxSize b) ltac:(lia)) as Hw.
  split; cbn [maxSize readIdx writeIdx count data]; rewrite ?length_app; cbn [length]; try done.
  - unfold u64. rewrite wrap_small by lia. lia.
  - lia.
  - unfold u64. rewrite wrap_small by lia. rewrite H5, Nat2Z.inj_add.
    rewrite Z.add_mod_idemp_l by lia. f_equal. lia.
  - intros i y Hi. apply lookup_app_Some in Hi as [Hi|[Hi1 Hi2]].
    + rewrite lookup_insert_ne; [by apply H6|]. rewrite H5. apply lookup_lt_Some in Hi.
      (* two distances below [maxSize] from the same start *)
      intros E. assert (Hd : (Z.of_nat (length l) - Z.of_nat i) mod maxSize b = 0).
      { replace (Z.of_nat (length l) - Z.of_nat i)
          with ((readIdx b + Z.of_nat (length l)) - (readIdx b + Z.of_nat i)) by lia.
        rewrite Zminus_mod, E, Z.sub_diag. by apply Z.mod_0_l; lia. }
      rewrite Z.mod_small in Hd by lia. lia.
    + apply list_lookup_singleton_Some in Hi2 as [Hi2 <-].
      replace i with (length l) by lia. rewrite <- H5. by rewrite lookup_insert_eq.
Qed.

Lemma bufferRead_spec b x l : bholds b (x :: l) →
  ∃ b', bufferRead (Some b) = (x, Some b') ∧ bholds b' l ∧ maxSize b' = maxSize b ∧
    self_ptr b' = self_ptr b ∧ data_ptr b' = data_ptr b.
Proof.
  intros [H1 H2 H3 H4 H5 H6]. unfold bufferRead, bufferHasData. cbn [length] in *.
  destruct (Z.ltb_spec 0 (count b)); [|lia]. cbn [negb]. pose proof (H6 0%nat x eq_refl) as H0.
  change (Z.of_nat 0) with 0 in H0. rewrite Z.add_0_r, Z.mod_small in H0 by lia. rewrite H0. cbn [default].
  eexists. split; [done|]. split_and!; try done.
  split; cbn [maxSize readIdx writeIdx count data]; try done; unfold u64;
    rewrite ?wrap_small by lia; try lia.
  - pose proof (Z.mod_pos_bound (readIdx b + 1) (maxSize b)). lia.
  - rewrite H5, Z.add_mod_idemp_l by lia. f_equal. lia.
  - intros i y Hi. rewrite Z.add_mod_idemp_l by lia. rewrite <- (H6 (S i) y Hi). do 2 f_equal. lia.
Qed.

(** The buffer is a bounded FIFO: on a buffer that holds [l], a write appends its byte
    unless the buffer is full, when it answers 0 and changes nothing; a read takes the oldest
    byte, or answers EOF and changes nothing when the buffer is empty; the predicates are
    exact; and the indices stay inside the storage, however often they wrap around. *)
Theorem buffer_fifo b l x :
  bholds b l →
  0 ≤ readIdx b < maxSize b ∧ 0 ≤ writeIdx b < maxSize b ∧
  bufferHasData (Some b) = bool_decide (l ≠ []) ∧
  bufferIsFull (Some b) = bool_decide (Z.of_nat (length l) = maxSize b) ∧
  (if bufferIsFull (Some b) then bufferWrite x (Some b) = (0, Some b)
   else ∃ b', bufferWrite x (Some b) = (1, Some b') ∧ bholds b' (l ++ [x]) ∧ maxSize b' = maxSize b) ∧
  match l with
  | [] => bufferRead (Some b) = (EOF, Some b)
  | y :: l' => ∃ b', bufferRead (Some b) = (y, Some b') ∧ bholds b' l' ∧ maxSize b' = maxSize b
  end.
Proof.
  intros Hb. pose proof Hb as [H1 H2 H3 H4 H5 H6].
  split; [done|]. split; [rewrite H5; apply Z.mod_pos_bound; lia|]. split; [|split; [|split]].
  - unfold bufferHasData. rewrite H3. destruct l; [done|]. by rewrite bool_decide_true.
  - unfold bufferIsFull. rewrite H3. destruct (Z.eqb_spec (Z.of_nat (length l)) (maxSize b));
      case_bool_decide; done.
  - destruct (bufferIsFull (Some b)) eqn:Ef.
    + unfold bufferWrite. by rewrite Ef.
    + destruct (bufferWrite_spec b l x Hb) as (b' & E & ? & ? & _); [|by exists b'].
      unfold bufferIsFull in Ef. apply Z.eqb_neq in Ef. lia.
  - destruct l as [|y l'].
    + unfold bufferRead, bufferHasData. by rewrite H3.
    + destruct (bufferRead_spec b y l' Hb) as (b' & E & ? & ? & _). by exists b'.
Qed.

(** A buffer of four bytes that has wrapped around. *)
Definition wrapped : circularBufferCDT := mkCB (<[3 := 7]> (<[0 := 8]> ∅)) 4 3 1 2 100 200.

Lemma wrapped_holds : bholds wrapped [7; 8].
Proof.
  split; try (vm_compute; done); try (simpl; lia).
  intros [|[|i]] x E; [by injection E as <-|by injection E as <-|done].
Qed.

Lemma buffer_fifo_witness : bholds wrapped [7; 8] ∧
  ∃ b', bufferRead (Some wrapped) = (7, Some b') ∧ bholds b' [8] ∧ maxSize b' = 4.
Proof.
  split; [exact wrapped_holds|].
  destruct (buffer_fifo wrapped [7; 8] 9 wrapped_holds) as (_ & _ & _ & _ & _ & H). exact H.
Defined.

Section Laws.
Context {M : Type} `{MemoryManagerLaws M}.

(** A buffer never leaks: creation either answers an empty buffer that owns two fresh
    blocks of the sizes it needs, or NULL with exactly the blocks that were in use before,
    also when only the second allocation fails; and disposal of the buffer gives both blocks
    back, whatever was read or written in between. *)
Theorem buffer_no_leak (m : M) size :
  mm_inv m → CDT_SIZE ≤ mm_max m → 0 ≤ size ≤ mm_max m → size < 2 ^ 64 - 1 →
  ∃ cb m1, newBuffer size m = Some (cb, m1) ∧ mm_inv m1 ∧
    match cb with
    | None => mm_live m1 = mm_live m
    | Some b =>
      bholds b [] ∧ maxSize b = size ∧ mm_live m !! self_ptr b = None ∧ mm_live m !! data_ptr b = None ∧
      (∃ s1 s2, CDT_SIZE ≤ s1 ∧ size ≤ s2 ∧
        mm_live m1 = <[data_ptr b := s2]> (<[self_ptr b := s1]> (mm_live m))) ∧
      ∀ b', self_ptr b' = self_ptr b → data_ptr b' = data_ptr b →
        ∃ m2, freeBuffer (Some b') m1 = Some m2 ∧ mm_inv m2 ∧ mm_live m2 = mm_live m
    end.
Proof.
  intros Hi Hc Hs Hs2. unfold newBuffer.
  destruct (Z.eqb_spec size 0) as [->|Hne]; [by exists None, m|].
  destruct (mm_alloc_ok m CDT_SIZE Hi) as (p & m1 & -> & Hi1 & _ & _ & Hx & Hcase); [unfold CDT_SIZE in *; lia|].
  cbn [mbind option_bind]. destruct Hcase as [[-> Hl]|(Hp & Hfr & s1 & Hs1 & Hl)]; [by exists None, m1|].
  destruct (Z.eqb_spec p 0); [done|].
  destruct (mm_alloc_ok m1 size Hi1) as (d & m2 & -> & Hi2 & _ & _ & _ & Hcase2); [lia|].
  cbn [mbind option_bind]. destruct Hcase2 as [[-> Hl2]|(Hd & Hfr2 & s2 & Hs3 & Hl2)].
  - cbn [Z.eqb]. destruct (mm_free_ok m2 p s1 Hi2) as (m3 & -> & Hi3 & _ & _ & _ & Hl3).
    { by rewrite Hl2, Hl, lookup_insert_eq. }
    exists None, m3. split_and!; try done. by rewrite Hl3, Hl2, Hl, delete_insert_id.
  - destruct (Z.eqb_spec d 0); [done|]. eexists (Some _), m2. split; [done|]. split; [done|].
    assert (Hdp : d ≠ p) by (intros ->; by rewrite Hl, lookup_insert_eq in Hfr2).
    assert (Hfd : mm_live m !! d = None) by (by rewrite Hl, lookup_insert_ne in Hfr2).
    cbn [self_ptr data_ptr maxSize]. split.
    { split; cbn [maxSize readIdx writeIdx count data length]; try lia; try done. }
    split_and!; try done.
    + exists s1, s2. by rewrite Hl2, Hl.
    + intros b' E1 E2. unfold freeBuffer. rewrite E1, E2.
      destruct (mm_free_ok m2 d s2 Hi2) as (m3 & -> & Hi3 & _ & _ & _ & Hl3); [by rewrite Hl2, lookup_insert_eq|].
      cbn [mbind option_bind].
      assert (Hl4 : mm_live m3 = <[p := s1]> (mm_live m)) by (rewrite Hl3, Hl2, Hl; apply delete_insert_id; by rewrite lookup_insert_ne).
      destruct (mm_free_ok m3 p s1 Hi3) as (m4 & -> & Hi4 & _ & _ & _ & Hl5); [by rewrite Hl4, lookup_insert_eq|].
      exists m4. split_and!; try done. rewrite Hl5, Hl4. by apply delete_insert_id.
Qed.

End Laws.

Lemma boot_inv : mm_inv Buddy.boot_heap.
Proof.
  change (Buddy.wf Buddy.boot_heap (Buddy.the_tree Buddy.boot_heap)).
  rewrite (Buddy.the_tree_wf _ _ Buddy.buddy_boot_heap_wf). exact Buddy.buddy_boot_heap_wf.
Qed.

Lemma buffer_no_leak_witness : mm_inv Buddy.boot_heap ∧ CDT_SIZE ≤ 2 ^ Buddy.maxOrder Buddy.boot_heap ∧
  ∃ cb m1, newBuffer 1024 Buddy.boot_heap = Some (cb, m1) ∧ mm_inv m1.
Proof.
  split; [exact boot_inv|]. split; [by vm_compute|].
  destruct (buffer_no_leak Buddy.boot_heap 1024 boot_inv) as (cb & m1 & E & Hi & _).
  - change (CDT_SIZE ≤ 2 ^ Buddy.maxOrder Buddy.boot_heap). by vm_compute.
  - change (0 ≤ 1024 ≤ 2 ^ Buddy.maxOrder Buddy.boot_heap). by vm_compute.
  - lia.
  - exists cb, m1. exact (conj E Hi).
Defined.

End CircularBuffer.
