(* ===== verification/KState.v ===== *)
(** * The state and the control flow of the kernel's process layer

    The objects that semaphores, pipes, file accesses and processes keep in the kernel heap
    are records in typed stores indexed by their address; 0 is NULL.  A queue owned by one
    object is its list of elements ([Queue.v] proves that the linked queues implement lists),
    [None] being a NULL [Queue].

    Kernel code runs with interrupts disabled, so between two calls of [forceSchedulerCall]
    it is atomic; there the running computation is suspended and resumes, on whatever state
    the kernel has then, when its process is scheduled again.  [K] is the resumption monad
    that says so. *)

From stdpp Require Export strings.
From S2P Require Export Prelude.
From S2P Require Import CircularBuffer.

(** ** Data *)

(** [semCDT]; [newSemaphore] never leaves a NULL queue in a semaphore. *)
Record semCDT := mkSem { sem_value : Z; blockedQueue : list Z; sem_lock : bool }.

Record pipeCDT := mkPipe {
  buffer : option CircularBuffer.circularBufferCDT;
  dataAvailable : Z;
  freeSpaces : Z;
  readMutex : Z;
  writeMutex : Z;
  pipe_refCount : Z;
  writerCount : Z;
}.

Record fileAccessCDT := mkFile { fa_pipe : Z; fa_flags : Z; fa_refCount : Z }.

Inductive State := READY | RUNNING | BLOCKED | ZOMBIE.

#[global] Instance State_eq_dec : EqDecision State.
Proof. solve_decision. Defined.

Definition queue : Type := option (list Z).

(** A C string is the list of its bytes before the terminator. *)
Definition cstring : Type := list Z.

Record processCDT := mkProc {
  p_pid : Z;
  stackBase : Z;
  stackSize : Z;
  p_rsp : Z;
  p_rip : Z;
  p_state : State;
  p_name : cstring;
  priorityLevel : Z;
  remainingQuantums : Z;
  p_ppid : Z;
  children : queue;
  terminatedChildren : queue;
  terminated : Z;
  childTerminated : Z;
  p_argc : Z;
  p_argv : option (Z * list (option cstring));
  fdTable : list Z;
  eofRequests : list bool;
}.

Record SharedSem := mkShared { ss_used : bool; ss_name : cstring; ss_sem : Z; ss_refCount : Z }.

(** The kernel.  [k_mem] says which of the coming allocations fail ([false]); past its end
    they succeed.  [k_next] is the next address handed out; [k_words] is stack memory. *)
Record kst := mkK {
  k_mem : list bool;
  k_next : Z;
  k_sems : gmap Z semCDT;
  k_pipes : gmap Z pipeCDT;
  k_files : gmap Z fileAccessCDT;
  k_procs : gmap Z processCDT;
  k_words : gmap Z Z;
  processTable : gmap Z Z;
  foregroundSet : gset Z;
  currentProcess : Z;
  readyQueue : queue;
  schedulerEnabled : bool;
  sharedTable : list SharedSem;
  tableLock : bool;
  ticks : Z;
}.

Definition set_mem (v : list bool) (s : kst) : kst :=
  mkK v (k_next s) (k_sems s) (k_pipes s) (k_files s) (k_procs s) (k_words s) (processTable s)
    (foregroundSet s) (currentProcess s) (readyQueue s) (schedulerEnabled s) (sharedTable s) (tableLock s) (ticks s).
Definition set_next (v : Z) (s : kst) : kst :=
  mkK (k_mem s) v (k_sems s) (k_pipes s) (k_files s) (k_procs s) (k_words s) (processTable s)
    (foregroundSet s) (currentProcess s) (readyQueue s) (schedulerEnabled s) (sharedTable s) (tableLock s) (ticks s).
Definition set_sems (v : gmap Z semCDT) (s : kst) : kst :=
  mkK (k_mem s) (k_next s) v (k_pipes s) (k_files s) (k_procs s) (k_words s) (processTable s)
    (foregroundSet s) (currentProcess s) (readyQueue s) (schedulerEnabled s) (sharedTable s) (tableLock s) (ticks s).
Definition set_pipes (v : gmap Z pipeCDT) (s : kst) : kst :=
  mkK (k_mem s) (k_next s) (k_sems s) v (k_files s) (k_procs s) (k_words s) (processTable s)
    (foregroundSet s) (currentProcess s) (readyQueue s) (schedulerEnabled s) (sharedTable s) (tableLock s) (ticks s).
Definition set_files (v : gmap Z fileAccessCDT) (s : kst) : kst :=
  mkK (k_mem s) (k_next s) (k_sems s) (k_pipes s) v (k_procs s) (k_words s) (processTable s)
    (foregroundSet s) (currentProcess s) (readyQueue s) (schedulerEnabled s) (sharedTable s) (tableLock s) (ticks s).
Definition set_procs (v : gmap Z processCDT) (s : kst) : kst :=
  mkK (k_mem s) (k_next s) (k_sems s) (k_pipes s) (k_files s) v (k_words s) (processTable s)
    (foregroundSet s) (currentProcess s) (readyQueue s) (schedulerEnabled s) (sharedTable s) (tableLock s) (ticks s).
Definition set_words (v : gmap Z Z) (s : kst) : kst :=
  mkK (k_mem s) (k_next s) (k_sems s) (k_pipes s) (k_files s) (k_procs s) v (processTable s)
    (foregroundSet s) (currentProcess s) (readyQueue s) (schedulerEnabled s) (sharedTable s) (tableLock s) (ticks s).
Definition set_table (v : gmap Z Z) (s : kst) : kst :=
  mkK (k_mem s) (k_next s) (k_sems s) (k_pipes s) (k_files s) (k_procs s) (k_words s) v
    (foregroundSet s) (currentProcess s) (readyQueue s) (schedulerEnabled s) (sharedTable s) (tableLock s) (ticks s).
Definition set_fg (v : gset Z) (s : kst) : kst :=
  mkK (k_mem s) (k_next s) (k_sems s) (k_pipes s) (k_files s) (k_procs s) (k_words s) (processTable s)
    v (currentProcess s) (readyQueue s) (schedulerEnabled s) (sharedTable s) (tableLock s) (ticks s).
Definition set_current (v : Z) (s : kst) : kst :=
  mkK (k_mem s) (k_next s) (k_sems s) (k_pipes s) (k_files s) (k_procs s) (k_words s) (processTable s)
    (foregroundSet s) v (readyQueue s) (schedulerEnabled s) (sharedTable s) (tableLock s) (ticks s).
Definition set_ready (v : queue) (s : kst) : kst :=
  mkK (k_mem s) (k_next s) (k_sems s) (k_pipes s) (k_files s) (k_procs s) (k_words s) (processTable s)
    (foregroundSet s) (currentProcess s) v (schedulerEnabled s) (sharedTable s) (tableLock s) (ticks s).
Definition set_enabled (v : bool) (s : kst) : kst :=
  mkK (k_mem s) (k_next s) (k_sems s) (k_pipes s) (k_files s) (k_procs s) (k_words s) (processTable s)
    (foregroundSet s) (currentProcess s) (readyQueue s) v (sharedTable s) (tableLock s) (ticks s).
Definition set_shared (v : list SharedSem) (s : kst) : kst :=
  mkK (k_mem s) (k_next s) (k_sems s) (k_pipes s) (k_files s) (k_procs s) (k_words s) (processTable s)
    (foregroundSet s) (currentProcess s) (readyQueue s) (schedulerEnabled s) v (tableLock s) (ticks s).
Definition set_tableLock (v : bool) (s : kst) : kst :=
  mkK (k_mem s) (k_next s) (k_sems s) (k_pipes s) (k_files s) (k_procs s) (k_words s) (processTable s)
    (foregroundSet s) (currentProcess s) (readyQueue s) (schedulerEnabled s) (sharedTable s) v (ticks s).
Definition set_ticks (v : Z) (s : kst) : kst :=
  mkK (k_mem s) (k_next s) (k_sems s) (k_pipes s) (k_files s) (k_procs s) (k_words s) (processTable s)
    (foregroundSet s) (currentProcess s) (readyQueue s) (schedulerEnabled s) (sharedTable s) (tableLock s) v.

(** ** The resumption monad *)

(** A run of kernel code ends with an answer, with an access through NULL or to a freed
    object ([KFault]), spinning on a lock nobody will release ([KHang]), out of the fuel given
    to an unbounded loop ([KFuel]), or at a forced switch, with the rest of the run. *)
Inductive kres (A : Type) :=
  | KDone (s : kst) (a : A)
  | KFault
  | KHang
  | KFuel
  | KSwitch (s : kst) (k : kst → kres A).
Arguments KDone {A} s a.
Arguments KFault {A}.
Arguments KHang {A}.
Arguments KFuel {A}.
Arguments KSwitch {A} s k.

Definition K (A : Type) : Type := kst → kres A.

Fixpoint kbind {A B} (r : kres A) (f : A → K B) : kres B :=
  match r with
  | KDone s a => f a s
  | KFault => KFault
  | KHang => KHang
  | KFuel => KFuel
  | KSwitch s k => KSwitch s (λ s', kbind (k s') f)
  end.

#[global] Instance K_ret : MRet K := λ A a s, KDone s a.
#[global] Instance K_bind : MBind K := λ A B f m s, kbind (m s) f.

Definition kget : K kst := λ s, KDone s s.
Definition kmod (f : kst → kst) : K unit := λ s, KDone (f s) ().
Definition kfault {A} : K A := λ _, KFault.
Definition khang {A} : K A := λ _, KHang.
Definition kfuel {A} : K A := λ _, KFuel.
(** [forceSchedulerCall]: the timer interrupt by software. *)
Definition kswitch : K unit := λ s, KSwitch s (λ s', KDone s' ()).

(** Reading through a pointer. *)
Definition kload {A} (store : kst → gmap Z A) (p : Z) : K A :=
  λ s, match store s !! p with Some a => KDone s a | None => KFault end.

Definition kstore_sem (p : Z) (f : semCDT → semCDT) : K unit :=
  c ← kload k_sems p; kmod (λ s, set_sems (<[p := f c]> (k_sems s)) s).
Definition kstore_pipe (p : Z) (f : pipeCDT → pipeCDT) : K unit :=
  c ← kload k_pipes p; kmod (λ s, set_pipes (<[p := f c]> (k_pipes s)) s).
Definition kstore_file (p : Z) (f : fileAccessCDT → fileAccessCDT) : K unit :=
  c ← kload k_files p; kmod (λ s, set_files (<[p := f c]> (k_files s)) s).
Definition kstore_proc (p : Z) (f : processCDT → processCDT) : K unit :=
  c ← kload k_procs p; kmod (λ s, set_procs (<[p := f c]> (k_procs s)) s).

(** [mem_alloc]: NULL when memory runs out, else an address never used before. *)
Definition kalloc (size : Z) : K Z := λ s,
  match k_mem s with
  | false :: rest => KDone (set_mem rest s) 0
  | m => KDone (set_next (k_next s + (size + 7) / 8 * 8) (set_mem (List.tail m) s)) (k_next s)
  end.

(** [mem_free] of an object drops it from its store. *)
Definition kfree_sem (p : Z) : K unit := kmod (λ s, set_sems (delete p (k_sems s)) s).
Definition kfree_pipe (p : Z) : K unit := kmod (λ s, set_pipes (delete p (k_pipes s)) s).
Definition kfree_file (p : Z) : K unit := kmod (λ s, set_files (delete p (k_files s)) s).
Definition kfree_proc (p : Z) : K unit := kmod (λ s, set_procs (delete p (k_procs s)) s).

(** ** Queues as lists *)

(** [enqueue]: the node is allocated first; a NULL queue is then dereferenced. *)
Definition q_enqueue (q : queue) (x : Z) : K (option queue) :=
  p ← kalloc 16;
  if p =? 0 then mret None
  else match q with None => kfault | Some l => mret (Some (Some (l ++ [x]))) end.
Definition q_size (q : queue) : Z := match q with None => 0 | Some l => Z.of_nat (length l) end.
Definition q_empty (q : queue) : bool := q_size q =? 0.
Definition q_poll (q : queue) : Z * queue :=
  match q with Some (x :: l) => (x, Some l) | _ => (0, q) end.
(** [removeFromQueue] with [comparePIDs]. *)
Definition q_remove (q : queue) (x : Z) : queue :=
  match q with None => None | Some l => Some (List.filter (λ y, negb (i16 x - i16 y =? 0)) l) end.

(** [newQueue] *)
Definition q_new : K queue :=
  p ← kalloc 24; if p =? 0 then mret None else mret (Some []).

(** ** Reasoning about runs *)

Lemma kbind_eq {A B} (m : K A) (f : A → K B) s : (m ≫= f) s = kbind (m s) f.
Proof. done. Qed.

Lemma kbind_done {A B} (m : K A) (f : A → K B) s s' a : m s = KDone s' a → (m ≫= f) s = f a s'.
Proof. intros E. by rewrite kbind_eq, E. Qed.

Lemma kload_some {A} (store : kst → gmap Z A) p s a : store s !! p = Some a → kload store p s = KDone s a.
Proof. intros E. unfold kload. by rewrite E. Qed.

Lemma kstore_sem_eq p f s c : k_sems s !! p = Some c →
  kstore_sem p f s = KDone (set_sems (<[p := f c]> (k_sems s)) s) ().
Proof. intros E. unfold kstore_sem. by rewrite (kbind_done _ _ _ _ _ (kload_some _ _ _ _ E)). Qed.
Lemma kstore_pipe_eq p f s c : k_pipes s !! p = Some c →
  kstore_pipe p f s = KDone (set_pipes (<[p := f c]> (k_pipes s)) s) ().
Proof. intros E. unfold kstore_pipe. by rewrite (kbind_done _ _ _ _ _ (kload_some _ _ _ _ E)). Qed.
Lemma kstore_file_eq p f s c : k_files s !! p = Some c →
  kstore_file p f s = KDone (set_files (<[p := f c]> (k_files s)) s) ().
Proof. intros E. unfold kstore_file. by rewrite (kbind_done _ _ _ _ _ (kload_some _ _ _ _ E)). Qed.
Lemma kstore_proc_eq p f s c : k_procs s !! p = Some c →
  kstore_proc p f s = KDone (set_procs (<[p := f c]> (k_procs s)) s) ().
Proof. intros E. unfold kstore_proc. by rewrite (kbind_done _ _ _ _ _ (kload_some _ _ _ _ E)). Qed.

(** Pids fit in [pid_t], so the comparison of [comparePIDs] is equality on them. *)
Definition is_pid (x : Z) : Prop := 0 ≤ x < 64.


(** Symbolic execution: [kred] computes the monad and the fields of the state, [ksimp] also
    enters the first operation of a sequence, and [klook] replaces the lookups that a
    hypothesis decides. *)
Ltac kred := cbn [kbind mret K_ret kget kmod kload kswitch default from_option id fst snd
  k_mem k_next k_sems k_pipes k_files k_procs k_words processTable foregroundSet currentProcess
  readyQueue schedulerEnabled sharedTable tableLock ticks
  set_mem set_next set_sems set_pipes set_files set_procs set_words set_table set_fg set_current
  set_ready set_enabled set_shared set_tableLock set_ticks].
Ltac ksimp := kred; repeat (rewrite kbind_eq; kred).
Ltac kfind :=
  kred; repeat first [rewrite lookup_insert_eq | rewrite lookup_insert_ne by congruence];
  first [eassumption | reflexivity].
Ltac klook :=
  repeat first
    [ match goal with |- context [kload ?st ?p ?s] => erewrite (kload_some st p s) by kfind end
    | match goal with H : ?m !! ?k = _ |- context [?m !! ?k] => rewrite H end
    | rewrite lookup_insert_eq
    | rewrite lookup_insert_ne by congruence ].
Ltac kstep := repeat (progress (ksimp; klook)).

Lemma kalloc_ok n s : k_mem s = [] →
  kalloc n s = KDone (set_next (k_next s + (n + 7) / 8 * 8) (set_mem [] s)) (k_next s).
Proof. intros E. unfold kalloc. by rewrite E. Qed.

(** Memory does not run out, and addresses are positive multiples of 8. *)
Definition mem_ok (s : kst) : Prop := k_mem s = [] ∧ 0 < k_next s.

Lemma q_enqueue_ok l x s : mem_ok s →
  q_enqueue (Some l) x s = KDone (set_next (k_next s + 16) s) (Some (Some (l ++ [x]))).
Proof.
  intros [E Hn]. unfold q_enqueue. rewrite kbind_eq, kalloc_ok by done. kred.
  destruct (Z.eqb_spec (k_next s) 0); [lia|]. by rewrite <- E.
Qed.
