(* ===== verification/ProcTable.v ===== *)
(** * The process table ([Kernel/process_contextswitch/scheduler.c], [process.c])

    The accessors of the process descriptor and the operations of the scheduler that the
    lower layers call back: who runs, blocking and waking. *)

From S2P Require Import Prelude KState.

Module ProcTable.

Definition MAX_PROCESSES : Z := 64.
Definition IDLE_PID : Z := 0.
Definition INIT_PID : Z := 1.

(** ** Accessors of a descriptor *)

Definition with_state (v : State) (c : processCDT) : processCDT :=
  mkProc (p_pid c) (stackBase c) (stackSize c) (p_rsp c) (p_rip c) v (p_name c) (priorityLevel c)
    (remainingQuantums c) (p_ppid c) (children c) (terminatedChildren c) (terminated c)
    (childTerminated c) (p_argc c) (p_argv c) (fdTable c) (eofRequests c).
Definition with_rsp (v : Z) (c : processCDT) : processCDT :=
  mkProc (p_pid c) (stackBase c) (stackSize c) v (p_rip c) (p_state c) (p_name c) (priorityLevel c)
    (remainingQuantums c) (p_ppid c) (children c) (terminatedChildren c) (terminated c)
    (childTerminated c) (p_argc c) (p_argv c) (fdTable c) (eofRequests c).
Definition with_quantums (prio rem : Z) (c : processCDT) : processCDT :=
  mkProc (p_pid c) (stackBase c) (stackSize c) (p_rsp c) (p_rip c) (p_state c) (p_name c) prio
    rem (p_ppid c) (children c) (terminatedChildren c) (terminated c)
    (childTerminated c) (p_argc c) (p_argv c) (fdTable c) (eofRequests c).
Definition with_ppid (v : Z) (c : processCDT) : processCDT :=
  mkProc (p_pid c) (stackBase c) (stackSize c) (p_rsp c) (p_rip c) (p_state c) (p_name c) (priorityLevel c)
    (remainingQuantums c) v (children c) (terminatedChildren c) (terminated c)
    (childTerminated c) (p_argc c) (p_argv c) (fdTable c) (eofRequests c).
Definition with_children (v : queue) (c : processCDT) : processCDT :=
  mkProc (p_pid c) (stackBase c) (stackSize c) (p_rsp c) (p_rip c) (p_state c) (p_name c) (priorityLevel c)
    (remainingQuantums c) (p_ppid c) v (terminatedChildren c) (terminated c)
    (childTerminated c) (p_argc c) (p_argv c) (fdTable c) (eofRequests c).
Definition with_terminatedChildren (v : queue) (c : processCDT) : processCDT :=
  mkProc (p_pid c) (stackBase c) (stackSize c) (p_rsp c) (p_rip c) (p_state c) (p_name c) (priorityLevel c)
    (remainingQuantums c) (p_ppid c) (children c) v (terminated c)
    (childTerminated c) (p_argc c) (p_argv c) (fdTable c) (eofRequests c).
Definition with_fds (fds : list Z) (eofs : list bool) (c : processCDT) : processCDT :=
  mkProc (p_pid c) (stackBase c) (stackSize c) (p_rsp c) (p_rip c) (p_state c) (p_name c) (priorityLevel c)
    (remainingQuantums c) (p_ppid c) (children c) (terminatedChildren c) (terminated c)
    (childTerminated c) (p_argc c) (p_argv c) fds eofs.

Definition proc (p : Z) : K processCDT := kload k_procs p.

Definition getRSP (p : Z) : K Z := c ← proc p; mret (p_rsp c).
Definition setRSP (p newRSP : Z) : K unit := kstore_proc p (with_rsp newRSP).
Definition getPID (p : Z) : K Z := c ← proc p; mret (p_pid c).
Definition getPPID (p : Z) : K Z := c ← proc p; mret (p_ppid c).
Definition setPPID (p ppid : Z) : K unit := kstore_proc p (with_ppid ppid).
Definition getState (p : Z) : K State := c ← proc p; mret (p_state c).
Definition setState (p : Z) (st : State) : K unit := kstore_proc p (with_state st).
Definition setPriority (p priority : Z) : K unit := kstore_proc p (with_quantums priority priority).
Definition hasQuantums (p : Z) : K bool := c ← proc p; mret (0 <? remainingQuantums c).
Definition useQuantum (p : Z) : K unit :=
  kstore_proc p (λ c, if 0 <? remainingQuantums c
                      then with_quantums (priorityLevel c) (u8 (remainingQuantums c - 1)) c else c).
Definition resetQuantums (p : Z) : K unit :=
  kstore_proc p (λ c, with_quantums (priorityLevel c) (priorityLevel c) c).

(** ** The table *)

(** [processTable[pid]], 0 when the slot is empty. *)
Definition slot (pid : Z) : K Z := s ← kget; mret (default 0 (processTable s !! pid)).

Definition bad_pid (pid : Z) : bool := (pid <? 0) || (MAX_PROCESSES <=? pid).

Definition getProcessesCount (s : kst) : Z :=
  Z.of_nat (length (List.filter (λ i, negb (default 0 (processTable s !! i) =? 0)) (seqZ 0 MAX_PROCESSES))).

Definition findFreePid (s : kst) : Z :=
  default (-1) (List.find (λ i, default 0 (processTable s !! i) =? 0) (seqZ 0 MAX_PROCESSES)).

Definition getCurrentPID : K Z :=
  s ← kget; if currentProcess s =? 0 then mret (-1) else getPID (currentProcess s).

Definition setCurrentBlocked : K unit :=
  s ← kget; if currentProcess s =? 0 then mret () else setState (currentProcess s) BLOCKED.

(** [enqueue(readyQueue, pid)], whose answer the scheduler ignores. *)
Definition enqueue_ready (pid : Z) : K unit :=
  s ← kget;
  r ← q_enqueue (readyQueue s) pid;
  match r with None => mret () | Some q => kmod (set_ready q) end.

Definition isUnkillable (pid : Z) : bool := (pid =? IDLE_PID) || (pid =? INIT_PID).

Definition setBlocked (pid : Z) : K Z :=
  if bad_pid pid then mret (-1)
  else
    p ← slot pid;
    if p =? 0 then mret (-1)
    else if isUnkillable pid then mret (-1)
    else
      st ← getState p;
      if negb (bool_decide (st = RUNNING)) && negb (bool_decide (st = READY)) then mret (-1)
      else
        _ ← (if bool_decide (st = READY) then kmod (λ s, set_ready (q_remove (readyQueue s) pid) s)
             else mret ());
        _ ← setState p BLOCKED;
        mret 0.

Definition setReady (pid : Z) : K Z :=
  if bad_pid pid then mret (-1)
  else
    p ← slot pid;
    if p =? 0 then mret (-1)
    else
      st ← getState p;
      if negb (bool_decide (st = BLOCKED)) then mret (-1)
      else
        _ ← enqueue_ready pid;
        _ ← setState p READY;
        mret 0.

Definition setPriorityOnPID (pid priority : Z) : K Z :=
  if bad_pid pid then mret (-1)
  else
    p ← slot pid;
    if (p =? 0) || (priority =? 0) then mret (-1)
    else _ ← setPriority p priority; mret 0.

(** *** The foreground set *)

Definition addToFG (pid : Z) : K Z :=
  if bad_pid pid then mret (-1)
  else
    p ← slot pid;
    s ← kget;
    if (p =? 0) || bool_decide (pid ∈ foregroundSet s) then mret (-1)
    else _ ← kmod (λ s, set_fg ({[pid]} ∪ foregroundSet s) s); mret 0.

Definition removeFromFG (pid : Z) : K Z :=
  if bad_pid pid then mret (-1)
  else
    s ← kget;
    if negb (bool_decide (pid ∈ foregroundSet s)) then mret (-1)
    else _ ← kmod (λ s, set_fg (foregroundSet s ∖ {[pid]}) s); mret 0.

Definition isInFG (pid : Z) (s : kst) : bool :=
  if bad_pid pid then false else bool_decide (pid ∈ foregroundSet s).

(** The loop rereads the set, which the action may change. *)
Definition fg_step (action : Z → K unit) (i : Z) : K unit :=
  s ← kget; if bool_decide (i ∈ foregroundSet s) then action i else mret ().
Definition forEachInFG (action : Z → K unit) : K unit :=
  foldr (λ i (rest : K unit), _ ← fg_step action i; rest) (mret ()) (seqZ 0 MAX_PROCESSES).

(** *** [ps] *)

Record ProcessInfo := mkInfo {
  i_pid : Z; i_ppid : Z; i_state : State; i_name : cstring; i_priority : Z;
  i_inForeground : bool; i_rsp : Z; i_stackBase : Z;
}.

Fixpoint info_loop (ids : list Z) (room : Z) : K (list ProcessInfo) :=
  match ids with
  | [] => mret []
  | i :: ids =>
    if room <=? 0 then mret []
    else
      p ← slot i;
      if p =? 0 then info_loop ids room
      else
        c ← proc p;
        s ← kget;
        rest ← info_loop ids (room - 1);
        mret (mkInfo (p_pid c) (p_ppid c) (p_state c) (p_name c) (priorityLevel c)
                (bool_decide (i ∈ foregroundSet s)) (p_rsp c) (stackBase c) :: rest)
  end.
(** The entries written to the caller's buffer; their number is the answer. *)
Definition getProcessInfo (maxCount : Z) : K (list ProcessInfo) :=
  info_loop (seqZ 0 MAX_PROCESSES) maxCount.

(** ** What the operations do *)

Lemma bad_pid_false pid : 0 ≤ pid < 64 → bad_pid pid = false.
Proof.
  intros. unfold bad_pid, MAX_PROCESSES.
  destruct (Z.ltb_spec pid 0); [lia|]. by destruct (Z.leb_spec 64 pid); [lia|].
Qed.

Lemma bad_pid_true pid : ¬ 0 ≤ pid < 64 → bad_pid pid = true.
Proof.
  intros. unfold bad_pid, MAX_PROCESSES.
  destruct (Z.ltb_spec pid 0); [done|]. by destruct (Z.leb_spec 64 pid); [|lia].
Qed.

Lemma slot_eq pid s : slot pid s = KDone s (default 0 (processTable s !! pid)).
Proof. done. Qed.

Lemma proc_eq p s c : k_procs s !! p = Some c → proc p s = KDone s c.
Proof. apply kload_some. Qed.

Lemma getState_eq p s c : k_procs s !! p = Some c → getState p s = KDone s (p_state c).
Proof. intros E. unfold getState, proc. by kstep. Qed.
Lemma getPID_eq p s c : k_procs s !! p = Some c → getPID p s = KDone s (p_pid c).
Proof. intros E. unfold getPID, proc. by kstep. Qed.
Lemma getPPID_eq p s c : k_procs s !! p = Some c → getPPID p s = KDone s (p_ppid c).
Proof. intros E. unfold getPPID, proc. by kstep. Qed.

(** The pid of the running process, -1 before the first switch. *)
Lemma getCurrentPID_eq s c : currentProcess s ≠ 0 → k_procs s !! currentProcess s = Some c →
  getCurrentPID s = KDone s (p_pid c).
Proof.
  intros H E. unfold getCurrentPID. ksimp. destruct (Z.eqb_spec (currentProcess s) 0); [done|].
  by apply getPID_eq.
Qed.

Lemma enqueue_ready_eq pid s l : mem_ok s → readyQueue s = Some l →
  enqueue_ready pid s = KDone (set_ready (Some (l ++ [pid])) (set_next (k_next s + 16) s)) ().
Proof. intros Hm E. unfold enqueue_ready. ksimp. rewrite E, q_enqueue_ok by done. done. Qed.

Lemma setReady_eq s pid p c l :
  mem_ok s → 0 ≤ pid < 64 → processTable s !! pid = Some p → p ≠ 0 → k_procs s !! p = Some c →
  p_state c = BLOCKED → readyQueue s = Some l →
  setReady pid s =
    KDone (set_procs (<[p := with_state READY c]> (k_procs s))
             (set_ready (Some (l ++ [pid])) (set_next (k_next s + 16) s))) 0.
Proof.
  intros Hm Hpid Ht Hp Hc Hst Hl. unfold setReady. rewrite bad_pid_false by done.
  ksimp. rewrite slot_eq, Ht. kred. destruct (Z.eqb_spec p 0); [done|].
  rewrite kbind_eq, (getState_eq _ _ _ Hc). kred. rewrite Hst. cbn [negb].
  rewrite bool_decide_true by done. cbn [negb].
  rewrite kbind_eq, (enqueue_ready_eq _ _ l) by done. kred.
  unfold setState. rewrite kbind_eq, (kstore_proc_eq _ _ _ c) by done. by kred.
Qed.

(** Anything but a blocked process is left alone. *)
Lemma setReady_no s pid p c :
  0 ≤ pid < 64 → processTable s !! pid = Some p → k_procs s !! p = Some c → p_state c ≠ BLOCKED →
  p ≠ 0 → setReady pid s = KDone s (-1).
Proof.
  intros Hpid Ht Hc Hst Hp. unfold setReady. rewrite bad_pid_false by done.
  ksimp. rewrite slot_eq, Ht. kred. destruct (Z.eqb_spec p 0); [done|].
  rewrite kbind_eq, (getState_eq _ _ _ Hc). kred. by rewrite bool_decide_false.
Qed.
Lemma setReady_none s pid :
  ¬ 0 ≤ pid < 64 ∨ processTable s !! pid = None → setReady pid s = KDone s (-1).
Proof.
  intros H. unfold setReady. destruct (decide (0 ≤ pid < 64)).
  - rewrite bad_pid_false by done. ksimp. rewrite slot_eq. destruct H as [?| ->]; [done|]. done.
  - by rewrite bad_pid_true.
Qed.

(** ** The invariant of the process table *)

Definition proc_of (s : kst) (pid : Z) : option processCDT := p ← processTable s !! pid; k_procs s !! p.
Definition state_of (s : kst) (pid : Z) : option State := p_state <$> proc_of s pid.

(** The ready queue holds exactly the ready processes, once each; only the current process
    runs; the idle process can always run; the foreground set names existing processes. *)
Record sched_inv (s : kst) : Prop := {
  si_table : ∀ pid p, processTable s !! pid = Some p →
    0 ≤ pid < 64 ∧ p ≠ 0 ∧ ∃ c, k_procs s !! p = Some c ∧ p_pid c = pid;
  si_ready : ∃ l, readyQueue s = Some l ∧ NoDup l ∧ ∀ pid, pid ∈ l ↔ state_of s pid = Some READY;
  si_run : ∀ pid, state_of s pid = Some RUNNING → processTable s !! pid = Some (currentProcess s);
  si_cur : currentProcess s ≠ 0 → ∃ pid, processTable s !! pid = Some (currentProcess s);
  si_idle : state_of s IDLE_PID = Some READY ∨ state_of s IDLE_PID = Some RUNNING;
  si_fg : ∀ pid, pid ∈ foregroundSet s → is_Some (processTable s !! pid);
}.

(** Only these fields matter to it. *)
Lemma sched_inv_frame s s' :
  processTable s' = processTable s → k_procs s' = k_procs s → readyQueue s' = readyQueue s →
  currentProcess s' = currentProcess s → foregroundSet s' = foregroundSet s →
  sched_inv s → sched_inv s'.
Proof.
  intros E1 E2 E3 E4 E5 [H1 H2 H3 H4 H5 H6].
  split; unfold state_of, proc_of in *; rewrite ?E1, ?E2, ?E3, ?E4, ?E5; done.
Qed.

Lemma table_inj s pid pid' p : sched_inv s →
  processTable s !! pid = Some p → processTable s !! pid' = Some p → pid = pid'.
Proof.
  intros H E1 E2. destruct (si_table _ H _ _ E1) as (_ & _ & c & Hc & <-).
  destruct (si_table _ H _ _ E2) as (_ & _ & c' & Hc' & <-). congruence.
Qed.

Lemma state_of_some s pid st : state_of s pid = Some st →
  ∃ p c, processTable s !! pid = Some p ∧ k_procs s !! p = Some c ∧ p_state c = st.
Proof.
  unfold state_of, proc_of. destruct (processTable s !! pid) as [p|] eqn:E; [|done].
  cbn [mbind option_bind]. destruct (k_procs s !! p) as [c|] eqn:Ec; [|done]. intros [= <-]. by exists p, c.
Qed.

Lemma state_of_eq s pid p c : processTable s !! pid = Some p → k_procs s !! p = Some c →
  state_of s pid = Some (p_state c).
Proof. intros E1 E2. unfold state_of, proc_of. rewrite E1. cbn [mbind option_bind]. by rewrite E2. Qed.

Lemma state_of_range s pid st : sched_inv s → state_of s pid = Some st → 0 ≤ pid < 64.
Proof. intros H (p & c & E & _)%state_of_some. by apply (si_table _ H _ _ E). Qed.

(** One process changes state, and the ready queue with it. *)
Lemma sched_inv_move s s' pid p c c' l l' :
  sched_inv s → readyQueue s = Some l →
  processTable s !! pid = Some p → k_procs s !! p = Some c → p_pid c' = p_pid c →
  k_procs s' = <[p := c']> (k_procs s) → readyQueue s' = Some l' →
  processTable s' = processTable s → currentProcess s' = currentProcess s →
  foregroundSet s' = foregroundSet s →
  NoDup l' → (∀ q, q ≠ pid → q ∈ l' ↔ q ∈ l) → (pid ∈ l' ↔ p_state c' = READY) →
  (p_state c' = RUNNING → p = currentProcess s) →
  (pid = IDLE_PID → p_state c' = READY ∨ p_state c' = RUNNING) →
  sched_inv s'.
Proof.
  intros Hi Hl Ht Hc Hpid E1 E2 E3 E4 E5 Hnd Hoth Hself Hrun Hidle.
  assert (Hst : ∀ q, state_of s' q = if decide (q = pid) then Some (p_state c') else state_of s q).
  { intros q. unfold state_of, proc_of. rewrite E1, E3. case_decide as Hq.
    - subst q. rewrite Ht. cbn [mbind option_bind]. by rewrite lookup_insert_eq.
    - destruct (processTable s !! q) as [p'|] eqn:Eq; [|done]. cbn [mbind option_bind].
      rewrite lookup_insert_ne; [done|]. intros ->. apply Hq. by eapply table_inj. }
  pose proof Hi as [H1 (l0 & H2 & H2a & H2b) H3 H4 H5 H6]. split.
  - intros q p' Hq. rewrite E3 in Hq. destruct (H1 _ _ Hq) as (? & ? & c0 & Hc0 & Hp0).
    split; [done|]. split; [done|]. rewrite E1. destruct (decide (p' = p)) as [->|].
    + exists c'. rewrite lookup_insert_eq. split; [done|]. rewrite Hpid. congruence.
    + exists c0. by rewrite lookup_insert_ne.
  - exists l'. split; [done|]. split; [done|]. intros q. rewrite Hst. case_decide as Hq.
    + subst q. rewrite Hself. split; [by intros ->|by intros [=]].
    + rewrite (Hoth _ Hq). assert (l0 = l) as -> by congruence. apply H2b.
  - intros q. rewrite Hst, E3, E4. case_decide as Hq; [|apply H3].
    subst q. intros [= Hr]. rewrite Ht. f_equal. auto.
  - rewrite E3, E4. done.
  - rewrite Hst. case_decide as Hq; [|done]. destruct (Hidle (eq_sym Hq)) as [->| ->]; auto.
  - rewrite E3, E5. done.
Qed.

(** The head of the ready queue becomes the running, current process; nobody ran before. *)
Lemma sched_inv_switch s s' pid p c c' l :
  sched_inv s → (∀ q, state_of s q ≠ Some RUNNING) → readyQueue s = Some (pid :: l) →
  processTable s !! pid = Some p → k_procs s !! p = Some c → p_pid c' = p_pid c → p_state c' = RUNNING →
  k_procs s' = <[p := c']> (k_procs s) → readyQueue s' = Some l →
  processTable s' = processTable s → currentProcess s' = p → foregroundSet s' = foregroundSet s →
  sched_inv s'.
Proof.
  intros Hi Hno Hl Ht Hc Hpid Hrun E1 E2 E3 E4 E5.
  assert (Hst : ∀ q, state_of s' q = if decide (q = pid) then Some RUNNING else state_of s q).
  { intros q. unfold state_of, proc_of. rewrite E1, E3. case_decide as Hq.
    - subst q. rewrite Ht. cbn [mbind option_bind]. rewrite lookup_insert_eq. cbn. by rewrite Hrun.
    - destruct (processTable s !! q) as [p'|] eqn:Eq; [|done]. cbn [mbind option_bind].
      rewrite lookup_insert_ne; [done|]. intros ->. apply Hq. by eapply table_inj. }
  pose proof Hi as [H1 (l0 & H2 & H2a & H2b) H3 H4 H5 H6].
  assert (l0 = pid :: l) as -> by congruence. apply list.NoDup_cons in H2a as [Hni Hnd]. split.
  - intros q p' Hq. rewrite E3 in Hq. destruct (H1 _ _ Hq) as (? & ? & c0 & Hc0 & Hp0).
    split; [done|]. split; [done|]. rewrite E1. destruct (decide (p' = p)) as [->|].
    + exists c'. rewrite lookup_insert_eq. split; [done|]. rewrite Hpid. congruence.
    + exists c0. by rewrite lookup_insert_ne.
  - exists l. split; [done|]. split; [done|]. intros q. rewrite Hst. case_decide as Hq.
    + subst q. split; [done|]. by intros [=].
    + rewrite <- H2b. set_solver.
  - intros q. rewrite Hst, E3, E4. case_decide as Hq; [by subst|]. intros Hr. by destruct (Hno q).
  - intros _. exists pid. by rewrite E3, E4.
  - rewrite Hst. case_decide as Hq; [by right|done].
  - rewrite E3, E5. done.
Qed.

(** [comparePIDs] on pids. *)
Lemma q_remove_elem l pid q : (∀ x, x ∈ l → 0 ≤ x < 64) → 0 ≤ pid < 64 →
  q ∈ default [] (q_remove (Some l) pid) ↔ q ∈ l ∧ q ≠ pid.
Proof.
  intros Hl Hp. cbn [q_remove default from_option id]. rewrite !list_elem_of_In, List.filter_In, <- list_elem_of_In.
  rewrite negb_true_iff, Z.eqb_neq. split; intros [H1 H2]; (split; [done|]); pose proof (Hl _ H1) as ?;
    rewrite !i16_small in * by lia; lia.
Qed.

Lemma q_remove_NoDup l pid : NoDup l → NoDup (default [] (q_remove (Some l) pid)).
Proof.
  cbn [q_remove default from_option id]. induction 1 as [|x l Hx _ IH]; cbn [List.filter]; [apply NoDup_nil_2|].
  destruct (negb _); [|done]. apply list.NoDup_cons. split; [|done].
  rewrite list_elem_of_In, List.filter_In, <- list_elem_of_In. tauto.
Qed.

(** Waking a blocked process. *)
Lemma setReady_inv s pid :
  mem_ok s → sched_inv s → state_of s pid = Some BLOCKED →
  ∃ s' p c l, setReady pid s = KDone s' 0 ∧ mem_ok s' ∧ sched_inv s' ∧
    processTable s !! pid = Some p ∧ k_procs s !! p = Some c ∧ readyQueue s = Some l ∧
    s' = set_procs (<[p := with_state READY c]> (k_procs s))
           (set_ready (Some (l ++ [pid])) (set_next (k_next s + 16) s)).
Proof.
  intros Hm Hi Hst. destruct (state_of_some _ _ _ Hst) as (p & c & Ht & Hc & Hb).
  destruct (si_table _ Hi _ _ Ht) as (Hpid & Hp & _). destruct (si_ready _ Hi) as (l & Hl & Hnd & Hmem).
  eexists _, p, c, l. split; [exact (setReady_eq s pid p c l Hm Hpid Ht Hp Hc Hb Hl)|]. split; [destruct Hm; split; kred; [done|lia]|].
  split; [|done].
  assert (Hni : pid ∉ l) by (rewrite Hmem, Hst; done).
  eapply (sched_inv_move s _ pid p c (with_state READY c) l); try done.
  - apply list.NoDup_app. split_and!; [done| |apply NoDup_singleton]. set_solver.
  - intros q Hq. set_solver.
  - split; [done|]. intros _. set_solver.
  - intros _. by left.
Qed.

(** Any other pid: nothing happens. *)
Lemma setReady_other s pid :
  sched_inv s → state_of s pid ≠ Some BLOCKED → setReady pid s = KDone s (-1).
Proof.
  intros Hi Hst. destruct (processTable s !! pid) as [p|] eqn:Ht; [|apply setReady_none; by right].
  destruct (si_table _ Hi _ _ Ht) as (Hpid & Hp & c & Hc & _).
  eapply setReady_no; try done. intros Hb. apply Hst. by rewrite (state_of_eq _ _ _ _ Ht Hc), Hb.
Qed.

(** ** A small kernel, for the examples of the development

    The idle process is ready, process 2 runs, process 3 is blocked. *)

Definition mini_proc (pid : Z) (st : State) : processCDT :=
  mkProc pid (pid * 65536 + 65536) 32768 (pid * 65536 + 65536 + 32768) 4194304 st [] 1 0 1
    (Some []) (Some []) 0 0 0 None (replicate 16 0) (replicate 16 false).

Definition mini : kst :=
  mkK [] 4096 {[ 80 := mkSem 0 [] false; 88 := mkSem 2 [] false; 96 := mkSem (-1) [3] false ]} ∅ ∅
    {[ 8 := mini_proc 0 READY; 16 := mini_proc 2 RUNNING; 24 := mini_proc 3 BLOCKED ]} ∅
    {[ 0 := 8; 2 := 16; 3 := 24 ]} ∅ 16 (Some [0]) true [] false 0.

Lemma mini_table pid p : processTable mini !! pid = Some p → (pid = 0 ∧ p = 8) ∨ (pid = 2 ∧ p = 16) ∨ (pid = 3 ∧ p = 24).
Proof.
  cbn [processTable mini]. intros [[<- <-]|[_ H]]%lookup_insert_Some; [by left|].
  apply lookup_insert_Some in H as [[<- <-]|[_ H]]; [by right; left|].
  apply lookup_singleton_Some in H as [<- <-]. by right; right.
Qed.

Lemma mini_inv : sched_inv mini.
Proof.
  split.
  - intros pid p [[-> ->]|[[-> ->]|[-> ->]]]%mini_table; (split; [lia|]; split; [lia|]; by eexists).
  - exists [0]. split; [done|]. split; [apply NoDup_singleton|]. intros pid. split.
    + intros ->%list_elem_of_singleton. done.
    + intros (p & c & [[-> ->]|[[-> ->]|[-> ->]]]%mini_table & E2 & E3)%state_of_some;
        [set_solver|by injection E2 as <-|by injection E2 as <-].
  - intros pid (p & c & [[-> ->]|[[-> ->]|[-> ->]]]%mini_table & E2 & E3)%state_of_some;
      [by injection E2 as <-|done|by injection E2 as <-].
  - intros _. by exists 2.
  - by left.
  - intros pid H. by apply elem_of_empty in H.
Qed.

Lemma mini_mem : mem_ok mini.
Proof. done. Qed.

End ProcTable.
