(* ===== verification/Semaphore.v ===== *)
(** * Semaphores ([Kernel/semaphores/semaphore.c]) and named semaphores ([sharedSemaphores.c]) *)

From S2P Require Import Prelude KState ProcTable.
Import ProcTable.

Module Semaphore.

(** ** [semaphore.c] *)

Definition set_value (v : Z) (c : semCDT) : semCDT := mkSem v (blockedQueue c) (sem_lock c).
Definition set_queue (q : list Z) (c : semCDT) : semCDT := mkSem (sem_value c) q (sem_lock c).
Definition set_lock (b : bool) (c : semCDT) : semCDT := mkSem (sem_value c) (blockedQueue c) b.

(** [ACQUIRE] spins while the lock is held; nothing else runs meanwhile. *)
Definition ACQUIRE (sem : Z) : K unit :=
  c ← kload k_sems sem; if sem_lock c then khang else kstore_sem sem (set_lock true).
Definition RELEASE (sem : Z) : K unit := kstore_sem sem (set_lock false).

Definition newSemaphore (value : Z) : K Z :=
  sem ← kalloc 24;
  if sem =? 0 then mret 0
  else
    q ← q_new;
    match q with
    | None => mret 0
    | Some l => _ ← kmod (λ s, set_sems (<[sem := mkSem value l false]> (k_sems s)) s); mret sem
    end.

Definition semWait (sem : Z) : K Z :=
  if sem =? 0 then mret (-1)
  else
    _ ← ACQUIRE sem;
    _ ← kstore_sem sem (λ c, set_value (i32 (sem_value c - 1)) c);
    c ← kload k_sems sem;
    let mustBlock := sem_value c <? 0 in
    _ ← (if mustBlock then
           currentPID ← getCurrentPID;
           _ ← setCurrentBlocked;
           c ← kload k_sems sem;
           r ← q_enqueue (Some (blockedQueue c)) currentPID;
           match r with
           | Some (Some l) => kstore_sem sem (set_queue l)
           | _ => mret ()
           end
         else mret ());
    _ ← RELEASE sem;
    _ ← (if mustBlock then kswitch else mret ());
    mret 0.

(** The loop of [semPost]: it drops the waiters that are no longer blocked. *)
Fixpoint post_loop (waiters : list Z) (sem : Z) : K unit :=
  c ← kload k_sems sem;
  if sem_value c <=? 0 then
    match waiters with
    | [] => mret ()
    | pid :: rest =>
      _ ← kstore_sem sem (set_queue rest);
      r ← setReady (i16 pid);
      if r =? 0 then mret ()
      else
        _ ← kstore_sem sem (λ c, set_value (i32 (sem_value c + 1)) c);
        post_loop rest sem
    end
  else mret ().

Definition semPost (sem : Z) : K Z :=
  if sem =? 0 then mret (-1)
  else
    _ ← ACQUIRE sem;
    _ ← kstore_sem sem (λ c, set_value (i32 (sem_value c + 1)) c);
    c ← kload k_sems sem;
    _ ← post_loop (blockedQueue c) sem;
    _ ← RELEASE sem;
    mret 0.

Definition semTryWait (sem : Z) : K Z :=
  if sem =? 0 then mret (-1)
  else
    _ ← ACQUIRE sem;
    c ← kload k_sems sem;
    got ← (if 0 <? sem_value c
           then _ ← kstore_sem sem (set_value (i32 (sem_value c - 1))); mret 0
           else mret (-1));
    _ ← RELEASE sem;
    mret got.

Definition freeSemaphore (sem : Z) : K unit :=
  if sem =? 0 then mret ()
  else
    _ ← ACQUIRE sem;
    c ← kload k_sems sem;
    match blockedQueue c with
    | _ :: _ => RELEASE sem
    | [] => kfree_sem sem
    end.

(** ** What the operations do *)

(** A semaphore at rest: the lock is free and a negative value counts the waiters. *)
Record sem_ok (c : semCDT) : Prop := {
  ok_lock : sem_lock c = false;
  ok_count : Z.of_nat (length (blockedQueue c)) = Z.max 0 (- sem_value c);
  ok_pids : ∀ x, x ∈ blockedQueue c → 0 ≤ x < 64;
}.

(** The counter is an [int]: it can take one more step without overflow. *)
Definition in_range (c : semCDT) : Prop := - 2 ^ 31 + 1 < sem_value c < 2 ^ 31 - 2.

Lemma ACQUIRE_eq sem s c : k_sems s !! sem = Some c → sem_lock c = false →
  ACQUIRE sem s = KDone (set_sems (<[sem := set_lock true c]> (k_sems s)) s) ().
Proof.
  intros E H. unfold ACQUIRE. rewrite kbind_eq, (kload_some _ _ _ _ E). kred. rewrite H.
  by apply kstore_sem_eq.
Qed.

(** The state of the process table does not depend on the semaphores. *)
Lemma state_of_sems s m pid : state_of (set_sems m s) pid = state_of s pid.
Proof. done. Qed.

Lemma sched_inv_sems s m : sched_inv s → sched_inv (set_sems m s).
Proof. by apply sched_inv_frame. Qed.

(** A unit is available: it is taken and the caller goes on. *)
Lemma semWait_go sem s c : k_sems s !! sem = Some c → sem_ok c → in_range c → 0 < sem_value c → sem ≠ 0 →
  semWait sem s = KDone (set_sems (<[sem := mkSem (sem_value c - 1) (blockedQueue c) false]> (k_sems s)) s) 0.
Proof.
  intros E [H1 H2 H3] H4 Hv Hs. unfold in_range in H4. unfold semWait. destruct (Z.eqb_spec sem 0); [done|].
  rewrite kbind_eq, (ACQUIRE_eq _ _ c) by done. kred.
  rewrite kbind_eq. erewrite kstore_sem_eq by (kred; apply lookup_insert_eq). kred.
  rewrite kbind_eq. erewrite kload_some by (kred; apply lookup_insert_eq). kred.
  unfold set_value, set_lock, RELEASE. cbn [sem_value blockedQueue sem_lock].
  rewrite i32_small by lia. destruct (Z.ltb_spec (sem_value c - 1) 0); [lia|].
  rewrite !kbind_eq. kred. rewrite !kbind_eq.
  erewrite kstore_sem_eq by (kred; apply lookup_insert_eq). kred. rewrite !kbind_eq. kred.
  rewrite !insert_insert_eq. done.
Qed.

(** No unit: the caller is queued, blocked, and gives up the processor. *)
Lemma semWait_block sem s c pid p pc : k_sems s !! sem = Some c → sem_ok c → in_range c →
  sem_value c ≤ 0 → sem ≠ 0 →
  mem_ok s → currentProcess s = p → p ≠ 0 → k_procs s !! p = Some pc → p_pid pc = pid →
  semWait sem s =
    KSwitch (set_procs (<[p := with_state BLOCKED pc]> (k_procs s))
               (set_sems (<[sem := mkSem (sem_value c - 1) (blockedQueue c ++ [pid]) false]> (k_sems s))
                  (set_next (k_next s + 16) s))) (λ s', KDone s' 0).
Proof.
  intros E [H1 H2 H3] H4 Hv Hs Hm Hcur Hp Hpc Hpid. unfold in_range in H4. unfold semWait. destruct (Z.eqb_spec sem 0); [done|].
  rewrite kbind_eq, (ACQUIRE_eq _ _ c) by done. kred.
  rewrite kbind_eq. erewrite kstore_sem_eq by (kred; apply lookup_insert_eq). kred.
  rewrite kbind_eq. erewrite kload_some by (kred; apply lookup_insert_eq). kred.
  unfold set_value, set_lock, RELEASE, set_queue. cbn [sem_value blockedQueue sem_lock].
  rewrite i32_small by lia. destruct (Z.ltb_spec (sem_value c - 1) 0); [|lia].
  rewrite !kbind_eq. erewrite (getCurrentPID_eq _ pc) by (kred; congruence). kred.
  unfold setCurrentBlocked. rewrite !kbind_eq. kred. rewrite Hcur.
  destruct (Z.eqb_spec p 0); [done|]. unfold setState. erewrite kstore_proc_eq by (kred; exact Hpc). kred.
  rewrite !kbind_eq. erewrite kload_some by (kred; apply lookup_insert_eq). kred. cbn [blockedQueue].
  rewrite !kbind_eq, q_enqueue_ok by (destruct Hm; split; done). kred.
  erewrite kstore_sem_eq by (kred; apply lookup_insert_eq). kred. cbn [sem_value sem_lock].
  rewrite !kbind_eq. erewrite kstore_sem_eq by (kred; apply lookup_insert_eq). kred. rewrite !kbind_eq. kred.
  cbn [sem_value blockedQueue]. by rewrite !insert_insert_eq, Hpid.
Qed.

(** *** Waking *)

Definition stale (s : kst) (pid : Z) : Prop := state_of s pid ≠ Some BLOCKED.

(** The effect of a post on a semaphore whose value, already incremented, is [v] and whose
    waiters are [q]: the first waiter still blocked is made ready, or, when there is none, a
    unit is left for the next caller. *)
Definition posted (s s' : kst) (sem v : Z) (q : list Z) (lock : bool) : Prop :=
  (∃ dead pid rest p pc l, q = dead ++ pid :: rest ∧ Forall (stale s) dead ∧
     state_of s pid = Some BLOCKED ∧
     processTable s !! pid = Some p ∧ k_procs s !! p = Some pc ∧ readyQueue s = Some l ∧
     s' = set_sems (<[sem := mkSem (v + Z.of_nat (length dead)) rest lock]> (k_sems s))
            (set_procs (<[p := with_state READY pc]> (k_procs s))
               (set_ready (Some (l ++ [pid])) (set_next (k_next s + 16) s)))) ∨
  (Forall (stale s) q ∧ s' = set_sems (<[sem := mkSem (Z.max v 1) [] lock]> (k_sems s)) s).

Lemma post_loop_spec sem q : ∀ s v lock,
  mem_ok s → sched_inv s → k_sems s !! sem = Some (mkSem v q lock) →
  (∀ x, x ∈ q → 0 ≤ x < 64) → Z.of_nat (length q) = Z.max 0 (1 - v) → - 2 ^ 31 < v < 2 ^ 31 - 1 →
  ∃ s', post_loop q sem s = KDone s' () ∧ mem_ok s' ∧ sched_inv s' ∧ posted s s' sem v q lock.
Proof.
  induction q as [|pid q IH]; intros s v lock Hm Hi Hs Hq Hlen Hv; cbn [post_loop];
    rewrite kbind_eq, (kload_some _ _ _ _ Hs); kred; cbn [sem_value].
  - cbn [length] in Hlen. destruct (Z.leb_spec v 0); [lia|]. kred. eexists. split; [done|].
    split; [done|]. split; [done|]. right. split; [done|]. replace (Z.max v 1) with v by lia.
    rewrite insert_id by done. by destruct s.
  - cbn [length] in Hlen. destruct (Z.leb_spec v 0); [|lia].
    rewrite kbind_eq, (kstore_sem_eq _ _ _ _ Hs). kred. unfold set_queue. cbn [sem_value sem_lock].
    rewrite i16_small by (pose proof (Hq pid ltac:(set_solver)); lia).
    set (s1 := set_sems (<[sem := mkSem v q lock]> (k_sems s)) s).
    match goal with |- context [(setReady pid ≫= ?f) ?t] => change t with s1 end.
    assert (Hi1 : sched_inv s1) by (by apply sched_inv_sems). assert (Hm1 : mem_ok s1) by done.
    rewrite kbind_eq. destruct (decide (state_of s1 pid = Some BLOCKED)) as [Hb|Hb].
    + destruct (setReady_inv _ _ Hm1 Hi1 Hb) as (s2 & p & pc & l & -> & Hm2 & Hi2 & Ht & Hp & Hl & E2).
      kred. cbn [Z.eqb]. exists s2. split; [done|]. split; [done|]. split; [done|]. left.
      exists [], pid, q, p, pc, l. split_and!; try done. rewrite E2. cbn [length]. by rewrite Z.add_0_r.
    + rewrite (setReady_other _ _ Hi1 Hb). kred. cbn [Z.eqb].
      rewrite kbind_eq. erewrite kstore_sem_eq by (unfold s1; kred; apply lookup_insert_eq).
      unfold s1. kred. unfold set_value. cbn [sem_value sem_lock blockedQueue].
      rewrite i32_small by lia. rewrite insert_insert_eq.
      match goal with |- context [post_loop q sem ?t] =>
        destruct (IH t (v + 1) lock) as (s3 & -> & Hm3 & Hi3 & Hpost) end; try done.
      * eapply sched_inv_frame; [..|exact Hi]; done.
      * kred. apply lookup_insert_eq.
      * intros x Hx. apply Hq. set_solver.
      * lia.
      * lia.
      * exists s3. split; [done|]. split; [done|]. split; [done|].
        destruct Hpost as [(dead & w & rest & p & pc & l & -> & Hd & Hw & Ht & Hp & Hl & ->)|(Hd & ->)].
        -- left. exists (pid :: dead), w, rest, p, pc, l. split_and!; try done; [by apply Forall_cons|].
           kred. rewrite insert_insert_eq. cbn [length]. by replace (v + Z.of_nat (S (length dead))) with (v + 1 + Z.of_nat (length dead)) by lia.
        -- right. split; [by apply Forall_cons|]. kred. rewrite insert_insert_eq.
           by replace (Z.max v 1) with (Z.max (v + 1) 1) by lia.
Qed.

Lemma semPost_spec sem s c :
  mem_ok s → sched_inv s → k_sems s !! sem = Some c → sem_ok c → in_range c → sem ≠ 0 →
  ∃ s', semPost sem s = KDone s' 0 ∧ mem_ok s' ∧ sched_inv s' ∧
    posted s s' sem (sem_value c + 1) (blockedQueue c) false.
Proof.
  intros Hm Hi Hs [H1 H2 H3] H4 Hne. unfold in_range in H4. unfold semPost. destruct (Z.eqb_spec sem 0); [done|].
  rewrite kbind_eq, (ACQUIRE_eq _ _ c) by done. kred.
  rewrite kbind_eq. erewrite kstore_sem_eq by (kred; apply lookup_insert_eq). kred.
  rewrite kbind_eq. erewrite kload_some by (kred; apply lookup_insert_eq). kred.
  unfold set_value, set_lock. cbn [sem_value blockedQueue sem_lock]. rewrite insert_insert_eq.
  rewrite i32_small by lia. rewrite kbind_eq.
  match goal with |- context [post_loop _ sem ?t] =>
    destruct (post_loop_spec sem (blockedQueue c) t (sem_value c + 1) true) as (s3 & -> & Hm3 & Hi3 & Hpost) end;
    try done; try lia.
  - eapply sched_inv_frame; [..|exact Hi]; done.
  - kred. apply lookup_insert_eq.
  - kred. unfold RELEASE. rewrite kbind_eq.
    destruct Hpost as [(dead & w & rest & p & pc & l & E & Hd & Hw & Ht & Hp & Hl & ->)|(Hd & ->)];
      (erewrite kstore_sem_eq by (kred; apply lookup_insert_eq); kred; unfold set_lock;
       cbn [sem_value blockedQueue]; rewrite !insert_insert_eq; eexists; split; [done|]; split; [done|]).
    + split; [eapply sched_inv_frame; [..|exact Hi3]; done|]. left.
      exists dead, w, rest, p, pc, l. split_and!; done.
    + split; [eapply sched_inv_frame; [..|exact Hi]; done|]. right. done.
Qed.

(** The caller sleeps: it is blocked, last in the queue, and the scheduler stays consistent. *)
Lemma semWait_sleeps sem s c pid :
  mem_ok s → sched_inv s → k_sems s !! sem = Some c → sem_ok c → in_range c → sem ≠ 0 → sem_value c ≤ 0 →
  processTable s !! pid = Some (currentProcess s) → state_of s pid = Some RUNNING → pid ≠ IDLE_PID →
  ∃ s', semWait sem s = KSwitch s' (λ s'', KDone s'' 0) ∧
     mem_ok s' ∧ sched_inv s' ∧ state_of s' pid = Some BLOCKED ∧ readyQueue s' = readyQueue s ∧
     k_sems s' = <[sem := mkSem (sem_value c - 1) (blockedQueue c ++ [pid]) false]> (k_sems s) ∧
     k_pipes s' = k_pipes s ∧ sem_ok (mkSem (sem_value c - 1) (blockedQueue c ++ [pid]) false).
Proof.
  intros Hm Hi Hs Hok Hr Hne Hv Ht Hst Hidle. pose proof Hok as [H1 H2 H3].
  destruct (state_of_some _ _ _ Hst) as (p & pc & Ht' & Hp & Hrun).
  assert (p = currentProcess s) as -> by congruence.
  destruct (si_table _ Hi _ _ Ht) as (Hpid & Hp0 & c0 & Hc0 & Hpc). assert (c0 = pc) as -> by congruence.
  eexists. split; [by eapply semWait_block|]. destruct (si_ready _ Hi) as (l & Hl & Hnd & Hmem).
  split; [destruct Hm; split; kred; [done|lia]|]. split.
  { eapply (sched_inv_move s _ pid _ pc (with_state BLOCKED pc) l l); try done.
    split; [|done]. intros Hin%Hmem. congruence. }
  split; [by rewrite (state_of_eq _ pid (currentProcess s) (with_state BLOCKED pc)) by (kred; first [done|apply lookup_insert_eq])|].
  split; [done|]. split; [done|]. split; [done|].
  split; cbn [sem_lock blockedQueue sem_value]; [done|rewrite length_app; cbn [length]; lia|].
  intros x [Hx|Hx]%elem_of_app; [by apply H3|]. by apply list_elem_of_singleton in Hx as ->.
Qed.

(** *** Properties *)

(** C8. [semWait] takes a unit when there is one and lets the caller go on; otherwise the
    caller joins the end of the waiting queue, becomes blocked and gives up the processor,
    with nothing left to do once it is resumed.  Either way the semaphore stays consistent
    and so does the scheduler. *)
Theorem semWait_correct sem s c pid :
  mem_ok s → sched_inv s → k_sems s !! sem = Some c → sem_ok c → in_range c → sem ≠ 0 →
  processTable s !! pid = Some (currentProcess s) → state_of s pid = Some RUNNING → pid ≠ IDLE_PID →
  (0 < sem_value c ∧ semWait sem s =
     KDone (set_sems (<[sem := mkSem (sem_value c - 1) (blockedQueue c) false]> (k_sems s)) s) 0 ∧
     sem_ok (mkSem (sem_value c - 1) (blockedQueue c) false)) ∨
  (sem_value c ≤ 0 ∧ ∃ s', semWait sem s = KSwitch s' (λ s'', KDone s'' 0) ∧
     mem_ok s' ∧ sched_inv s' ∧ state_of s' pid = Some BLOCKED ∧ readyQueue s' = readyQueue s ∧
     k_sems s' = <[sem := mkSem (sem_value c - 1) (blockedQueue c ++ [pid]) false]> (k_sems s) ∧
     sem_ok (mkSem (sem_value c - 1) (blockedQueue c ++ [pid]) false)).
Proof.
  intros Hm Hi Hs Hok Hr Hne Ht Hst Hidle. pose proof Hok as [H1 H2 H3].
  destruct (Z_lt_le_dec 0 (sem_value c)) as [Hv|Hv].
  - left. split; [done|]. split; [by apply semWait_go|]. split; cbn [sem_lock blockedQueue sem_value]; [done|lia|done].
  - right. split; [done|].
    destruct (semWait_sleeps sem s c pid Hm Hi Hs Hok Hr Hne Hv Ht Hst Hidle) as (s' & H). exists s'. tauto.
Qed.

Lemma sem_ok_80 : sem_ok (mkSem 0 [] false).
Proof. split; [done|done|]. intros x Hx. by apply elem_of_nil in Hx. Qed.
Lemma sem_ok_96 : sem_ok (mkSem (-1) [3] false).
Proof. split; [done|done|]. intros x ->%list_elem_of_singleton. done. Qed.

Lemma semWait_correct_witness : sched_inv mini ∧
  ∃ s', semWait 80 mini = KSwitch s' (λ s'', KDone s'' 0) ∧ state_of s' 2 = Some BLOCKED.
Proof.
  split; [exact mini_inv|].
  destruct (semWait_correct 80 mini (mkSem 0 [] false) 2 mini_mem mini_inv) as [[H _]|(_ & s' & H1 & _ & _ & H2 & _)];
    [reflexivity|exact sem_ok_80|unfold in_range; cbn; lia|lia|reflexivity|reflexivity|unfold IDLE_PID; lia|cbn in H; lia|].
  exists s'. split; [exact H1|exact H2].
Defined.



End Semaphore.

(** ** [sharedSemaphores.c] *)

Module SharedSemaphores.
Import Semaphore.

Definition MAX_SHARED_SEMS : Z := 64.
Definition SEM_NAME_MAX : Z := 32.

(** [ACQUIRE(&tableLock)], [RELEASE(&tableLock)]. *)
Definition acquire_table : K unit := s ← kget; if tableLock s then khang else kmod (set_tableLock true).
Definition release_table : K unit := kmod (set_tableLock false).

Definition slot_empty : SharedSem := mkShared false [] 0 0.
(** The table as the BSS leaves it. *)
Definition empty_table : list SharedSem := replicate (Z.to_nat MAX_SHARED_SEMS) slot_empty.

(** The first index whose entry satisfies [P], or -1. *)
Fixpoint first_index (P : SharedSem → bool) (i : Z) (t : list SharedSem) : Z :=
  match t with
  | [] => -1
  | e :: t => if P e then i else first_index P (i + 1) t
  end.

(** [strcmp] of two C strings is 0 exactly when they are equal ([LibC.v]). *)
Definition findByName (name : cstring) (s : kst) : Z :=
  first_index (λ e, ss_used e && bool_decide (ss_name e = name)) 0 (sharedTable s).
Definition findFreeSlot (s : kst) : Z :=
  first_index (λ e, negb (ss_used e)) 0 (sharedTable s).

Definition set_entry (i : Z) (e : SharedSem) (s : kst) : kst :=
  set_shared (<[Z.to_nat i := e]> (sharedTable s)) s.
Definition entry (i : Z) (s : kst) : SharedSem := default slot_empty (sharedTable s !! Z.to_nat i).

(** The bytes of a name that [strcpy] stores past the end of the 32-byte field. *)
Definition name_overflow (name : cstring) : Z := Z.max 0 (Z.of_nat (length name) + 1 - SEM_NAME_MAX).

(** A name is NULL or a string; the entry keeps the whole string [strcpy] copies: when
    [name_overflow] is not 0, the store runs over the fields behind it, and the run is a
    fault of the model. *)
Definition sharedSemOpen (name : option cstring) (initialValue : Z) : K Z :=
  match name with
  | None | Some [] => mret (-1)
  | Some n =>
    _ ← acquire_table;
    s ← kget;
    let idx := findByName n s in
    if 0 <=? idx then
      let e := entry idx s in
      _ ← kmod (set_entry idx (mkShared (ss_used e) (ss_name e) (ss_sem e) (i32 (ss_refCount e + 1))));
      _ ← release_table;
      mret 0
    else
      let idx := findFreeSlot s in
      if idx <? 0 then _ ← release_table; mret (-1)
      else
        sem ← newSemaphore initialValue;
        if sem =? 0 then _ ← release_table; mret (-1)
        else if 0 <? name_overflow n then kfault
        else
          _ ← kmod (set_entry idx (mkShared true n sem 1));
          _ ← release_table;
          mret 0
  end.

Definition sharedSemClose (name : option cstring) : K Z :=
  match name with
  | None | Some [] => mret (-1)
  | Some n =>
    _ ← acquire_table;
    s ← kget;
    let idx := findByName n s in
    if idx <? 0 then _ ← release_table; mret (-1)
    else
      let e := entry idx s in
      let refs := i32 (ss_refCount e - 1) in
      if refs <=? 0 then
        _ ← kmod (set_entry idx (mkShared false (ss_name e) 0 refs));
        _ ← release_table;
        _ ← freeSemaphore (ss_sem e);
        mret 0
      else
        _ ← kmod (set_entry idx (mkShared (ss_used e) (ss_name e) (ss_sem e) refs));
        _ ← release_table;
        mret 0
  end.

(** The semaphore of a name, or NULL. *)
Definition lookup_sem (n : cstring) : K Z :=
  _ ← acquire_table;
  s ← kget;
  let idx := findByName n s in
  let sem := if 0 <=? idx then ss_sem (entry idx s) else 0 in
  _ ← release_table;
  mret sem.

Definition sharedSemWait (name : option cstring) : K Z :=
  match name with
  | None | Some [] => mret (-1)
  | Some n => sem ← lookup_sem n; if sem =? 0 then mret (-1) else semWait sem
  end.

Definition sharedSemPost (name : option cstring) : K Z :=
  match name with
  | None | Some [] => mret (-1)
  | Some n => sem ← lookup_sem n; if sem =? 0 then mret (-1) else semPost sem
  end.

End SharedSemaphores.
