(* ===== verification/Pipe.v ===== *)
(** * Pipes and file accesses ([Kernel/IPC/pipe.c], [Kernel/IPC/fileAccess.c]) *)

From S2P Require Import Prelude MemoryManager CircularBuffer KState ProcTable Semaphore.
Import Semaphore.

Module Pipe.

Definition PIPE_BUF_SIZE : Z := 1024.
Definition PIPE_WOULD_BLOCK : Z := -2.
Definition PIPE_SIZE : Z := 48.    (* sizeof(pipeCDT) *)

(** ** [pipe.c] *)

(** The kernel's allocator as a memory manager, for [newBuffer]. *)
#[local] Instance kernel_memory : MemoryManager kst := {|
  mm_alloc n s := match kalloc n s with KDone s' p => Some (p, s') | _ => None end;
  mm_free _ s := Some s;
  mm_inv _ := True; mm_live _ := ∅; mm_lo _ := 0; mm_hi _ := 0; mm_max _ := 0;
|}.

Definition k_newBuffer (size : Z) : K (option CircularBuffer.circularBufferCDT) := λ s,
  match CircularBuffer.newBuffer size s with Some (b, s') => KDone s' b | None => KFault end.

Definition set_buffer (b : option CircularBuffer.circularBufferCDT) (p : pipeCDT) : pipeCDT :=
  mkPipe b (dataAvailable p) (freeSpaces p) (readMutex p) (writeMutex p) (pipe_refCount p) (writerCount p).
Definition set_counts (refs writers : Z) (p : pipeCDT) : pipeCDT :=
  mkPipe (buffer p) (dataAvailable p) (freeSpaces p) (readMutex p) (writeMutex p) refs writers.

Definition pipe (p : Z) : K pipeCDT := kload k_pipes p.

(** [if (sem) freeSemaphore(sem)], which [freeSemaphore] tests again. *)
Definition freePipe (p : Z) : K unit :=
  if p =? 0 then mret ()
  else
    c ← pipe p;
    _ ← freeSemaphore (dataAvailable c);
    _ ← freeSemaphore (freeSpaces c);
    _ ← freeSemaphore (readMutex c);
    _ ← freeSemaphore (writeMutex c);
    kfree_pipe p.

(** The counters are read by nobody before they are set, so the model sets them at once. *)
Definition newPipe : K Z :=
  p ← kalloc PIPE_SIZE;
  if p =? 0 then mret 0
  else
    b ← k_newBuffer PIPE_BUF_SIZE;
    da ← newSemaphore 0;
    fs ← newSemaphore PIPE_BUF_SIZE;
    rm ← newSemaphore 1;
    wm ← newSemaphore 1;
    _ ← kmod (λ s, set_pipes (<[p := mkPipe b da fs rm wm 0 0]> (k_pipes s)) s);
    if bool_decide (b = None) || (da =? 0) || (fs =? 0) || (rm =? 0) || (wm =? 0)
    then _ ← freePipe p; mret 0
    else mret p.

Definition addPipeRef (p : Z) : K unit :=
  if p =? 0 then mret ()
  else kstore_pipe p (λ c, set_counts (i32 (pipe_refCount c + 1)) (writerCount c) c).
Definition addPipeWriter (p : Z) : K unit :=
  if p =? 0 then mret ()
  else kstore_pipe p (λ c, set_counts (pipe_refCount c) (i32 (writerCount c + 1)) c).

Definition removePipeRef (p : Z) : K unit :=
  if p =? 0 then mret ()
  else
    _ ← kstore_pipe p (λ c, set_counts (i32 (pipe_refCount c - 1)) (writerCount c) c);
    c ← pipe p;
    if pipe_refCount c <=? 0 then freePipe p else mret ().

(** [for (i = 0; i < count; i++) semPost(p->dataAvailable)] *)
Fixpoint post_times (n : nat) (p : Z) : K unit :=
  match n with
  | O => mret ()
  | S n => c ← pipe p; _ ← semPost (dataAvailable c); post_times n p
  end.
Definition forceReadersWakeUp (p count : Z) : K unit :=
  if p =? 0 then mret () else post_times (Z.to_nat count) p.

Definition removePipeWriter (p : Z) : K unit :=
  if p =? 0 then mret ()
  else
    _ ← kstore_pipe p (λ c, set_counts (pipe_refCount c) (i32 (writerCount c - 1)) c);
    c ← pipe p;
    if writerCount c <=? 0 then forceReadersWakeUp p ProcTable.MAX_PROCESSES else mret ().

Definition pipeHasData (p : Z) : K bool :=
  if p =? 0 then mret false else c ← pipe p; mret (CircularBuffer.bufferHasData (buffer c)).
Definition pipeIsFull (p : Z) : K bool :=
  if p =? 0 then mret false else c ← pipe p; mret (CircularBuffer.bufferIsFull (buffer c)).

(** [buf[n++] = bufferRead(p->buffer); semPost(p->freeSpaces)]; [acc] are the bytes stored in
    the caller's buffer so far.  Each round takes one byte, so the bytes in the buffer bound
    the rounds. *)
Fixpoint drain_loop (fuel : nat) (p count : Z) (acc : list Z) : K (list Z) :=
  if negb (Z.of_nat (length acc) <? count) then mret acc
  else
    has ← pipeHasData p;
    if negb has then mret acc
    else match fuel with
    | O => kfuel
    | S fuel =>
      c ← pipe p;
      let '(b, buf') := CircularBuffer.bufferRead (buffer c) in
      _ ← kstore_pipe p (set_buffer buf');
      _ ← semPost (freeSpaces c);
      drain_loop fuel p count (acc ++ [b])
    end.
Definition buffered (c : pipeCDT) : nat :=
  match buffer c with Some b => Z.to_nat (CircularBuffer.count b) | None => O end.
Definition drainBuffer (p count : Z) : K (list Z) :=
  c ← pipe p; drain_loop (buffered c) p count [].

(** A read answers its return value and the bytes it stored; [fuel] bounds the rounds in which
    a reader wakes up to an empty pipe and waits again. *)
Fixpoint read_loop (fuel : nat) (p count : Z) : K (Z * list Z) :=
  match fuel with
  | O => kfuel
  | S fuel =>
    c ← pipe p;
    _ ← semWait (dataAvailable c);
    c ← pipe p;
    _ ← semWait (readMutex c);
    has ← pipeHasData p;
    if (has : bool) then
      bytes ← drainBuffer p count;
      has ← pipeHasData p;
      c ← pipe p;
      _ ← (if (has : bool) then semPost (dataAvailable c) else mret 0);
      _ ← semPost (readMutex c);
      mret (Z.of_nat (length bytes), bytes)
    else
      c ← pipe p;
      if writerCount c <=? 0 then _ ← semPost (readMutex c); mret (0, [])
      else _ ← semPost (readMutex c); read_loop fuel p count
  end.

Definition pipeReadBlocking (fuel : nat) (p count : Z) : K (Z * list Z) :=
  has ← pipeHasData p;
  c ← pipe p;
  if negb has && (writerCount c <=? 0) then mret (0, []) else read_loop fuel p count.

Definition pipeReadNonblocking (p count : Z) : K (Z * list Z) :=
  has ← pipeHasData p;
  c ← pipe p;
  if negb has then mret (if 0 <? writerCount c then PIPE_WOULD_BLOCK else 0, [])
  else
    _ ← semWait (readMutex c);
    has ← pipeHasData p;
    c ← pipe p;
    if negb has then
      let hasWriters := 0 <? writerCount c in
      _ ← semPost (readMutex c);
      mret (if hasWriters then PIPE_WOULD_BLOCK else 0, [])
    else
      bytes ← drainBuffer p count;
      _ ← semPost (readMutex c);
      mret (Z.of_nat (length bytes), bytes).

Definition pipeRead (fuel : nat) (p count : Z) (nonblocking : bool) : K (Z * list Z) :=
  if (p =? 0) || (count =? 0) then mret (0, [])
  else if nonblocking then pipeReadNonblocking p count else pipeReadBlocking fuel p count.

(** [buf] are the bytes still to write and [n] how many were written; a round that finds no
    room after all is repeated, and [fuel] bounds the rounds. *)
Fixpoint write_loop (fuel : nat) (p : Z) (buf : list Z) (n : Z) (nonblocking : bool) : K Z :=
  match buf with
  | [] => c ← pipe p; _ ← semPost (writeMutex c); mret n
  | b :: rest =>
    match fuel with
    | O => kfuel
    | S fuel =>
      full ← pipeIsFull p;
      c ← pipe p;
      if nonblocking && full then
        _ ← semPost (writeMutex c); mret (if 0 <? n then n else PIPE_WOULD_BLOCK)
      else
        _ ← semWait (freeSpaces c);
        has ← pipeHasData p;
        let wasEmpty := negb has in
        c ← pipe p;
        let '(ok, buf') := CircularBuffer.bufferWrite b (buffer c) in
        _ ← kstore_pipe p (set_buffer buf');
        if negb (ok =? 0) then
          _ ← (if wasEmpty then semPost (dataAvailable c) else mret 0);
          write_loop fuel p rest (n + 1) nonblocking
        else write_loop fuel p (b :: rest) n nonblocking
    end
  end.

(** [buf] are the [count] bytes of the caller. *)
Definition pipeWrite (fuel : nat) (p : Z) (buf : list Z) (nonblocking : bool) : K Z :=
  if p =? 0 then mret (-1)
  else
    c ← pipe p;
    _ ← semWait (writeMutex c);
    write_loop fuel p buf 0 nonblocking.

End Pipe.

(** ** [fileAccess.c] *)

Module FileAccess.
Import Pipe.

Definition FILE_READ : Z := 1.
Definition FILE_WRITE : Z := 2.
Definition FILE_NONBLOCK : Z := 4.
Definition FILE_SIZE : Z := 16.    (* sizeof(fileAccessCDT) *)

Definition set_refs (v : Z) (f : fileAccessCDT) : fileAccessCDT := mkFile (fa_pipe f) (fa_flags f) v.
Definition set_flags (v : Z) (f : fileAccessCDT) : fileAccessCDT := mkFile (fa_pipe f) v (fa_refCount f).

Definition file (fa : Z) : K fileAccessCDT := kload k_files fa.

Definition has_flag (flags f : Z) : bool := negb (Z.land flags f =? 0).

Definition newFileAccess (p flags : Z) : K Z :=
  fa ← kalloc FILE_SIZE;
  if fa =? 0 then mret 0
  else
    _ ← kmod (λ s, set_files (<[fa := mkFile p flags 0]> (k_files s)) s);
    _ ← (if negb (p =? 0) then
           _ ← addPipeRef p;
           if has_flag flags FILE_WRITE then addPipeWriter p else mret ()
         else mret ());
    mret fa.

Definition freeFileAccess (fa : Z) : K unit :=
  if fa =? 0 then mret ()
  else
    f ← file fa;
    _ ← (if negb (fa_pipe f =? 0) then
           _ ← (if has_flag (fa_flags f) FILE_WRITE then removePipeWriter (fa_pipe f) else mret ());
           removePipeRef (fa_pipe f)
         else mret ());
    kfree_file fa.

Definition addFileRef (fa : Z) : K unit :=
  if fa =? 0 then mret () else kstore_file fa (λ f, set_refs (i32 (fa_refCount f + 1)) f).

Definition removeFileRef (fa : Z) : K unit :=
  if fa =? 0 then mret ()
  else
    _ ← kstore_file fa (λ f, set_refs (i32 (fa_refCount f - 1)) f);
    f ← file fa;
    if fa_refCount f <=? 0 then freeFileAccess fa else mret ().

Definition hasFlag (fa f : Z) : K bool :=
  if fa =? 0 then mret false else c ← file fa; mret (has_flag (fa_flags c) f).
Definition isReadable (fa : Z) : K bool := hasFlag fa FILE_READ.
Definition isWritable (fa : Z) : K bool := hasFlag fa FILE_WRITE.
Definition isNonblocking (fa : Z) : K bool := hasFlag fa FILE_NONBLOCK.

Definition fileRead (fuel : nat) (fa count : Z) : K (Z * list Z) :=
  r ← isReadable fa;
  if negb r then mret (-1, [])
  else f ← file fa; nb ← isNonblocking fa; pipeRead fuel (fa_pipe f) count nb.

Definition fileWrite (fuel : nat) (fa : Z) (buf : list Z) : K Z :=
  w ← isWritable fa;
  if negb w then mret (-1)
  else f ← file fa; nb ← isNonblocking fa; pipeWrite fuel (fa_pipe f) buf nb.

Definition setFileFlags (fa flags : Z) : K unit :=
  if fa =? 0 then mret () else kstore_file fa (set_flags flags).
Definition addFileFlags (fa flags : Z) : K unit :=
  if fa =? 0 then mret () else kstore_file fa (λ f, set_flags (u8 (Z.lor (fa_flags f) flags)) f).
Definition removeFileFlags (fa flags : Z) : K unit :=
  if fa =? 0 then mret () else kstore_file fa (λ f, set_flags (u8 (Z.land (fa_flags f) (Z.lnot flags))) f).

Definition cloneFile (fa : Z) : K Z :=
  if fa =? 0 then mret 0 else f ← file fa; newFileAccess (fa_pipe f) (fa_flags f).

Definition getFilePipe (fa : Z) : K Z :=
  if fa =? 0 then mret 0 else f ← file fa; mret (fa_pipe f).

Definition forceWakeOnPipe (fa count : Z) : K unit :=
  if fa =? 0 then mret () else f ← file fa; forceReadersWakeUp (fa_pipe f) count.

End FileAccess.
