(* ===== verification/PipeSpec.v ===== *)
(** * Pipes implement bounded FIFO channels

    The contract of [Pipe.v]: a pipe that no process is using holds a list of bytes; writes
    append to it, reads take from its front, the semaphores count its free room, and a reader
    that finds it empty sleeps until a write wakes it. *)

From S2P Require Import Prelude CircularBuffer KState ProcTable Semaphore Pipe.
Import CircularBuffer ProcTable Semaphore Pipe.

Module PipeSpec.

(** ** Semaphores without waiters *)

Lemma sem_ok_free v : 0 ≤ v → sem_ok (mkSem v [] false).
Proof. intros Hv. split; cbn [sem_lock blockedQueue sem_value length]; [done|lia|]. intros x Hx. by apply elem_of_nil in Hx. Qed.

Lemma sem_take q v s : k_sems s !! q = Some (mkSem v [] false) → 0 < v ≤ 2 ^ 30 → q ≠ 0 →
  semWait q s = KDone (set_sems (<[q := mkSem (v - 1) [] false]> (k_sems s)) s) 0.
Proof.
  intros E Hv Hq. rewrite (semWait_go q s (mkSem v [] false)); try done.
  - apply sem_ok_free. lia.
  - unfold in_range. cbn [sem_value]. lia.
  - cbn [sem_value]. lia.
Qed.

Lemma sem_give q v s : mem_ok s → sched_inv s → k_sems s !! q = Some (mkSem v [] false) → 0 ≤ v ≤ 2 ^ 30 → q ≠ 0 →
  semPost q s = KDone (set_sems (<[q := mkSem (v + 1) [] false]> (k_sems s)) s) 0.
Proof.
  intros Hm Hi E Hv Hq.
  destruct (semPost_spec q s (mkSem v [] false) Hm Hi E) as (s' & -> & _ & _ & Hp).
  - apply sem_ok_free. lia.
  - unfold in_range. cbn [sem_value]. lia.
  - done.
  - destruct Hp as [(dead & pid & rest & p & pc & l & Eq & _)|[_ ->]]; [by destruct dead|].
    cbn [sem_value]. by rewrite Z.max_l by lia.
Qed.

(** ** The pipe at rest *)

Section Pipes.
(** The descriptor at [p]: its four semaphores and its counters. *)
Context (p da fs rm wm refs writers : Z).
Context (Hnd : NoDup [da; fs; rm; wm]) (Hnz : Forall (λ x, x ≠ 0) [p; da; fs; rm; wm]).

(** The pipe holds [l]; [d] is the semaphore of the readers, [vr] and [vw] the mutexes. *)
Definition holds (s : kst) (l : list Z) (d : semCDT) (vr vw : Z) : Prop :=
  ∃ b, k_pipes s !! p = Some (mkPipe (Some b) da fs rm wm refs writers) ∧ bholds b l ∧ maxSize b = PIPE_BUF_SIZE ∧
    k_sems s !! da = Some d ∧ k_sems s !! fs = Some (mkSem (PIPE_BUF_SIZE - len l) [] false) ∧
    k_sems s !! rm = Some (mkSem vr [] false) ∧ k_sems s !! wm = Some (mkSem vw [] false) ∧
    len l ≤ PIPE_BUF_SIZE.

(** Nothing but the pipe and its semaphores has changed. *)
Definition only_pipe (s s' : kst) : Prop :=
  ∃ m n, s' = set_sems m (set_pipes n s) ∧
    (∀ q, q ∉ [da; fs; rm; wm] → m !! q = k_sems s !! q) ∧ (∀ q, q ≠ p → n !! q = k_pipes s !! q).

Lemma only_refl s : only_pipe s s.
Proof. exists (k_sems s), (k_pipes s). by destruct s. Qed.

Lemma only_trans s1 s2 s3 : only_pipe s1 s2 → only_pipe s2 s3 → only_pipe s1 s3.
Proof.
  intros (m & n & -> & H1 & H2) (m' & n' & -> & H3 & H4). exists m', n'. split; [done|]. cbn in *.
  split; intros q Hq; [rewrite H3|rewrite H4]; auto.
Qed.

Lemma only_sem s q c : q ∈ [da; fs; rm; wm] → only_pipe s (set_sems (<[q := c]> (k_sems s)) s).
Proof.
  intros Hq. exists (<[q := c]> (k_sems s)), (k_pipes s). split; [by destruct s|]. split; [|done].
  intros x Hx. apply lookup_insert_ne. congruence.
Qed.

Lemma only_buf s c : only_pipe s (set_pipes (<[p := c]> (k_pipes s)) s).
Proof. exists (k_sems s), (<[p := c]> (k_pipes s)). split; [by destruct s|]. split; [done|]. intros x Hx. by apply lookup_insert_ne. Qed.

Lemma only_ok s s' : only_pipe s s' → mem_ok s → sched_inv s → mem_ok s' ∧ sched_inv s'.
Proof. intros (m & n & -> & _) Hm Hi. split; [done|]. eapply sched_inv_frame; [..|exact Hi]; done. Qed.

(** The distinctness of the pointers, in the form [congruence] uses. *)
Lemma ptrs : p ≠ 0 ∧ (da ≠ 0 ∧ fs ≠ 0 ∧ rm ≠ 0 ∧ wm ≠ 0) ∧ da ≠ fs ∧ da ≠ rm ∧ da ≠ wm ∧ fs ≠ rm ∧ fs ≠ wm ∧ rm ≠ wm.
Proof.
  pose proof Hnd as (N1 & N2)%list.NoDup_cons. apply list.NoDup_cons in N2 as (N2 & N3).
  apply list.NoDup_cons in N3 as (N3 & _). rewrite !not_elem_of_cons in N1, N2, N3.
  pose proof Hnz as (Z1 & Z2)%list.Forall_cons. rewrite !list.Forall_cons in Z2. cbn beta in Z1, Z2. intuition (subst; set_solver).
Qed.

(** Changing one semaphore of the pipe. *)
Lemma holds_da s l d vr vw d' : holds s l d vr vw → holds (set_sems (<[da := d']> (k_sems s)) s) l d' vr vw.
Proof. destruct ptrs as (N0 & (N1 & N2 & N3 & N4) & N5 & N6 & N7 & N8 & N9 & N10). intros (b & H1 & H2 & H3 & H4 & H5 & H6 & H7 & H8).
  exists b. kred. rewrite lookup_insert_eq, !lookup_insert_ne by congruence. by split_and!. Qed.
Lemma holds_rm s l d vr vw v : holds s l d vr vw → holds (set_sems (<[rm := mkSem v [] false]> (k_sems s)) s) l d v vw.
Proof. destruct ptrs as (N0 & (N1 & N2 & N3 & N4) & N5 & N6 & N7 & N8 & N9 & N10). intros (b & H1 & H2 & H3 & H4 & H5 & H6 & H7 & H8).
  exists b. kred. rewrite lookup_insert_eq, !lookup_insert_ne by congruence. by split_and!. Qed.
Lemma holds_wm s l d vr vw v : holds s l d vr vw → holds (set_sems (<[wm := mkSem v [] false]> (k_sems s)) s) l d vr v.
Proof. destruct ptrs as (N0 & (N1 & N2 & N3 & N4) & N5 & N6 & N7 & N8 & N9 & N10). intros (b & H1 & H2 & H3 & H4 & H5 & H6 & H7 & H8).
  exists b. kred. rewrite lookup_insert_eq, !lookup_insert_ne by congruence. by split_and!. Qed.

Lemma hasData_eq s l d vr vw : holds s l d vr vw → pipeHasData p s = KDone s (bool_decide (l ≠ [])).
Proof.
  destruct ptrs as (Hp & _). intros (b & Hb & Hl & _). unfold pipeHasData, pipe. destruct (Z.eqb_spec p 0); [done|].
  rewrite kbind_eq, (kload_some _ _ _ _ Hb). kred. cbn [buffer]. unfold bufferHasData. rewrite (b_count _ _ Hl).
  by destruct l.
Qed.

Lemma isFull_eq s l d vr vw : holds s l d vr vw → pipeIsFull p s = KDone s (len l =? PIPE_BUF_SIZE).
Proof.
  destruct ptrs as (Hp & _). intros (b & Hb & Hl & Hmx & _). unfold pipeIsFull, pipe. destruct (Z.eqb_spec p 0); [done|].
  rewrite kbind_eq, (kload_some _ _ _ _ Hb). kred. cbn [buffer]. unfold bufferIsFull. by rewrite (b_count _ _ Hl), Hmx.
Qed.

Lemma pipe_eq s l d vr vw : holds s l d vr vw → ∃ b, pipe p s = KDone s (mkPipe (Some b) da fs rm wm refs writers).
Proof. intros (b & Hb & _). exists b. by apply kload_some. Qed.

(** One byte goes into the buffer, and one unit of room goes away with it. *)
Lemma put_byte s l d vr vw x : holds s l d vr vw → len l < PIPE_BUF_SIZE →
  ∃ b, pipe p (set_sems (<[fs := mkSem (PIPE_BUF_SIZE - len l - 1) [] false]> (k_sems s)) s) =
      KDone (set_sems (<[fs := mkSem (PIPE_BUF_SIZE - len l - 1) [] false]> (k_sems s)) s) (mkPipe (Some b) da fs rm wm refs writers) ∧
    ∃ b', bufferWrite x (Some b) = (1, Some b') ∧
      ∃ s', kstore_pipe p (set_buffer (Some b')) (set_sems (<[fs := mkSem (PIPE_BUF_SIZE - len l - 1) [] false]> (k_sems s)) s) = KDone s' () ∧
        holds s' (l ++ [x]) d vr vw ∧ only_pipe s s'.
Proof.
  destruct ptrs as (N0 & (N1 & N2 & N3 & N4) & N5 & N6 & N7 & N8 & N9 & N10).
  intros (b & H1 & H2 & H3 & H4 & H5 & H6 & H7 & H8) Hlt. exists b. split; [by apply kload_some|].
  destruct (bufferWrite_spec b l x H2) as (b' & E & Hb' & Hm & _); [lia|]. exists b'. split; [done|].
  eexists. split; [apply kstore_pipe_eq; exact H1|]. split.
  - exists b'. kred. unfold set_buffer. cbn. rewrite !lookup_insert_eq, !lookup_insert_ne by congruence.
    rewrite length_app. cbn [length]. split_and!; try done; try lia; try congruence.
    by replace (PIPE_BUF_SIZE - Z.of_nat (length l + 1)) with (PIPE_BUF_SIZE - len l - 1) by lia.
  - eapply only_trans; [apply (only_sem s fs); set_solver|apply only_buf].
Qed.

(** A byte leaves the buffer, and the room it leaves is posted. *)
Lemma take_byte s x l d vr vw : mem_ok s → sched_inv s → holds s (x :: l) d vr vw →
  ∃ b b' s1 s2, pipe p s = KDone s (mkPipe (Some b) da fs rm wm refs writers) ∧ bufferRead (Some b) = (x, Some b') ∧
    kstore_pipe p (set_buffer (Some b')) s = KDone s1 () ∧ semPost fs s1 = KDone s2 0 ∧
    holds s2 l d vr vw ∧ only_pipe s s2.
Proof.
  destruct ptrs as (N0 & (N1 & N2 & N3 & N4) & N5 & N6 & N7 & N8 & N9 & N10).
  intros Hm Hi (b & H1 & H2 & H3 & H4 & H5 & H6 & H7 & H8). cbn [length] in *.
  destruct (bufferRead_spec b x l H2) as (b' & E & Hb' & Hmx & _). exists b, b'.
  eexists _, _. split; [by apply kload_some|]. split; [done|].
  split; [apply kstore_pipe_eq; exact H1|]. unfold PIPE_BUF_SIZE in *.
  split; [apply (sem_give fs (1024 - Z.of_nat (S (length l)))); kred;
    [done|eapply sched_inv_frame; [..|exact Hi]; done|done|lia|done]|]. split.
  - exists b'. kred. unfold set_buffer. cbn. rewrite !lookup_insert_eq, !lookup_insert_ne by congruence.
    unfold PIPE_BUF_SIZE. split_and!; try done; try lia; try congruence.
    by replace (1024 - Z.of_nat (S (length l)) + 1) with (1024 - len l) by lia.
  - eapply only_trans; [apply only_buf|apply only_sem; set_solver].
Qed.

Lemma drain_stop fuel count acc s : ¬ len acc < count → drain_loop fuel p count acc s = KDone s acc.
Proof. intros H. destruct fuel; cbn [drain_loop]; destruct (Z.ltb_spec (len acc) count); done. Qed.

Lemma drain_empty fuel count acc s d vr vw : holds s [] d vr vw → drain_loop fuel p count acc s = KDone s acc.
Proof.
  intros Hh. destruct fuel; cbn [drain_loop]; destruct (Z.ltb_spec (len acc) count); try done; cbn [negb];
    rewrite kbind_eq, (hasData_eq _ _ _ _ _ Hh); by kred.
Qed.

Lemma drain_step fuel count acc s x l d vr vw : mem_ok s → sched_inv s → holds s (x :: l) d vr vw → len acc < count →
  ∃ s', drain_loop (S fuel) p count acc s = drain_loop fuel p count (acc ++ [x]) s' ∧ holds s' l d vr vw ∧ only_pipe s s'.
Proof.
  intros Hm Hi Hh Hlt. destruct (take_byte _ _ _ _ _ _ Hm Hi Hh) as (b & b' & s1 & s2 & E1 & E2 & E3 & E4 & Hh' & Ho).
  exists s2. split; [|done]. cbn [drain_loop]. destruct (Z.ltb_spec (len acc) count); [|lia]. cbn [negb].
  rewrite kbind_eq, (hasData_eq _ _ _ _ _ Hh). kred. cbn [negb bool_decide].
  rewrite bool_decide_true by done. cbn [negb].
  rewrite kbind_eq, E1. kred. cbn [buffer]. rewrite E2. cbn [freeSpaces].
  by rewrite kbind_eq, E3; kred; rewrite kbind_eq, E4; kred.
Qed.

Lemma drain_spec count : ∀ l s acc fuel d vr vw,
  (length l <= fuel)%nat → mem_ok s → sched_inv s → holds s l d vr vw → len acc ≤ count →
  let k := Z.to_nat (count - len acc) in
  ∃ s', drain_loop fuel p count acc s = KDone s' (acc ++ take k l) ∧ holds s' (drop k l) d vr vw ∧ only_pipe s s'.
Proof.
  induction l as [|x l IH]; intros s acc fuel d vr vw Hf Hm Hi Hh Hacc.
  - exists s. rewrite take_nil, drop_nil, app_nil_r. split; [by eapply drain_empty|]. split; [done|apply only_refl].
  - destruct (decide (len acc < count)) as [Hlt|Hge].
    + destruct fuel as [|fuel]; [simpl in Hf; lia|].
      destruct (drain_step fuel count acc s x l d vr vw Hm Hi Hh Hlt) as (s1 & E & Hh1 & Ho).
      destruct (only_ok _ _ Ho Hm Hi) as [Hm1 Hi1].
      destruct (IH s1 (acc ++ [x]) fuel d vr vw) as (s2 & E2 & Hh2 & Ho2); try done;
        [simpl in Hf; lia|rewrite length_app; simpl; lia|].
      exists s2. rewrite E, E2. rewrite length_app in *. cbn [length] in *.
      replace (Z.to_nat (count - len acc)) with (S (Z.to_nat (count - Z.of_nat (length acc + 1)))) by lia.
      cbn [take drop]. rewrite <- app_assoc. split; [done|]. split; [done|]. by eapply only_trans.
    + replace (Z.to_nat (count - len acc)) with O by lia. exists s. rewrite drain_stop by done.
      rewrite take_0, drop_0, app_nil_r. split; [done|]. split; [done|apply only_refl].
Qed.

Lemma drainBuffer_spec count s l d vr vw : mem_ok s → sched_inv s → holds s l d vr vw → 0 ≤ count →
  ∃ s', drainBuffer p count s = KDone s' (take (Z.to_nat count) l) ∧ holds s' (drop (Z.to_nat count) l) d vr vw ∧ only_pipe s s'.
Proof.
  intros Hm Hi Hh Hc. destruct (pipe_eq _ _ _ _ _ Hh) as (b & Eb). pose proof Hh as (b0 & E0 & Hl & _).
  assert (b0 = b) as -> by (unfold pipe, kload in Eb; rewrite E0 in Eb; congruence).
  destruct (drain_spec count l s [] (buffered (mkPipe (Some b) da fs rm wm refs writers)) d vr vw) as (s' & E & H & Ho); try done.
  { unfold buffered. cbn [buffer]. rewrite (b_count _ _ Hl). lia. }
  exists s'. unfold drainBuffer. rewrite kbind_eq, Eb. kred. rewrite E. cbn [app length] in *.
  by rewrite Z.sub_0_r in *.
Qed.

(** ** Writing *)

(** What the last write of a call answers: the bytes written, or that it would block when the
    pipe had no room for any. *)
Definition written (n room size : Z) : Z :=
  if (size <=? room) || (0 <? n + room) then n + Z.min size room else PIPE_WOULD_BLOCK.

Lemma write_end fuel s l d vr n nb : mem_ok s → sched_inv s → holds s l d vr 0 →
  ∃ s', write_loop fuel p [] n nb s = KDone s' n ∧ holds s' l d vr 1 ∧ only_pipe s s'.
Proof.
  destruct ptrs as (N0 & (N1 & N2 & N3 & N4) & _). intros Hm Hi Hh.
  destruct (pipe_eq _ _ _ _ _ Hh) as (b & Eb). pose proof Hh as (b0 & _ & _ & _ & _ & _ & _ & Hw & _).
  eexists. split; [|split; [eapply holds_wm; exact Hh|apply only_sem; set_solver]].
  destruct fuel; cbn [write_loop]; rewrite kbind_eq, Eb; kred; cbn [writeMutex];
    rewrite kbind_eq, (sem_give wm 0) by (done || lia); by kred.
Qed.

(** The room of the pipe is exhausted: a non-blocking write stops. *)
Lemma write_full fuel s l d vr x buf n : mem_ok s → sched_inv s → holds s l d vr 0 → len l = PIPE_BUF_SIZE →
  ∃ s', write_loop (S fuel) p (x :: buf) n true s = KDone s' (if 0 <? n then n else PIPE_WOULD_BLOCK) ∧
    holds s' l d vr 1 ∧ only_pipe s s'.
Proof.
  destruct ptrs as (N0 & (N1 & N2 & N3 & N4) & _). intros Hm Hi Hh Hl.
  destruct (pipe_eq _ _ _ _ _ Hh) as (b & Eb). pose proof Hh as (b0 & _ & _ & _ & _ & _ & _ & Hw & _).
  eexists. split; [|split; [eapply holds_wm; exact Hh|apply only_sem; set_solver]].
  cbn [write_loop]. rewrite kbind_eq, (isFull_eq _ _ _ _ _ Hh). kred. rewrite kbind_eq, Eb. kred.
  rewrite Hl, Z.eqb_refl. cbn [andb writeMutex]. rewrite kbind_eq, (sem_give wm 0) by (done || lia). by kred.
Qed.

(** One byte is written; the readers' semaphore is posted when the pipe was empty. *)
Lemma write_step fuel s l d vr vw x buf n nb : mem_ok s → sched_inv s → holds s l d vr vw → len l < PIPE_BUF_SIZE →
  ∃ s1, holds s1 (l ++ [x]) d vr vw ∧ only_pipe s s1 ∧
    write_loop (S fuel) p (x :: buf) n nb s =
      (_ ← (if bool_decide (l = []) then semPost da else mret 0); write_loop fuel p buf (n + 1) nb) s1.
Proof.
  destruct ptrs as (N0 & (N1 & N2 & N3 & N4) & N5 & N6 & N7 & N8 & N9 & N10).
  intros Hm Hi Hh Hlt. destruct (put_byte _ _ _ _ _ x Hh Hlt) as (b & Eb & b' & Ew & s1 & Es & Hh1 & Ho).
  exists s1. split; [done|]. split; [done|].
  destruct (pipe_eq _ _ _ _ _ Hh) as (b0 & Eb0). pose proof Hh as (b1 & HP & _ & _ & _ & Hf & _).
  cbn [write_loop]. rewrite kbind_eq, (isFull_eq _ _ _ _ _ Hh). kred. rewrite kbind_eq, Eb0. kred.
  rewrite (proj2 (Z.eqb_neq (len l) PIPE_BUF_SIZE)), andb_false_r by lia. cbn [freeSpaces].
  unfold PIPE_BUF_SIZE in *. rewrite kbind_eq, (sem_take fs (1024 - len l)) by (done || lia). kred.
  assert (Hd : pipeHasData p (set_sems (<[fs := mkSem (1024 - len l - 1) [] false]> (k_sems s)) s) =
    KDone (set_sems (<[fs := mkSem (1024 - len l - 1) [] false]> (k_sems s)) s) (bool_decide (l ≠ []))).
  { pose proof (hasData_eq _ _ _ _ _ Hh) as E. unfold pipeHasData, pipe in *. rewrite (proj2 (Z.eqb_neq p 0) N0) in *.
    rewrite !kbind_eq in *. rewrite (kload_some k_pipes p s _ HP) in E. erewrite kload_some by (kred; exact HP). kred.
    kred. cbn [kbind mret K_ret] in E. unfold mret, K_ret in *. congruence. }
  rewrite kbind_eq, Hd. kred. rewrite kbind_eq, Eb. kred. cbn [buffer dataAvailable]. rewrite Ew.
  rewrite kbind_eq, Es. kred. cbn [Z.eqb negb].
  by replace (negb (bool_decide (l ≠ []))) with (bool_decide (l = [])) by (by destruct l).
Qed.

Lemma write_rest nb : ∀ buf s l d vr n fuel,
  (length buf < fuel)%nat → mem_ok s → sched_inv s → holds s l d vr 0 → l ≠ [] → 0 ≤ n →
  (nb = true ∨ len l + len buf ≤ PIPE_BUF_SIZE) →
  let room := PIPE_BUF_SIZE - len l in
  ∃ s', write_loop fuel p buf n nb s = KDone s' (written n room (len buf)) ∧
    holds s' (l ++ take (Z.to_nat room) buf) d vr 1 ∧ only_pipe s s'.
Proof.
  induction buf as [|x buf IH]; intros s l d vr n fuel Hf Hm Hi Hh Hne Hn Hroom room.
  - destruct (write_end fuel s l d vr n nb Hm Hi Hh) as (s' & E & H & Ho). exists s'. rewrite take_nil, app_nil_r.
    pose proof Hh as (_ & _ & _ & _ & _ & _ & _ & _ & Hl). unfold room, written. cbn [length].
    destruct (Z.leb_spec (Z.of_nat 0) (PIPE_BUF_SIZE - len l)); [|lia]. cbn [orb].
    rewrite Z.min_l by lia. change (Z.of_nat 0) with 0. by rewrite Z.add_0_r.
  - destruct fuel as [|fuel]; [simpl in Hf; lia|]. cbn [length] in *.
    pose proof Hh as (_ & _ & _ & _ & _ & _ & _ & _ & Hl).
    destruct (decide (len l = PIPE_BUF_SIZE)) as [Hfull|Hnf].
    + destruct Hroom as [->|?]; [|lia].
      destruct (write_full fuel s l d vr x buf n Hm Hi Hh Hfull) as (s' & E & H & Ho). exists s'.
      replace room with 0 by (unfold room; lia). rewrite E. unfold written.
      destruct (Z.leb_spec (Z.of_nat (S (length buf))) 0); [lia|]. cbn [orb take Z.to_nat].
      rewrite Z.add_0_r, Z.min_r, app_nil_r by lia. by rewrite Z.add_0_r.
    + destruct (write_step fuel s l d vr 0 x buf n nb Hm Hi Hh) as (s1 & Hh1 & Ho1 & E); [lia|].
      rewrite bool_decide_false in E by done. destruct (only_ok _ _ Ho1 Hm Hi) as [Hm1 Hi1].
      destruct (IH s1 (l ++ [x]) d vr (n + 1) fuel) as (s2 & E2 & Hh2 & Ho2); try done; try lia.
      { by destruct l. }
      { destruct Hroom as [?|?]; [by left|right; rewrite length_app; cbn [length]; lia]. }
      exists s2. rewrite E. rewrite kbind_eq. kred. rewrite E2.
      rewrite length_app in *. cbn [length] in *.
      replace (Z.to_nat room) with (S (Z.to_nat (PIPE_BUF_SIZE - Z.of_nat (length l + 1)))) by (unfold room; lia).
      cbn [take]. rewrite <- app_assoc in Hh2. split; [|split; [done|by eapply only_trans]].
      f_equal. unfold written, room.
      replace (Z.of_nat (S (length buf)) <=? PIPE_BUF_SIZE - len l) with (len buf <=? PIPE_BUF_SIZE - Z.of_nat (length l + 1))
        by (apply eq_true_iff_eq; rewrite !Z.leb_le; lia).
      replace (n + 1 + (PIPE_BUF_SIZE - Z.of_nat (length l + 1))) with (n + (PIPE_BUF_SIZE - len l)) by lia.
      destruct (_ || _); [clear; lia|done].
Qed.

(** What a post on a semaphore whose waiters are [q] does to the processes: the first waiter
    still blocked becomes ready, at the end of the ready queue; if there is none, nothing. *)
Definition woken (s s' : kst) (q : list Z) : Prop :=
  (∃ dead pid rest, q = dead ++ pid :: rest ∧ Forall (stale s) dead ∧ state_of s pid = Some BLOCKED ∧
     state_of s' pid = Some READY ∧ readyQueue s' = (λ r, r ++ [pid]) <$> readyQueue s) ∨
  (Forall (stale s) q ∧ k_procs s' = k_procs s ∧ readyQueue s' = readyQueue s).

Lemma woken_only s0 s1 s2 s3 q : only_pipe s0 s1 → only_pipe s2 s3 → woken s1 s2 q → woken s0 s3 q.
Proof. intros (m & n & -> & _) (m' & n' & -> & _) H. exact H. Qed.

(** A post on the readers' semaphore. *)
Lemma post_da s l d vr vw : mem_ok s → sched_inv s → holds s l d vr vw → sem_ok d → in_range d →
  ∃ s' d', semPost da s = KDone s' 0 ∧ mem_ok s' ∧ sched_inv s' ∧ holds s' l d' vr vw ∧ sem_ok d' ∧
    woken s s' (blockedQueue d) ∧ (blockedQueue d = [] → d' = mkSem (sem_value d + 1) [] false ∧ only_pipe s s').
Proof.
  destruct ptrs as (N0 & (N1 & N2 & N3 & N4) & N5 & N6 & N7 & N8 & N9 & N10).
  intros Hm Hi Hh Hok Hr. pose proof Hok as [O1 O2 O3]. pose proof Hh as (b & HP & _ & _ & Hd & _).
  destruct (semPost_spec da s d Hm Hi Hd Hok Hr N1) as (s' & E & Hm' & Hi' & Hp).
  destruct Hp as [(dead & pid & rest & q & pc & r & Eq & Hst & Hb & Ht & Hpc & Hl & ->)|(Hst & ->)].
  - eexists _, _. split; [exact E|]. split; [done|]. split; [done|]. split; [exact (holds_da _ _ _ _ _ _ Hh)|]. split.
    { split; cbn [sem_lock blockedQueue sem_value]; [done| |].
      - rewrite Eq, length_app in O2. cbn [length] in O2. clear - O2. lia.
      - intros x Hx. apply O3. rewrite Eq. set_solver. }
    split; [|intros Hnil; rewrite Hnil in Eq; by destruct dead].
    left. exists dead, pid, rest. split; [done|]. split; [done|]. split; [done|]. split.
    + erewrite (state_of_eq _ pid q (with_state READY pc)); [done|exact Ht|kred; apply lookup_insert_eq].
    + kred. by rewrite Hl.
  - eexists _, _. split; [exact E|]. split; [done|]. split; [done|]. split; [exact (holds_da _ _ _ _ _ _ Hh)|]. split.
    { split; cbn [sem_lock blockedQueue sem_value length]; [done|clear; lia|]. intros x Hx. by apply elem_of_nil in Hx. }
    split; [by right|]. intros Hnil. rewrite Hnil in O2. cbn [length] in O2.
    rewrite Z.max_l by lia. split; [done|]. apply only_sem. set_solver.
Qed.


(** ** Reading *)

(** What a reader does once it has passed the readers' semaphore. *)
Definition reader_tail (fuel : nat) (count : Z) : K (Z * list Z) :=
  c ← pipe p;
  _ ← semWait (readMutex c);
  has ← pipeHasData p;
  if (has : bool) then
    bytes ← drainBuffer p count;
    has ← pipeHasData p;
    c ← pipe p;
    _ ← (if (has : bool) then semPost (dataAvailable c) else mret 0);
    _ ← semPost (readMutex c);
    mret (len bytes, bytes)
  else
    c ← pipe p;
    if writerCount c <=? 0 then _ ← semPost (readMutex c); mret (0, [])
    else _ ← semPost (readMutex c); read_loop fuel p count.

Lemma read_loop_eq fuel count s l d vr vw : holds s l d vr vw →
  read_loop (S fuel) p count s = (semWait da ≫= λ _, reader_tail fuel count) s.
Proof. intros Hh. destruct (pipe_eq _ _ _ _ _ Hh) as (b & Eb). cbn [read_loop]. by rewrite kbind_eq, Eb. Qed.

(** There is data: the reader takes it from the front; what it leaves is announced to the next
    reader. *)
Lemma reader_tail_data fuel count s l d : mem_ok s → sched_inv s → holds s l d 1 1 → sem_ok d → in_range d →
  l ≠ [] → 0 ≤ count →
  let rest := drop (Z.to_nat count) l in
  ∃ s' d', reader_tail fuel count s = KDone s' (len (take (Z.to_nat count) l), take (Z.to_nat count) l) ∧
    mem_ok s' ∧ sched_inv s' ∧ holds s' rest d' 1 1 ∧ sem_ok d' ∧
    if decide (rest = []) then d' = d ∧ only_pipe s s'
    else woken s s' (blockedQueue d) ∧ (blockedQueue d = [] → d' = mkSem (sem_value d + 1) [] false ∧ only_pipe s s').
Proof.
  intros Hm Hi Hh Hok Hr Hne Hc rest. destruct ptrs as (N0 & (N1 & N2 & N3 & N4) & _).
  destruct (pipe_eq _ _ _ _ _ Hh) as (b & Eb). pose proof Hh as (b0 & _ & _ & _ & _ & _ & Hrm & _).
  pose proof (holds_rm _ _ _ _ _ 0 Hh) as Hh0. set (s0 := set_sems (<[rm := mkSem 0 [] false]> (k_sems s)) s) in *.
  assert (Ho0 : only_pipe s s0) by (apply only_sem; set_solver). destruct (only_ok _ _ Ho0 Hm Hi) as [Hm0 Hi0].
  destruct (drainBuffer_spec count s0 l d 0 1 Hm0 Hi0 Hh0 Hc) as (s1 & E1 & Hh1 & Ho1).
  destruct (only_ok _ _ Ho1 Hm0 Hi0) as [Hm1 Hi1]. destruct (pipe_eq _ _ _ _ _ Hh1) as (b1 & Eb1). fold rest in Hh1.
  assert (Hpost : ∃ s2 d2, (if bool_decide (rest ≠ []) then semPost da else mret 0) s1 = KDone s2 0 ∧
    mem_ok s2 ∧ sched_inv s2 ∧ holds s2 rest d2 0 1 ∧ sem_ok d2 ∧
    if decide (rest = []) then d2 = d ∧ only_pipe s1 s2
    else woken s1 s2 (blockedQueue d) ∧ (blockedQueue d = [] → d2 = mkSem (sem_value d + 1) [] false ∧ only_pipe s1 s2)).
  { destruct (decide (rest = [])) as [Hrest|Hrest].
    - exists s1, d. rewrite bool_decide_false by (intros H; by apply H). split_and!; try done. apply only_refl.
    - rewrite bool_decide_true by done.
      destruct (post_da s1 rest d 0 1 Hm1 Hi1 Hh1 Hok Hr) as (s2 & d2 & H). exists s2, d2. tauto. }
  destruct Hpost as (s2 & d2 & E2 & Hm2 & Hi2 & Hh2 & Hok2 & Hcase).
  pose proof Hh2 as (b2 & _ & _ & _ & _ & _ & Hrm2 & _).
  assert (Ho2 : only_pipe s2 (set_sems (<[rm := mkSem 1 [] false]> (k_sems s2)) s2)) by (apply only_sem; set_solver).
  destruct (only_ok _ _ Ho2 Hm2 Hi2) as [Hm3 Hi3].
  exists (set_sems (<[rm := mkSem 1 [] false]> (k_sems s2)) s2), d2. split.
  - unfold reader_tail. rewrite kbind_eq, Eb. kred. cbn [readMutex].
    rewrite kbind_eq, (sem_take rm 1) by (done || lia). kred. change (1 - 1) with 0. fold s0.
    rewrite kbind_eq, (hasData_eq _ _ _ _ _ Hh0). kred. rewrite bool_decide_true by done.
    rewrite kbind_eq, E1. kred. rewrite kbind_eq, (hasData_eq _ _ _ _ _ Hh1). kred.
    rewrite kbind_eq, Eb1. kred. cbn [dataAvailable readMutex]. rewrite kbind_eq, E2. kred.
    rewrite kbind_eq, (sem_give rm 0) by (done || lia). by kred.
  - split; [done|]. split; [done|]. split; [eapply holds_rm; exact Hh2|]. split; [done|].
    destruct (decide (rest = [])).
    + destruct Hcase as [-> Ho]. split; [done|]. do 2 (eapply only_trans; [eassumption|]). by eapply only_trans.
    + destruct Hcase as [Hw Hq]. split.
      * eapply woken_only; [eapply only_trans; eassumption|exact Ho2|exact Hw].
      * intros Hnil. destruct (Hq Hnil) as [-> Ho]. split; [done|]. do 2 (eapply only_trans; [eassumption|]). by eapply only_trans.
Qed.

(** There is none, and no writer is left: end of file. *)
Lemma reader_tail_eof fuel count s d : mem_ok s → sched_inv s → holds s [] d 1 1 → writers ≤ 0 →
  ∃ s', reader_tail fuel count s = KDone s' (0, []) ∧ holds s' [] d 1 1 ∧ only_pipe s s'.
Proof.
  intros Hm Hi Hh Hw. destruct ptrs as (N0 & (N1 & N2 & N3 & N4) & _).
  destruct (pipe_eq _ _ _ _ _ Hh) as (b & Eb). pose proof Hh as (b0 & _ & _ & _ & _ & _ & Hrm & _).
  pose proof (holds_rm _ _ _ _ _ 0 Hh) as Hh0. set (s0 := set_sems (<[rm := mkSem 0 [] false]> (k_sems s)) s) in *.
  assert (Ho0 : only_pipe s s0) by (apply only_sem; set_solver). destruct (only_ok _ _ Ho0 Hm Hi) as [Hm0 Hi0].
  destruct (pipe_eq _ _ _ _ _ Hh0) as (b1 & Eb1). pose proof Hh0 as (b2 & _ & _ & _ & _ & _ & Hrm0 & _).
  eexists. split; [|split; [eapply holds_rm; exact Hh0|eapply only_trans; [exact Ho0|apply only_sem; set_solver]]].
  unfold reader_tail. rewrite kbind_eq, Eb. kred. cbn [readMutex].
  rewrite kbind_eq, (sem_take rm 1) by (done || lia). kred. change (1 - 1) with 0. fold s0.
  rewrite kbind_eq, (hasData_eq _ _ _ _ _ Hh0). kred. rewrite bool_decide_false by (intros H; by apply H).
  rewrite kbind_eq, Eb1. kred. cbn [writerCount readMutex]. rewrite (proj2 (Z.leb_le writers 0) Hw).
  rewrite kbind_eq, (sem_give rm 0) by (done || lia). by kred.
Qed.

Lemma pipeRead_nb fuel count s l d : mem_ok s → sched_inv s → holds s l d 1 1 → l ≠ [] → 0 < count →
  ∃ s', pipeRead fuel p count true s = KDone s' (len (take (Z.to_nat count) l), take (Z.to_nat count) l) ∧
    holds s' (drop (Z.to_nat count) l) d 1 1 ∧ only_pipe s s'.
Proof.
  intros Hm Hi Hh Hne Hc. destruct ptrs as (N0 & (N1 & N2 & N3 & N4) & _).
  destruct (pipe_eq _ _ _ _ _ Hh) as (b & Eb). pose proof Hh as (b0 & _ & _ & _ & _ & _ & Hrm & _).
  pose proof (holds_rm _ _ _ _ _ 0 Hh) as Hh0. set (s0 := set_sems (<[rm := mkSem 0 [] false]> (k_sems s)) s) in *.
  assert (Ho0 : only_pipe s s0) by (apply only_sem; set_solver). destruct (only_ok _ _ Ho0 Hm Hi) as [Hm0 Hi0].
  destruct (drainBuffer_spec count s0 l d 0 1 Hm0 Hi0 Hh0) as (s1 & E1 & Hh1 & Ho1); [lia|].
  destruct (only_ok _ _ Ho1 Hm0 Hi0) as [Hm1 Hi1]. destruct (pipe_eq _ _ _ _ _ Hh0) as (b1 & Eb1).
  pose proof Hh1 as (b2 & _ & _ & _ & _ & _ & Hrm1 & _).
  eexists. split; [|split; [eapply holds_rm; exact Hh1|do 2 (eapply only_trans; [eassumption|]); apply only_sem; set_solver]].
  unfold pipeRead, pipeReadNonblocking. rewrite (proj2 (Z.eqb_neq p 0) N0), (proj2 (Z.eqb_neq count 0)) by lia. cbn [orb].
  rewrite kbind_eq, (hasData_eq _ _ _ _ _ Hh). kred. rewrite kbind_eq, Eb. kred.
  rewrite bool_decide_true by done. cbn [negb readMutex].
  rewrite kbind_eq, (sem_take rm 1) by (done || lia). kred. change (1 - 1) with 0. fold s0.
  rewrite kbind_eq, (hasData_eq _ _ _ _ _ Hh0). kred. rewrite kbind_eq, Eb1. kred.
  rewrite bool_decide_true by done. cbn [negb readMutex]. rewrite kbind_eq, E1. kred.
  rewrite kbind_eq, (sem_give rm 0) by (done || lia). by kred.
Qed.


End Pipes.

(** C13. A reader that finds the pipe empty while there are writers goes to sleep on it without
    using any data.  When it runs again, whatever happened meanwhile, it takes the front of
    what the pipe then holds, or answers end of file if the pipe is empty and the last writer
    is gone. *)
Theorem pipeRead_sleeps p da fs rm wm refs writers fuel count s d pid :
  NoDup [da; fs; rm; wm] → Forall (λ x, x ≠ 0) [p; da; fs; rm; wm] →
  mem_ok s → sched_inv s → holds p da fs rm wm refs writers s [] d 1 1 → sem_ok d → in_range d → sem_value d ≤ 0 →
  0 < writers → 0 < count →
  processTable s !! pid = Some (currentProcess s) → state_of s pid = Some RUNNING → pid ≠ IDLE_PID →
  ∃ s1 k, pipeRead (S fuel) p count false s = KSwitch s1 k ∧ mem_ok s1 ∧ sched_inv s1 ∧ state_of s1 pid = Some BLOCKED ∧
    holds p da fs rm wm refs writers s1 [] (mkSem (sem_value d - 1) (blockedQueue d ++ [pid]) false) 1 1 ∧
    ∀ s2 refs2 writers2 l2 d2, mem_ok s2 → sched_inv s2 →
      holds p da fs rm wm refs2 writers2 s2 l2 d2 1 1 → sem_ok d2 → in_range d2 →
      (l2 ≠ [] → ∃ s3 d3, k s2 = KDone s3 (len (take (Z.to_nat count) l2), take (Z.to_nat count) l2) ∧
         sched_inv s3 ∧ holds p da fs rm wm refs2 writers2 s3 (drop (Z.to_nat count) l2) d3 1 1) ∧
      (l2 = [] → writers2 ≤ 0 → ∃ s3, k s2 = KDone s3 (0, []) ∧ sched_inv s3).
Proof.
  intros Hnd Hnz Hm Hi Hh Hok Hr Hv Hw Hc Ht Hst Hidle.
  destruct (ptrs p da fs rm wm Hnd Hnz) as (N0 & (N1 & N2 & N3 & N4) & N5 & N6 & N7 & N8 & N9 & N10).
  pose proof Hh as (b & HP & Hb & Hmx & Hda & Hfs & Hrm & Hwm & Hl).
  destruct (semWait_sleeps da s d pid Hm Hi Hda Hok Hr N1 Hv Ht Hst Hidle) as (s1 & E & Hm1 & Hi1 & Hst1 & _ & Es & Ep & _).
  exists s1, (λ s2, reader_tail p fuel count s2). split.
  { unfold pipeRead, pipeReadBlocking. rewrite (proj2 (Z.eqb_neq p 0) N0), (proj2 (Z.eqb_neq count 0)) by lia. cbn [orb].
    rewrite kbind_eq, (hasData_eq _ _ _ _ _ _ _ Hnd Hnz _ _ _ _ _ Hh). kred.
    unfold pipe at 1. rewrite kbind_eq. erewrite kload_some by exact HP. kred.
    rewrite bool_decide_false by (intros H; by apply H). cbn [negb andb writerCount].
    rewrite (proj2 (Z.leb_gt writers 0)) by lia.
    rewrite (read_loop_eq _ _ _ _ _ _ _ fuel count _ _ _ _ _ Hh). by rewrite kbind_eq, E. }
  split; [done|]. split; [done|]. split; [done|]. split.
  { exists b. rewrite Es, Ep, lookup_insert_eq, !lookup_insert_ne by congruence. by split_and!. }
  intros s2 refs2 writers2 l2 d2 Hm2 Hi2 Hh2 Hok2 Hr2. split.
  - intros Hne.
    destruct (reader_tail_data _ _ _ _ _ _ _ Hnd Hnz fuel count s2 l2 d2 Hm2 Hi2 Hh2 Hok2 Hr2 Hne) as (s3 & d3 & H); [lia|].
    exists s3, d3. tauto.
  - intros -> Hw2. destruct (reader_tail_eof _ _ _ _ _ _ _ Hnd Hnz fuel count s2 d2 Hm2 Hi2 Hh2 Hw2) as (s3 & E3 & Hh3 & Ho).
    exists s3. split; [done|]. by apply (only_ok _ _ _ _ _ _ _ Ho).
Qed.

(** ** A pipe in the small kernel *)

Definition mini_cb (l : list Z) : circularBufferCDT :=
  mkCB (list_to_map (zip (seqZ 0 (len l)) l)) PIPE_BUF_SIZE 0 (len l mod PIPE_BUF_SIZE) (len l) 200 208.

(** [mini] with a pipe at 104 that holds [l]. *)
Definition mini_pipe (l : list Z) (d : semCDT) : kst :=
  set_pipes {[ 104 := mkPipe (Some (mini_cb l)) 112 120 128 136 2 1 ]}
    (set_sems {[ 112 := d; 120 := mkSem (PIPE_BUF_SIZE - len l) [] false; 128 := mkSem 1 [] false; 136 := mkSem 1 [] false ]} mini).

Lemma mini_ptrs : NoDup [112; 120; 128; 136] ∧ Forall (λ x, x ≠ 0) [104; 112; 120; 128; 136].
Proof. split; [apply (bool_decide_eq_true_1 (NoDup [112; 120; 128; 136])); vm_compute; reflexivity|repeat (apply Forall_cons; [lia|]); apply Forall_nil]. Qed.

Lemma mini_holds l d : len l ≤ PIPE_BUF_SIZE → holds 104 112 120 128 136 2 1 (mini_pipe l d) l d 1 1.
Proof.
  intros Hl. exists (mini_cb l). split_and!; try done. unfold PIPE_BUF_SIZE in *.
  split; cbn [mini_cb maxSize readIdx writeIdx count data]; unfold PIPE_BUF_SIZE; try lia; try done.
  intros i x Hx. pose proof (lookup_lt_Some _ _ _ Hx). rewrite Z.add_0_l, Z.mod_small by lia.
  apply elem_of_list_to_map_1.
  - rewrite fst_zip by (rewrite length_seqZ; lia). apply NoDup_seqZ.
  - apply list_elem_of_lookup. exists i. apply lookup_zip_Some. split; [|done]. apply lookup_seqZ. lia.
Qed.

Lemma mini_pipe_inv l d : mem_ok (mini_pipe l d) ∧ sched_inv (mini_pipe l d).
Proof. split; [done|]. eapply sched_inv_frame; [..|exact mini_inv]; done. Qed.



Lemma pipeRead_sleeps_witness :
  ∃ s1 k, pipeRead 1 104 2 false (mini_pipe [] (mkSem 0 [] false)) = KSwitch s1 k ∧ state_of s1 2 = Some BLOCKED.
Proof.
  destruct mini_ptrs as [Hnd Hnz]. destruct (mini_pipe_inv [] (mkSem 0 [] false)) as [Hm Hi].
  destruct (pipeRead_sleeps 104 112 120 128 136 2 1 0 2 _ (mkSem 0 [] false) 2 Hnd Hnz Hm Hi) as (s1 & k & E & _ & _ & Hs & _);
    [apply mini_holds; unfold PIPE_BUF_SIZE; simpl; lia|apply sem_ok_free; lia|unfold in_range; cbn; lia|cbn; lia|lia|lia|reflexivity|reflexivity|unfold IDLE_PID; lia|].
  exists s1, k. split; [exact E|exact Hs].
Defined.

End PipeSpec.
