(* ===== verification/Process.v ===== *)
(** * Processes and their file descriptors ([Kernel/process_contextswitch/process.c]) *)

From S2P Require Import Prelude KState ProcTable Semaphore Pipe.
Import ProcTable Semaphore Pipe FileAccess.

Module Process.

Definition MAX_PROCESS_NAME_LENGTH : Z := 32.
Definition MAX_FDS : Z := 16.
Definition PCB_SIZE : Z := 320.    (* sizeof(processCDT) *)

Definition comparePIDs (e1 e2 : Z) : Z := i32 (i16 e1 - i16 e2).
Definition getMaxProcesses : Z := MAX_PROCESSES.

(** ** Creation and disposal *)

(** [i] characters are copied already. *)
Fixpoint copy_name_loop (i : Z) (name : cstring) : cstring :=
  match name with
  | [] => []
  | ch :: rest => if i + 1 <? MAX_PROCESS_NAME_LENGTH then ch :: copy_name_loop (i + 1) rest else []
  end.
Definition copyProcessName (name : option cstring) : cstring :=
  match name with None => [] | Some n => copy_name_loop 0 n end.

(** The strings of an argument vector, each copied into a block of its own; NULL entries are
    kept.  [None]: a copy failed, and the ones made before it are freed. *)
Fixpoint copy_args (args : list (option cstring)) : K (option (list (option cstring))) :=
  match args with
  | [] => mret (Some [])
  | None :: args =>
    r ← copy_args args;
    mret (match r with Some l => Some (None :: l) | None => None end)
  | Some a :: args =>
    p ← kalloc (Z.of_nat (length a) + 1);
    if p =? 0 then mret None
    else
      r ← copy_args args;
      mret (match r with Some l => Some (Some a :: l) | None => None end)
  end.

(** [argv] is NULL or holds at least [argc] entries; the copy is its address and its entries. *)
Definition deepCopyArgv (argc : Z) (argv : option (list (option cstring)))
  : K (option (Z * list (option cstring))) :=
  match argv with
  | None => mret None
  | Some l =>
    if argc <=? 0 then mret None
    else
      out ← kalloc (8 * argc);
      if out =? 0 then mret None
      else r ← copy_args (take (Z.to_nat argc) l); mret ((out,.) <$> r)
  end.

Definition newProcess (entryPoint : Z) (name : option cstring) (stack : Z) (pid prio argc : Z)
    (argv : option (list (option cstring))) : K Z :=
  p ← kalloc PCB_SIZE;
  if p =? 0 then mret 0
  else
    base ← kalloc stack;
    if base =? 0 then mret 0
    else
      ch ← q_new;
      tch ← q_new;
      te ← newSemaphore 0;
      cte ← newSemaphore 0;
      let has_args := (0 <? argc) && bool_decide (is_Some argv) in
      let argc' := if has_args then argc else 0 in
      argv' ← (if has_args then deepCopyArgv argc argv else mret None);
      if (0 <? argc') && bool_decide (argv' = None) then
        _ ← freeSemaphore te;
        _ ← freeSemaphore cte;
        mret 0
      else
        _ ← kmod (λ s, set_procs (<[p := mkProc pid base stack (u64 (base + stack)) entryPoint READY
              (copyProcessName name) prio prio INIT_PID ch tch te cte argc' argv'
              (replicate (Z.to_nat MAX_FDS) 0) (replicate (Z.to_nat MAX_FDS) false)]> (k_procs s)) s);
        mret p.

Definition freeProcess (p : Z) : K unit :=
  if p =? 0 then mret ()
  else
    c ← proc p;
    _ ← freeSemaphore (terminated c);
    _ ← freeSemaphore (childTerminated c);
    kfree_proc p.

Definition getStackMisalignment (p : Z) : K Z :=
  if p =? 0 then mret 0
  else
    c ← proc p;
    if (stackBase c =? 0) || (p_rsp c =? 0) then mret 0
    else
      let mis := u64 (p_rsp c - stackBase c) mod 8 in
      mret (if negb (mis =? 0) then 8 - mis else 0).

(** ** Children *)

Definition enqueue_child (p : Z) (pid : Z) : K Z :=
  c ← proc p;
  r ← q_enqueue (children c) pid;
  match r with None => mret 0 | Some q => _ ← kstore_proc p (with_children q); mret 1 end.
Definition addChild (p childPid : Z) : K Z := enqueue_child p childPid.

(** The number of entries removed is not used by any caller. *)
Definition removeChild (p childPid : Z) : K unit :=
  kstore_proc p (λ c, with_children (q_remove (children c) childPid) c).

(** ** File descriptors *)

Definition isValidFd (fd : Z) : bool := (0 <=? fd) && (fd <? MAX_FDS).
(** [p->fdTable[fd]]. *)
Definition fd_slot (c : processCDT) (fd : Z) : Z := default 0 (fdTable c !! Z.to_nat fd).
Definition eof_slot (c : processCDT) (fd : Z) : bool := default false (eofRequests c !! Z.to_nat fd).
Definition isOpenFd (p fd : Z) : K bool :=
  if isValidFd fd then c ← proc p; mret (negb (fd_slot c fd =? 0)) else mret false.

(** [p->fdTable[fd] = fa; p->eofRequests[fd] = 0]. *)
Definition set_fd (fd fa : Z) (c : processCDT) : processCDT :=
  with_fds (<[Z.to_nat fd := fa]> (fdTable c)) (<[Z.to_nat fd := false]> (eofRequests c)) c.
Definition set_eof (fd : Z) (b : bool) (c : processCDT) : processCDT :=
  with_fds (fdTable c) (<[Z.to_nat fd := b]> (eofRequests c)) c.

Definition getFd (p fd : Z) : K Z :=
  if (p =? 0) || negb (isValidFd fd) then mret 0 else c ← proc p; mret (fd_slot c fd).

Definition openFd (p fa fd : Z) : K Z :=
  if (p =? 0) || (fa =? 0) || negb (isValidFd fd) then mret (-1)
  else
    o ← isOpenFd p fd;
    if (o : bool) then mret (-1)
    else
      _ ← kstore_proc p (set_fd fd fa);
      _ ← addFileRef fa;
      mret fd.

Fixpoint add_loop (fds : list Z) (p fa : Z) : K Z :=
  match fds with
  | [] => mret (-1)
  | i :: fds => c ← proc p; if fd_slot c i =? 0 then openFd p fa i else add_loop fds p fa
  end.
Definition addFd (p fa : Z) : K Z :=
  if (p =? 0) || (fa =? 0) then mret (-1) else add_loop (seqZ 0 MAX_FDS) p fa.

Definition closeFd (p fd : Z) : K Z :=
  if p =? 0 then mret (-1)
  else
    o ← isOpenFd p fd;
    if negb o then mret (-1)
    else
      c ← proc p;
      let fa := fd_slot c fd in
      _ ← kstore_proc p (set_fd fd 0);
      _ ← removeFileRef fa;
      mret 0.

Definition dupFd (p oldFd newFd : Z) : K Z :=
  if (p =? 0) || negb (isValidFd newFd) then mret (-1)
  else if oldFd =? newFd then mret newFd
  else
    o ← isOpenFd p oldFd;
    if negb o then _ ← closeFd p newFd; mret newFd
    else
      c ← proc p;
      let fa := fd_slot c oldFd in
      o' ← isOpenFd p newFd;
      _ ← (if (o' : bool) then closeFd p newFd else mret 0);
      _ ← kstore_proc p (set_fd newFd fa);
      _ ← addFileRef fa;
      mret newFd.

Definition reopenFd (p fd : Z) : K Z :=
  if p =? 0 then mret (-1)
  else
    o ← isOpenFd p fd;
    if negb o then mret (-1)
    else
      c ← proc p;
      fa ← cloneFile (fd_slot c fd);
      if fa =? 0 then mret (-1)
      else
        nfd ← addFd p fa;
        _ ← (if nfd <? 0 then removeFileRef fa else mret ());
        mret nfd.

(** The bytes that are not NUL. *)
Definition strip_nul (buf : list Z) : list Z := List.filter (λ b, negb (b =? 0)) buf.

(** [fuel] bounds the reads that bring only NUL bytes (and, below, a pipe's empty wake-ups). *)
Fixpoint readfd_loop (fuel : nat) (p fd count : Z) : K (Z * list Z) :=
  match fuel with
  | O => kfuel
  | S fuel' =>
    c ← proc p;
    '(n, buf) ← fileRead fuel (fd_slot c fd) count;
    if n <=? 0 then mret (n, buf)
    else
      let out := strip_nul buf in
      if 0 <? Z.of_nat (length out) then mret (Z.of_nat (length out), out)
      else
        c ← proc p;
        if eof_slot c fd then _ ← kstore_proc p (set_eof fd false); mret (0, [])
        else readfd_loop fuel' p fd count
  end.

Definition readFd (fuel : nat) (p fd count : Z) : K (Z * list Z) :=
  if p =? 0 then mret (-1, [])
  else
    o ← isOpenFd p fd;
    if negb o then mret (-1, [])
    else
      c ← proc p;
      if eof_slot c fd then _ ← kstore_proc p (set_eof fd false); mret (0, [])
      else readfd_loop fuel p fd count.

Definition writeFd (fuel : nat) (p fd : Z) (buf : list Z) : K Z :=
  if p =? 0 then mret (-1)
  else
    o ← isOpenFd p fd;
    if negb o then mret (-1) else c ← proc p; fileWrite fuel (fd_slot c fd) buf.

Definition requestEofOf (p fd : Z) : K Z :=
  if p =? 0 then mret (-1)
  else
    o ← isOpenFd p fd;
    if negb o then mret (-1) else _ ← kstore_proc p (set_eof fd true); mret 0.

Fixpoint close_loop (fds : list Z) (p : Z) : K unit :=
  match fds with
  | [] => mret ()
  | i :: fds =>
    c ← proc p;
    _ ← (if negb (fd_slot c i =? 0) then closeFd p i else mret 0);
    close_loop fds p
  end.
Definition closeAllFDs (p : Z) : K unit :=
  if p =? 0 then mret () else close_loop (seqZ 0 MAX_FDS) p.

Fixpoint copyfd_loop (fds : list Z) (target source : Z) : K unit :=
  match fds with
  | [] => mret ()
  | i :: fds =>
    t ← proc target;
    _ ← (if negb (fd_slot t i =? 0) then closeFd target i else mret 0);
    src ← proc source;
    _ ← (if negb (fd_slot src i =? 0) then openFd target (fd_slot src i) i else mret 0);
    copyfd_loop fds target source
  end.
Definition copyFdTable (target source : Z) : K unit :=
  if (target =? 0) || (source =? 0) then mret () else copyfd_loop (seqZ 0 MAX_FDS) target source.

End Process.
