(* ===== verification/KernelInv.v ===== *)
(** * No dangling pointers: the invariant of the kernel's objects

    Processes hold file accesses, file accesses hold pipes, pipes and processes hold
    semaphores.  [kinv] says that every such pointer leads to a live object, that every
    semaphore has one owner, and that every reference count counts exactly the references
    there are.  Between the two stores of an operation a count may be off: the ghost offsets
    say by how much. *)

From S2P Require Import Prelude CircularBuffer KState ProcTable Semaphore Pipe Process.
Import ProcTable Semaphore Pipe FileAccess Process.

Module KernelInv.

(** ** Counting references *)

(** The descriptors of a process that are [fa]. *)
Definition slots (fa : Z) (c : processCDT) : Z := len (List.filter (Z.eqb fa) (fdTable c)).
(** Whether a file access is on pipe [q], and whether it writes to it. *)
Definition uses (q : Z) (f : fileAccessCDT) : Z := if fa_pipe f =? q then 1 else 0.
Definition writes (q : Z) (f : fileAccessCDT) : Z :=
  if (fa_pipe f =? q) && has_flag (fa_flags f) FILE_WRITE then 1 else 0.

(** References that are not there yet, or no longer. *)
Record ghost := mkGhost { g_file : Z → Z; g_ref : Z → Z; g_wr : Z → Z }.

Definition bump (f : Z → Z) (k d : Z) : Z → Z := λ x, if x =? k then f x + d else f x.

(** The file accesses that a driver refers to without a descriptor: the keyboard driver counts
    its reference to the writing end of its pipe. *)
Class Pinned := pinned : gset Z.
Definition no_driver : Pinned := (∅ : gset Z).
#[export] Existing Instance no_driver | 100.
Definition pins {pin : Pinned} : gset Z := pin.
Definition driver_refs {pin : Pinned} (fa : Z) : Z := if bool_decide (fa ∈ pins) then 1 else 0.

(** Between two operations the only references besides the descriptors are the drivers'. *)
Definition no_ghost {pin : Pinned} : ghost := mkGhost driver_refs (λ _, 0) (λ _, 0).

Lemma driver_refs_range {pin : Pinned} fa : 0 ≤ driver_refs fa ≤ 1.
Proof. unfold driver_refs. destruct (bool_decide _); lia. Qed.
Lemma driver_refs_pin {pin : Pinned} fa : 0 < driver_refs fa ↔ fa ∈ pins.
Proof. unfold driver_refs. case_bool_decide; split; (lia || done). Qed.


(** ** Owners of semaphores *)

Inductive owner := OPipe (p : Z) (i : nat) | OProc (p : Z) (i : nat) | OShared (i : nat).

Definition pipe_sems (c : pipeCDT) : list Z := [dataAvailable c; freeSpaces c; readMutex c; writeMutex c].
Definition proc_sems (c : processCDT) : list Z := [terminated c; childTerminated c].

Definition owns (s : kst) (q : Z) (o : owner) : Prop :=
  match o with
  | OPipe p i => ∃ c, k_pipes s !! p = Some c ∧ pipe_sems c !! i = Some q
  | OProc p i => ∃ c, k_procs s !! p = Some c ∧ proc_sems c !! i = Some q
  | OShared i => ∃ e, sharedTable s !! i = Some e ∧ ss_used e = true ∧ ss_sem e = q
  end.

(** A key of a store is an address handed out before. *)
Definition below {A} (s : kst) (m : gmap Z A) : Prop := ∀ k, is_Some (m !! k) → 0 < k < k_next s.

(** [N] bounds the values of the semaphores, so that counting them up cannot overflow. *)
Record kinv (N : Z) (g : ghost) (s : kst) : Prop := {
  ki_bound : 0 ≤ N;
  ki_mem : mem_ok s;
  ki_sched : sched_inv s;
  ki_below : below s (k_sems s) ∧ below s (k_pipes s) ∧ below s (k_files s) ∧ below s (k_procs s);
  ki_sem : ∀ q c, k_sems s !! q = Some c → sem_ok c ∧ - 2 ^ 20 - N ≤ sem_value c ≤ N;
  ki_live : ∀ q o, owns s q o → is_Some (k_sems s !! q);
  ki_owner : ∀ q o o', owns s q o → owns s q o' → o = o';
  ki_pipe : ∀ p c, k_pipes s !! p = Some c →
    pipe_refCount c = sum_of (uses p) (k_files s) + g_ref g p ∧
    writerCount c = sum_of (writes p) (k_files s) + g_wr g p;
  ki_file : ∀ fa f, k_files s !! fa = Some f →
    (fa_pipe f = 0 ∨ is_Some (k_pipes s !! fa_pipe f)) ∧
    fa_refCount f = sum_of (slots fa) (k_procs s) + g_file g fa;
  ki_proc : ∀ p c, k_procs s !! p = Some c →
    length (fdTable c) = 16%nat ∧ length (eofRequests c) = 16%nat ∧
    ∀ fa, fa ∈ fdTable c → fa = 0 ∨ is_Some (k_files s !! fa);
  ki_size : Z.of_nat (size (k_procs s)) ≤ 64 ∧ Z.of_nat (size (k_files s)) ≤ 2 ^ 20;
}.

(** ** Ranges of the counts *)

Lemma slots_nonneg fa c : 0 ≤ slots fa c.
Proof. unfold slots. lia. Qed.
Lemma filter_le {A} (P : A → bool) l : (length (List.filter P l) <= length l)%nat.
Proof. induction l as [|x l IH]; simpl; [lia|]. destruct (P x); simpl; lia. Qed.
Lemma slots_range N g s fa : kinv N g s → 0 ≤ sum_of (slots fa) (k_procs s) ≤ 1024.
Proof.
  intros H. destruct (ki_size _ _ _ H) as [H1 _].
  assert (0 ≤ sum_of (slots fa) (k_procs s) ≤ 16 * Z.of_nat (size (k_procs s))); [|lia].
  apply sum_of_bound. intros p c Hc. destruct (ki_proc _ _ _ H p c Hc) as (Hl & _).
  unfold slots. pose proof (filter_le (Z.eqb fa) (fdTable c)). lia.
Qed.
Lemma uses_range q f : 0 ≤ uses q f ≤ 1.
Proof. unfold uses. destruct (_ =? _); lia. Qed.
Lemma writes_range q f : 0 ≤ writes q f ≤ 1.
Proof. unfold writes. destruct (_ && _); lia. Qed.
Lemma refs_range N g s q : kinv N g s →
  0 ≤ sum_of (uses q) (k_files s) ≤ 2 ^ 20 ∧ 0 ≤ sum_of (writes q) (k_files s) ≤ 2 ^ 20.
Proof.
  intros H. destruct (ki_size _ _ _ H) as [_ H1]. split.
  - pose proof (sum_of_bound (uses q) 1 (k_files s) (λ _ f _, uses_range q f)). lia.
  - pose proof (sum_of_bound (writes q) 1 (k_files s) (λ _ f _, writes_range q f)). lia.
Qed.

(** ** What a wake-up leaves alone *)

(** Two descriptors that differ in the state of the process at most. *)
Definition proc_like (c c' : processCDT) : Prop := c' = with_state (p_state c') c.

(** States change by waking up only. *)
Definition wakes (s s' : kst) : Prop := ∀ pid, state_of s' pid = state_of s pid ∨
  (state_of s pid = Some BLOCKED ∧ state_of s' pid = Some READY).

Lemma wakes_refl s s' : (∀ pid, state_of s' pid = state_of s pid) → wakes s s'.
Proof. intros E pid. by left. Qed.
Lemma wakes_trans s1 s2 s3 : wakes s1 s2 → wakes s2 s3 → wakes s1 s3.
Proof. intros H1 H2 pid. destruct (H1 pid) as [E1|[E1 E1']], (H2 pid) as [E2|[E2 E2']]; rewrite ?E2, ?E2', ?E1; auto; right; split; congruence. Qed.

(** The states after one descriptor changed. *)
Lemma state_of_insert s p c pid : state_of (set_procs (<[p := c]> (k_procs s)) s) pid =
  if bool_decide (processTable s !! pid = Some p) then Some (p_state c) else state_of s pid.
Proof.
  unfold state_of, proc_of. kred. destruct (processTable s !! pid) as [x|]; [|done]. cbn [mbind option_bind].
  case_bool_decide as E; [|rewrite lookup_insert_ne by congruence; done]. injection E as ->. by rewrite lookup_insert_eq.
Qed.
Lemma state_of_same s p c c' pid : k_procs s !! p = Some c → p_state c' = p_state c →
  state_of (set_procs (<[p := c']> (k_procs s)) s) pid = state_of s pid.
Proof.
  intros Hc E. rewrite state_of_insert. case_bool_decide as Ht; [|done]. by rewrite E, (state_of_eq _ _ _ _ Ht Hc).
Qed.

Record frame (s s' : kst) : Prop := {
  fr_pipes : k_pipes s' = k_pipes s;
  fr_files : k_files s' = k_files s;
  fr_shared : sharedTable s' = sharedTable s;
  fr_table : processTable s' = processTable s;
  fr_current : currentProcess s' = currentProcess s;
  fr_fg : foregroundSet s' = foregroundSet s;
  fr_procs : ∀ p, option_Forall2 proc_like (k_procs s !! p) (k_procs s' !! p);
  fr_sems : ∀ q, is_Some (k_sems s' !! q) ↔ is_Some (k_sems s !! q);
  fr_wakes : wakes s s';
}.

Lemma proc_like_refl c : proc_like c c.
Proof. by destruct c. Qed.
Lemma proc_like_trans a b c : proc_like a b → proc_like b c → proc_like a c.
Proof. unfold proc_like. intros -> ->. by destruct a, c. Qed.
Lemma proc_like_sym a b : proc_like a b → proc_like b a.
Proof. unfold proc_like. intros ->. by destruct a. Qed.
#[export] Hint Resolve proc_like_refl : kernel.
#[export] Instance proc_like_equiv : Equivalence proc_like.
Proof. split; [exact proc_like_refl|exact proc_like_sym|exact proc_like_trans]. Qed.
#[export] Instance set_fd_proper fd fa : Proper (proc_like ==> proc_like) (set_fd fd fa).
Proof. intros a b L. red in L. rewrite L. done. Qed.
#[export] Instance fd_slot_proper : Proper (proc_like ==> eq ==> eq) fd_slot.
Proof. intros a b L i _ <-. red in L. rewrite L. done. Qed.

Lemma frame_refl s : frame s s.
Proof. split; try done. by apply wakes_refl. Qed.

Lemma frame_trans s1 s2 s3 : frame s1 s2 → frame s2 s3 → frame s1 s3.
Proof.
  intros [A1 A2 A3 A4 A5 A6 A7 A8 A9] [B1 B2 B3 B4 B5 B6 B7 B8 B9]. split; try congruence.
  - intros p. specialize (A7 p). specialize (B7 p). destruct A7; inversion B7; constructor. by eapply proc_like_trans.
  - intros q. by rewrite B8.
  - by eapply wakes_trans.
Qed.

Lemma like_inv s s' p c' : frame s s' → k_procs s' !! p = Some c' →
  ∃ c, k_procs s !! p = Some c ∧ proc_like c c'.
Proof.
  intros F E. pose proof (fr_procs _ _ F p) as H. rewrite E in H.
  destruct (k_procs s !! p) as [c|]; [|by inversion H]. exists c. split; [done|]. by inversion H.
Qed.

(** The measures of descriptors that do not look at the state. *)
Lemma sum_of_like (f : processCDT → Z) m m' :
  (∀ c c', proc_like c c' → f c' = f c) →
  (∀ p, option_Forall2 proc_like (m !! p) (m' !! p)) → sum_of f m' = sum_of f m.
Proof.
  intros Hf Hm. rewrite (sum_of_fmap f m'), (sum_of_fmap f m). f_equal.
  apply map_eq. intros p. rewrite !lookup_fmap. destruct (Hm p); [simpl; f_equal; auto|done].
Qed.

(** The values may have grown to [N']. *)
Lemma kinv_frame N N' g s s' :
  kinv N g s → N ≤ N' → frame s s' → mem_ok s' → sched_inv s' → k_next s ≤ k_next s' →
  (∀ q c, k_sems s' !! q = Some c → sem_ok c ∧ - 2 ^ 20 - N' ≤ sem_value c ≤ N') → kinv N' g s'.
Proof.
  intros H HN Hfr Hm Hs Hn Hsem. pose proof Hfr as [F1 F2 F3 F4 F5 F6 F7 F8 _]. pose proof H as [I0 I1 I2 (I3a & I3b & I3c & I3d) I4 I5 I6 I7 I8 I9 I10].
  assert (Hlike : ∀ f : processCDT → Z, (∀ c c', proc_like c c' → f c' = f c) →
    sum_of f (k_procs s') = sum_of f (k_procs s)) by (intros f Hf; by apply sum_of_like).
  assert (Hown : ∀ q o, owns s' q o → owns s q o).
  { intros q [p i|p i|i]; simpl; rewrite ?F1, ?F3; try done. intros (c' & Hc' & Hi). destruct (like_inv _ _ _ _ Hfr Hc') as (c & Hc & Hl). exists c. rewrite Hl in Hi. done. }
  assert (Hprocs : ∀ k, is_Some (k_procs s' !! k) ↔ is_Some (k_procs s !! k)).
  { intros k. specialize (F7 k). destruct F7; split; intros [? ?]; eauto; done. }
  split; try done; [lia|..].
  - unfold below in *. rewrite F1, F2. split_and!; intros k Hk.
    + apply F8 in Hk. specialize (I3a k Hk). lia.
    + specialize (I3b k Hk). lia.
    + specialize (I3c k Hk). lia.
    + apply Hprocs in Hk. specialize (I3d k Hk). lia.
  - intros q o Ho. apply F8. by eapply I5, Hown.
  - intros q o o' Ho Ho'. by eapply I6; apply Hown.
  - intros p c. rewrite F1, F2. apply I7.
  - intros fa f. rewrite F1, F2. intros Hf. destruct (I8 fa f Hf) as [Hp Hr]. split; [done|].
    rewrite Hlike; [done|]. intros c c' ->. done.
  - intros p c' Hc'. destruct (like_inv _ _ _ _ Hfr Hc') as (c & Hc & Hl).
    destruct (I9 p c Hc) as (L1 & L2 & L3). by rewrite F2, Hl.
  - rewrite F2. split; [|apply I10]. replace (size (k_procs s')) with (size (k_procs s)); [apply I10|].
    rewrite <- !size_dom. f_equal. apply set_eq. intros k. rewrite !elem_of_dom. symmetry. apply Hprocs.
Qed.

Lemma kinv_mono N N' g s : kinv N g s → N ≤ N' → kinv N' g s.
Proof.
  intros [] HN. split; try done; [lia|]. intros q c Hq. destruct (ki_sem0 q c Hq). split; [done|lia].
Qed.

(** Posting on a live semaphore. *)
Lemma post_ok N g s q : kinv N g s → is_Some (k_sems s !! q) → N < 2 ^ 30 →
  ∃ s', semPost q s = KDone s' 0 ∧ kinv (N + 1) g s' ∧ frame s s'.
Proof.
  intros H [c Hc] HN. pose proof H as [I0 I1 I2 (I3a & _) I4 _ _ _ _ _ _].
  destruct (I4 q c Hc) as [Hok Hv]. assert (Hq : q ≠ 0) by (specialize (I3a q ltac:(by eexists)); lia).
  destruct (semPost_spec q s c I1 I2 Hc Hok) as (s' & E & Hm & Hi & Hp); [unfold in_range; lia|done|].
  pose proof Hok as [O1 O2 O3].
  assert (Hsems : ∀ c', sem_ok c' → - 2 ^ 20 - (N + 1) ≤ sem_value c' ≤ N + 1 → ∀ x d, <[q := c']> (k_sems s) !! x = Some d →
    sem_ok d ∧ - 2 ^ 20 - (N + 1) ≤ sem_value d ≤ N + 1).
  { intros c' Hc1 Hc2 x d [[<- <-]|[_ Hd]]%lookup_insert_Some; [done|]. destruct (I4 x d Hd). split; [done|lia]. }
  assert (Hdom : ∀ c' x, is_Some (<[q := c']> (k_sems s) !! x) ↔ is_Some (k_sems s !! x)).
  { intros c' x. rewrite lookup_insert_is_Some'. split; [intros [->|]; [by eexists|done]|by right]. }
  exists s'. split; [done|]. destruct Hp as [(dead & pid & rest & p & pc & l & Eq & Hd & Hb & Ht & Hpc & Hl & ->)|(Hd & ->)].
  - assert (Hf : frame s (set_sems (<[q := mkSem (sem_value c + 1 + len dead) rest false]> (k_sems s))
      (set_procs (<[p := with_state READY pc]> (k_procs s)) (set_ready (Some (l ++ [pid])) (set_next (k_next s + 16) s))))).
    { split; kred; try done.
      - intros x. destruct (decide (x = p)) as [->|].
        + rewrite Hpc, lookup_insert_eq. by constructor.
        + rewrite lookup_insert_ne by done. destruct (k_procs s !! x); constructor. apply proc_like_refl.
      - intros x. destruct (decide (processTable s !! x = Some p)) as [Ex|Ex].
        + right. assert (x = pid) as -> by exact (table_inj _ _ _ _ I2 Ex Ht). split; [done|].
          apply (state_of_eq _ _ p (with_state READY pc)); [done|kred; apply lookup_insert_eq].
        + left. unfold state_of, proc_of. kred. destruct (processTable s !! x) as [y|]; [|done]. cbn [mbind option_bind].
          rewrite lookup_insert_ne; [done|]. by intros ->. }
    split; [|done]. eapply kinv_frame; try done; kred; try lia. apply Hsems.
    + split; cbn [sem_lock blockedQueue sem_value]; [done| |].
      * rewrite Eq, length_app in O2. cbn [length] in O2. clear - O2. lia.
      * intros x Hx. apply O3. rewrite Eq. set_solver.
    + cbn [sem_value]. rewrite Eq, length_app in O2. cbn [length] in O2. clear - O2 Hv I0. lia.
  - assert (Hf : frame s (set_sems (<[q := mkSem (Z.max (sem_value c + 1) 1) [] false]> (k_sems s)) s)).
    { split; kred; try done. by apply wakes_refl. }
    split; [|done]. eapply kinv_frame; try done; kred; try lia. apply Hsems.
    + split; cbn [sem_lock blockedQueue sem_value length]; [done|clear; lia|]. intros x Hx. by apply elem_of_nil in Hx.
    + cbn [sem_value]. clear - O2 Hv I0. lia.
Qed.

(** ** Elementary changes and the counts they put off *)

Lemma kinv_ghost N g g' s : kinv N g s → (∀ x, is_Some (k_files s !! x) → g_file g' x = g_file g x) →
  (∀ x, is_Some (k_pipes s !! x) → g_ref g' x = g_ref g x ∧ g_wr g' x = g_wr g x) → kinv N g' s.
Proof.
  intros H E1 E2. destruct H. split; try done.
  - intros p c Hc. destruct (E2 p) as [-> ->]; [by eexists|]. auto.
  - intros fa f Hf. rewrite E1 by (by eexists). auto.
Qed.

Lemma kinv_pos N g s : kinv N g s → k_files s !! 0 = None ∧ k_pipes s !! 0 = None ∧ k_procs s !! 0 = None ∧ k_sems s !! 0 = None.
Proof.
  intros H. destruct (ki_below _ _ _ H) as (B1 & B2 & B3 & B4).
  split_and!; apply eq_None_not_Some; intros Hs; [specialize (B3 0 Hs)|specialize (B2 0 Hs)|specialize (B4 0 Hs)|specialize (B1 0 Hs)]; lia.
Qed.

Lemma kinv_ne N g s p c : kinv N g s → k_procs s !! p = Some c → p ≠ 0.
Proof. intros H Hc ->. destruct (kinv_pos _ _ _ H) as (_ & _ & E & _). congruence. Qed.
Lemma kinv_file_ne N g s fa f : kinv N g s → k_files s !! fa = Some f → fa ≠ 0.
Proof. intros H Hc ->. destruct (kinv_pos _ _ _ H) as (E & _). congruence. Qed.
Lemma kinv_pipe_ne N g s p c : kinv N g s → k_pipes s !! p = Some c → p ≠ 0.
Proof. intros H Hc ->. destruct (kinv_pos _ _ _ H) as (_ & E & _). congruence. Qed.

Lemma below_insert {A} s (m : gmap Z A) k a : below s m → is_Some (m !! k) → below s (<[k := a]> m).
Proof. intros H Hk x [->|Hx]%lookup_insert_is_Some'; auto. Qed.

(** The scheduler does not look at the other stores. *)
Ltac keep_sched H := eapply sched_inv_frame; [..|exact H]; done.

(** The reference count of a file access. *)
Lemma kinv_refs N g s fa f d : kinv N g s → k_files s !! fa = Some f →
  kinv N (mkGhost (bump (g_file g) fa d) (g_ref g) (g_wr g))
    (set_files (<[fa := set_refs (fa_refCount f + d) f]> (k_files s)) s).
Proof.
  intros H Hf. pose proof H as [I0 I1 I2 (I3a & I3b & I3c & I3d) I4 I5 I6 I7 I8 I9 I10].
  split; try done; kred.
  - keep_sched I2.
  - split_and!; try done. by apply below_insert.
  - intros p c Hc. destruct (I7 p c Hc) as [E1 E2].
    rewrite (sum_of_update _ _ _ f), (sum_of_update _ _ _ f) by done. unfold uses, writes, set_refs in *. simpl. lia.
  - intros x f' [[<- <-]|[Hx Hf']]%lookup_insert_Some.
    + destruct (I8 fa f Hf) as [Hp Hr]. split; [done|]. simpl. unfold bump. rewrite Z.eqb_refl. lia.
    + destruct (I8 x f' Hf') as [Hp Hr]. split; [done|]. cbn [g_file]. unfold bump. by rewrite (proj2 (Z.eqb_neq x fa)).
  - intros p c Hc. destruct (I9 p c Hc) as (L1 & L2 & L3). split_and!; try done. intros x Hx.
    destruct (L3 x Hx) as [?|?]; [by left|right]. rewrite lookup_insert_is_Some'. by right.
  - rewrite map_size_insert_Some by done. done.
Qed.

(** The counts of a pipe. *)
Lemma kinv_counts N g s p c dr dw : kinv N g s → k_pipes s !! p = Some c →
  kinv N (mkGhost (g_file g) (bump (g_ref g) p dr) (bump (g_wr g) p dw))
    (set_pipes (<[p := set_counts (pipe_refCount c + dr) (writerCount c + dw) c]> (k_pipes s)) s).
Proof.
  intros H Hc. pose proof H as [I0 I1 I2 (I3a & I3b & I3c & I3d) I4 I5 I6 I7 I8 I9 I10].
  set (c' := set_counts (pipe_refCount c + dr) (writerCount c + dw) c).
  assert (Hown : ∀ q o, owns (set_pipes (<[p := c']> (k_pipes s)) s) q o → owns s q o).
  { intros q [x i|x i|i]; simpl; try done. intros (d & [[<- <-]|[_ Hd]]%lookup_insert_Some & Hi); eauto. }
  split; try done; kred.
  - keep_sched I2.
  - split_and!; try done. by apply below_insert.
  - intros q o Ho. by eapply I5, Hown.
  - intros q o o' Ho Ho'. by eapply I6; apply Hown.
  - intros x d [[<- <-]|[Hx Hd]]%lookup_insert_Some; cbn [g_ref g_wr]; unfold bump.
    + destruct (I7 p c Hc) as [E1 E2]. rewrite Z.eqb_refl. unfold c'. simpl. lia.
    + rewrite (proj2 (Z.eqb_neq x p)) by done. auto.
  - intros fa f Hf. destruct (I8 fa f Hf) as [[?|?] Hr]; (split; [|done]); [by left|right].
    rewrite lookup_insert_is_Some'. by right.
Qed.

(** Rewriting an entry of a descriptor does not disturb the scheduler. *)
Lemma sched_inv_procs s p c c' : sched_inv s → k_procs s !! p = Some c → p_state c' = p_state c → p_pid c' = p_pid c →
  sched_inv (set_procs (<[p := c']> (k_procs s)) s).
Proof.
  intros H Hc Est Epid.
  assert (Hst : ∀ q, state_of (set_procs (<[p := c']> (k_procs s)) s) q = state_of s q).
  { intros q. unfold state_of, proc_of. kred. destruct (processTable s !! q) as [x|]; [|done]. cbn [mbind option_bind].
    destruct (decide (x = p)) as [->|]; [|by rewrite lookup_insert_ne by done].
    rewrite lookup_insert_eq, Hc. cbn. by rewrite Est. }
  destruct H as [H1 H2 H3 H4 H5 H6]. split; kred; try done.
  - intros pid x Hx. destruct (H1 pid x Hx) as (Hp & Hn & d & Hd & Ed). split; [done|]. split; [done|].
    destruct (decide (x = p)) as [->|].
    + exists c'. rewrite lookup_insert_eq. split; [done|]. congruence.
    + exists d. by rewrite lookup_insert_ne by done.
  - destruct H2 as (l & Hl & Hn & Hm). exists l. split_and!; try done. intros q. by rewrite Hst.
  - intros q. rewrite Hst. apply H3.
  - by rewrite Hst.
Qed.

Lemma count_insert (x v old : Z) l i : l !! i = Some old →
  len (List.filter (Z.eqb x) (<[i := v]> l)) =
    len (List.filter (Z.eqb x) l) - (if x =? old then 1 else 0) + (if x =? v then 1 else 0).
Proof.
  revert i. induction l as [|y l IH]; intros [|i] H; simpl in *; try done.
  - injection H as ->. destruct (x =? old), (x =? v); simpl; lia.
  - specialize (IH i H). destruct (x =? y); simpl; lia.
Qed.

(** Writing [fa] to a descriptor: the old entry is one reference short of its count, the new one
    over it. *)
Definition moved (g : ghost) (old fa : Z) : ghost := mkGhost (bump (bump (g_file g) old 1) fa (-1)) (g_ref g) (g_wr g).

Lemma fd_lookup N g s p c fd : kinv N g s → k_procs s !! p = Some c → isValidFd fd = true →
  fdTable c !! Z.to_nat fd = Some (fd_slot c fd).
Proof.
  intros H Hc Hfd. destruct (ki_proc _ _ _ H p c Hc) as (L & _). unfold isValidFd, MAX_FDS in Hfd.
  apply andb_true_iff in Hfd as [H1%Z.leb_le H2%Z.ltb_lt]. unfold fd_slot.
  destruct (lookup_lt_is_Some_2 (fdTable c) (Z.to_nat fd)) as [x Hx]; [lia|]. by rewrite Hx.
Qed.

Lemma kinv_set_fd N g s p c fd fa : kinv N g s → k_procs s !! p = Some c → isValidFd fd = true →
  fa = 0 ∨ is_Some (k_files s !! fa) →
  kinv N (moved g (fd_slot c fd) fa) (set_procs (<[p := set_fd fd fa c]> (k_procs s)) s).
Proof.
  intros H Hc Hfd Hfa. pose proof (fd_lookup _ _ _ _ _ _ H Hc Hfd) as Hold.
  pose proof H as [I0 I1 I2 (I3a & I3b & I3c & I3d) I4 I5 I6 I7 I8 I9 I10].
  assert (Hown : ∀ q o, owns (set_procs (<[p := set_fd fd fa c]> (k_procs s)) s) q o → owns s q o).
  { intros q [x i|x i|i]; simpl; try done. intros (d & [[<- <-]|[_ Hd]]%lookup_insert_Some & Hi); eauto. }
  split; try done; kred.
  - by apply (sched_inv_procs s p c).
  - split_and!; try done. by apply below_insert.
  - intros q o Ho. by eapply I5, Hown.
  - intros q o o' Ho Ho'. by eapply I6; apply Hown.
  - intros x f Hf. destruct (I8 x f Hf) as [Hp Hr]. split; [done|]. rewrite (sum_of_update _ _ _ c) by done.
    unfold slots at 3. cbn [fdTable set_fd with_fds]. rewrite (count_insert x fa (fd_slot c fd)) by done.
    unfold moved, bump. cbn [g_file]. fold (slots x c). rewrite Hr.
    destruct (Z.eqb_spec x (fd_slot c fd)), (Z.eqb_spec x fa); lia.
  - intros x d [[<- <-]|[_ Hd]]%lookup_insert_Some; [|by apply (I9 x d)].
    destruct (I9 p c Hc) as (L1 & L2 & L3). cbn [fdTable eofRequests set_fd with_fds]. rewrite !length_insert.
    split_and!; try done. intros y (i & Hi)%list_elem_of_lookup.
    apply list_lookup_insert_Some in Hi as [(_ & <- & _)|[_ Hi]]; [done|]. apply L3, list_elem_of_lookup. by exists i.
  - by rewrite map_size_insert_Some by done.
Qed.

(** ** Disposal *)

(** [freeSemaphore] on a live semaphore: one with waiters is left alone. *)
Definition drop_sem (q : Z) (m : gmap Z semCDT) : gmap Z semCDT :=
  match m !! q with Some d => match blockedQueue d with [] => delete q m | _ => m end | None => m end.

Lemma drop_sem_ne q m x : x ≠ q → drop_sem q m !! x = m !! x.
Proof.
  intros Hx. unfold drop_sem. destruct (m !! q) as [d|]; [|done]. destruct (blockedQueue d); [|done].
  by rewrite lookup_delete_ne.
Qed.
Lemma drop_sem_sub q m x d : drop_sem q m !! x = Some d → m !! x = Some d.
Proof.
  unfold drop_sem. destruct (m !! q) as [e|]; [|done]. destruct (blockedQueue e); [|done].
  by intros [_ ?]%lookup_delete_Some.
Qed.

Lemma freeSemaphore_eq q s d : k_sems s !! q = Some d → sem_lock d = false → q ≠ 0 →
  freeSemaphore q s = KDone (set_sems (drop_sem q (k_sems s)) s) ().
Proof.
  intros E Hl Hq. unfold freeSemaphore. rewrite (proj2 (Z.eqb_neq q 0) Hq), kbind_eq, (ACQUIRE_eq _ _ d) by done. kred.
  rewrite kbind_eq. erewrite kload_some by (kred; apply lookup_insert_eq). kred.
  unfold drop_sem. rewrite E. cbn [blockedQueue set_lock]. destruct (blockedQueue d) eqn:Eq.
  - unfold kfree_sem, kmod. kred. by rewrite delete_insert_eq.
  - unfold RELEASE. erewrite kstore_sem_eq by (kred; apply lookup_insert_eq). kred. rewrite insert_insert_eq.
    unfold set_lock. cbn [sem_value blockedQueue]. rewrite insert_id; [done|]. destruct d. simpl in *. by subst.
Qed.

Definition drop_sems (qs : list Z) (m : gmap Z semCDT) : gmap Z semCDT := foldl (λ m q, drop_sem q m) m qs.

Lemma drop_sems_ne qs : ∀ m x, x ∉ qs → drop_sems qs m !! x = m !! x.
Proof.
  unfold drop_sems. induction qs as [|q qs IH]; intros m x Hx; simpl; [done|]. apply not_elem_of_cons in Hx as [??].
  rewrite IH by done. by apply drop_sem_ne.
Qed.
Lemma drop_sems_sub qs : ∀ m x d, drop_sems qs m !! x = Some d → m !! x = Some d.
Proof. unfold drop_sems. induction qs as [|q qs IH]; intros m x d Hx; simpl in *; [done|]. eapply drop_sem_sub, IH, Hx. Qed.

(** The semaphores of an object that is being disposed of. *)
Definition disposable (s : kst) (qs : list Z) : Prop :=
  NoDup qs ∧ ∀ q, q ∈ qs → ∃ d, k_sems s !! q = Some d ∧ sem_lock d = false ∧ q ≠ 0.

Lemma pipe_disposable N g s p c : kinv N g s → k_pipes s !! p = Some c → disposable s (pipe_sems c).
Proof.
  intros H Hc. assert (Hown : ∀ i q, pipe_sems c !! i = Some q → owns s q (OPipe p i)) by (intros i q Hq; by exists c).
  split.
  - apply NoDup_alt. intros i j q Hi Hj.
    pose proof (ki_owner _ _ _ H q _ _ (Hown i q Hi) (Hown j q Hj)) as E. congruence.
  - intros q (i & Hi)%list_elem_of_lookup. destruct (ki_live _ _ _ H q _ (Hown i q Hi)) as [d Hd]. exists d.
    split; [done|]. split; [apply (ki_sem _ _ _ H q d Hd)|]. intros ->. destruct (kinv_pos _ _ _ H) as (_ & _ & _ & E). congruence.
Qed.

Lemma proc_disposable N g s p c : kinv N g s → k_procs s !! p = Some c → disposable s (proc_sems c).
Proof.
  intros H Hc. assert (Hown : ∀ i q, proc_sems c !! i = Some q → owns s q (OProc p i)) by (intros i q Hq; by exists c).
  split.
  - apply NoDup_alt. intros i j q Hi Hj.
    pose proof (ki_owner _ _ _ H q _ _ (Hown i q Hi) (Hown j q Hj)) as E. congruence.
  - intros q (i & Hi)%list_elem_of_lookup. destruct (ki_live _ _ _ H q _ (Hown i q Hi)) as [d Hd]. exists d.
    split; [done|]. split; [apply (ki_sem _ _ _ H q d Hd)|]. intros ->. destruct (kinv_pos _ _ _ H) as (_ & _ & _ & E). congruence.
Qed.

Lemma disposable_next s q qs : disposable s (q :: qs) →
  (∃ d, k_sems s !! q = Some d ∧ sem_lock d = false ∧ q ≠ 0) ∧ disposable (set_sems (drop_sem q (k_sems s)) s) qs.
Proof.
  intros [Hnd Hl]. apply list.NoDup_cons in Hnd as [Hni Hnd]. split; [apply Hl; by left|]. split; [done|].
  intros x Hx. destruct (Hl x) as (d & Hd); [by right|]. exists d. kred. rewrite drop_sem_ne; [done|]. by intros ->.
Qed.

Lemma freePipe_eq p s c : p ≠ 0 → k_pipes s !! p = Some c → disposable s (pipe_sems c) →
  freePipe p s = KDone (set_pipes (delete p (k_pipes s)) (set_sems (drop_sems (pipe_sems c) (k_sems s)) s)) ().
Proof.
  intros Hp Hc Hd. unfold freePipe, pipe. rewrite (proj2 (Z.eqb_neq p 0) Hp), kbind_eq, (kload_some _ _ _ _ Hc). kred.
  unfold pipe_sems in Hd.
  do 4 (apply disposable_next in Hd as [(? & ? & ? & ?) Hd]; rewrite kbind_eq; erewrite freeSemaphore_eq by eassumption; kred).
  done.
Qed.

Lemma kinv_drop_pipe N g s p c : kinv N g s → k_pipes s !! p = Some c →
  (∀ fa f, k_files s !! fa = Some f → fa_pipe f ≠ p) →
  kinv N g (set_pipes (delete p (k_pipes s)) (set_sems (drop_sems (pipe_sems c) (k_sems s)) s)).
Proof.
  intros H Hc Hno. pose proof H as [I0 I1 I2 (I3a & I3b & I3c & I3d) I4 I5 I6 I7 I8 I9 I10].
  set (s' := set_pipes _ _).
  assert (Hown : ∀ q o, owns s' q o → owns s q o ∧ q ∉ pipe_sems c).
  { assert (Hni : ∀ q o, owns s q o → (∀ i, o ≠ OPipe p i) → q ∉ pipe_sems c).
    { intros q o Ho Hne (i & Hi)%list_elem_of_lookup. apply (Hne i). eapply I6; [exact Ho|]. by exists c. }
    intros q [x i|x i|i]; simpl.
    - intros (d & [Hx Hd]%lookup_delete_Some & Hi). split; [by exists d|].
      apply (Hni q (OPipe x i)); [by exists d|]. intros j E. congruence.
    - intros (d & Hd & Hi). split; [by exists d|]. apply (Hni q (OProc x i)); [by exists d|]. done.
    - intros Ho. split; [done|]. by apply (Hni q (OShared i)). }
  split; try done; unfold s'; kred.
  - keep_sched I2.
  - split_and!; try done; intros k [d Hd].
    + apply drop_sems_sub in Hd. apply I3a. by exists d.
    + apply lookup_delete_Some in Hd as [_ Hd]. apply I3b. by exists d.
  - intros q d Hd. apply drop_sems_sub in Hd. exact (I4 q d Hd).
  - intros q o Ho. apply Hown in Ho as [Ho Hni]. rewrite drop_sems_ne by done. by eapply I5.
  - intros q o o' [Ho _]%Hown [Ho' _]%Hown. by eapply I6.
  - intros x d [_ Hd]%lookup_delete_Some. exact (I7 x d Hd).
  - intros fa f Hf. destruct (I8 fa f Hf) as [[?|?] Hr]; (split; [|done]); [by left|right].
    rewrite lookup_delete_ne; [done|]. intros E. by apply (Hno fa f).
Qed.

Lemma kinv_delete_file N g s fa f : kinv N g s → k_files s !! fa = Some f → sum_of (slots fa) (k_procs s) = 0 →
  kinv N (mkGhost (g_file g) (bump (g_ref g) (fa_pipe f) 1)
      (bump (g_wr g) (fa_pipe f) (if has_flag (fa_flags f) FILE_WRITE then 1 else 0)))
    (set_files (delete fa (k_files s)) s).
Proof.
  intros H Hf Hno. pose proof H as [I0 I1 I2 (I3a & I3b & I3c & I3d) I4 I5 I6 I7 I8 I9 I10].
  split; try done; kred.
  - keep_sched I2.
  - split_and!; try done. intros k [d [_ Hd]%lookup_delete_Some]. apply I3c. by exists d.
  - intros p c Hc. destruct (I7 p c Hc) as [E1 E2]. rewrite (sum_of_delete (uses p) _ fa f), (sum_of_delete (writes p) _ fa f) by done.
    assert (U : uses p f = if p =? fa_pipe f then 1 else 0) by (unfold uses; by rewrite Z.eqb_sym).
    assert (W : writes p f = if p =? fa_pipe f then if has_flag (fa_flags f) FILE_WRITE then 1 else 0 else 0).
    { unfold writes. rewrite (Z.eqb_sym p). by destruct (fa_pipe f =? p). }
    rewrite U, W. cbn [g_ref g_wr]. unfold bump.
    destruct (p =? fa_pipe f); [destruct (has_flag _ _)|]; clear - E1 E2; lia.
  - intros x f' [_ Hf']%lookup_delete_Some. exact (I8 x f' Hf').
  - intros p c Hc. destruct (I9 p c Hc) as (L1 & L2 & L3). split_and!; try done. intros x Hx.
    destruct (L3 x Hx) as [?|?]; [by left|right]. rewrite lookup_delete_ne; [done|]. intros <-.
    assert (slots fa c ≤ 0) by (rewrite <- Hno; apply (sum_of_ge (slots fa) _ p); [apply slots_nonneg|done]).
    unfold slots in *. assert (Hin : In fa (List.filter (Z.eqb fa) (fdTable c))).
    { apply List.filter_In. split; [by apply list_elem_of_In|apply Z.eqb_refl]. }
    destruct (List.filter (Z.eqb fa) (fdTable c)); [done|simpl in *; lia].
  - split; [apply I10|]. rewrite map_size_delete_Some by eauto. lia.
Qed.

(** A post never puts anybody to sleep, and takes a waiter that is awake afterwards off the
    queue. *)
Lemma post_awake N g s q d : kinv N g s → k_sems s !! q = Some d → N < 2 ^ 30 →
  ∃ s' d', semPost q s = KDone s' 0 ∧ kinv (N + 1) g s' ∧ frame s s' ∧ k_sems s' !! q = Some d' ∧
    (∀ x, state_of s x ≠ Some BLOCKED → state_of s' x ≠ Some BLOCKED) ∧
    (∀ x, x ∈ blockedQueue d → x ∈ blockedQueue d' ∨ state_of s' x ≠ Some BLOCKED) ∧
    (length (blockedQueue d') <= length (blockedQueue d) - 1)%nat.
Proof.
  intros H Hd HN. destruct (post_ok N g s q H (mk_is_Some _ _ Hd) HN) as (s' & E & H' & F).
  destruct (ki_sem _ _ _ H q d Hd) as [Hok Hv]. pose proof (ki_bound _ _ _ H) as HN0.
  assert (Hq : q ≠ 0) by (intros ->; destruct (kinv_pos _ _ _ H) as (_ & _ & _ & E0); congruence).
  destruct (semPost_spec q s d (ki_mem _ _ _ H) (ki_sched _ _ _ H) Hd Hok) as (s2 & E2 & _ & _ & P);
    [unfold in_range; lia|done|]. assert (s2 = s') as -> by congruence.
  assert (St : ∀ x, state_of s' x = state_of s x ∨ state_of s' x = Some READY).
  { destruct P as [(dead & pid & rest & p & pc & l & _ & _ & _ & Ht & Hpc & _ & ->)|[_ ->]]; [|by left].
    intros x. unfold state_of, proc_of. kred. destruct (processTable s !! x) as [y|] eqn:Ey; [|by left].
    cbn [mbind option_bind]. destruct (decide (y = p)) as [->|].
    - right. by rewrite lookup_insert_eq.
    - left. by rewrite lookup_insert_ne. }
  assert (Stale : ∀ l, Forall (stale s) l → ∀ x, x ∈ l → state_of s' x ≠ Some BLOCKED).
  { intros l Hl x Hx. rewrite list.Forall_forall in Hl. specialize (Hl x Hx). unfold stale in Hl.
    destruct (St x) as [->| ->]; done. }
  exists s'. destruct P as [(dead & pid & rest & p & pc & l & Eq & Hdead & Hb & Ht & Hpc & Hl & ->)|(Hdead & ->)].
  - eexists. split; [done|]. split; [done|]. split; [done|]. split; [kred; apply lookup_insert_eq|]. cbn [blockedQueue].
    split; [intros x Hx; by destruct (St x) as [->| ->]|]. rewrite Eq. split.
    + intros x [Hx|[->|Hx]%elem_of_cons]%elem_of_app; [right; by apply (Stale dead)| |by left].
      right. unfold state_of, proc_of. kred. rewrite Ht. cbn [mbind option_bind]. by rewrite lookup_insert_eq.
    + rewrite length_app. cbn [length]. clear. lia.
  - eexists. split; [done|]. split; [done|]. split; [done|]. split; [kred; apply lookup_insert_eq|]. cbn [blockedQueue].
    split; [intros x Hx; by destruct (St x) as [->| ->]|]. split; [|simpl; clear; lia].
    intros x Hx. right. by apply (Stale (blockedQueue d)).
Qed.

(** Nobody who waits on [q] in [s] is still blocked in [s'], if there are at most 64. *)
Definition all_awake (q : Z) (s s' : kst) : Prop :=
  ∀ d, k_sems s !! q = Some d → (length (blockedQueue d) <= 64)%nat →
  ∀ x, x ∈ blockedQueue d → state_of s' x ≠ Some BLOCKED.

(** Posting a number of times to the readers of a pipe. *)
Lemma post_times_ok g p c d : ∀ n N s, kinv N g s → k_pipes s !! p = Some c → k_sems s !! dataAvailable c = Some d →
  N + Z.of_nat n ≤ 2 ^ 30 →
  ∃ s', post_times n p s = KDone s' () ∧ kinv (N + Z.of_nat n) g s' ∧ frame s s' ∧
    (∀ x, state_of s x ≠ Some BLOCKED → state_of s' x ≠ Some BLOCKED) ∧
    ((length (blockedQueue d) <= n)%nat → ∀ x, x ∈ blockedQueue d → state_of s' x ≠ Some BLOCKED).
Proof.
  intros n. revert d. induction n as [|n IH]; intros d N s H Hc Hd HN; cbn [post_times].
  - exists s. rewrite Z.add_0_r. split; [done|]. split; [done|]. split; [apply frame_refl|]. split; [done|].
    intros Hl x Hx. destruct (blockedQueue d); [by apply elem_of_nil in Hx|simpl in Hl; lia].
  - unfold pipe at 1. rewrite kbind_eq, (kload_some _ _ _ _ Hc). kred.
    destruct (post_awake N g s (dataAvailable c) d H Hd) as (s1 & d1 & E1 & H1 & F1 & Hd1 & A1 & W1 & L1); [lia|].
    rewrite kbind_eq, E1. kred.
    destruct (IH d1 (N + 1) s1 H1) as (s2 & E2 & H2 & F2 & A2 & W2); [by rewrite (fr_pipes _ _ F1)|done|lia|].
    exists s2. replace (N + Z.of_nat (S n)) with (N + 1 + Z.of_nat n) by lia. split; [done|]. split; [done|].
    split; [by eapply frame_trans|]. split; [auto|]. intros Hl x Hx. destruct (W1 x Hx) as [Hx'|Hx']; [|auto].
    apply W2; [lia|done].
Qed.

(** What every operation on descriptors leaves alone. *)
Record oframe (s s' : kst) : Prop := {
  of_shared : sharedTable s' = sharedTable s;
  of_table : processTable s' = processTable s;
  of_current : currentProcess s' = currentProcess s;
  of_fg : foregroundSet s' = foregroundSet s;
  of_procs : ∀ p, option_Forall2 proc_like (k_procs s !! p) (k_procs s' !! p);
  of_wakes : wakes s s';
}.

Lemma oframe_refl s : oframe s s.
Proof. split; try done. by apply wakes_refl. Qed.
Lemma oframe_of s s' : frame s s' → oframe s s'.
Proof. intros []. by split. Qed.
Lemma oframe_trans s1 s2 s3 : oframe s1 s2 → oframe s2 s3 → oframe s1 s3.
Proof.
  intros [A3 A4 A5 A6 A7 A8] [B3 B4 B5 B6 B7 B8]. split; try congruence.
  - intros p. specialize (A7 p). specialize (B7 p). destruct A7; inversion B7; constructor. by eapply proc_like_trans.
  - by eapply wakes_trans.
Qed.
Lemma oframe_same s s' : sharedTable s' = sharedTable s → processTable s' = processTable s →
  currentProcess s' = currentProcess s → foregroundSet s' = foregroundSet s → k_procs s' = k_procs s → oframe s s'.
Proof.
  intros E1 E2 E3 E4 E5. split; try done; [by rewrite E5|]. apply wakes_refl. intros pid. unfold state_of, proc_of.
  by rewrite E2, E5.
Qed.
#[local] Hint Resolve oframe_refl oframe_of : kernel.

(** The last writer of a pipe goes away: every reader is woken. *)
Lemma removePipeWriter_ok N g s p c : kinv N g s → k_pipes s !! p = Some c → N + 64 ≤ 2 ^ 30 → - 2 ^ 20 ≤ g_wr g p ≤ 2 ^ 20 →
  ∃ s', removePipeWriter p s = KDone s' () ∧
    kinv (N + 64) (mkGhost (g_file g) (g_ref g) (bump (g_wr g) p (-1))) s' ∧ oframe s s' ∧
    k_files s' = k_files s ∧ k_pipes s' = <[p := set_counts (pipe_refCount c) (writerCount c - 1) c]> (k_pipes s) ∧
    (writerCount c ≤ 1 → all_awake (dataAvailable c) s s').
Proof.
  intros H Hc HN Hg. destruct (refs_range _ _ _ p H) as [R1 R2]. destruct (ki_pipe _ _ _ H p c Hc) as [E1 E2].
  set (c' := set_counts (pipe_refCount c) (writerCount c - 1) c).
  pose proof (kinv_counts N g s p c 0 (-1) H Hc) as H1. rewrite Z.add_0_r in H1. fold c' in H1.
  set (s1 := set_pipes (<[p := c']> (k_pipes s)) s) in *.
  assert (Hc1 : k_pipes s1 !! p = Some c') by apply lookup_insert_eq.
  assert (Hk : kinv N (mkGhost (g_file g) (g_ref g) (bump (g_wr g) p (-1))) s1).
  { apply (kinv_ghost _ _ _ _ H1); [done|]. intros x _. cbn. unfold bump. destruct (x =? p); lia. }
  assert (E : removePipeWriter p s = (if writerCount c' <=? 0 then forceReadersWakeUp p MAX_PROCESSES else mret ()) s1).
  { unfold removePipeWriter. rewrite (proj2 (Z.eqb_neq p 0)) by (exact (kinv_pipe_ne _ _ _ _ _ H Hc)).
    rewrite kbind_eq, (kstore_pipe_eq _ _ _ c) by done. kred. rewrite i32_small by lia.
    unfold pipe. rewrite kbind_eq. erewrite kload_some by (kred; apply lookup_insert_eq). by kred. }
  assert (Ho : oframe s s1) by (by apply oframe_same).
  destruct (ki_live _ _ _ H (dataAvailable c) (OPipe p 0)) as [d Hd]; [by exists c|].
  destruct (Z.leb_spec (writerCount c') 0).
  - destruct (post_times_ok _ p c' d 64 N s1 Hk Hc1 Hd) as (s2 & E3 & H3 & F3 & _ & W3); [lia|]. exists s2. rewrite E.
    unfold forceReadersWakeUp. rewrite (proj2 (Z.eqb_neq p 0)) by (exact (kinv_pipe_ne _ _ _ _ _ H Hc)). split; [done|].
    split; [done|]. split; [exact (oframe_trans _ _ _ Ho (oframe_of _ _ F3))|]. rewrite (fr_files _ _ F3), (fr_pipes _ _ F3).
    split; [done|]. split; [done|]. intros _ d' Hd' Hl x Hx. assert (d' = d) as -> by congruence. by apply W3.
  - exists s1. rewrite E. split; [done|]. split; [apply (kinv_mono _ _ _ _ Hk); lia|]. split; [done|]. split; [done|].
    split; [done|]. cbn [writerCount c' set_counts] in *. lia.
Qed.

(** One reference to a pipe fewer; the last one frees it. *)
Lemma removePipeRef_eq N g s p c : kinv N g s → k_pipes s !! p = Some c → - 2 ^ 20 ≤ g_ref g p ≤ 2 ^ 20 →
  removePipeRef p s = KDone
    (if pipe_refCount c - 1 <=? 0
     then set_pipes (delete p (k_pipes s)) (set_sems (drop_sems (pipe_sems c) (k_sems s)) s)
     else set_pipes (<[p := set_counts (pipe_refCount c - 1) (writerCount c) c]> (k_pipes s)) s) ().
Proof.
  intros H Hc Hg. destruct (refs_range _ _ _ p H) as [R1 R2]. destruct (ki_pipe _ _ _ H p c Hc) as [E1 E2].
  pose proof (kinv_pipe_ne _ _ _ _ _ H Hc) as Hp.
  unfold removePipeRef. rewrite (proj2 (Z.eqb_neq p 0)) by done.
  rewrite kbind_eq, (kstore_pipe_eq _ _ _ c) by done. kred. rewrite i32_small by lia.
  unfold pipe. rewrite kbind_eq. erewrite kload_some by (kred; apply lookup_insert_eq). kred.
  cbn [pipe_refCount set_counts]. destruct (pipe_refCount c - 1 <=? 0); [|done].
  erewrite freePipe_eq; [|done|kred; apply lookup_insert_eq|].
  - kred. by rewrite delete_insert_eq.
  - exact (pipe_disposable _ _ _ _ _ H Hc).
Qed.

(** The pipes there are once [fa] is gone. *)
Definition pipes_without (fa q : Z) (s s' : kst) : Prop :=
  ∀ p, is_Some (k_pipes s' !! p) ↔
    is_Some (k_pipes s !! p) ∧ (p = q → 0 < sum_of (uses p) (delete fa (k_files s))).

Lemma sum_pos_ex {A} (f : A → Z) (m : gmap Z A) : (∀ k a, m !! k = Some a → f a = 0) → sum_of f m = 0.
Proof.
  intros H. pose proof (sum_of_bound f 0 m) as B.
  assert (0 ≤ sum_of f m ≤ 0 * Z.of_nat (size m)); [|lia]. apply B. intros k a Ha. rewrite (H k a Ha). lia.
Qed.

(** The last writer of a pipe wakes its readers. *)
Definition eof_sent (f : fileAccessCDT) (s s' : kst) : Prop :=
  ∀ c, k_pipes s !! fa_pipe f = Some c → has_flag (fa_flags f) FILE_WRITE = true → writerCount c ≤ 1 →
  all_awake (dataAvailable c) s s'.

(** A file access nobody refers to is disposed of, and its pipe with its last file access. *)
Lemma freeFileAccess_ok N g s fa f : kinv N g s → k_files s !! fa = Some f → sum_of (slots fa) (k_procs s) = 0 →
  (∀ x, g_ref g x = 0 ∧ g_wr g x = 0) → N + 64 ≤ 2 ^ 30 →
  ∃ s', freeFileAccess fa s = KDone s' () ∧ kinv (N + 64) g s' ∧ oframe s s' ∧
    k_files s' = delete fa (k_files s) ∧ pipes_without fa (fa_pipe f) s s' ∧ eof_sent f s s'.
Proof.
  intros H Hf Hno Hg HN. pose proof (kinv_file_ne _ _ _ _ _ H Hf) as Hfa.
  unfold freeFileAccess. rewrite (proj2 (Z.eqb_neq fa 0)) by done. unfold file.
  rewrite kbind_eq, (kload_some _ _ _ _ Hf). kred. destruct (Z.eqb_spec (fa_pipe f) 0) as [Hp0|Hp]; cbn [negb].
  - exists (set_files (delete fa (k_files s)) s). split; [done|].
    pose proof (kinv_delete_file _ _ _ _ _ H Hf Hno) as H1. destruct (kinv_pos _ _ _ H) as (_ & Hn0 & _).
    split; [|split; [by apply oframe_same|split; [done|]]].
    + apply (kinv_mono N); [|lia]. apply (kinv_ghost _ _ _ _ H1); [done|]. kred. intros x Hx.
      cbn [g_ref g_wr]. unfold bump. destruct (Z.eqb_spec x (fa_pipe f)) as [->|]; [|done].
      rewrite Hp0, Hn0 in Hx. by destruct Hx.
    + split.
      * intros p. kred. split; [|tauto]. intros Hx. split; [done|]. intros ->. rewrite Hp0, Hn0 in Hx. by destruct Hx.
      * intros c Hc. rewrite Hp0 in Hc. congruence.
  - set (q := fa_pipe f) in *. destruct (proj1 (ki_file _ _ _ H fa f Hf)) as [?|[c Hc]]; [done|]. fold q in Hc.
    set (w := if has_flag (fa_flags f) FILE_WRITE then 1 else 0).
    (* the writer *)
    assert (∃ s1, (if has_flag (fa_flags f) FILE_WRITE then removePipeWriter q else mret ()) s = KDone s1 () ∧
      kinv (N + 64) (mkGhost (g_file g) (g_ref g) (bump (g_wr g) q (- w))) s1 ∧ oframe s s1 ∧
      k_files s1 = k_files s ∧ k_pipes s1 = <[q := set_counts (pipe_refCount c) (writerCount c - w) c]> (k_pipes s) ∧
      (has_flag (fa_flags f) FILE_WRITE = true → writerCount c ≤ 1 → all_awake (dataAvailable c) s s1))
      as (s1 & E1 & H1 & O1 & F1 & P1 & W1).
    { unfold w. destruct (has_flag _ _).
      - destruct (removePipeWriter_ok N g s q c H Hc HN) as (s1 & ? & ? & ? & ? & ? & ?); [rewrite (proj2 (Hg q)); lia|].
        exists s1. by split_and!.
      - exists s. split; [done|]. rewrite Z.sub_0_r. split; [|split; [by apply oframe_refl|split; [done|split; [|done]]]].
        + apply (kinv_mono N); [|lia]. apply (kinv_ghost _ _ _ _ H); [done|]. intros x _. cbn [g_ref g_wr].
          unfold bump. destruct (x =? q); lia.
        + symmetry. apply insert_id. rewrite Hc. by destruct c. }
    assert (Heof : ∀ s2, processTable s2 = processTable s1 → k_procs s2 = k_procs s1 → eof_sent f s s2).
    { intros s2 T2 P2 c0 Hc0 Hw Hle d Hd Hlen x Hx. fold q in Hc0. assert (c0 = c) as -> by congruence.
      unfold state_of, proc_of. rewrite T2, P2. by apply (W1 Hw Hle d). }
    rewrite kbind_eq. rewrite kbind_eq, E1. kred.
    set (c1 := set_counts (pipe_refCount c) (writerCount c - w) c) in *.
    assert (Hc1 : k_pipes s1 !! q = Some c1) by (rewrite P1; apply lookup_insert_eq).
    rewrite (removePipeRef_eq _ _ _ _ _ H1 Hc1) by (cbn [g_ref]; rewrite (proj1 (Hg q)); lia). kred.
    (* with the file access gone, the counts are right again *)
    assert (H2 : kinv (N + 64) (mkGhost (g_file g) (bump (g_ref g) q 1) (g_wr g)) (set_files (delete fa (k_files s1)) s1)).
    { assert (Hf1 : k_files s1 !! fa = Some f) by (by rewrite F1).
      assert (Hno1 : sum_of (slots fa) (k_procs s1) = 0).
      { rewrite <- Hno. apply sum_of_like; [|apply O1]. by intros a b ->. }
      pose proof (kinv_delete_file _ _ _ _ _ H1 Hf1 Hno1) as H2. apply (kinv_ghost _ _ _ _ H2); [done|].
      intros x _. cbn [g_ref g_wr]. fold q w. unfold bump. destruct (x =? q); lia. }
    pose proof (ki_pipe _ _ _ H2 q c1 Hc1) as [R _]. kred.
    assert (Rg : g_ref (mkGhost (g_file g) (bump (g_ref g) q 1) (g_wr g)) q = 1).
    { cbn [g_ref]. unfold bump. by rewrite Z.eqb_refl, (proj1 (Hg q)). }
    rewrite Rg in R. cbn [k_files set_files] in R. rewrite F1 in R.
    pose proof (sum_of_nonneg (uses q) (delete fa (k_files s)) (λ f, proj1 (uses_range q f))) as Rn.
    assert (HF : ∀ x, is_Some (k_pipes s1 !! x) ↔ is_Some (k_pipes s !! x)).
    { intros x. rewrite P1, lookup_insert_is_Some'. split; [intros [<-|]; [by eexists|done]|by right]. }
    destruct (Z.leb_spec (pipe_refCount c1 - 1) 0).
    + eexists. split; [reflexivity|]. split; [|split; [|split; [|split; [|by apply Heof]]]].
      * assert (Hnone : ∀ x f', delete fa (k_files s1) !! x = Some f' → fa_pipe f' ≠ q).
        { intros x f' Hx Hq. assert (uses q f' ≤ 0); [|unfold uses in *; rewrite Hq, Z.eqb_refl in *; lia].
          rewrite F1 in Hx. pose proof (sum_of_ge (uses q) _ x f' (λ f, proj1 (uses_range q f)) Hx). lia. }
        pose proof (kinv_drop_pipe _ _ _ q c1 H2 Hc1 Hnone) as H3. apply (kinv_ghost _ _ _ _ H3); [done|].
        kred. intros x Hx. cbn [g_ref g_wr]. unfold bump. destruct (Z.eqb_spec x q) as [->|]; [|done].
        rewrite lookup_delete_eq in Hx. by destruct Hx.
      * by apply (oframe_trans _ s1); [|apply oframe_same].
      * kred. by rewrite F1.
      * intros p. kred. rewrite lookup_delete_is_Some, HF. split.
        -- intros [Hne ?]. split; [done|]. by intros ->.
        -- intros [? Hpq]. split; [|done]. intros <-. specialize (Hpq eq_refl). lia.
    + eexists. split; [reflexivity|]. split; [|split; [|split; [|split; [|by apply Heof]]]].
      * pose proof (kinv_counts _ _ _ q c1 (-1) 0 H2 Hc1) as H3. rewrite Z.add_0_r in H3.
        apply (kinv_ghost _ _ _ _ H3); [done|]. intros x _. cbn [g_ref g_wr]. unfold bump. destruct (x =? q); lia.
      * by apply (oframe_trans _ s1); [|apply oframe_same].
      * kred. by rewrite F1.
      * intros p. kred. rewrite lookup_insert_is_Some', HF. split.
        -- intros Hx. assert (Hs : is_Some (k_pipes s !! p)) by (destruct Hx as [<-|]; [by eexists|done]).
           split; [done|]. intros ->. lia.
        -- intros [? _]. by right.
Qed.

Section Pinned.
Context {pin : Pinned}.

(** What dropping one reference to [fa] leaves of the file accesses and the pipes. *)
Definition released (fa : Z) (f : fileAccessCDT) (s s' : kst) : Prop :=
  if sum_of (slots fa) (k_procs s) + driver_refs fa =? 0
  then k_files s' = delete fa (k_files s) ∧ pipes_without fa (fa_pipe f) s s' ∧ eof_sent f s s'
  else k_files s' = <[fa := set_refs (fa_refCount f - 1) f]> (k_files s) ∧ k_pipes s' = k_pipes s.

(** One reference more is counted than there is. *)
Definition over (fa d : Z) : ghost :=
  mkGhost (λ x, driver_refs x + (if x =? fa then d else 0)) (λ _, 0) (λ _, 0).

Lemma removeFileRef_ok N s fa f : kinv N (over fa 1) s → k_files s !! fa = Some f → N + 64 ≤ 2 ^ 30 →
  ∃ s', removeFileRef fa s = KDone s' () ∧ kinv (N + 64) no_ghost s' ∧ oframe s s' ∧ released fa f s s'.
Proof.
  intros H Hf HN. pose proof (kinv_file_ne _ _ _ _ _ H Hf) as Hfa.
  pose proof (driver_refs_range fa) as D. pose proof (slots_range _ _ _ fa H) as R. destruct (ki_file _ _ _ H fa f Hf) as [_ E].
  cbn [g_file over] in E. rewrite Z.eqb_refl in E.
  set (s1 := set_files (<[fa := set_refs (fa_refCount f - 1) f]> (k_files s)) s).
  assert (H1 : kinv N no_ghost s1).
  { pose proof (kinv_refs _ _ _ _ _ (-1) H Hf) as H1. apply (kinv_ghost _ _ _ _ H1); [|done].
    intros x _. cbn. unfold bump. destruct (x =? fa); lia. }
  unfold removeFileRef. rewrite (proj2 (Z.eqb_neq fa 0)) by done.
  rewrite kbind_eq, (kstore_file_eq _ _ _ f) by done. kred. rewrite i32_small by lia. fold s1.
  unfold file. rewrite kbind_eq. erewrite (kload_some k_files fa s1) by (unfold s1; kred; apply lookup_insert_eq). kred.
  cbn [fa_refCount set_refs]. unfold released. destruct (Z.leb_spec (fa_refCount f - 1) 0).
  - rewrite (proj2 (Z.eqb_eq _ _)) by lia.
    destruct (freeFileAccess_ok N no_ghost s1 fa (set_refs (fa_refCount f - 1) f) H1) as (s2 & E2 & H2 & O2 & F2 & P2 & W2);
      [apply lookup_insert_eq|unfold s1; kred; lia|done|done|].
    exists s2. split; [done|]. split; [done|]. split; [by apply (oframe_trans _ s1); [apply oframe_same|]|].
    split; [rewrite F2; unfold s1; kred; apply delete_insert_eq|].
    split; [|exact W2]. intros p. rewrite (P2 p). unfold s1. kred. by rewrite delete_insert_eq.
  - rewrite (proj2 (Z.eqb_neq _ _)) by lia. exists s1. split; [done|]. split; [apply (kinv_mono _ _ _ _ H1); lia|].
    split; [by apply oframe_same|done].
Qed.

(** [p] with the descriptor [fd] set to [fa]. *)
Definition with_slot (p fd fa : Z) (c : processCDT) (s : kst) : kst := set_procs (<[p := set_fd fd fa c]> (k_procs s)) s.

Lemma isOpenFd_eq p fd s c : isValidFd fd = true → k_procs s !! p = Some c →
  isOpenFd p fd s = KDone s (negb (fd_slot c fd =? 0)).
Proof. intros Hv Hc. unfold isOpenFd. rewrite Hv. unfold proc. by rewrite kbind_eq, (kload_some _ _ _ _ Hc). Qed.

Lemma fd_live N g s p c fd : kinv N g s → k_procs s !! p = Some c → isValidFd fd = true → fd_slot c fd ≠ 0 →
  ∃ f, k_files s !! fd_slot c fd = Some f.
Proof.
  intros H Hc Hv Hn. pose proof (fd_lookup _ _ _ _ _ _ H Hc Hv) as Hl.
  destruct (ki_proc _ _ _ H p c Hc) as (_ & _ & L). destruct (L (fd_slot c fd)) as [?|[f ?]]; [|done|by exists f].
  apply list_elem_of_lookup. by eexists.
Qed.

(** Closing an open descriptor. *)
Lemma closeFd_ok N s p c fd : kinv N no_ghost s → k_procs s !! p = Some c → isValidFd fd = true →
  fd_slot c fd ≠ 0 → N + 64 ≤ 2 ^ 30 →
  ∃ s' f, closeFd p fd s = KDone s' 0 ∧ kinv (N + 64) no_ghost s' ∧ oframe (with_slot p fd 0 c s) s' ∧
    k_files s !! fd_slot c fd = Some f ∧ released (fd_slot c fd) f (with_slot p fd 0 c s) s'.
Proof.
  intros H Hc Hv Ho HN. pose proof (kinv_ne _ _ _ _ _ H Hc) as Hp.
  destruct (fd_live _ _ _ _ _ _ H Hc Hv Ho) as [f Hf].
  assert (H1 : kinv N (over (fd_slot c fd) 1) (with_slot p fd 0 c s)).
  { pose proof (kinv_set_fd _ _ _ _ _ fd 0 H Hc Hv (or_introl eq_refl)) as H1.
    apply (kinv_ghost _ _ _ _ H1); [|done]. kred. intros x Hx. cbn. unfold bump.
    destruct (Z.eqb_spec x 0) as [->|]; [|destruct (x =? fd_slot c fd); lia].
    destruct (kinv_pos _ _ _ H) as (E & _). rewrite E in Hx. by destruct Hx. }
  unfold closeFd. rewrite (proj2 (Z.eqb_neq p 0)) by done. rewrite kbind_eq, (isOpenFd_eq _ _ _ _ Hv Hc). kred.
  rewrite (proj2 (Z.eqb_neq _ _)) by done. cbn [negb]. unfold proc.
  rewrite kbind_eq, (kload_some _ _ _ _ Hc). kred. rewrite kbind_eq, (kstore_proc_eq _ _ _ c) by done. kred.
  destruct (removeFileRef_ok N _ _ f H1 Hf HN) as (s2 & E2 & H2 & O2 & R2).
  exists s2, f. rewrite kbind_eq. change (set_procs _ s) with (with_slot p fd 0 c s). by rewrite E2.
Qed.

(** Opening a free one. *)
Lemma openFd_ok N s p c fd fa f : kinv N no_ghost s → k_procs s !! p = Some c → isValidFd fd = true →
  fd_slot c fd = 0 → k_files s !! fa = Some f →
  let s' := set_files (<[fa := set_refs (fa_refCount f + 1) f]> (k_files s)) (with_slot p fd fa c s) in
  openFd p fa fd s = KDone s' fd ∧ kinv N no_ghost s'.
Proof.
  intros H Hc Hv Ho Hf s'. pose proof (kinv_ne _ _ _ _ _ H Hc) as Hp. pose proof (kinv_file_ne _ _ _ _ _ H Hf) as Hfa.
  pose proof (driver_refs_range fa) as D. pose proof (slots_range _ _ _ fa H) as R. destruct (ki_file _ _ _ H fa f Hf) as [_ E]. cbn [g_file no_ghost] in E. split.
  - unfold openFd. rewrite (proj2 (Z.eqb_neq p 0)), (proj2 (Z.eqb_neq fa 0)), Hv by done. cbn [orb negb].
    rewrite kbind_eq, (isOpenFd_eq _ _ _ _ Hv Hc). kred. rewrite Ho. cbn [Z.eqb negb].
    rewrite kbind_eq, (kstore_proc_eq _ _ _ c) by done. kred. unfold addFileRef. rewrite (proj2 (Z.eqb_neq fa 0)) by done.
    rewrite kbind_eq, (kstore_file_eq _ _ _ f) by done. kred. by rewrite i32_small by lia.
  - pose proof (kinv_set_fd _ _ _ _ _ fd fa H Hc Hv (or_intror (mk_is_Some _ _ Hf))) as H1.
    pose proof (kinv_refs _ _ _ fa f 1 H1 Hf) as H2. apply (kinv_ghost _ _ _ _ H2); [|done].
    kred. intros x Hx. cbn. unfold bump. rewrite Ho.
    destruct (Z.eqb_spec x 0) as [->|]; [|destruct (x =? fa); lia]. exfalso.
    destruct (kinv_pos _ _ _ H) as (E0 & _). rewrite lookup_insert_ne, E0 in Hx by done. by destruct Hx.
Qed.

(** ** No leaks *)

(** Every file access is held by a descriptor or a driver, every pipe by a file access. *)
Record tight (s : kst) : Prop := {
  t_file : ∀ fa, is_Some (k_files s !! fa) → 0 < sum_of (slots fa) (k_procs s) + driver_refs fa;
  t_pin : ∀ fa, fa ∈ pins → is_Some (k_files s !! fa);
  t_pipe : ∀ q, is_Some (k_pipes s !! q) → 0 < sum_of (uses q) (k_files s);
}.

(** The invariant between two operations. *)
Definition held (N : Z) (s : kst) : Prop := kinv N no_ghost s ∧ tight s.

Lemma slots_like fa s s' : oframe s s' → sum_of (slots fa) (k_procs s') = sum_of (slots fa) (k_procs s).
Proof. intros O. apply sum_of_like; [by intros a b ->|apply O]. Qed.

Lemma slots_with_slot N g s p c fd v x : kinv N g s → k_procs s !! p = Some c → isValidFd fd = true →
  sum_of (slots x) (k_procs (with_slot p fd v c s)) =
    sum_of (slots x) (k_procs s) - (if x =? fd_slot c fd then 1 else 0) + (if x =? v then 1 else 0).
Proof.
  intros H Hc Hv. pose proof (fd_lookup _ _ _ _ _ _ H Hc Hv) as Hl. unfold with_slot. kred.
  rewrite (sum_of_update _ _ _ c) by done. unfold slots at 3. cbn [fdTable set_fd with_fds].
  rewrite (count_insert x v (fd_slot c fd)) by done. unfold slots at 2. clear. lia.
Qed.

Lemma uses_refs q v f : uses q (set_refs v f) = uses q f.
Proof. done. Qed.

Lemma released_tight N s p c fd s' f : kinv N no_ghost s → tight s → k_procs s !! p = Some c → isValidFd fd = true →
  k_files s !! fd_slot c fd = Some f →
  oframe (with_slot p fd 0 c s) s' → released (fd_slot c fd) f (with_slot p fd 0 c s) s' → tight s'.
Proof.
  intros H [T1 T0 T2] Hc Hv Hf O R. set (fa := fd_slot c fd) in *. set (s1 := with_slot p fd 0 c s) in *.
  assert (Hne : ∀ x, is_Some (k_files s !! x) → x ≠ 0).
  { intros x Hx ->. destruct (kinv_pos _ _ _ H) as (E & _). rewrite E in Hx. by destruct Hx. }
  assert (Hsum : ∀ x, is_Some (k_files s !! x) → x ≠ fa → 0 < sum_of (slots x) (k_procs s') + driver_refs x).
  { intros x Hx Hxf. rewrite (slots_like _ _ _ O). unfold s1. rewrite (slots_with_slot _ _ _ _ _ _ _ _ H Hc Hv).
    fold fa. rewrite (proj2 (Z.eqb_neq x fa)), (proj2 (Z.eqb_neq x 0)) by auto. specialize (T1 x Hx). lia. }
  unfold released in R. pose proof (driver_refs_range fa) as D.
  pose proof (sum_of_nonneg (slots fa) (k_procs s1) (slots_nonneg fa)) as Hn.
  destruct (Z.eqb_spec (sum_of (slots fa) (k_procs s1) + driver_refs fa) 0) as [E|E].
  - destruct R as (F & P & _). split.
    + intros x. rewrite F. unfold s1, with_slot. kred. rewrite lookup_delete_is_Some. intros [Hxf Hx]. auto.
    + intros x Hx. rewrite F. unfold s1, with_slot. kred. apply lookup_delete_is_Some. split; [|auto].
      intros ->. apply driver_refs_pin in Hx. lia.
    + intros q. rewrite (P q), F. unfold s1, with_slot. kred. intros [Hq Hl]. destruct (decide (q = fa_pipe f)) as [|Hqf]; [auto|].
      rewrite (sum_of_delete _ _ _ f) by done. unfold uses at 2. rewrite (proj2 (Z.eqb_neq (fa_pipe f) q)) by congruence.
      specialize (T2 q Hq). lia.
  - destruct R as [F P]. split.
    + intros x. rewrite F. unfold s1, with_slot. kred. rewrite lookup_insert_is_Some'. intros Hx. destruct (decide (x = fa)) as [->|].
      * rewrite (slots_like _ _ _ O). lia.
      * apply Hsum; [|done]. by destruct Hx as [<-|Hx].
    + intros x Hx. rewrite F. unfold s1, with_slot. kred. rewrite lookup_insert_is_Some'. auto.
    + intros q. rewrite P, F. unfold s1, with_slot. kred. rewrite (sum_of_update _ _ _ f), uses_refs by done. intros Hq.
      specialize (T2 q Hq). lia.
Qed.

Lemma closeFd_held N s p c fd : held N s → k_procs s !! p = Some c → isValidFd fd = true →
  fd_slot c fd ≠ 0 → N + 64 ≤ 2 ^ 30 →
  ∃ s', closeFd p fd s = KDone s' 0 ∧ held (N + 64) s' ∧ oframe (with_slot p fd 0 c s) s'.
Proof.
  intros [H T] Hc Hv Ho HN. destruct (closeFd_ok N s p c fd H Hc Hv Ho HN) as (s' & f & E & H' & O & Hf & R).
  exists s'. split; [done|]. split; [|done]. split; [done|]. exact (released_tight _ _ _ _ _ _ _ H T Hc Hv Hf O R).
Qed.

Lemma held_mono N N' s : held N s → N ≤ N' → held N' s.
Proof. intros [H T] ?. split; [by apply (kinv_mono N)|done]. Qed.

(** A free descriptor is set to a live file access. *)
Lemma openFd_held N s p c fd fa f : held N s → k_procs s !! p = Some c → isValidFd fd = true →
  fd_slot c fd = 0 → k_files s !! fa = Some f →
  ∃ s', openFd p fa fd s = KDone s' fd ∧ held N s' ∧ oframe (with_slot p fd fa c s) s' ∧ k_pipes s' = k_pipes s ∧
    k_files s' = <[fa := set_refs (fa_refCount f + 1) f]> (k_files s).
Proof.
  intros [H [T1 T0 T2]] Hc Hv Ho Hf. destruct (openFd_ok N s p c fd fa f H Hc Hv Ho Hf) as [E H'].
  eexists. split; [exact E|]. split; [split; [exact H'|]|split; [by apply oframe_same|done]]. split; kred.
  - intros x Hx. rewrite (slots_with_slot _ _ _ _ _ _ _ _ H Hc Hv), Ho.
    assert (Hx' : is_Some (k_files s !! x)) by (apply lookup_insert_is_Some' in Hx as [<-|]; [by eexists|done]).
    assert (x ≠ 0) as Hx0 by (intros ->; destruct (kinv_pos _ _ _ H) as (E0 & _); rewrite E0 in Hx'; by destruct Hx').
    rewrite (proj2 (Z.eqb_neq x 0)) by done. specialize (T1 x Hx'). destruct (x =? fa); lia.
  - intros x Hx. rewrite lookup_insert_is_Some'. auto.
  - intros q Hq. rewrite (sum_of_update _ _ _ f), uses_refs by done. specialize (T2 q Hq). lia.
Qed.

End Pinned.

(** ** One process changes *)

(** The fields that the operations on descriptors leave alone. *)
Definition same_fields (c c' : processCDT) : Prop :=
  p_pid c' = p_pid c ∧ p_rip c' = p_rip c ∧ p_name c' = p_name c ∧ priorityLevel c' = priorityLevel c ∧
  remainingQuantums c' = remainingQuantums c ∧ p_argv c' = p_argv c ∧ p_argc c' = p_argc c ∧
  children c' = children c ∧ terminatedChildren c' = terminatedChildren c.

Lemma same_fields_trans a b c : same_fields a b → same_fields b c → same_fields a c.
Proof. unfold same_fields. intuition congruence. Qed.

(** Only the descriptors change. *)
Definition only_fds (c c' : processCDT) : Prop := same_fields c c' ∧ p_ppid c' = p_ppid c ∧ p_state c' = p_state c.

(** [s'] is [s] with the descriptor of [p] replaced, up to wake-ups and to the objects of the
    heap. *)
Definition becomes (p : Z) (c' : processCDT) (s s' : kst) : Prop :=
  oframe (set_procs (<[p := c']> (k_procs s)) s) s'.

Lemma becomes_proc p c s s' : becomes p c s s' → ∃ c', k_procs s' !! p = Some c' ∧ proc_like c c'.
Proof.
  intros B. pose proof (of_procs _ _ B p) as H. revert H. kred. rewrite lookup_insert_eq.
  intros H. inversion H as [? c' Hl E1 E2|]. by exists c'.
Qed.

Lemma becomes_other p c s s' q : becomes p c s s' → q ≠ p → option_Forall2 proc_like (k_procs s !! q) (k_procs s' !! q).
Proof. intros B Hq. pose proof (of_procs _ _ B q) as H. revert H. kred. by rewrite lookup_insert_ne. Qed.

Lemma becomes_trans p c1 c1' c2 c2' s s1 s2 : becomes p c1 s s1 → k_procs s1 !! p = Some c1' →
  p_state c2 = p_state c1 → p_state c2' = p_state c1' → proc_like c2 c2' → becomes p c2' s1 s2 → becomes p c2 s s2.
Proof.
  intros B1 Hc1 Es Es' L B2. pose proof B1 as [A1 A2 A3 A4 A5 A6]. pose proof B2 as [C1 C2 C3 C4 C5 C6].
  split; kred; (try (etrans; [eassumption|eassumption])).
  - intros q. destruct (decide (q = p)) as [->|Hq].
    + rewrite lookup_insert_eq. destruct (becomes_proc _ _ _ _ B2) as (d & -> & Hd). constructor. by etrans.
    + rewrite lookup_insert_ne by done. pose proof (becomes_other _ _ _ _ _ B1 Hq) as H1.
      pose proof (becomes_other _ _ _ _ _ B2 Hq) as H2. destruct H1; inversion H2; constructor. by etrans.
  - apply (wakes_trans _ s1).
    + intros x. specialize (A6 x). rewrite state_of_insert in *. by rewrite Es.
    + intros x. specialize (C6 x). by rewrite (state_of_same _ _ _ _ _ Hc1 Es') in C6.
Qed.

Lemma becomes_id p c s s' : k_procs s !! p = Some c → oframe s s' → becomes p c s s'.
Proof.
  intros Hc O. unfold becomes. replace (set_procs _ s) with s; [done|]. rewrite insert_id by done. by destruct s.
Qed.

(** ** Filling the table of descriptors *)

(** The loops over the table: slot [i] becomes [v i], an empty one that stays empty is not
    written. *)
Definition put_slot (v : Z → Z) (c : processCDT) (i : Z) : processCDT :=
  if (fd_slot c i =? 0) && (v i =? 0) then c else set_fd i (v i) c.

#[export] Instance put_slot_proper v : Proper (proc_like ==> eq ==> proc_like) (put_slot v).
Proof.
  intros a b L i _ <-. unfold put_slot. rewrite (fd_slot_proper _ _ L i i eq_refl).
  destruct (_ && _); [done|]. by apply set_fd_proper.
Qed.
Lemma put_slots_like v l : ∀ a b, proc_like a b → proc_like (foldl (put_slot v) a l) (foldl (put_slot v) b l).
Proof. induction l as [|i l IH]; intros a b L; [done|]. cbn [foldl]. apply IH. by apply put_slot_proper. Qed.

Lemma put_slot_state v c i : p_state (put_slot v c i) = p_state c.
Proof. unfold put_slot. by destruct (_ && _). Qed.
Lemma put_slot_only v c i : only_fds c (put_slot v c i).
Proof. unfold put_slot. by case_match. Qed.
Lemma put_slots_state v l : ∀ c, p_state (foldl (put_slot v) c l) = p_state c.
Proof. induction l as [|i l IH]; intros c; [done|]. cbn [foldl]. by rewrite IH, put_slot_state. Qed.

Definition full (c : processCDT) : Prop := length (fdTable c) = 16%nat ∧ length (eofRequests c) = 16%nat.

Lemma valid_range fd : isValidFd fd = true ↔ 0 ≤ fd < 16.
Proof. unfold isValidFd, MAX_FDS. rewrite andb_true_iff, Z.leb_le, Z.ltb_lt. done. Qed.

Lemma set_fd_full fd v c : full c → full (set_fd fd v c).
Proof. intros [? ?]. split; cbn [fdTable eofRequests set_fd with_fds]; by rewrite length_insert. Qed.

Lemma fd_slot_set c fd v j : full c → isValidFd fd = true → isValidFd j = true →
  fd_slot (set_fd fd v c) j = if j =? fd then v else fd_slot c j.
Proof.
  rewrite !valid_range. intros [L _] H1 H2. unfold fd_slot. cbn [fdTable set_fd with_fds].
  destruct (Z.eqb_spec j fd) as [->|Hj].
  - by rewrite list_lookup_insert_eq by lia.
  - by rewrite list_lookup_insert_ne by lia.
Qed.

Lemma put_slot_full v c i : full c → full (put_slot v c i).
Proof. intros F. unfold put_slot. destruct (_ && _); [done|]. by apply set_fd_full. Qed.

Lemma fd_slot_put v c i j : full c → isValidFd i = true → isValidFd j = true →
  fd_slot (put_slot v c i) j = if j =? i then v j else fd_slot c j.
Proof.
  intros F Hi Hj. unfold put_slot. destruct (_ && _) eqn:E.
  - apply andb_true_iff in E as [E1%Z.eqb_eq E2%Z.eqb_eq]. destruct (Z.eqb_spec j i) as [->|]; congruence.
  - rewrite fd_slot_set by done. by destruct (Z.eqb_spec j i) as [->|].
Qed.

Lemma fd_slot_puts v l : ∀ c j, full c → (∀ i, i ∈ l → isValidFd i = true) → isValidFd j = true →
  full (foldl (put_slot v) c l) ∧
  fd_slot (foldl (put_slot v) c l) j = if bool_decide (j ∈ l) then v j else fd_slot c j.
Proof.
  induction l as [|i l IH]; intros c j F Hl Hj; cbn [foldl].
  - rewrite bool_decide_false by set_solver. done.
  - destruct (IH (put_slot v c i) j) as [F' ->]; [by apply put_slot_full|intros; apply Hl; set_solver|done|].
    split; [done|]. rewrite (fd_slot_put v c i j) by (done || apply Hl; set_solver).
    destruct (decide (j ∈ l)) as [Hin|Hin]; [rewrite (bool_decide_true (j ∈ l)), (bool_decide_true (j ∈ i :: l)) by set_solver; done|].
    rewrite (bool_decide_false (j ∈ l)) by done. destruct (Z.eqb_spec j i) as [->|Hji].
    + by rewrite bool_decide_true by set_solver.
    + by rewrite bool_decide_false by set_solver.
Qed.

Lemma kinv_full N g s p c : kinv N g s → k_procs s !! p = Some c → full c.
Proof. intros H Hc. destruct (ki_proc _ _ _ H p c Hc) as (? & ? & _). done. Qed.

End KernelInv.
