(* ===== verification/KernelCheck.v ===== *)
(** * Deciding the invariant of the kernel on a concrete state

    The quantifiers of [kinv] and [tight] range over finite maps, so both are decidable: the
    witnesses of the development check them by evaluation.  The file ends with the small
    kernel most of them use. *)

From S2P Require Import Prelude CircularBuffer KState ProcTable Semaphore Pipe Process KernelInv.
Import ProcTable Semaphore Pipe FileAccess Process KernelInv.

Module KernelCheck.

Definition is_ready (s : kst) (pid : Z) : bool := bool_decide (state_of s pid = Some READY).
Definition is_running (s : kst) (pid : Z) : bool := bool_decide (state_of s pid = Some RUNNING).

Definition sched_check (s : kst) : bool :=
  forallb (λ '(pid, p), (0 <=? pid) && (pid <? 64) && negb (p =? 0) &&
      match k_procs s !! p with Some c => p_pid c =? pid | None => false end &&
      implb (is_ready s pid) (bool_decide (pid ∈ default [] (readyQueue s))) &&
      implb (is_running s pid) (p =? currentProcess s)) (map_to_list (processTable s)) &&
  bool_decide (is_Some (readyQueue s)) && bool_decide (NoDup (default [] (readyQueue s))) &&
  forallb (is_ready s) (default [] (readyQueue s)) &&
  ((currentProcess s =? 0) || existsb (λ '(_, p), p =? currentProcess s) (map_to_list (processTable s))) &&
  (is_ready s IDLE_PID || is_running s IDLE_PID) &&
  forallb (λ pid, bool_decide (is_Some (processTable s !! pid))) (elements (foregroundSet s)).

(** The entries of a map satisfy what the check says of its list. *)
Lemma forallb_map {A} (f : Z * A → bool) (m : gmap Z A) k a :
  forallb f (map_to_list m) = true → m !! k = Some a → f (k, a) = true.
Proof.
  intros H Hk. rewrite forallb_forall in H. apply H. apply list_elem_of_In. by apply elem_of_map_to_list.
Qed.

Lemma sched_check_sound s : sched_check s = true → sched_inv s.
Proof.
  unfold sched_check. rewrite !andb_true_iff. intros [[[[[[Ht Hr] Hn] Hq] Hc] Hi] Hf].
  assert (T : ∀ pid p, processTable s !! pid = Some p → 0 ≤ pid < 64 ∧ p ≠ 0 ∧
    (∃ c, k_procs s !! p = Some c ∧ p_pid c = pid) ∧
    (state_of s pid = Some READY → pid ∈ default [] (readyQueue s)) ∧
    (state_of s pid = Some RUNNING → p = currentProcess s)).
  { intros pid p Hp. pose proof (forallb_map _ _ _ _ Ht Hp) as E. cbn beta iota in E. rewrite !andb_true_iff in E.
    destruct E as [[[[[E1 E2] E3] E4] E5] E6]. split; [lia|]. split; [by apply negb_true_iff, Z.eqb_neq in E3|]. split_and!.
    - destruct (k_procs s !! p) as [c|]; [|done]. exists c. by apply Z.eqb_eq in E4.
    - intros E. unfold is_ready in E5. rewrite bool_decide_true in E5 by done. by apply bool_decide_eq_true in E5.
    - intros E. unfold is_running in E6. rewrite bool_decide_true in E6 by done. by apply Z.eqb_eq in E6. }
  apply bool_decide_eq_true in Hr as [l Hl]. rewrite Hl in *. cbn [default from_option id] in *.
  split.
  - intros pid p Hp. destruct (T pid p Hp) as (? & ? & ? & _). done.
  - exists l. split; [done|]. split; [by apply bool_decide_eq_true in Hn|]. intros pid. split.
    + intros Hin. rewrite forallb_forall in Hq. apply list_elem_of_In, Hq in Hin. by apply bool_decide_eq_true in Hin.
    + intros E. destruct (state_of_some _ _ _ E) as (p & c & Hp & _). by apply (T pid p Hp).
  - intros pid E. destruct (state_of_some _ _ _ E) as (p & c & Hp & _). rewrite Hp. f_equal. by apply (T pid p Hp).
  - intros Hne. apply orb_true_iff in Hc as [Hc%Z.eqb_eq|Hc]; [done|]. apply existsb_exists in Hc as ([pid p] & Hin & E%Z.eqb_eq).
    exists pid. apply list_elem_of_In, elem_of_map_to_list in Hin. congruence.
  - apply orb_true_iff in Hi as [Hi|Hi]; apply bool_decide_eq_true in Hi; [by left|by right].
  - intros pid Hin. rewrite forallb_forall in Hf. apply elem_of_elements, list_elem_of_In, Hf in Hin.
    by apply bool_decide_eq_true in Hin.
Qed.

(** Every semaphore with its owner. *)
Definition owner_list (s : kst) : list (Z * owner) :=
  ('(p, c) ← map_to_list (k_pipes s); imap (λ i q, (q, OPipe p i)) (pipe_sems c)) ++
  ('(p, c) ← map_to_list (k_procs s); imap (λ i q, (q, OProc p i)) (proc_sems c)) ++
  concat (imap (λ i e, if ss_used e then [(ss_sem e, OShared i)] else []) (sharedTable s)).

Lemma owner_listed s q o : owns s q o → (q, o) ∈ owner_list s.
Proof.
  unfold owner_list. rewrite !elem_of_app. destruct o as [p i|p i|i]; simpl.
  - intros (c & Hc & Hi). left. apply list_elem_of_bind. exists (p, c). split; [|by apply elem_of_map_to_list].
    change ((q, OPipe p i) ∈ imap (λ i q, (q, OPipe p i)) (pipe_sems c)). apply elem_of_lookup_imap. by exists i, q.
  - intros (c & Hc & Hi). right; left. apply list_elem_of_bind. exists (p, c). split; [|by apply elem_of_map_to_list].
    change ((q, OProc p i) ∈ imap (λ i q, (q, OProc p i)) (proc_sems c)). apply elem_of_lookup_imap. by exists i, q.
  - intros (e & He & Hu & <-). right; right. apply list_elem_of_In, in_concat. exists [(ss_sem e, OShared i)].
    split; [|by left]. apply list_elem_of_In, elem_of_lookup_imap. exists i, e. by rewrite Hu.
Qed.

Lemma nodup_fst {A B} (l : list (A * B)) a b b' : NoDup l.*1 → (a, b) ∈ l → (a, b') ∈ l → b = b'.
Proof.
  induction l as [|[x y] l IH]; cbn [fmap list_fmap fst].
  - intros _ H. by apply elem_of_nil in H.
  - intros [Hx Hn]%list.NoDup_cons [[=]|H1]%elem_of_cons [[=]|H2]%elem_of_cons; subst; auto.
    + destruct Hx. by apply (list_elem_of_fmap_2' fst _ (x, b')).
    + destruct Hx. by apply (list_elem_of_fmap_2' fst _ (x, b)).
Qed.

Definition in_store {A} (s : kst) (m : gmap Z A) : bool :=
  forallb (λ '(k, _), (0 <? k) && (k <? k_next s)) (map_to_list m).
Definition live {A} (m : gmap Z A) (k : Z) : bool := bool_decide (is_Some (m !! k)).

Section Pinned.
Context {pin : Pinned}.

Definition kinv_check (N : Z) (s : kst) : bool :=
  (0 <=? N) && bool_decide (k_mem s = []) && (0 <? k_next s) && sched_check s &&
  (in_store s (k_sems s) && in_store s (k_pipes s) && in_store s (k_files s) && in_store s (k_procs s)) &&
  forallb (λ '(_, c), negb (sem_lock c) && (len (blockedQueue c) =? Z.max 0 (- sem_value c)) &&
      forallb (λ x, (0 <=? x) && (x <? 64)) (blockedQueue c) &&
      (- 2 ^ 20 - N <=? sem_value c) && (sem_value c <=? N)) (map_to_list (k_sems s)) &&
  forallb (λ '(q, _), live (k_sems s) q) (owner_list s) && bool_decide (NoDup (owner_list s).*1) &&
  forallb (λ '(p, c), (pipe_refCount c =? sum_of (uses p) (k_files s)) &&
      (writerCount c =? sum_of (writes p) (k_files s))) (map_to_list (k_pipes s)) &&
  forallb (λ '(fa, f), ((fa_pipe f =? 0) || live (k_pipes s) (fa_pipe f)) &&
      (fa_refCount f =? sum_of (slots fa) (k_procs s) + driver_refs fa)) (map_to_list (k_files s)) &&
  forallb (λ '(_, c), Nat.eqb (length (fdTable c)) 16 && Nat.eqb (length (eofRequests c)) 16 &&
      forallb (λ fa, (fa =? 0) || live (k_files s) fa) (fdTable c)) (map_to_list (k_procs s)) &&
  (Z.of_nat (size (k_procs s)) <=? 64) && (Z.of_nat (size (k_files s)) <=? 2 ^ 20).

Lemma in_store_sound {A} s (m : gmap Z A) : in_store s m = true → below s m.
Proof. intros H k [a Ha]. pose proof (forallb_map _ _ _ _ H Ha) as E. cbn in E. lia. Qed.

Lemma kinv_check_sound N s : kinv_check N s = true → kinv N no_ghost s.
Proof.
  unfold kinv_check. rewrite !andb_true_iff.
  intros [[[[[[[[[[[[C0 C1] C2] C3] [[[C4 C5] C6] C7]] C8] C9] C10] C11] C12] C13] C14] C15].
  split.
  - lia.
  - split; [by apply bool_decide_eq_true in C1|lia].
  - by apply sched_check_sound.
  - split_and!; by apply in_store_sound.
  - intros q c Hc. pose proof (forallb_map _ _ _ _ C8 Hc) as E. cbn beta iota in E. rewrite !andb_true_iff in E.
    destruct E as [[[[E1 E2] E3] E4] E5]. split; [|lia]. split; [by apply negb_true_iff in E1|lia|].
    intros x Hx. rewrite forallb_forall in E3. apply list_elem_of_In, E3 in Hx. lia.
  - intros q o Ho%owner_listed. rewrite forallb_forall in C9. apply list_elem_of_In, C9 in Ho. by apply bool_decide_eq_true in Ho.
  - intros q o o' Ho%owner_listed Ho'%owner_listed. apply bool_decide_eq_true in C10. by apply (nodup_fst _ q _ _ C10).
  - intros p c Hc. pose proof (forallb_map _ _ _ _ C11 Hc) as E. cbn beta iota in E. rewrite andb_true_iff in E.
    destruct E. cbn [g_ref g_wr no_ghost]. lia.
  - intros fa f Hf. pose proof (forallb_map _ _ _ _ C12 Hf) as E. cbn beta iota in E. rewrite andb_true_iff in E.
    destruct E as [E1 E2]. cbn [g_file no_ghost]. split; [|lia].
    apply orb_true_iff in E1 as [E1|E1]; [left; lia|right; by apply bool_decide_eq_true in E1].
  - intros p c Hc. pose proof (forallb_map _ _ _ _ C13 Hc) as E. cbn beta iota in E. rewrite !andb_true_iff in E.
    destruct E as [[E1 E2] E3]. split; [by apply Nat.eqb_eq|]. split; [by apply Nat.eqb_eq|]. intros fa Hfa.
    rewrite forallb_forall in E3. apply list_elem_of_In, E3 in Hfa.
    apply orb_true_iff in Hfa as [E|E]; [left; lia|right; by apply bool_decide_eq_true in E].
  - lia.
Qed.

Definition tight_check (s : kst) : bool :=
  forallb (λ '(fa, _), 0 <? sum_of (slots fa) (k_procs s) + driver_refs fa) (map_to_list (k_files s)) &&
  forallb (live (k_files s)) (elements pins) &&
  forallb (λ '(q, _), 0 <? sum_of (uses q) (k_files s)) (map_to_list (k_pipes s)).

Lemma held_check N s : kinv_check N s && tight_check s = true → held N s.
Proof.
  intros [H1 [[H2 H0]%andb_true_iff H3]%andb_true_iff]%andb_true_iff. split; [by apply kinv_check_sound|]. split.
  - intros fa [f Hf]. pose proof (forallb_map _ _ _ _ H2 Hf) as E. cbn in E. lia.
  - intros fa Hfa. rewrite forallb_forall in H0. apply elem_of_elements, list_elem_of_In, H0 in Hfa. by apply bool_decide_eq_true in Hfa.
  - intros q [c Hc]. pose proof (forallb_map _ _ _ _ H3 Hc) as E. cbn in E. lia.
Qed.

End Pinned.

(** ** A small kernel with a pipe

    Init waits for its children; process 2, its child, runs and holds both ends of a pipe;
    process 3, a child of 2, is blocked reading it. *)

Definition fd_table (l : list Z) : list Z := l ++ replicate (16 - length l) 0.

Definition small_proc (pid ppid : Z) (st : State) (cs : list Z) (te cte : Z) (fds : list Z) : processCDT :=
  mkProc pid (pid * 65536 + 65536) 32768 (pid * 65536 + 65536 + 32768) 4194304 st [] 1 0 ppid
    (Some cs) (Some []) te cte 0 None (fd_table fds) (replicate 16 false).

Definition small_buffer : CircularBuffer.circularBufferCDT :=
  CircularBuffer.mkCB ∅ 1024 0 0 0 512 536.

Definition small : kst :=
  mkK [] 65536
    {[ 200 := mkSem (-1) [3] false; 208 := mkSem 1024 [] false; 216 := mkSem 1 [] false; 224 := mkSem 1 [] false;
       304 := mkSem 0 [] false; 312 := mkSem 0 [] false; 320 := mkSem 0 [] false; 328 := mkSem (-1) [1] false;
       336 := mkSem 0 [] false; 344 := mkSem 0 [] false; 352 := mkSem 0 [] false; 360 := mkSem 0 [] false ]}
    {[ 48 := mkPipe (Some small_buffer) 200 208 216 224 2 1 ]}
    {[ 400 := mkFile 48 FILE_READ 2; 408 := mkFile 48 FILE_WRITE 1 ]}
    {[ 8 := small_proc 0 1 READY [] 304 312 []; 32 := small_proc 1 1 BLOCKED [2] 320 328 [];
       16 := small_proc 2 1 RUNNING [3] 336 344 [400; 408]; 24 := small_proc 3 2 BLOCKED [] 352 360 [400] ]} ∅
    {[ 0 := 8; 1 := 32; 2 := 16; 3 := 24 ]} {[ 2 ]} 16 (Some [0]) true [] false 0.

Lemma small_held : held 1024 small.
Proof. apply held_check. vm_compute. reflexivity. Qed.

End KernelCheck.
