(* ===== verification/Descriptors.v ===== *)
(** * File descriptors: what opening, closing, duplicating and inheriting them does

    The operations of [process.c] on the table of descriptors, against the invariant of
    [KernelInv.v]: no count is ever wrong, a file access dies exactly with its last
    descriptor and a pipe with its last file access. *)

From S2P Require Import Prelude CircularBuffer KState ProcTable Semaphore Pipe Process KernelInv KernelCheck.
Import ProcTable Semaphore Pipe FileAccess Process KernelInv KernelCheck.

Module Descriptors.

(** ** The loops over the table *)

Definition closing : Z → Z := λ _, 0.

Section Pinned.
Context {pin : Pinned}.

Lemma close_one N s p c i : held N s → k_procs s !! p = Some c → isValidFd i = true → N + 64 ≤ 2 ^ 30 →
  ∃ s' r, (if negb (fd_slot c i =? 0) then closeFd p i else mret 0) s = KDone s' r ∧ held (N + 64) s' ∧
    becomes p (put_slot closing c i) s s'.
Proof.
  intros H Hc Hv HN. unfold put_slot, closing. rewrite andb_true_r. destruct (Z.eqb_spec (fd_slot c i) 0); cbn [negb].
  - exists s, 0. split; [done|]. split; [apply (held_mono N); [done|lia]|]. apply becomes_id; [done|apply oframe_refl].
  - destruct (closeFd_held N s p c i H Hc Hv) as (s' & E & H' & O); [done|done|]. by exists s', 0.
Qed.

Lemma close_loop_ok p : ∀ l N s c, held N s → k_procs s !! p = Some c → (∀ i, i ∈ l → isValidFd i = true) →
  N + 64 * len l ≤ 2 ^ 30 →
  ∃ s', close_loop l p s = KDone s' () ∧ held (N + 64 * len l) s' ∧ becomes p (foldl (put_slot closing) c l) s s'.
Proof.
  induction l as [|i l IH]; intros N s c H Hc Hl HN; cbn [close_loop foldl].
  - exists s. split; [done|]. split; [apply (held_mono N); [done|simpl; lia]|]. apply becomes_id; [done|apply oframe_refl].
  - cbn [length] in *. destruct (close_one N s p c i H Hc) as (s1 & r & E1 & H1 & B1); [apply Hl; set_solver|lia|].
    destruct (becomes_proc _ _ _ _ B1) as (c1 & Hc1 & L1).
    destruct (IH (N + 64) s1 c1 H1 Hc1) as (s2 & E2 & H2 & B2); [intros; apply Hl; set_solver|lia|].
    exists s2. split; [|split; [by replace (N + 64 * Z.of_nat (S (length l))) with (N + 64 + 64 * len l) by lia|]].
    + unfold proc. rewrite kbind_eq, (kload_some _ _ _ _ Hc). kred. by rewrite kbind_eq, E1.
    + eapply becomes_trans; [exact B1|exact Hc1| | | |exact B2]; [by rewrite put_slots_state|by rewrite put_slots_state|].
      by apply put_slots_like.
Qed.

(** Closing descriptor [i] of [target] and opening it on the file access of [source]. *)
Lemma copy_one N s target source c src i : held N s → k_procs s !! target = Some c → k_procs s !! source = Some src →
  target ≠ source → isValidFd i = true → N + 64 ≤ 2 ^ 30 →
  ∃ s' s1 r r', (if negb (fd_slot c i =? 0) then closeFd target i else mret 0) s = KDone s1 r ∧
    (∃ src1, k_procs s1 !! source = Some src1 ∧ proc_like src src1) ∧
    (if negb (fd_slot src i =? 0) then openFd target (fd_slot src i) i else mret 0) s1 = KDone s' r' ∧
    held (N + 64) s' ∧ becomes target (put_slot (fd_slot src) c i) s s'.
Proof.
  intros H Hc Hsrc Hne Hv HN. destruct (close_one N s target c i H Hc Hv HN) as (s1 & r & E1 & H1 & B1).
  pose proof (kinv_full _ _ _ _ _ (proj1 H) Hc) as Hf.
  pose proof (becomes_other _ _ _ _ source B1 (not_eq_sym Hne)) as Ho. rewrite Hsrc in Ho.
  inversion Ho as [? src1 Ls Es Es1|]. symmetry in Es1. destruct (becomes_proc _ _ _ _ B1) as (c1 & Hc1 & L1).
  destruct (Z.eqb_spec (fd_slot src i) 0) as [E0|E0]; cbn [negb].
  - exists s1, s1, r, 0. split; [done|]. split; [by exists src1|]. split; [done|]. split; [done|].
    unfold put_slot in *. by rewrite E0.
  - destruct (fd_live _ _ _ _ _ i (proj1 H1) Es1 Hv) as [f Hfile].
    { by rewrite <- (fd_slot_proper _ _ Ls i i eq_refl). }
    rewrite <- (fd_slot_proper _ _ Ls i i eq_refl) in Hfile.
    assert (Z0 : fd_slot c1 i = 0).
    { rewrite <- (fd_slot_proper _ _ L1 i i eq_refl), (fd_slot_put closing c i i) by done. by rewrite Z.eqb_refl. }
    destruct (openFd_held _ _ _ _ _ _ _ H1 Hc1 Hv Z0 Hfile) as (s2 & E2 & H2 & O2 & _).
    exists s2, s1, r, i. split; [done|]. split; [by exists src1|]. split; [done|]. split; [done|].
    eapply becomes_trans; [exact B1|exact Hc1| | | |exact O2]; [by rewrite !put_slot_state|done|].
    unfold put_slot at 1. rewrite (proj2 (Z.eqb_neq (fd_slot src i) 0)), andb_false_r by done.
    etrans; [|apply set_fd_proper; exact L1]. unfold put_slot, closing. rewrite andb_true_r.
    destruct (fd_slot c i =? 0); [done|]. unfold set_fd. cbn [with_fds fdTable eofRequests]. by rewrite !list_insert_insert_eq.
Qed.

Lemma copyfd_loop_ok target source : target ≠ source → ∀ l N s c src, held N s → k_procs s !! target = Some c →
  k_procs s !! source = Some src → (∀ i, i ∈ l → isValidFd i = true) → N + 64 * len l ≤ 2 ^ 30 →
  ∃ s', copyfd_loop l target source s = KDone s' () ∧ held (N + 64 * len l) s' ∧
    becomes target (foldl (put_slot (fd_slot src)) c l) s s'.
Proof.
  intros Hne. induction l as [|i l IH]; intros N s c src H Hc Hsrc Hl HN; cbn [copyfd_loop foldl].
  - exists s. split; [done|]. split; [apply (held_mono N); [done|simpl; lia]|]. apply becomes_id; [done|apply oframe_refl].
  - cbn [length] in *.
    destruct (copy_one N s target source c src i H Hc Hsrc Hne) as (s2 & s1 & r & r' & E1 & (src1 & Hs1 & Ls) & E2 & H2 & B2);
      [apply Hl; set_solver|lia|].
    destruct (becomes_proc _ _ _ _ B2) as (c2 & Hc2 & L2).
    pose proof (becomes_other _ _ _ _ source B2 (not_eq_sym Hne)) as Ho. rewrite Hsrc in Ho.
    inversion Ho as [? src2 Ls2 Es Es2|]. symmetry in Es2.
    destruct (IH (N + 64) s2 c2 src2 H2 Hc2 Es2) as (s3 & E3 & H3 & B3); [intros; apply Hl; set_solver|lia|].
    assert (Hput : put_slot (fd_slot src2) = put_slot (fd_slot src)).
    { red in Ls2. rewrite Ls2. done. }
    exists s3. split; [|split; [by replace (N + 64 * Z.of_nat (S (length l))) with (N + 64 + 64 * len l) by lia|]].
    + unfold proc. rewrite kbind_eq, (kload_some _ _ _ _ Hc). kred. rewrite kbind_eq, E1. kred.
      rewrite kbind_eq, (kload_some _ _ _ _ Hs1). kred.
      rewrite <- (fd_slot_proper _ _ Ls i i eq_refl). by rewrite kbind_eq, E2.
    + eapply becomes_trans; [exact B2|exact Hc2| | | |exact B3]; [by rewrite put_slots_state|by rewrite put_slots_state|].
      rewrite Hput. by apply put_slots_like.
Qed.

Lemma seq16 i : i ∈ seqZ 0 MAX_FDS ↔ isValidFd i = true.
Proof. rewrite elem_of_seqZ, valid_range. unfold MAX_FDS. lia. Qed.

(** Two full tables with the same slots are the same. *)
Lemma slots_ext c l : full c → length l = 16%nat →
  (∀ i, isValidFd i = true → fd_slot c i = default 0 (l !! Z.to_nat i)) → fdTable c = l.
Proof.
  intros [Hl _] Hl' H. apply list_eq. intros i. destruct (decide (i < 16)%nat) as [Hi|Hi].
  - specialize (H (Z.of_nat i)). rewrite valid_range in H. unfold fd_slot in H. rewrite Nat2Z.id in H.
    destruct (lookup_lt_is_Some_2 (fdTable c) i) as [x Ex]; [lia|]. destruct (lookup_lt_is_Some_2 l i) as [y Ey]; [lia|].
    rewrite Ex, Ey in *. cbn in H. f_equal. apply H. lia.
  - by rewrite !lookup_ge_None_2 by lia.
Qed.

Lemma copyFdTable_ok N s target source c src : held N s → k_procs s !! target = Some c → k_procs s !! source = Some src →
  target ≠ source → N + 1024 ≤ 2 ^ 30 →
  ∃ s', copyFdTable target source s = KDone s' () ∧ held (N + 1024) s' ∧
    becomes target (foldl (put_slot (fd_slot src)) c (seqZ 0 MAX_FDS)) s s' ∧
    fdTable (foldl (put_slot (fd_slot src)) c (seqZ 0 MAX_FDS)) = fdTable src.
Proof.
  intros H Hc Hsrc Hne HN. unfold copyFdTable.
  rewrite (proj2 (Z.eqb_neq target 0)), (proj2 (Z.eqb_neq source 0)) by (eapply kinv_ne; [exact (proj1 H)|eassumption]).
  destruct (copyfd_loop_ok target source Hne (seqZ 0 MAX_FDS) N s c src H Hc Hsrc) as (s' & E & H' & B);
    [intros i; apply seq16|rewrite length_seqZ; unfold MAX_FDS; lia|].
  exists s'. split; [done|]. split; [by rewrite length_seqZ in H'|]. split; [done|].
  pose proof (kinv_full _ _ _ _ _ (proj1 H) Hc) as F. pose proof (kinv_full _ _ _ _ _ (proj1 H) Hsrc) as Fs.
  apply slots_ext; [|apply Fs|].
  - by apply (fd_slot_puts _ _ c 0 F); [intros i; apply seq16|].
  - intros i Hi. destruct (fd_slot_puts (fd_slot src) (seqZ 0 MAX_FDS) c i F) as [_ E']; [intros; by apply seq16|done|].
    rewrite E', bool_decide_true by (by apply seq16). done.
Qed.

(** A process with all its descriptors closed. *)
Definition shut (c : processCDT) : processCDT := foldl (put_slot closing) c (seqZ 0 MAX_FDS).

Lemma closeAllFDs_ok N s p c : held N s → k_procs s !! p = Some c → N + 1024 ≤ 2 ^ 30 →
  ∃ s', closeAllFDs p s = KDone s' () ∧ held (N + 1024) s' ∧
    becomes p (shut c) s s' ∧ fdTable (shut c) = replicate 16 0.
Proof.
  intros H Hc HN. unfold closeAllFDs. rewrite (proj2 (Z.eqb_neq p 0)) by (exact (kinv_ne _ _ _ _ _ (proj1 H) Hc)).
  destruct (close_loop_ok p (seqZ 0 MAX_FDS) N s c H Hc) as (s' & E & H' & B);
    [intros i; apply seq16|rewrite length_seqZ; unfold MAX_FDS; lia|].
  exists s'. split; [done|]. split; [by rewrite length_seqZ in H'|]. split; [done|].
  pose proof (kinv_full _ _ _ _ _ (proj1 H) Hc) as F. apply slots_ext; [|done|].
  - by apply (fd_slot_puts _ _ c 0 F); [intros i; apply seq16|].
  - intros i Hi. unfold shut. destruct (fd_slot_puts closing (seqZ 0 MAX_FDS) c i F) as [_ ->]; [intros; by apply seq16|done|].
    rewrite bool_decide_true by (by apply seq16). rewrite valid_range in Hi. rewrite lookup_replicate_2 by lia. done.
Qed.

Lemma add_loop_ok N s p c fa f : held N s → k_procs s !! p = Some c → k_files s !! fa = Some f → ∀ l,
  (∀ i, i ∈ l → isValidFd i = true) →
  (add_loop l p fa s = KDone s (-1) ∧ ∀ i, i ∈ l → fd_slot c i ≠ 0) ∨
  (∃ s' l1 r l2, add_loop l p fa s = KDone s' r ∧ l = l1 ++ r :: l2 ∧ (∀ i, i ∈ l1 → fd_slot c i ≠ 0) ∧
    fd_slot c r = 0 ∧ held N s' ∧ becomes p (set_fd r fa c) s s' ∧
    k_files s' = <[fa := set_refs (fa_refCount f + 1) f]> (k_files s)).
Proof.
  intros H Hc Hf. induction l as [|i l IH]; intros Hl; cbn [add_loop].
  - left. split; [done|]. intros i Hi. by apply elem_of_nil in Hi.
  - unfold proc. rewrite kbind_eq, (kload_some _ _ _ _ Hc). kred.
    destruct (Z.eqb_spec (fd_slot c i) 0) as [E|E].
    + right. destruct (openFd_held N s p c i fa f H Hc (Hl i ltac:(by left)) E Hf) as (s' & E' & H' & O & _ & F).
      exists s', [], i, l. split; [done|]. split; [done|]. split; [|done]. intros j Hj. by apply elem_of_nil in Hj.
    + destruct IH as [[E' Hall]|(s' & l1 & r & l2 & E' & -> & Hall & Hr & Hrest)]; [intros; apply Hl; by right| |].
      * left. split; [done|]. intros j [->|Hj]%elem_of_cons; auto.
      * right. exists s', (i :: l1), r, l2. split; [done|]. split; [done|]. split; [|done]. intros j [->|Hj]%elem_of_cons; auto.
Qed.

Lemma seqZ_split l1 r l2 n : 0 ≤ n → seqZ 0 n = l1 ++ r :: l2 → 0 ≤ r < n ∧ ∀ i, 0 ≤ i < r → i ∈ l1.
Proof.
  intros Hn E. assert (Hr : seqZ 0 n !! length l1 = Some r) by (rewrite E; by apply list_lookup_middle).
  apply lookup_seqZ in Hr as [-> Hlt]. split; [lia|]. intros i Hi.
  assert (E' : seqZ 0 n !! Z.to_nat i = Some i) by (apply lookup_seqZ; lia). rewrite E, lookup_app_l in E' by lia.
  by apply list_elem_of_lookup_2 in E'.
Qed.

(** ** Opening and closing *)

(** [addFd] gives the lowest free descriptor a reference to the file access, and answers
    -1, changing nothing, exactly when all sixteen are taken. *)
Theorem addFd_lowest N s p c fa f : held N s → k_procs s !! p = Some c → k_files s !! fa = Some f →
  ∃ s' r, addFd p fa s = KDone s' r ∧ held N s' ∧
    ((r = -1 ∧ s' = s ∧ ∀ i, 0 ≤ i < 16 → fd_slot c i ≠ 0) ∨
     (0 ≤ r < 16 ∧ fd_slot c r = 0 ∧ (∀ i, 0 ≤ i < r → fd_slot c i ≠ 0) ∧ becomes p (set_fd r fa c) s s' ∧
      k_files s' = <[fa := set_refs (fa_refCount f + 1) f]> (k_files s))).
Proof.
  intros H Hc Hf. unfold addFd.
  rewrite (proj2 (Z.eqb_neq p 0)), (proj2 (Z.eqb_neq fa 0)) by
    first [exact (kinv_file_ne _ _ _ _ _ (proj1 H) Hf)|exact (kinv_ne _ _ _ _ _ (proj1 H) Hc)]. cbn [orb].
  destruct (add_loop_ok N s p c fa f H Hc Hf (seqZ 0 MAX_FDS)) as [[E Hall]|(s' & l1 & r & l2 & E & El & Hall & Hr & H' & B & F)];
    [intros i; apply seq16| |].
  - exists s, (-1). split; [done|]. split; [done|]. left. split_and!; try done. intros i Hi. apply Hall, seq16, valid_range. lia.
  - apply seqZ_split in El as [Hrange Hlow]; [|done]. exists s', r. split; [done|]. split; [done|]. right.
    split_and!; try done; unfold MAX_FDS in *; try lia. intros i Hi. by apply Hall, Hlow.
Qed.

End Pinned.

Lemma addFd_lowest_witness : ∃ s' r, addFd 16 400 small = KDone s' r ∧ held 1024 s' ∧ r = 2.
Proof.
  destruct (addFd_lowest 1024 small 16 _ 400 _ small_held eq_refl eq_refl) as (s' & r & E & H & D).
  exists s', r. split; [exact E|]. split; [exact H|]. destruct D as [(-> & _ & D)|(_ & D1 & D2 & _)].
  - destruct (D 2); [lia|reflexivity].
  - destruct (Z.lt_trichotomy r 2) as [L|[L|L]]; [|exact L|].
    + vm_compute in E. inversion E. reflexivity.
    + destruct (D2 2); [lia|reflexivity].
Defined.

Section Pinned.
Context {pin : Pinned}.

(** A file access is counted as often as descriptors refer to it. *)
Lemma slots_pos_ex fa m : 0 < sum_of (slots fa) m → ∃ q d, m !! q = Some d ∧ fa ∈ fdTable d.
Proof.
  intros H. destruct (decide (map_Exists (λ _ d, fa ∈ fdTable d) m)) as [(q & d & Hq & Hd)|Hno]; [by exists q, d|].
  exfalso. assert (sum_of (slots fa) m = 0); [|lia]. apply sum_pos_ex. intros k a Ha. unfold slots.
  destruct (List.filter (Z.eqb fa) (fdTable a)) as [|x l] eqn:E; [done|]. exfalso. apply Hno. exists k, a. split; [done|].
  assert (Hin : In x (List.filter (Z.eqb fa) (fdTable a))) by (rewrite E; by left).
  apply List.filter_In in Hin as [Hin ->%Z.eqb_eq]. by apply list_elem_of_In.
Qed.

(** Once a reference is dropped, the file access is there exactly when a driver or a descriptor
    refers to it. *)
Lemma released_live N s s' fa f : kinv N no_ghost s' → oframe s s' → k_files s !! fa = Some f → released fa f s s' →
  is_Some (k_files s' !! fa) ↔ fa ∈ pins ∨ ∃ q d, k_procs s' !! q = Some d ∧ fa ∈ fdTable d.
Proof.
  intros H O Hf R. pose proof (driver_refs_range fa) as D.
  pose proof (sum_of_nonneg (slots fa) (k_procs s') (slots_nonneg fa)) as Hn. unfold released in R. rewrite <- (slots_like fa s s' O) in R.
  destruct (Z.eqb_spec (sum_of (slots fa) (k_procs s') + driver_refs fa) 0) as [E|E]; destruct R as [F _]; rewrite F.
  - rewrite lookup_delete_eq. split; [by intros [? ?]|]. intros [Hp|(q & d & Hd & Hin)]; exfalso; [apply driver_refs_pin in Hp; lia|].
    destruct (ki_proc _ _ _ H q d Hd) as (_ & _ & L).
    pose proof (sum_of_ge (slots fa) (k_procs s') q d (slots_nonneg fa) Hd) as G.
    assert (In fa (List.filter (Z.eqb fa) (fdTable d))) as Hi by (apply List.filter_In; split; [by apply list_elem_of_In|apply Z.eqb_refl]).
    unfold slots in *. destruct (List.filter (Z.eqb fa) (fdTable d)); [done|]. cbn [length] in G. lia.
  - rewrite lookup_insert_eq. split; [intros _|by eexists]. destruct (decide (fa ∈ pins)) as [|Hp]; [by left|right].
    rewrite <- driver_refs_pin in Hp. apply slots_pos_ex. lia.
Qed.

(** C20. [closeFd] empties the descriptor and drops its reference: the file access is disposed of
    exactly when no driver and no descriptor of any process refers to it any more.  A descriptor that is
    not open is refused and nothing changes. *)
Theorem closeFd_releases N s p c fd : held N s → k_procs s !! p = Some c → N + 64 ≤ 2 ^ 30 →
  ∃ s' r, closeFd p fd s = KDone s' r ∧ held (N + 64) s' ∧
    if isValidFd fd && negb (fd_slot c fd =? 0)
    then r = 0 ∧ becomes p (set_fd fd 0 c) s s' ∧
      (is_Some (k_files s' !! fd_slot c fd) ↔ fd_slot c fd ∈ pins ∨ ∃ q d, k_procs s' !! q = Some d ∧ fd_slot c fd ∈ fdTable d) ∧
      (∀ fa, fa ≠ fd_slot c fd → k_files s' !! fa = k_files s !! fa)
    else r = -1 ∧ s' = s.
Proof.
  intros H Hc HN. destruct (isValidFd fd) eqn:Hv; cbn [andb]; [destruct (Z.eqb_spec (fd_slot c fd) 0) as [E|E]; cbn [negb]|].
  - exists s, (-1). split; [|split; [apply (held_mono N); [done|lia]|done]].
    unfold closeFd. rewrite (proj2 (Z.eqb_neq p 0)) by (exact (kinv_ne _ _ _ _ _ (proj1 H) Hc)).
    rewrite kbind_eq, (isOpenFd_eq _ _ _ _ Hv Hc), E. done.
  - pose proof H as [H0 T]. destruct (closeFd_ok N s p c fd H0 Hc Hv E HN) as (s' & f & E' & H' & O & Hf & R).
    pose proof (released_tight _ _ _ _ _ _ _ H0 T Hc Hv Hf O R) as T'. exists s', 0. split; [done|]. split; [done|].
    split; [done|]. split; [done|]. split; [by apply (released_live (N + 64) _ _ _ f H' O Hf R)|].
    intros fa Hfa. unfold released in R. destruct (_ =? 0); destruct R as [-> _]; unfold with_slot; kred.
    + by rewrite lookup_delete_ne.
    + by rewrite lookup_insert_ne.
  - exists s, (-1). split; [|split; [apply (held_mono N); [done|lia]|done]].
    unfold closeFd. rewrite (proj2 (Z.eqb_neq p 0)) by (exact (kinv_ne _ _ _ _ _ (proj1 H) Hc)).
    unfold isOpenFd. rewrite Hv. done.
Qed.

End Pinned.

Lemma closeFd_releases_witness : ∃ s' r, closeFd 16 1 small = KDone s' r ∧ held 1088 s' ∧ r = 0.
Proof.
  destruct (closeFd_releases 1024 small 16 _ 1 small_held eq_refl) as (s' & r & E & H & D); [lia|].
  exists s', r. split; [exact E|]. split; [exact H|]. apply D.
Defined.

Section Pinned.
Context {pin : Pinned}.

(** [dupFd], with the rest of the descriptor as it was. *)
Lemma dupFd_ok N s p c oldFd newFd : held N s → k_procs s !! p = Some c → N + 64 ≤ 2 ^ 30 →
  ∃ s' r, dupFd p oldFd newFd s = KDone s' r ∧ held (N + 64) s' ∧
    if negb (isValidFd newFd) then r = -1 ∧ s' = s
    else if oldFd =? newFd then r = newFd ∧ s' = s
    else r = newFd ∧ ∃ c', becomes p c' s s' ∧ only_fds c c' ∧
      fd_slot c' newFd = (if isValidFd oldFd then fd_slot c oldFd else 0) ∧
      ∀ j, isValidFd j = true → j ≠ newFd → fd_slot c' j = fd_slot c j.
Proof.
  intros H Hc HN. pose proof (kinv_ne _ _ _ _ _ (proj1 H) Hc) as Hp. pose proof (kinv_full _ _ _ _ _ (proj1 H) Hc) as F.
  assert (Hm : held (N + 64) s) by (apply (held_mono N); [done|lia]).
  unfold dupFd. rewrite (proj2 (Z.eqb_neq p 0)) by done. cbn [orb].
  destruct (isValidFd newFd) eqn:Hv; cbn [negb]; [|by exists s, (-1)].
  destruct (Z.eqb_spec oldFd newFd) as [|Hne]; [by exists s, newFd|].
  destruct (close_one N s p c newFd H Hc Hv HN) as (s1 & r1 & E1 & H1 & B1).
  pose proof (λ j (Hj : isValidFd j = true), fd_slot_put closing c newFd j F Hv Hj) as Hput.
  assert (Hclosed : isValidFd oldFd = false ∨ isValidFd oldFd = true ∧ fd_slot c oldFd = 0 →
    ∃ s' r, (_ ← closeFd p newFd; mret newFd) s = KDone s' r ∧ held (N + 64) s' ∧ r = newFd ∧ ∃ c', becomes p c' s s' ∧ only_fds c c' ∧
      fd_slot c' newFd = (if isValidFd oldFd then fd_slot c oldFd else 0) ∧
      ∀ j, isValidFd j = true → j ≠ newFd → fd_slot c' j = fd_slot c j).
  { intros Hold. assert (Hz : (if isValidFd oldFd then fd_slot c oldFd else 0) = 0) by (by destruct Hold as [->|[-> ->]]).
    rewrite Hz. exists s1, newFd. split; [|split; [done|split; [done|]]].
    - rewrite kbind_eq. destruct (Z.eqb_spec (fd_slot c newFd) 0) as [E|E]; cbn [negb] in E1; [|by rewrite E1].
      unfold closeFd. rewrite (proj2 (Z.eqb_neq p 0)) by done. rewrite kbind_eq, (isOpenFd_eq _ _ _ _ Hv Hc), E. kred.
      cbn [Z.eqb negb]. injection E1 as <- _. done.
    - exists (put_slot closing c newFd). split; [done|]. split; [apply put_slot_only|]. rewrite Hput, Z.eqb_refl by done. split; [done|].
      intros j Hj Hjn. rewrite Hput by done. by rewrite (proj2 (Z.eqb_neq j newFd)). }
  destruct (isValidFd oldFd) eqn:Hvo.
  2: { rewrite kbind_eq. unfold isOpenFd at 1. rewrite Hvo. kred. apply Hclosed. by left. }
  rewrite kbind_eq, (isOpenFd_eq _ _ _ _ Hvo Hc). kred.
  destruct (Z.eqb_spec (fd_slot c oldFd) 0) as [E0|E0]; cbn [negb]; [apply Hclosed; by right|]. clear Hclosed.
  unfold proc. rewrite kbind_eq, (kload_some _ _ _ _ Hc). kred. rewrite kbind_eq, (isOpenFd_eq _ _ _ _ Hv Hc). kred.
  rewrite kbind_eq, E1. kred. destruct (becomes_proc _ _ _ _ B1) as (c1 & Hc1 & L1).
  destruct (fd_live _ _ _ _ _ oldFd (proj1 H1) Hc1 Hvo) as [f Hf].
  { rewrite <- (fd_slot_proper _ _ L1 oldFd oldFd eq_refl), Hput by done. by rewrite (proj2 (Z.eqb_neq oldFd newFd)). }
  rewrite <- (fd_slot_proper _ _ L1 oldFd oldFd eq_refl), Hput, (proj2 (Z.eqb_neq oldFd newFd)) in Hf by done.
  assert (Z0 : fd_slot c1 newFd = 0).
  { rewrite <- (fd_slot_proper _ _ L1 newFd newFd eq_refl), Hput by done. by rewrite Z.eqb_refl. }
  destruct (openFd_held _ _ _ _ _ _ _ H1 Hc1 Hv Z0 Hf) as (s2 & E2 & H2 & O2 & _).
  exists s2, newFd. split; [|split; [done|split; [done|]]].
  - revert E2. unfold openFd. rewrite (proj2 (Z.eqb_neq p 0)), (proj2 (Z.eqb_neq (fd_slot c oldFd) 0)), Hv by done.
    cbn [orb negb]. rewrite kbind_eq, (isOpenFd_eq _ _ _ _ Hv Hc1), Z0. kred. cbn [Z.eqb negb]. done.
  - exists (set_fd newFd (fd_slot c oldFd) (put_slot closing c newFd)). split; [|split; [apply (put_slot_only closing c newFd)|split]].
    + eapply becomes_trans; [exact B1|exact Hc1| | | |exact O2]; [reflexivity|done|]. by apply set_fd_proper.
    + rewrite fd_slot_set, Z.eqb_refl by (done || by apply put_slot_full). done.
    + intros j Hj Hjn. rewrite fd_slot_set, (proj2 (Z.eqb_neq j newFd)), Hput by (done || by apply put_slot_full).
      by rewrite (proj2 (Z.eqb_neq j newFd)).
Qed.


End Pinned.


Section Pinned.
Context {pin : Pinned}.

(** C22. End of file: when the last descriptor of the last writer of a pipe is closed, every
    process blocked reading the pipe is woken (there are at most 64 of them). *)
Theorem closeFd_eof N s p c fd f pc : held N s → k_procs s !! p = Some c → N + 64 ≤ 2 ^ 30 →
  isValidFd fd = true → fd_slot c fd ≠ 0 → k_files s !! fd_slot c fd = Some f → fa_refCount f = 1 →
  has_flag (fa_flags f) FILE_WRITE = true → k_pipes s !! fa_pipe f = Some pc → writerCount pc = 1 →
  ∃ s', closeFd p fd s = KDone s' 0 ∧ held (N + 64) s' ∧
    ∀ d, k_sems s !! dataAvailable pc = Some d → (length (blockedQueue d) <= 64)%nat →
    ∀ x, x ∈ blockedQueue d → state_of s' x ≠ Some BLOCKED.
Proof.
  intros H Hc HN Hv Ho Hf Hr Hw Hpc Hwc. pose proof H as [H0 T].
  destruct (closeFd_ok N s p c fd H0 Hc Hv Ho HN) as (s' & f' & E & H' & O & Hf' & R).
  assert (f' = f) as -> by congruence. exists s'. split; [done|].
  split; [split; [done|]; exact (released_tight _ _ _ _ _ _ _ H0 T Hc Hv Hf O R)|].
  unfold released in R. rewrite (slots_with_slot _ _ _ _ _ _ _ _ H0 Hc Hv), Z.eqb_refl, (proj2 (Z.eqb_neq (fd_slot c fd) 0)) in R by done.
  destruct (ki_file _ _ _ H0 _ _ Hf) as [_ E']. cbn [g_file no_ghost] in E'.
  rewrite (proj2 (Z.eqb_eq _ 0)) in R by lia. destruct R as (_ & _ & W). apply (W pc); [done|done|lia].
Qed.

End Pinned.

Lemma closeFd_eof_witness : ∃ s', closeFd 16 1 small = KDone s' 0 ∧ held 1088 s' ∧ state_of s' 3 ≠ Some BLOCKED.
Proof.
  destruct (closeFd_eof 1024 small 16 (small_proc 2 1 RUNNING [3] 336 344 [400; 408]) 1 (mkFile 48 FILE_WRITE 1)
    (mkPipe (Some small_buffer) 200 208 216 224 2 1) small_held eq_refl) as (s' & E & H & W);
    [lia|reflexivity|vm_compute; congruence|reflexivity|reflexivity|reflexivity|reflexivity|reflexivity|].
  exists s'. split; [exact E|]. split; [exact H|]. refine (W _ eq_refl _ 3 _); [simpl; lia|]. by left.
Defined.

End Descriptors.
