(* ===== verification/Scheduler.v ===== *)
(** * The scheduler and the life cycle of processes
    ([Kernel/process_contextswitch/scheduler.c]) *)

From S2P Require Import Prelude KState ProcTable Semaphore Pipe Process.
Import ProcTable Semaphore Pipe FileAccess Process.

Module Scheduler.

Definition KERNEL_CS : Z := 0x8.
Definition KERNEL_SS : Z := 0x0.
Definition INITIAL_RFLAGS : Z := 0x202.
Definition DEFAULT_STACK_SIZE : Z := 0x8000.

(** ** Starting processes *)

(** [*(--sp) = v]. *)
Definition push (v : Z) (sp : Z) : K Z :=
  let sp' := u64 (sp - 8) in
  _ ← kmod (λ s, set_words (<[sp' := u64 v]> (k_words s)) s); mret sp'.
Fixpoint push_zeros (n : nat) (sp : Z) : K Z :=
  match n with O => mret sp | S n => sp ← push 0 sp; push_zeros n sp end.

(** [getArgv]: the address of the copied argument vector, or NULL. *)
Definition getArgv (c : processCDT) : Z := match p_argv c with Some (a, _) => a | None => 0 end.

Definition prepareStack (p : Z) : K unit :=
  sp ← getRSP p;
  let stackPointerValue := sp in
  mis ← getStackMisalignment p;
  let sp := u64 (sp - mis) in
  sp ← push KERNEL_SS sp;
  sp ← push stackPointerValue sp;
  sp ← push INITIAL_RFLAGS sp;
  sp ← push KERNEL_CS sp;
  c ← proc p;
  sp ← push (p_rip c) sp;
  sp ← push_zeros 5 sp;
  sp ← push (u32 (p_argc c)) sp;
  sp ← push (getArgv c) sp;
  sp ← push_zeros 8 sp;
  setRSP p sp.

Definition startNewProcessWithPid (entryPoint : Z) (name : option cstring) (prio pid argc : Z)
    (argv : option (list (option cstring))) : K Z :=
  if bad_pid pid then mret (-1)
  else
    old ← slot pid;
    if negb (old =? 0) then mret (-1)
    else
      p ← newProcess entryPoint name DEFAULT_STACK_SIZE pid prio argc argv;
      if p =? 0 then mret (-1)
      else
        s ← kget;
        let cur := currentProcess s in
        cpid ← (if cur =? 0 then mret IDLE_PID else getPID cur);
        _ ← (if negb (cur =? 0) && negb (cpid =? IDLE_PID) then
               _ ← setPPID p cpid;
               _ ← addChild cur pid;
               copyFdTable p cur
             else setPPID p INIT_PID);
        _ ← prepareStack p;
        _ ← setState p READY;
        _ ← kmod (λ s, set_table (<[pid := p]> (processTable s)) s);
        _ ← enqueue_ready pid;
        mret pid.

(** [idleProcessEntry] and the entry of init are addresses. *)
Definition initializeScheduler (idleEntry initEntry : Z) (name_idle name_init : cstring) : K unit :=
  _ ← kmod (λ s, set_fg ∅ (set_table ∅ s));
  q ← q_new;
  _ ← kmod (λ s, set_enabled false (set_current 0 (set_ready q s)));
  _ ← startNewProcessWithPid idleEntry (Some name_idle) 1 IDLE_PID 0 None;
  _ ← startNewProcessWithPid initEntry (Some name_init) 1 INIT_PID 0 None;
  mret ().

Definition enableScheduler : K unit := kmod (set_enabled true).

Definition startNewProcess (entryPoint : Z) (name : option cstring) (prio argc : Z)
    (argv : option (list (option cstring))) : K Z :=
  s ← kget;
  let pid := findFreePid s in
  if pid <? 0 then mret (-1) else startNewProcessWithPid entryPoint name prio pid argc argv.

Record fd_override_t := mkOverride { affectedFd : Z; targetFd : Z }.

Fixpoint override_loop (os : list fd_override_t) (child : Z) : K unit :=
  match os with
  | [] => mret ()
  | o :: os =>
    _ ← (if targetFd o =? -1 then closeFd child (affectedFd o)
         else dupFd child (targetFd o) (affectedFd o));
    override_loop os child
  end.

Definition startNewProcessWithFds (entryPoint : Z) (name : option cstring) (prio argc : Z)
    (argv : option (list (option cstring))) (overrides : option (list fd_override_t)) : K Z :=
  pid ← startNewProcess entryPoint name prio argc argv;
  match overrides with
  | None => mret pid
  | Some os =>
    if pid <? 0 then mret pid
    else
      child ← slot pid;
      if child =? 0 then mret pid else _ ← override_loop os child; mret pid
  end.

(** ** Termination *)

Definition reapProcess (pid : Z) : K unit :=
  if bad_pid pid then mret ()
  else
    p ← slot pid;
    if p =? 0 then mret ()
    else
      _ ← freeProcess p;
      _ ← kmod (λ s, set_table (delete pid (processTable s)) s);
      kmod (λ s, set_fg (foregroundSet s ∖ {[pid]}) s).

Definition enqueue_terminated (p pid : Z) : K unit :=
  c ← proc p;
  r ← q_enqueue (terminatedChildren c) pid;
  match r with None => mret () | Some q => kstore_proc p (with_terminatedChildren q) end.

(** The children of the process are polled one by one. *)
Fixpoint orphan_loop (cs : list Z) (p initProc : Z) : K unit :=
  match cs with
  | [] => mret ()
  | childPid :: cs =>
    _ ← kstore_proc p (with_children (Some cs));
    let childPid := i16 childPid in
    if bad_pid childPid then orphan_loop cs p initProc
    else
      child ← slot childPid;
      if child =? 0 then orphan_loop cs p initProc
      else
        _ ← addChild initProc childPid;
        _ ← setPPID child INIT_PID;
        st ← getState child;
        _ ← (if bool_decide (st = ZOMBIE) then
               _ ← enqueue_terminated initProc childPid;
               c ← proc initProc;
               _ ← semPost (childTerminated c);
               mret ()
             else mret ());
        orphan_loop cs p initProc
  end.

Definition transferOrphanChildren (p : Z) : K unit :=
  c ← proc p;
  initProc ← slot INIT_PID;
  if initProc =? 0 then mret ()
  else orphan_loop (default [] (children c)) p initProc.

Definition notifyTermination (p parent pid : Z) : K unit :=
  _ ← setState p ZOMBIE;
  _ ← kmod (λ s, set_ready (q_remove (readyQueue s) pid) s);
  c ← proc p;
  _ ← semPost (terminated c);
  pc ← proc parent;
  _ ← semPost (childTerminated pc);
  enqueue_terminated parent pid.

Definition closeFdsOf (pid : Z) : K unit :=
  if bad_pid pid then mret () else p ← slot pid; closeAllFDs p.

(** The part that [terminateProcess] and [killFromIsr] share. *)
Definition finish_process (pid : Z) : K Z :=
  if bad_pid pid then mret (-1)
  else if isUnkillable pid then mret (-1)
  else
    p ← slot pid;
    if p =? 0 then mret (-1)
    else
      ppid ← getPPID p;
      parent ← (if bad_pid ppid then mret 0 else slot ppid);
      if parent =? 0 then mret (-1)
      else
        _ ← closeFdsOf pid;
        _ ← kmod (λ s, set_fg (foregroundSet s ∖ {[pid]}) s);
        _ ← notifyTermination p parent pid;
        _ ← transferOrphanChildren p;
        mret 0.

Definition terminateProcess (pid : Z) : K Z :=
  r ← finish_process pid;
  if r <? 0 then mret (-1)
  else
    cur ← getCurrentPID;
    s ← kget;
    _ ← (if negb (currentProcess s =? 0) && (cur =? pid) then kswitch else mret ());
    mret 0.

Definition killFromIsr (pid : Z) : K unit := _ ← finish_process pid; mret ().

(** ** Waiting *)

Definition wait_pid (pid : Z) : K unit :=
  if bad_pid pid then mret ()
  else
    p ← slot pid;
    if p =? 0 then mret ()
    else
      ppid ← getPPID p;
      parent ← (if bad_pid ppid then mret 0 else slot ppid);
      c ← proc p;
      _ ← semWait (terminated c);
      _ ← (if negb (parent =? 0) then
             pc ← proc parent;
             _ ← semTryWait (childTerminated pc);
             _ ← kstore_proc parent (λ c, with_terminatedChildren (q_remove (terminatedChildren c) pid) c);
             removeChild parent pid
           else mret ());
      reapProcess pid.

(** [pollQueue(getTerminatedChildren(currentProcess))]. *)
Definition poll_terminated (p : Z) : K Z :=
  c ← proc p;
  let '(x, q) := q_poll (terminatedChildren c) in
  _ ← kstore_proc p (with_terminatedChildren q);
  mret (i16 x).

Definition wait_any : K unit :=
  s ← kget;
  if currentProcess s =? 0 then mret ()
  else
    c ← proc (currentProcess s);
    _ ← semWait (childTerminated c);
    s ← kget;
    pid ← poll_terminated (currentProcess s);
    if bad_pid pid then mret ()
    else
      _ ← removeChild (currentProcess s) pid;
      reapProcess pid.

(** One round per unit of the semaphore: [fuel] bounds its value. *)
Fixpoint reap_loop (fuel : nat) : K unit :=
  s ← kget;
  c ← proc (currentProcess s);
  got ← semTryWait (childTerminated c);
  if negb (got =? 0) then mret ()
  else match fuel with
  | O => kfuel
  | S fuel =>
    pid ← poll_terminated (currentProcess s);
    if bad_pid pid then reap_loop fuel
    else
      _ ← removeChild (currentProcess s) pid;
      _ ← reapProcess pid;
      reap_loop fuel
  end.
Definition reap_zombies (fuel : nat) : K unit :=
  s ← kget; if currentProcess s =? 0 then mret () else reap_loop fuel.

(** ** Descriptors of the current process and of a pid *)

Definition getCurrentFd (fd : Z) : K Z :=
  s ← kget; if currentProcess s =? 0 then mret 0 else getFd (currentProcess s) fd.
Definition addCurrentFd (fa : Z) : K Z :=
  s ← kget; if currentProcess s =? 0 then mret (-1) else addFd (currentProcess s) fa.
Definition openCurrentFd (fa fd : Z) : K Z :=
  s ← kget; if currentProcess s =? 0 then mret (-1) else openFd (currentProcess s) fa fd.
Definition closeCurrentFd (fd : Z) : K Z :=
  s ← kget; if currentProcess s =? 0 then mret (-1) else closeFd (currentProcess s) fd.
Definition dupCurrentFd (oldFd newFd : Z) : K Z :=
  s ← kget; if currentProcess s =? 0 then mret (-1) else dupFd (currentProcess s) oldFd newFd.
Definition reopenCurrentFd (fd : Z) : K Z :=
  s ← kget; if currentProcess s =? 0 then mret (-1) else reopenFd (currentProcess s) fd.

Definition readFdOnPID (fuel : nat) (pid fd count : Z) : K (Z * list Z) :=
  if bad_pid pid then mret (-1, []) else p ← slot pid; readFd fuel p fd count.
Definition writeFdOnPID (fuel : nat) (pid fd : Z) (buf : list Z) : K Z :=
  if bad_pid pid then mret (-1) else p ← slot pid; writeFd fuel p fd buf.
Definition requestEofOnPID (pid fd : Z) : K Z :=
  if bad_pid pid then mret (-1) else p ← slot pid; requestEofOf p fd.
Definition getFdOnPID (pid fd : Z) : K Z :=
  if bad_pid pid then mret 0 else p ← slot pid; getFd p fd.
Definition addFdToPID (pid fa : Z) : K Z :=
  if bad_pid pid then mret (-1) else p ← slot pid; addFd p fa.
Definition closeFdOnPID (pid fd : Z) : K Z :=
  if bad_pid pid then mret (-1) else p ← slot pid; closeFd p fd.
Definition dupFdOnPID (pid oldFd newFd : Z) : K Z :=
  if bad_pid pid then mret (-1) else p ← slot pid; dupFd p oldFd newFd.

Definition read (fuel : nat) (fd count : Z) : K (Z * list Z) :=
  pid ← getCurrentPID; if pid <? 0 then mret (-1, []) else readFdOnPID fuel pid fd count.
Definition write (fuel : nat) (fd : Z) (buf : list Z) : K Z :=
  pid ← getCurrentPID; if pid <? 0 then mret (-1) else writeFdOnPID fuel pid fd buf.

(** ** The context switch *)

Definition getNextPID : K Z :=
  s ← kget;
  if q_empty (readyQueue s) then mret IDLE_PID
  else
    let '(x, q) := q_poll (readyQueue s) in
    _ ← kmod (set_ready q);
    mret (i16 x).

(** The new current process: [setState], [resetQuantums], [useQuantum], and its stack pointer. *)
Definition dispatch : K Z :=
  nextPid ← getNextPID;
  next ← slot nextPid;
  _ ← kmod (set_current next);
  _ ← setState next RUNNING;
  _ ← resetQuantums next;
  _ ← useQuantum next;
  getRSP next.

(** The handler calls [timer_handler] first, which increments the ticks. *)
Definition schedule (prevRSP : Z) : K Z :=
  _ ← kmod (λ s, set_ticks (u64 (ticks s + 1)) s);
  s ← kget;
  if negb (schedulerEnabled s) then mret prevRSP
  else
    let cur := currentProcess s in
    if cur =? 0 then dispatch
    else
      _ ← setRSP cur prevRSP;
      st ← getState cur;
      if bool_decide (st = RUNNING) then
        hq ← hasQuantums cur;
        if (hq : bool) then _ ← useQuantum cur; mret prevRSP
        else
          _ ← setState cur READY;
          pid ← getPID cur;
          _ ← enqueue_ready pid;
          dispatch
      else dispatch.

(** ** The context switch *)

(** What [dispatch] makes of the descriptor it picks. *)
Definition picked (c : processCDT) : processCDT :=
  with_quantums (priorityLevel c)
    (if 0 <? priorityLevel c then u8 (priorityLevel c - 1) else priorityLevel c) (with_state RUNNING c).

Lemma dispatch_eq s pid p c l :
  readyQueue s = Some (pid :: l) → 0 ≤ pid < 64 →
  processTable s !! pid = Some p → k_procs s !! p = Some c →
  dispatch s = KDone (set_procs (<[p := picked c]> (k_procs s)) (set_current p (set_ready (Some l) s))) (p_rsp c).
Proof.
  intros Hl Hpid Ht Hc. unfold dispatch, getNextPID. ksimp. rewrite Hl. unfold q_empty, q_size.
  destruct (Z.eqb_spec (Z.of_nat (length (pid :: l))) 0); [cbn [length] in *; lia|].
  cbn [q_poll]. ksimp. rewrite i16_small by lia. ksimp. rewrite slot_eq. kred. rewrite Ht. ksimp.
  unfold setState, resetQuantums, useQuantum.
  rewrite (kstore_proc_eq _ _ _ c) by (kred; done). kred.
  rewrite kbind_eq. erewrite kstore_proc_eq by (kred; apply lookup_insert_eq). kred.
  rewrite kbind_eq. erewrite kstore_proc_eq by (kred; apply lookup_insert_eq). kred.
  unfold getRSP, proc. rewrite kbind_eq. erewrite kload_some by (kred; apply lookup_insert_eq). kred.
  rewrite !insert_insert_eq. unfold picked.
  cbn [remainingQuantums with_quantums with_state p_rsp priorityLevel].
  destruct (0 <? priorityLevel c); done.
Qed.

(** What a tick does, seen from the scheduling variables alone: the running process, its
    remaining quantums and the ready queue. *)
Record aview := mkView { a_cur : Z; a_rem : Z; a_queue : list Z; a_prio : Z → option Z }.

Definition slice (prio : option Z) : Z := Z.max 0 (default 0 prio - 1).

Definition atick (a : aview) : aview :=
  if 0 <? a_rem a then mkView (a_cur a) (a_rem a - 1) (a_queue a) (a_prio a)
  else match a_queue a ++ [a_cur a] with
       | next :: rest => mkView next (slice (a_prio a next)) rest (a_prio a)
       | [] => a
       end.

Definition prio_of (s : kst) (pid : Z) : option Z := priorityLevel <$> proc_of s pid.
Definition rem_of (s : kst) (pid : Z) : option Z := remainingQuantums <$> proc_of s pid.

(** [a] is what the scheduler of [s] looks like while a process runs. *)
Record views (s : kst) (a : aview) : Prop := {
  v_inv : sched_inv s;
  v_mem : mem_ok s;
  v_on : schedulerEnabled s = true;
  v_cur : processTable s !! a_cur a = Some (currentProcess s);
  v_run : state_of s (a_cur a) = Some RUNNING;
  v_rem : rem_of s (a_cur a) = Some (a_rem a);
  v_rng : 0 ≤ a_rem a < 256;
  v_queue : readyQueue s = Some (a_queue a);
  v_prio : ∀ pid, prio_of s pid = a_prio a pid;
  v_u8 : ∀ pid pr, a_prio a pid = Some pr → 0 ≤ pr < 256;
}.

Lemma proc_of_some s pid c : proc_of s pid = Some c →
  ∃ p, processTable s !! pid = Some p ∧ k_procs s !! p = Some c.
Proof.
  unfold proc_of. destruct (processTable s !! pid) as [p|] eqn:E; [|done]. cbn [mbind option_bind]. by exists p.
Qed.

Lemma fmap_Some_eq {A B} (f : A → B) x : f <$> Some x = Some (f x).
Proof. done. Qed.

(** Replacing one descriptor, in a table without aliases. *)
Lemma proc_of_insert s s' pid p c' : sched_inv s →
  processTable s !! pid = Some p → processTable s' = processTable s → k_procs s' = <[p := c']> (k_procs s) →
  ∀ q, proc_of s' q = if decide (q = pid) then Some c' else proc_of s q.
Proof.
  intros Hi Ht E1 E2 q. unfold proc_of. rewrite E1, E2. case_decide as Hq.
  - subst. rewrite Ht. cbn [mbind option_bind]. apply lookup_insert_eq.
  - destruct (processTable s !! q) as [p'|] eqn:Eq; [|done]. cbn [mbind option_bind].
    rewrite lookup_insert_ne; [done|]. intros ->. apply Hq. by eapply table_inj.
Qed.

Lemma picked_quantums c : 0 ≤ priorityLevel c < 256 →
  remainingQuantums (picked c) = slice (Some (priorityLevel c)) ∧ priorityLevel (picked c) = priorityLevel c.
Proof.
  intros H. unfold picked, slice. cbn [remainingQuantums with_quantums priorityLevel default from_option id].
  split; [|done]. destruct (Z.ltb_spec 0 (priorityLevel c)); [unfold u8; rewrite wrap_small by lia|]; lia.
Qed.

(** A dispatch from a consistent state in which nobody runs. *)
Lemma dispatch_spec s next rest :
  sched_inv s → mem_ok s → schedulerEnabled s = true → (∀ q, state_of s q ≠ Some RUNNING) →
  readyQueue s = Some (next :: rest) → (∀ q pr, prio_of s q = Some pr → 0 ≤ pr < 256) →
  ∃ s' c, dispatch s = KDone s' (p_rsp c) ∧ proc_of s next = Some c ∧
    views s' (mkView next (slice (prio_of s next)) rest (prio_of s)) ∧
    processTable s' = processTable s ∧ (∀ q, q ≠ next → proc_of s' q = proc_of s q) ∧
    foregroundSet s' = foregroundSet s.
Proof.
  intros Hi Hm Hon Hno Hl Hu8. destruct (si_ready _ Hi) as (l0 & Hl0 & Hnd & Hmem).
  assert (l0 = next :: rest) as -> by congruence.
  assert (Hst : state_of s next = Some READY) by (apply Hmem; set_solver).
  destruct (state_of_some _ _ _ Hst) as (p & c & Ht & Hc & Hr).
  destruct (si_table _ Hi _ _ Ht) as (Hpid & Hp0 & c1 & Hc1 & Hcp). assert (c1 = c) as -> by congruence.
  assert (Hpo : proc_of s next = Some c) by (unfold proc_of; rewrite Ht; exact Hc).
  assert (Hpr : prio_of s next = Some (priorityLevel c)) by (unfold prio_of; by rewrite Hpo).
  pose proof (Hu8 _ _ Hpr) as Hb. destruct (picked_quantums c Hb) as [Hq1 Hq2].
  eexists _, c. split; [by eapply dispatch_eq|]. split; [done|].
  set (s' := set_procs _ _).
  pose proof (proc_of_insert s s' next p (picked c) Hi Ht eq_refl eq_refl) as Hpo'.
  split; [|split; [done|split; [|done]]].
  - split; cbn [a_cur a_rem a_queue a_prio]; try done.
    + eapply (sched_inv_switch s s' next p c (picked c) rest); done.
    + unfold state_of. rewrite Hpo', decide_True by done. done.
    + unfold rem_of. rewrite Hpo', decide_True, fmap_Some_eq, Hq1, Hpr by done. done.
    + rewrite Hpr. unfold slice. cbn [default from_option id]. lia.
    + intros q. unfold prio_of. rewrite Hpo'. case_decide as Hqn; [|done]. subst.
      by rewrite Hpo, !fmap_Some_eq, Hq2.
  - intros q Hqn. by rewrite Hpo', decide_False.
Qed.

(** The interrupted stack pointer is saved in the descriptor of the current process. *)
Definition saved_rsp (s : kst) (pid : Z) : option Z := p_rsp <$> proc_of s pid.

Definition tick_state (s : kst) : kst := set_ticks (u64 (ticks s + 1)) s.

Lemma schedule_start prev s c : schedulerEnabled s = true → currentProcess s ≠ 0 →
  k_procs s !! currentProcess s = Some c →
  schedule prev s =
    (let s1 := set_procs (<[currentProcess s := with_rsp prev c]> (k_procs s)) (tick_state s) in
     if bool_decide (p_state c = RUNNING) then
       if 0 <? remainingQuantums c then
         KDone (set_procs (<[currentProcess s := with_quantums (priorityLevel c) (u8 (remainingQuantums c - 1))
                                                   (with_rsp prev c)]> (k_procs s)) (tick_state s)) prev
       else (_ ← setState (currentProcess s) READY; _ ← enqueue_ready (p_pid c); dispatch) s1
     else dispatch s1).
Proof.
  intros Hon Hcur Hc. unfold schedule, tick_state. ksimp. rewrite Hon. cbn [negb].
  destruct (Z.eqb_spec (currentProcess s) 0); [done|]. ksimp. unfold setRSP.
  rewrite (kstore_proc_eq _ _ _ c) by (kred; done). kred.
  rewrite kbind_eq. erewrite getState_eq by (kred; apply lookup_insert_eq). kred. cbn [p_state with_rsp].
  destruct (bool_decide (p_state c = RUNNING)); [|done].
  unfold hasQuantums, proc. rewrite !kbind_eq. erewrite kload_some by (kred; apply lookup_insert_eq). kred.
  cbn [remainingQuantums with_rsp]. destruct (0 <? remainingQuantums c) eqn:Eq.
  - unfold useQuantum. rewrite kbind_eq. erewrite kstore_proc_eq by (kred; apply lookup_insert_eq). kred.
    cbn [remainingQuantums with_rsp priorityLevel]. rewrite Eq, insert_insert_eq. done.
  - rewrite !kbind_eq. unfold setState. erewrite kstore_proc_eq by (kred; apply lookup_insert_eq). kred.
    rewrite !kbind_eq. erewrite getPID_eq by (kred; apply lookup_insert_eq). kred.
    cbn [p_pid with_state with_rsp]. done.
Qed.

Lemma no_running s a : views s a → ∀ q, q ≠ a_cur a → state_of s q ≠ Some RUNNING.
Proof.
  intros Hv q Hq Hr. apply Hq. eapply table_inj; [apply Hv| |apply (v_cur _ _ Hv)].
  by apply (si_run _ (v_inv _ _ Hv)).
Qed.

(** A tick while a process runs is the abstract tick. *)
Lemma schedule_tick s a prev : views s a →
  ∃ s' rsp, schedule prev s = KDone s' rsp ∧ views s' (atick a) ∧
    processTable s' = processTable s ∧ foregroundSet s' = foregroundSet s ∧
    rsp = (if decide (a_cur (atick a) = a_cur a) then prev else default 0 (saved_rsp s (a_cur (atick a)))).
Proof.
  intros Hv. pose proof Hv as [Hi Hm Hon Hct Hrun Hrem Hrng Hq Hprio Hu8].
  destruct (si_table _ Hi _ _ Hct) as (Hpid & Hp0 & c & Hc & Hcp).
  assert (Hpo : proc_of s (a_cur a) = Some c) by (unfold proc_of; rewrite Hct; exact Hc).
  assert (Hrn : p_state c = RUNNING).
  { unfold state_of in Hrun. rewrite Hpo, fmap_Some_eq in Hrun. congruence. }
  assert (Hrm : remainingQuantums c = a_rem a).
  { unfold rem_of in Hrem. rewrite Hpo, fmap_Some_eq in Hrem. congruence. }
  rewrite (schedule_start _ _ _ Hon Hp0 Hc). cbv zeta. rewrite bool_decide_true, Hrm by done. unfold atick.
  destruct (si_ready _ Hi) as (l0 & Hl0 & Hnd & Hmem). assert (l0 = a_queue a) as -> by congruence.
  destruct (Z.ltb_spec 0 (a_rem a)) as [Hpos|Hzero].
  - eexists _, prev. split; [done|]. cbn [a_cur]. rewrite decide_True by done. split; [|done].
    set (c' := with_quantums _ _ _). set (s' := set_procs _ _).
    pose proof (proc_of_insert s s' (a_cur a) _ c' Hi Hct eq_refl eq_refl) as Hpo'.
    split; cbn [a_cur a_rem a_queue a_prio]; try done; try lia.
    + eapply (sched_inv_move s s' (a_cur a) _ c c' (a_queue a) (a_queue a)); try done.
      * unfold c'. cbn [p_state with_quantums with_rsp]. rewrite Hmem, Hrn, Hrun. done.
      * intros _. right. exact Hrn.
    + unfold state_of. rewrite Hpo', decide_True, fmap_Some_eq by done. f_equal. exact Hrn.
    + unfold rem_of. rewrite Hpo', decide_True, fmap_Some_eq by done. unfold c'.
      cbn [remainingQuantums with_quantums]. unfold u8. by rewrite wrap_small by lia.
    + intros q. unfold prio_of. rewrite Hpo'. case_decide as Hqq; [|apply Hprio]. subst q.
      rewrite <- Hprio. unfold prio_of. by rewrite Hpo, !fmap_Some_eq.
  - rewrite Hcp. unfold setState. rewrite kbind_eq. erewrite kstore_proc_eq by (kred; apply lookup_insert_eq). kred.
    rewrite kbind_eq, (enqueue_ready_eq _ _ (a_queue a)) by (kred; first [done|destruct Hm; split; done]). kred.
    rewrite insert_insert_eq. set (c' := with_state READY (with_rsp prev c)).
    match goal with |- context [dispatch ?t] => set (s2 := t) end.
    pose proof (proc_of_insert s s2 (a_cur a) _ c' Hi Hct eq_refl eq_refl) as Hpo2.
    assert (Hni : a_cur a ∉ a_queue a) by (rewrite Hmem, Hrun; done).
    assert (Hi2 : sched_inv s2).
    { eapply (sched_inv_move s s2 (a_cur a) _ c c' (a_queue a) (a_queue a ++ [a_cur a])); try done.
      - apply list.NoDup_app. split_and!; [done| |apply NoDup_singleton]. set_solver.
      - intros q Hqq. set_solver.
      - split; [done|]. intros _. set_solver.
      - intros _. by left. }
    destruct (a_queue a ++ [a_cur a]) as [|next rest] eqn:En; [by destruct (a_queue a)|].
    assert (Hpr2 : ∀ q, prio_of s2 q = a_prio a q).
    { intros q. unfold prio_of. rewrite Hpo2. case_decide as Hqq; [|apply Hprio]. subst q.
      rewrite <- Hprio. unfold prio_of. by rewrite Hpo, !fmap_Some_eq. }
    destruct (dispatch_spec s2 next rest Hi2) as (s3 & cn & E3 & Hcn & Hv3 & Ht3 & _ & Hf3); try done.
    { destruct Hm. split; unfold s2, tick_state; kred; [done|lia]. }
    { intros q Hr. unfold state_of in Hr. rewrite Hpo2 in Hr. case_decide as Hqq; [done|].
      by eapply no_running. }
    { intros q pr. rewrite Hpr2. apply Hu8. }
    exists s3, (p_rsp cn). split; [done|]. split; [|split; [done|split; [done|]]].
    + destruct Hv3 as [G1 G2 G3 G4 G5 G6 G7 G8 G9 G10]. cbn [a_cur a_rem a_queue a_prio] in *. rewrite Hpr2 in *.
      split; cbn [a_cur a_rem a_queue a_prio]; try done. intros q. by rewrite G9, Hpr2.
    + cbn [a_cur]. rewrite Hpo2 in Hcn. unfold saved_rsp. case_decide as Hqq.
      * injection Hcn as <-. done.
      * by rewrite Hcn.
Qed.

(** A tick when the current process gave up the processor (blocked or dead). *)
Lemma schedule_gone s prev pid st next rest :
  sched_inv s → mem_ok s → schedulerEnabled s = true →
  processTable s !! pid = Some (currentProcess s) → state_of s pid = Some st → st = BLOCKED ∨ st = ZOMBIE →
  readyQueue s = Some (next :: rest) → (∀ q pr, prio_of s q = Some pr → 0 ≤ pr < 256) →
  ∃ s', schedule prev s = KDone s' (default 0 (saved_rsp s next)) ∧
    views s' (mkView next (slice (prio_of s next)) rest (prio_of s)) ∧
    state_of s' pid = Some st ∧ saved_rsp s' pid = Some prev.
Proof.
  intros Hi Hm Hon Hct Hst Hcase Hl Hu8.
  destruct (si_table _ Hi _ _ Hct) as (Hpid & Hp0 & c & Hc & Hcp).
  assert (Hpo : proc_of s pid = Some c) by (unfold proc_of; rewrite Hct; exact Hc).
  assert (Hrn : p_state c = st) by (unfold state_of in Hst; rewrite Hpo, fmap_Some_eq in Hst; congruence).
  rewrite (schedule_start _ _ _ Hon Hp0 Hc). cbv zeta.
  rewrite bool_decide_false by (rewrite Hrn; destruct Hcase; congruence).
  destruct (si_ready _ Hi) as (l0 & Hl0 & Hnd & Hmem). assert (l0 = next :: rest) as -> by congruence.
  set (s1 := set_procs _ _). set (c' := with_rsp prev c) in *.
  pose proof (proc_of_insert s s1 pid _ c' Hi Hct eq_refl eq_refl) as Hpo1.
  assert (Hi1 : sched_inv s1).
  { eapply (sched_inv_move s s1 pid _ c c' (next :: rest) (next :: rest)); try done.
    - rewrite Hmem, Hst. unfold c'. cbn [p_state with_rsp]. rewrite Hrn. split; [by intros [=]|by intros ->].
    - intros ->. destruct (si_idle _ Hi) as [E|E]; rewrite E in Hst; injection Hst as <-; by destruct Hcase. }
  assert (Hpr1 : ∀ q, prio_of s1 q = prio_of s q).
  { intros q. unfold prio_of. rewrite Hpo1. case_decide as Hqq; [|done]. subst q.
    by rewrite Hpo, !fmap_Some_eq. }
  destruct (dispatch_spec s1 next rest Hi1) as (s3 & cn & E3 & Hcn & Hv3 & Ht3 & Hoth & Hf3); try done.
  { intros q Hr. unfold state_of in Hr. rewrite Hpo1 in Hr. case_decide as Hqq.
    - rewrite fmap_Some_eq in Hr. injection Hr. unfold c'. cbn [p_state with_rsp]. rewrite Hrn. by destruct Hcase; subst.
    - apply Hqq. eapply table_inj; [exact Hi| |exact Hct]. by apply (si_run _ Hi). }
  { intros q pr. rewrite Hpr1. apply Hu8. }
  assert (Hne : next ≠ pid).
  { intros ->. assert (pid ∈ pid :: rest) as Hin by set_solver. apply Hmem in Hin. rewrite Hst in Hin.
    injection Hin as ->. by destruct Hcase. }
  assert (Hcn' : proc_of s next = Some cn) by (by rewrite Hpo1, decide_False in Hcn).
  exists s3. unfold saved_rsp at 1. rewrite Hcn', fmap_Some_eq. split; [done|]. split; [|split].
  - destruct Hv3 as [G1 G2 G3 G4 G5 G6 G7 G8 G9 G10]. cbn [a_cur a_rem a_queue a_prio] in *. rewrite Hpr1 in *.
    split; cbn [a_cur a_rem a_queue a_prio]; try done. intros q. by rewrite G9, Hpr1.
  - unfold state_of. rewrite Hoth, Hpo1, decide_True, fmap_Some_eq by done. unfold c'. cbn [p_state with_rsp]. by rewrite Hrn.
  - unfold saved_rsp. rewrite Hoth, Hpo1, decide_True, fmap_Some_eq by done. done.
Qed.

(** ** Fairness *)

Fixpoint run_ticks (rsps : list Z) : K unit :=
  match rsps with [] => mret () | rsp :: rsps => _ ← schedule rsp; run_ticks rsps end.

Fixpoint aticks (n : nat) (a : aview) : aview :=
  match n with O => a | S n => aticks n (atick a) end.

Lemma aticks_add n m a : aticks (n + m) a = aticks m (aticks n a).
Proof. revert a. induction n as [|n IH]; intros a; [done|]. cbn [Nat.add aticks]. apply IH. Qed.

Lemma run_ticks_views rsps : ∀ s a, views s a →
  ∃ s', run_ticks rsps s = KDone s' () ∧ views s' (aticks (length rsps) a).
Proof.
  induction rsps as [|rsp rsps IH]; intros s a Hv; [by exists s|]. cbn [run_ticks aticks length].
  destruct (schedule_tick s a rsp Hv) as (s1 & r & E & Hv1 & _). rewrite kbind_eq, E. kred. by apply IH.
Qed.

(** The ticks a process with these priorities keeps the processor. *)
Definition turn (prio : option Z) : Z := slice prio + 1.

(** Ticks until the process at place [n] of the ready queue runs: what is left of the current
    turn, and the turns of those before it. *)
Definition wait_time (a : aview) (n : nat) : Z :=
  a_rem a + 1 + foldr (λ q acc, turn (a_prio a q) + acc) 0 (take n (a_queue a)).

Lemma turn_pos prio : 0 < turn prio.
Proof. unfold turn, slice. lia. Qed.

Lemma wait_time_pos a n : 0 ≤ a_rem a → 0 < wait_time a n.
Proof.
  intros H. unfold wait_time.
  assert (0 ≤ foldr (λ q acc, turn (a_prio a q) + acc) 0 (take n (a_queue a))); [|lia].
  induction (take n (a_queue a)) as [|q l IH]; cbn [foldr]; [lia|]. pose proof (turn_pos (a_prio a q)). lia.
Qed.

Lemma aticks_drain (r : nat) : ∀ a, a_rem a = Z.of_nat r →
  aticks r a = mkView (a_cur a) 0 (a_queue a) (a_prio a).
Proof.
  induction r as [|r IH]; intros a Hr; cbn [aticks]; [destruct a; simpl in *; by subst|].
  unfold atick. destruct (Z.ltb_spec 0 (a_rem a)); [|lia]. rewrite IH; [done|]. cbn [a_rem]. lia.
Qed.

Lemma aticks_reach n : ∀ a pid, 0 ≤ a_rem a → a_queue a !! n = Some pid →
  a_cur (aticks (Z.to_nat (wait_time a n)) a) = pid.
Proof.
  induction n as [|n IH]; intros a pid Hr Hn; destruct (a_queue a) as [|h t] eqn:Eq; try done.
  - unfold wait_time. rewrite firstn_O. cbn [foldr].
    replace (Z.to_nat (a_rem a + 1 + 0)) with (Z.to_nat (a_rem a) + 1)%nat by lia.
    rewrite aticks_add, (aticks_drain (Z.to_nat (a_rem a))) by lia. cbn [aticks]. unfold atick. cbn [a_rem Z.ltb Z.compare a_queue a_cur].
    rewrite Eq. cbn [app a_cur]. cbn in Hn. congruence.
  - assert (Ew : wait_time a (S n) = a_rem a + 1 + wait_time (mkView h (slice (a_prio a h)) (t ++ [a_cur a]) (a_prio a)) n).
    { unfold wait_time. rewrite Eq. cbn [firstn foldr a_rem a_prio a_queue]. cbn in Hn.
      rewrite take_app_le by (apply lookup_lt_Some in Hn; lia). unfold turn at 1. lia. }
    set (a' := mkView _ _ _ _) in *. assert (0 ≤ a_rem a') by (unfold a', slice; cbn [a_rem]; lia).
    pose proof (wait_time_pos a' n ltac:(done)).
    replace (Z.to_nat (wait_time a (S n))) with (Z.to_nat (a_rem a) + (1 + Z.to_nat (wait_time a' n)))%nat by lia.
    rewrite !aticks_add, (aticks_drain (Z.to_nat (a_rem a))) by lia. cbn [aticks].
    replace (atick _) with a'.
    + apply IH; [done|]. unfold a'. cbn [a_queue]. cbn in Hn. by apply lookup_app_l_Some.
    + unfold atick. cbn [a_rem Z.ltb Z.compare a_queue a_cur a_prio]. by rewrite Eq.
Qed.

(** ** Properties *)


Lemma mini_views : views mini (mkView 2 0 [0] (prio_of mini)).
Proof.
  split; cbn [a_cur a_rem a_queue a_prio]; try done; [exact mini_inv|].
  intros pid pr. unfold prio_of, proc_of. destruct (processTable mini !! pid) as [p|] eqn:E; [|done].
  destruct (mini_table _ _ E) as [[-> ->]|[[-> ->]|[-> ->]]]; change (Some 1 = Some pr → 0 ≤ pr < 256); intros [= <-]; lia.
Qed.


(** C4. No starvation: with only timer ticks happening, the process at place [n] of the ready
    queue runs after exactly the ticks left to the current process plus one, plus the turns
    (as many ticks as the priority) of the [n] processes before it, whatever the interrupted
    stack pointers are; no tick ever faults. *)
Theorem round_robin_fair s a n pid rsps :
  views s a → a_queue a !! n = Some pid → Z.of_nat (length rsps) = wait_time a n →
  ∃ s', run_ticks rsps s = KDone s' () ∧ sched_inv s' ∧ state_of s' pid = Some RUNNING ∧
    processTable s' !! pid = Some (currentProcess s').
Proof.
  intros Hv Hn Hlen. destruct (run_ticks_views rsps s a Hv) as (s' & E & Hv').
  pose proof (aticks_reach n a pid ltac:(pose proof (v_rng _ _ Hv); lia) Hn) as Hc.
  replace (Z.to_nat (wait_time a n)) with (length rsps) in Hc by lia.
  exists s'. split; [done|]. split; [apply Hv'|]. rewrite <- Hc. split; [exact (v_run _ _ Hv')|exact (v_cur _ _ Hv')].
Qed.

Lemma round_robin_fair_witness : views mini (mkView 2 0 [0] (prio_of mini)) ∧
  ∃ s', run_ticks [777] mini = KDone s' () ∧ state_of s' 0 = Some RUNNING.
Proof.
  split; [exact mini_views|].
  destruct (round_robin_fair mini _ 0 0 [777] mini_views) as (s' & H1 & _ & H2 & _); [reflexivity|reflexivity|].
  exists s'. split; [exact H1|exact H2].
Defined.

(** When the current process has given up the processor (it is blocked, or dead), the next
    tick runs the head of the ready queue, which is never empty: the idle process is in it.
    The process that left keeps its state and its stack pointer is saved. *)
Theorem schedule_leaves s prev pid st :
  sched_inv s → mem_ok s → schedulerEnabled s = true →
  processTable s !! pid = Some (currentProcess s) → state_of s pid = Some st → st = BLOCKED ∨ st = ZOMBIE →
  (∀ q pr, prio_of s q = Some pr → 0 ≤ pr < 256) →
  ∃ next rest s', readyQueue s = Some (next :: rest) ∧
    schedule prev s = KDone s' (default 0 (saved_rsp s next)) ∧
    views s' (mkView next (slice (prio_of s next)) rest (prio_of s)) ∧
    state_of s' pid = Some st ∧ saved_rsp s' pid = Some prev.
Proof.
  intros Hi Hm Hon Hct Hst Hcase Hu8. destruct (si_ready _ Hi) as (l & Hl & Hnd & Hmem).
  assert (Hidle : state_of s IDLE_PID = Some READY).
  { destruct (si_idle _ Hi) as [?|Hr]; [done|]. pose proof (si_run _ Hi _ Hr) as Hr'.
    assert (pid = IDLE_PID) as -> by (by eapply table_inj).
    rewrite Hst in Hr. injection Hr as ->. by destruct Hcase. }
  apply Hmem in Hidle. destruct l as [|next rest]; [by apply elem_of_nil in Hidle|].
  destruct (schedule_gone s prev pid st next rest) as (s' & E & Hv & H1 & H2); try done.
  by exists next, rest, s'.
Qed.

Definition mini_blocked : kst :=
  match semWait 80 mini with KSwitch s _ => s | _ => mini end.

Lemma schedule_leaves_witness : state_of mini_blocked 2 = Some BLOCKED ∧
  ∃ s', schedule 777 mini_blocked = KDone s' (65536 + 32768) ∧ state_of s' 2 = Some BLOCKED.
Proof.
  split; [reflexivity|].
  assert (H80 : sem_ok (mkSem 0 [] false)) by exact sem_ok_80.
  assert (Hb : mem_ok mini_blocked ∧ sched_inv mini_blocked).
  { pose proof (semWait_block 80 mini (mkSem 0 [] false) 2 16 (mini_proc 2 RUNNING) eq_refl H80) as Hw.
    assert (Hr : in_range (mkSem 0 [] false)) by (unfold in_range; cbn; lia).
    specialize (Hw Hr ltac:(cbn; lia) ltac:(lia) mini_mem eq_refl ltac:(lia) eq_refl eq_refl).
    unfold mini_blocked. rewrite Hw. split; [split; [reflexivity|kred; cbn [k_next mini]; lia]|].
    eapply (sched_inv_move mini _ 2 16 (mini_proc 2 RUNNING) (with_state BLOCKED (mini_proc 2 RUNNING)) [0] [0]);
      try done; [exact mini_inv|apply NoDup_singleton|split; [set_solver|done]]. }
  destruct Hb as [Hm Hi].
  destruct (schedule_leaves mini_blocked 777 2 BLOCKED Hi Hm) as (next & rest & s' & Hq & H1 & _ & H2 & _);
    [reflexivity|reflexivity|reflexivity|by left| |].
  - intros q pr. unfold prio_of, proc_of. change (processTable mini_blocked) with (processTable mini).
    destruct (processTable mini !! q) as [p|] eqn:E; [|done].
    destruct (mini_table _ _ E) as [[-> ->]|[[-> ->]|[-> ->]]]; change (Some 1 = Some pr → 0 ≤ pr < 256); intros [= <-]; lia.
  - exists s'. injection Hq as <- <-. split; [exact H1|exact H2].
Defined.

End Scheduler.
