(* ===== verification/LifeCycle.v ===== *)
(** * The life cycle of processes: what starting, ending and reaping them does

    The operations of [scheduler.c] that create and destroy processes, against the invariant
    of [KernelInv.v]: a process that ends becomes a zombie without descriptors, its parent is
    told, its children become children of init; a reaped one leaves nothing behind. *)

From S2P Require Import Prelude CircularBuffer KState ProcTable Semaphore Pipe Process KernelInv KernelCheck.
From S2P Require Import Descriptors Scheduler.
Import ProcTable Semaphore Pipe FileAccess Process KernelInv KernelCheck Descriptors Scheduler.

Module LifeCycle.

Section Pinned.
Context {pin : Pinned}.

(** ** Changes of descriptors that keep the objects of the heap *)

(** The fields that own or refer to heap objects, and the identity. *)
Definition same_objects (c c' : processCDT) : Prop :=
  p_pid c' = p_pid c ∧ terminated c' = terminated c ∧ childTerminated c' = childTerminated c ∧
  fdTable c' = fdTable c ∧ eofRequests c' = eofRequests c.

Lemma kinv_proc N g s s' p c c' : kinv N g s → k_procs s !! p = Some c → same_objects c c' →
  k_procs s' = <[p := c']> (k_procs s) → k_sems s' = k_sems s → k_pipes s' = k_pipes s → k_files s' = k_files s →
  sharedTable s' = sharedTable s → k_mem s' = k_mem s → k_next s ≤ k_next s' → sched_inv s' → kinv N g s'.
Proof.
  intros H Hc (Sp & St & Sc & Sf & Se) E1 E2 E3 E4 E5 E6 Hn Hi.
  pose proof H as [I0 [I1 I1'] I2 (I3a & I3b & I3c & I3d) I4 I5 I6 I7 I8 I9 I10].
  assert (Hown : ∀ q o, owns s' q o → owns s q o).
  { intros q [x i|x i|i]; simpl; rewrite ?E1, ?E3, ?E5; try done.
    intros (d & [[<- <-]|[_ Hd]]%lookup_insert_Some & Hx); [|by exists d]. exists c. split; [done|].
    unfold proc_sems in *. by rewrite St, Sc in Hx. }
  split; try done.
  - split; [congruence|lia].
  - unfold below in *. rewrite E1, E2, E3, E4. split_and!; intros k Hk.
    + specialize (I3a k Hk). lia.
    + specialize (I3b k Hk). lia.
    + specialize (I3c k Hk). lia.
    + apply lookup_insert_is_Some' in Hk as [<-|Hk]; [|specialize (I3d k Hk); lia].
      specialize (I3d p (mk_is_Some _ _ Hc)). lia.
  - rewrite E2. done.
  - rewrite E2. intros q o Ho. by eapply I5, Hown.
  - intros q o o' Ho%Hown Ho'%Hown. by eapply I6.
  - rewrite E3, E4. done.
  - rewrite E3, E4, E1. intros fa f Hf. rewrite (sum_of_update _ _ _ c) by done.
    unfold slots at 2 3. rewrite Sf. destruct (I8 fa f Hf). split; [done|lia].
  - rewrite E1, E4. intros x d [[<- <-]|[_ Hd]]%lookup_insert_Some; [|by apply (I9 x d)].
    rewrite Sf, Se. by apply (I9 p c).
  - rewrite E1, E4. by rewrite map_size_insert_Some.
Qed.

(** What the life-cycle operations leave alone, wake-ups apart. *)
Record outer (s s' : kst) : Prop := {
  ou_shared : sharedTable s' = sharedTable s;
  ou_table : processTable s' = processTable s;
  ou_current : currentProcess s' = currentProcess s;
  ou_fg : foregroundSet s' = foregroundSet s;
  ou_files : k_files s' = k_files s;
  ou_pipes : k_pipes s' = k_pipes s;
  ou_wakes : wakes s s';
}.
Lemma outer_refl s : outer s s.
Proof. split; try done. by apply wakes_refl. Qed.
Lemma outer_trans s1 s2 s3 : outer s1 s2 → outer s2 s3 → outer s1 s3.
Proof. intros [] []. split; try congruence. by eapply wakes_trans. Qed.
Lemma outer_frame s s' : frame s s' → outer s s'.
Proof. intros []. by split. Qed.

(** Every descriptor changes by [f], up to wake-ups. *)
Definition kin (f : Z → processCDT → processCDT) (s s' : kst) : Prop :=
  ∀ q, option_Forall2 (λ c c', proc_like (f q c) c') (k_procs s !! q) (k_procs s' !! q).

Definition at_addr (a : Z) (f : processCDT → processCDT) (q : Z) (c : processCDT) : processCDT := if q =? a then f c else c.
Definition idf (q : Z) (c : processCDT) : processCDT := c.

Lemma kin_some f s s' q c : kin f s s' → k_procs s !! q = Some c → ∃ c', k_procs s' !! q = Some c' ∧ proc_like (f q c) c'.
Proof. intros H Hc. specialize (H q). rewrite Hc in H. inversion H as [? c' L|]. by exists c'. Qed.

Lemma kin_trans f g s1 s2 s3 : kin f s1 s2 → kin g s2 s3 → (∀ q, Proper (proc_like ==> proc_like) (g q)) →
  kin (λ q c, g q (f q c)) s1 s3.
Proof.
  intros H1 H2 Hg q. specialize (H1 q). specialize (H2 q). destruct H1 as [c c1 L1|]; inversion H2 as [? c2 L2|]; constructor.
  etrans; [|exact L2]. by apply Hg.
Qed.
Lemma kin_ext f g s s' : kin f s s' → (∀ q c, k_procs s !! q = Some c → proc_like (f q c) (g q c)) → kin g s s'.
Proof.
  intros H E q. specialize (H q). destruct (k_procs s !! q) as [c|] eqn:Hc; inversion H as [? c' L|]; constructor.
  etrans; [|exact L]. symmetry. by apply E.
Qed.
Lemma kin_frame s s' : frame s s' → kin idf s s'.
Proof. intros F q. exact (fr_procs _ _ F q). Qed.

#[export] Instance with_children_proper v : Proper (proc_like ==> proc_like) (with_children v).
Proof. intros a b L. red in L. rewrite L. done. Qed.

(** A store that keeps the objects and the state. *)
Definition mild (f : processCDT → processCDT) : Prop := ∀ c, same_objects c (f c) ∧ p_state (f c) = p_state c.

Lemma mild_store_ok N s q f c : kinv N no_ghost s → k_procs s !! q = Some c → mild f →
  ∃ s', kstore_proc q f s = KDone s' () ∧ kinv N no_ghost s' ∧ outer s s' ∧ kin (at_addr q f) s s'.
Proof.
  intros H Hc Hf. destruct (Hf c) as [So Es]. eexists. split; [exact (kstore_proc_eq _ _ _ _ Hc)|].
  split; [|split].
  - apply (kinv_proc _ _ _ _ q c (f c) H Hc So); try done.
    apply (sched_inv_procs s q c); [apply (ki_sched _ _ _ H)|done|done|apply So].
  - split; try done. apply wakes_refl. intros pid. by apply (state_of_same _ _ c).
  - intros x. kred. unfold at_addr. destruct (Z.eqb_spec x q) as [->|].
    + rewrite lookup_insert_eq, Hc. by constructor.
    + rewrite lookup_insert_ne by done. destruct (k_procs s !! x); by constructor.
Qed.

Definition app_child (x : Z) (c : processCDT) : processCDT := with_children ((λ l, l ++ [x]) <$> children c) c.
Definition app_terminated (x : Z) (c : processCDT) : processCDT :=
  with_terminatedChildren ((λ l, l ++ [x]) <$> terminatedChildren c) c.

Lemma grow_ok N s : kinv N no_ghost s → kinv N no_ghost (set_next (k_next s + 16) s).
Proof.
  intros H. pose proof H as [I0 [I1 I1'] I2 (I3a & I3b & I3c & I3d) I4 I5 I6 I7 I8 I9 I10].
  split; try done; kred.
  - split; kred; [done|lia].
  - keep_sched I2.
  - unfold below in *. kred. split_and!; intros k Hk;
      [specialize (I3a k Hk)|specialize (I3b k Hk)|specialize (I3c k Hk)|specialize (I3d k Hk)]; lia.
Qed.

Lemma enqueue_child_ok N s q x c l : kinv N no_ghost s → k_procs s !! q = Some c → children c = Some l →
  ∃ s', enqueue_child q x s = KDone s' 1 ∧ kinv N no_ghost s' ∧ outer s s' ∧ kin (at_addr q (app_child x)) s s'.
Proof.
  intros H Hc Hl. pose proof (grow_ok N s H) as H1.
  destruct (mild_store_ok N (set_next (k_next s + 16) s) q (with_children (Some (l ++ [x]))) c H1 Hc) as (s' & E & H' & O & F); [done|].
  exists s'. unfold enqueue_child, proc. rewrite kbind_eq, (kload_some _ _ _ _ Hc). kred. rewrite Hl.
  rewrite kbind_eq, (q_enqueue_ok _ _ _ (ki_mem _ _ _ H)). kred. rewrite kbind_eq, E. kred. split; [done|]. split; [done|].
  split.
  - apply (outer_trans _ (set_next (k_next s + 16) s)); [|done]. split; try done. by apply wakes_refl.
  - apply (kin_ext _ _ _ _ F). intros y d Hd. unfold at_addr, app_child. destruct (Z.eqb_spec y q) as [->|]; [|done].
    change (k_procs s !! q = Some d) in Hd. assert (d = c) as -> by congruence. by rewrite Hl.
Qed.

Lemma enqueue_terminated_ok N s q x c l : kinv N no_ghost s → k_procs s !! q = Some c → terminatedChildren c = Some l →
  ∃ s', enqueue_terminated q x s = KDone s' () ∧ kinv N no_ghost s' ∧ outer s s' ∧ kin (at_addr q (app_terminated x)) s s'.
Proof.
  intros H Hc Hl. pose proof (grow_ok N s H) as H1.
  destruct (mild_store_ok N (set_next (k_next s + 16) s) q (with_terminatedChildren (Some (l ++ [x]))) c H1 Hc) as (s' & E & H' & O & F); [done|].
  exists s'. unfold enqueue_terminated, proc. rewrite kbind_eq, (kload_some _ _ _ _ Hc). kred. rewrite Hl.
  rewrite kbind_eq, (q_enqueue_ok _ _ _ (ki_mem _ _ _ H)). kred. split; [done|]. split; [done|]. split.
  - apply (outer_trans _ (set_next (k_next s + 16) s)); [|done]. split; try done. by apply wakes_refl.
  - apply (kin_ext _ _ _ _ F). intros y d Hd. unfold at_addr, app_terminated. destruct (Z.eqb_spec y q) as [->|]; [|done].
    change (k_procs s !! q = Some d) in Hd. assert (d = c) as -> by congruence. by rewrite Hl.
Qed.

Lemma post_kin N s q : kinv N no_ghost s → is_Some (k_sems s !! q) → N < 2 ^ 30 →
  ∃ s', semPost q s = KDone s' 0 ∧ kinv (N + 1) no_ghost s' ∧ outer s s' ∧ kin idf s s'.
Proof.
  intros H Hq HN. destruct (post_ok N no_ghost s q H Hq HN) as (s' & E & H' & F). exists s'.
  split; [done|]. split; [done|]. split; [by apply outer_frame|by apply kin_frame].
Qed.

(** ** Orphans *)

(** Every descriptor is in the table, at its pid, and has its two queues, which hold pids;
    a zombie has no open descriptors. *)
Record family (s : kst) : Prop := {
  fm_listed : ∀ q c, k_procs s !! q = Some c → processTable s !! p_pid c = Some q;
  fm_queues : ∀ q c, k_procs s !! q = Some c → ∃ cs ts, children c = Some cs ∧ terminatedChildren c = Some ts ∧
    Forall is_pid cs ∧ Forall is_pid ts;
  fm_zombie : ∀ q c, k_procs s !! q = Some c → p_state c = ZOMBIE → fdTable c = replicate 16 0;
}.

Definition present (s : kst) (x : Z) : bool := bool_decide (is_Some (processTable s !! x)).
Definition zombie (s : kst) (x : Z) : bool := bool_decide (state_of s x = Some ZOMBIE).

(** What becomes of the descriptor [c] at [q] when init, at [ip], adopts the children [cs] of
    the process at [p]. *)
Definition orphaned (s : kst) (cs : list Z) (p ip q : Z) (c : processCDT) : processCDT :=
  with_ppid (if bool_decide (p_pid c ∈ cs) then INIT_PID else p_ppid c)
    (with_children (if q =? p then Some []
                    else if q =? ip then (λ l, l ++ List.filter (present s) cs) <$> children c else children c)
      (with_terminatedChildren (if q =? ip then (λ l, l ++ List.filter (zombie s) cs) <$> terminatedChildren c
                                else terminatedChildren c) c)).

#[export] Instance orphaned_proper s cs p ip q : Proper (proc_like ==> proc_like) (orphaned s cs p ip q).
Proof. intros a b L. red in L. rewrite L. done. Qed.
#[export] Instance app_child_proper x : Proper (proc_like ==> proc_like) (app_child x).
Proof. intros a b L. red in L. rewrite L. done. Qed.
#[export] Instance app_terminated_proper x : Proper (proc_like ==> proc_like) (app_terminated x).
Proof. intros a b L. red in L. rewrite L. done. Qed.
#[export] Instance with_ppid_proper v : Proper (proc_like ==> proc_like) (with_ppid v).
Proof. intros a b L. red in L. rewrite L. done. Qed.
#[export] Instance at_addr_proper a f q : Proper (proc_like ==> proc_like) f → Proper (proc_like ==> proc_like) (at_addr a f q).
Proof. intros Hf x y L. unfold at_addr. destruct (q =? a); [by apply Hf|done]. Qed.

Lemma wakes_zombie s s' x : wakes s s' → state_of s' x = Some ZOMBIE ↔ state_of s x = Some ZOMBIE.
Proof. intros W. destruct (W x) as [->|[-> ->]]; [done|]. split; congruence. Qed.

Lemma outer_present s s' x : outer s s' → present s' x = present s x.
Proof. intros O. unfold present. by rewrite (ou_table _ _ O). Qed.
Lemma outer_zombie s s' x : outer s s' → zombie s' x = zombie s x.
Proof. intros O. unfold zombie. apply bool_decide_ext. apply wakes_zombie, O. Qed.

(** Adopting one child, at [ch]. *)
Definition adopt (s : kst) (x ip ch q : Z) (c : processCDT) : processCDT :=
  at_addr ip (if zombie s x then app_terminated x else id) q
    (at_addr ch (with_ppid INIT_PID) q (at_addr ip (app_child x) q c)).

#[export] Instance adopt_proper s x ip ch q : Proper (proc_like ==> proc_like) (adopt s x ip ch q).
Proof. intros a b L. unfold adopt. destruct (zombie s x); repeat apply at_addr_proper; try apply _; try done. Qed.

Lemma adopt_one N s ip c ic x ch cl tl : kinv N no_ghost s → N < 2 ^ 30 →
  processTable s !! x = Some ch → k_procs s !! ch = Some c →
  k_procs s !! ip = Some ic → children ic = Some cl → terminatedChildren ic = Some tl →
  ∃ s', (∀ k : K unit, (_ ← addChild ip x; _ ← setPPID ch INIT_PID; st ← getState ch;
    _ ← (if bool_decide (st = ZOMBIE) then
           _ ← enqueue_terminated ip x; c ← proc ip; _ ← semPost (childTerminated c); mret () else mret ()); k) s = k s') ∧
    kinv (N + 1) no_ghost s' ∧ outer s s' ∧ kin (adopt s x ip ch) s s'.
Proof.
  intros H HN Ht Hc Hic Hcl Htl.
  destruct (enqueue_child_ok N s ip x ic cl H Hic Hcl) as (s1 & E1 & H1 & O1 & F1).
  destruct (kin_some _ _ _ _ _ F1 Hc) as (c1 & Hc1 & _).
  destruct (mild_store_ok N s1 ch (with_ppid INIT_PID) c1 H1 Hc1) as (s2 & E2 & H2 & O2 & F2); [done|].
  pose proof (kin_trans _ _ _ _ _ F1 F2 ltac:(apply _)) as F12. pose proof (outer_trans _ _ _ O1 O2) as O12.
  destruct (kin_some _ _ _ _ _ F12 Hc) as (c2 & Hc2 & _). destruct (kin_some _ _ _ _ _ F12 Hic) as (ic2 & Hic2 & L2).
  assert (Hst : bool_decide (p_state c2 = ZOMBIE) = zombie s x).
  { rewrite <- (outer_zombie _ _ x O12). unfold zombie. apply bool_decide_ext.
    rewrite (state_of_eq s2 x ch c2); [split; congruence|by rewrite (ou_table _ _ O12)|done]. }
  assert (Hrun : ∀ k : K unit, (_ ← addChild ip x; _ ← setPPID ch INIT_PID; st ← getState ch;
    _ ← (if bool_decide (st = ZOMBIE) then
           _ ← enqueue_terminated ip x; c ← proc ip; _ ← semPost (childTerminated c); mret () else mret ()); k) s =
    kbind ((if zombie s x then
           _ ← enqueue_terminated ip x; c ← proc ip; _ ← semPost (childTerminated c); mret () else mret ()) s2) (λ _, k)).
  { intros k. unfold addChild, setPPID. rewrite kbind_eq, E1. kred. rewrite kbind_eq, E2. kred.
    rewrite kbind_eq, (getState_eq _ _ _ Hc2). kred. by rewrite Hst. }
  unfold adopt. destruct (zombie s x).
  - assert (Htl2 : terminatedChildren ic2 = Some tl).
    { red in L2. rewrite L2. unfold at_addr. destruct (ip =? ip), (ip =? ch); cbn; done. }
    destruct (enqueue_terminated_ok N s2 ip x ic2 tl H2 Hic2 Htl2) as (s3 & E3 & H3 & O3 & F3).
    destruct (kin_some _ _ _ _ _ F3 Hic2) as (ic3 & Hic3 & _).
    destruct (post_kin N s3 (childTerminated ic3) H3) as (s4 & E4 & H4 & O4 & F4);
      [apply (ki_live _ _ _ H3 _ (OProc ip 1)); by exists ic3|done|].
    exists s4. split; [|split; [done|]].
    { intros k. rewrite Hrun, kbind_eq, E3. kred. unfold proc. rewrite kbind_eq, (kload_some _ _ _ _ Hic3). kred.
      by rewrite kbind_eq, E4. }
    split; [exact (outer_trans _ _ _ O12 (outer_trans _ _ _ O3 O4))|].
    pose proof (kin_trans _ _ _ _ _ F12 (kin_trans _ _ _ _ _ F3 F4 ltac:(intros ? ?? ?; done)) ltac:(apply _)) as F.
    apply (kin_ext _ _ _ _ F). done.
  - exists s2. split; [intros k; by rewrite Hrun|]. split; [apply (kinv_mono N); [done|lia]|]. split; [done|].
    apply (kin_ext _ _ _ _ F12). intros q d _. unfold at_addr at 3. destruct (q =? ip); done.
Qed.

Lemma fmap_app_app (o : queue) a b : (λ l, l ++ b) <$> ((λ l, l ++ a) <$> o) = (λ l, l ++ (a ++ b)) <$> o.
Proof. destruct o; [|done]. cbn. by rewrite app_assoc. Qed.
Lemma fmap_app_nil (o : queue) : (λ l, l ++ []) <$> o = o.
Proof. destruct o; [|done]. cbn. by rewrite app_nil_r. Qed.

Lemma orphaned_nil s p ip q c : (q = p → children c = Some []) → orphaned s [] p ip q c = c.
Proof.
  intros H. unfold orphaned. rewrite bool_decide_false by set_solver. cbn [List.filter]. rewrite !fmap_app_nil.
  destruct (Z.eqb_spec q p) as [E|E]; [rewrite <- (H E)|]; destruct (q =? ip); by destruct c.
Qed.

(** The state-independent part of [orphaned]. *)
Lemma orphaned_outer s s' cs p ip q c : outer s s' → orphaned s' cs p ip q c = orphaned s cs p ip q c.
Proof.
  intros O. unfold orphaned.
  assert (E1 : List.filter (present s') cs = List.filter (present s) cs) by (apply filter_ext; intros; by apply outer_present).
  assert (E2 : List.filter (zombie s') cs = List.filter (zombie s) cs) by (apply filter_ext; intros; by apply outer_zombie).
  by rewrite E1, E2.
Qed.

(** One child, then the others. *)
Lemma orphaned_cons s x cs p ip ch q c : p ≠ ip → processTable s !! x = Some ch → (p_pid c = x ↔ q = ch) →
  orphaned s cs p ip q (adopt s x ip ch q (at_addr p (with_children (Some cs)) q c)) = orphaned s (x :: cs) p ip q c.
Proof.
  intros Hne Ht Hq. assert (Hpr : present s x = true) by (unfold present; rewrite Ht; apply bool_decide_true; by eexists).
  assert (Hb : bool_decide (p_pid c ∈ x :: cs) = (q =? ch) || bool_decide (p_pid c ∈ cs)).
  { destruct (Z.eqb_spec q ch) as [E|E]; cbn [orb].
    - apply bool_decide_true. apply elem_of_cons. left. tauto.
    - apply bool_decide_ext. rewrite elem_of_cons. tauto. }
  assert (Hp : p_pid (adopt s x ip ch q (at_addr p (with_children (Some cs)) q c)) = p_pid c).
  { unfold adopt, at_addr. by destruct (q =? ip), (q =? ch), (q =? p), (zombie s x). }
  unfold orphaned. rewrite Hp, Hb. cbn [List.filter]. rewrite Hpr. unfold adopt, at_addr, app_child, app_terminated.
  assert (Hx : (q =? p) && (q =? ip) = false) by (destruct (Z.eqb_spec q p), (Z.eqb_spec q ip); congruence || done).
  destruct (q =? p) eqn:Ep, (q =? ip) eqn:Ei; try done; clear Hx Hp Hb Hpr Hq;
    destruct (q =? ch), (bool_decide (p_pid c ∈ cs)), (zombie s x); cbn; rewrite ?fmap_app_app; done.
Qed.

Lemma orphan_loop_ok p ip : p ≠ ip → ∀ cs N s c ic cl tl, kinv N no_ghost s → N + len cs ≤ 2 ^ 30 → Forall is_pid cs →
  (∀ q c, k_procs s !! q = Some c → processTable s !! p_pid c = Some q) →
  k_procs s !! p = Some c → children c = Some cs →
  k_procs s !! ip = Some ic → children ic = Some cl → terminatedChildren ic = Some tl →
  ∃ s', orphan_loop cs p ip s = KDone s' () ∧ kinv (N + len cs) no_ghost s' ∧ outer s s' ∧ kin (orphaned s cs p ip) s s'.
Proof.
  intros Hne. induction cs as [|x cs IH]; intros N s c ic cl tl H HN Hp Hlist Hc Hcs Hic Hcl Htl; cbn [orphan_loop].
  - exists s. cbn [length]. rewrite Z.add_0_r. split; [done|]. split; [done|]. split; [apply outer_refl|].
    apply (kin_ext idf); [intros q; unfold idf; by destruct (k_procs s !! q); constructor|].
    intros q d Hd. rewrite orphaned_nil; [done|]. intros ->. congruence.
  - apply list.Forall_cons in Hp as [Hx Hp]. cbn [length] in *. unfold is_pid in Hx.
    destruct (mild_store_ok N s p (with_children (Some cs)) c H Hc) as (s1 & E1 & H1 & O1 & F1); [done|].
    destruct (kin_some _ _ _ _ _ F1 Hc) as (c1 & Hc1 & L1). destruct (kin_some _ _ _ _ _ F1 Hic) as (ic1 & Hic1 & Li1).
    unfold at_addr in L1, Li1. rewrite Z.eqb_refl in L1. rewrite (proj2 (Z.eqb_neq ip p)) in Li1 by done.
    assert (Hcl1 : children ic1 = Some cl ∧ terminatedChildren ic1 = Some tl) by (red in Li1; by rewrite Li1).
    assert (Hcs1 : children c1 = Some cs) by (red in L1; by rewrite L1). destruct Hcl1 as [Hcl1 Htl1].
    assert (Hlist1 : ∀ q d, k_procs s1 !! q = Some d → processTable s1 !! p_pid d = Some q).
    { intros q d Hd. specialize (F1 q). rewrite Hd in F1. inversion F1 as [b ? L Eb|]. rewrite (ou_table _ _ O1).
      red in L. rewrite L. symmetry in Eb. rewrite <- (Hlist q b Eb). unfold at_addr. by destruct (q =? p). }
    rewrite kbind_eq, E1. kred. rewrite i16_small, bad_pid_false by lia. rewrite kbind_eq, slot_eq. kred.
    destruct (processTable s1 !! x) as [ch|] eqn:Ht; cbn [default from_option id].
    + destruct (si_table _ (ki_sched _ _ _ H1) _ _ Ht) as (_ & Hch & cc & Hcc & Hpid).
      rewrite (proj2 (Z.eqb_neq ch 0)) by done.
      destruct (adopt_one N s1 ip cc ic1 x ch cl tl H1) as (s2 & E2 & H2 & O2 & F2); try done; [lia|].
      destruct (kin_some _ _ _ _ _ F2 Hc1) as (c2 & Hc2 & L2). destruct (kin_some _ _ _ _ _ F2 Hic1) as (ic2 & Hic2 & Li2).
      assert (Hlist2 : ∀ q d, k_procs s2 !! q = Some d → processTable s2 !! p_pid d = Some q).
      { intros q d Hd. specialize (F2 q). rewrite Hd in F2. inversion F2 as [b ? L Eb|]. rewrite (ou_table _ _ O2).
        red in L. rewrite L. symmetry in Eb. rewrite <- (Hlist1 q b Eb). unfold adopt, at_addr.
        by destruct (q =? ip), (q =? ch), (zombie s1 x). }
      assert (Hcs2 : children c2 = Some cs).
      { red in L2. rewrite L2. unfold adopt, at_addr. rewrite (proj2 (Z.eqb_neq p ip)) by done.
        by destruct (p =? ch), (zombie s1 x). }
      assert (Hq2 : ∃ cl2 tl2, children ic2 = Some cl2 ∧ terminatedChildren ic2 = Some tl2).
      { red in Li2. rewrite Li2. unfold adopt, at_addr, app_child, app_terminated. rewrite Z.eqb_refl.
        destruct (ip =? ch), (zombie s1 x); cbn; rewrite Hcl1, Htl1; cbn; eauto. }
      destruct Hq2 as (cl2 & tl2 & Hcl2 & Htl2).
      destruct (IH (N + 1) s2 c2 ic2 cl2 tl2 H2) as (s3 & E3 & H3 & O3 & F3); try done; [lia|].
      exists s3. rewrite E2. split; [done|].
      split; [by replace (N + Z.of_nat (S (length cs))) with (N + 1 + len cs) by lia|].
      split; [exact (outer_trans _ _ _ O1 (outer_trans _ _ _ O2 O3))|].
      pose proof (kin_trans _ _ _ _ _ F1 (kin_trans _ _ _ _ _ F2 F3 ltac:(apply _)) ltac:(solve_proper)) as F.
      apply (kin_ext _ _ _ _ F). intros q d Hd. rewrite (orphaned_outer s s2) by (exact (outer_trans _ _ _ O1 O2)).
      assert (Hz : zombie s1 x = zombie s x) by (by apply outer_zombie).
      rewrite <- (orphaned_cons s x cs p ip ch q d); [|done|by rewrite <- (ou_table _ _ O1)|].
      * unfold adopt. by rewrite Hz.
      * rewrite (ou_table _ _ O1) in Ht. pose proof (Hlist q d Hd) as Hq. split; [congruence|].
        intros ->. exact (table_inj _ _ _ _ (ki_sched _ _ _ H) Hq Ht).
    + destruct (IH N s1 c1 ic1 cl tl H1) as (s3 & E3 & H3 & O3 & F3); try done; [lia|].
      exists s3. split; [done|]. split; [apply (kinv_mono _ _ _ _ H3); lia|].
      split; [exact (outer_trans _ _ _ O1 O3)|].
      pose proof (kin_trans _ _ _ _ _ F1 F3 ltac:(apply _)) as F. apply (kin_ext _ _ _ _ F). intros q d Hd.
      rewrite (orphaned_outer s s1) by done. rewrite (ou_table _ _ O1) in Ht.
      assert (Hnx : p_pid d ≠ x) by (intros E; pose proof (Hlist q d Hd); congruence).
      assert (Hpr : present s x = false) by (unfold present; rewrite Ht; done).
      assert (Hzx : zombie s x = false) by (unfold zombie, state_of, proc_of; rewrite Ht; done).
      unfold orphaned, at_addr. cbn [List.filter]. rewrite Hpr, Hzx.
      rewrite (bool_decide_ext (p_pid d ∈ x :: cs) (p_pid d ∈ cs)) by (rewrite elem_of_cons; tauto).
      by destruct (q =? p).
Qed.

(** ** The end of a process *)

(** What a wake-up does to the state of one process. *)
Definition wake1 (a b : option State) : Prop := b = a ∨ (a = Some BLOCKED ∧ b = Some READY).
Lemma wake1_trans a b c : wake1 a b → wake1 b c → wake1 a c.
Proof. intros [->|[-> ->]] [->|[? ->]]; [by left|by right|by right|done]. Qed.
Lemma wake1_zombie a b : wake1 a b → b = Some ZOMBIE ↔ a = Some ZOMBIE.
Proof. intros [->|[-> ->]]; [done|]. split; done. Qed.

Definition sound (N : Z) (s : kst) : Prop := held N s ∧ family s.

Lemma kin_back f s s' q c' : kin f s s' → k_procs s' !! q = Some c' → ∃ c, k_procs s !! q = Some c ∧ proc_like (f q c) c'.
Proof. intros H Hc. specialize (H q). rewrite Hc in H. inversion H as [c ? L E|]. by exists c. Qed.

Lemma sum_of_kin f s s' fa : kin f s s' → (∀ q c, fdTable (f q c) = fdTable c) →
  sum_of (slots fa) (k_procs s') = sum_of (slots fa) (k_procs s).
Proof.
  intros K F. rewrite (sum_of_fmap (slots fa) (k_procs s')), (sum_of_fmap (slots fa) (k_procs s)). f_equal. apply map_eq.
  intros q. rewrite !lookup_fmap. destruct (K q) as [c c' L|]; [|done]. cbn. f_equal. red in L. rewrite L. unfold slots.
  cbn [fdTable with_state]. by rewrite F.
Qed.

Lemma tight_kin f s s' : tight s → kin f s s' → (∀ q c, fdTable (f q c) = fdTable c) →
  k_files s' = k_files s → k_pipes s' = k_pipes s → tight s'.
Proof.
  intros [T1 T0 T2] K F E1 E2. split; rewrite ?E1, ?E2; [|done..]. intros fa Hfa. rewrite (sum_of_kin f s s'); auto.
Qed.

Definition good_queues (c : processCDT) : Prop := ∃ cs ts, children c = Some cs ∧ terminatedChildren c = Some ts ∧
  Forall is_pid cs ∧ Forall is_pid ts.

Lemma family_kin f s s' : family s → kin f s s' → processTable s' = processTable s →
  (∀ q c, k_procs s !! q = Some c → p_pid (f q c) = p_pid c ∧ good_queues (f q c)) →
  (∀ q c', k_procs s' !! q = Some c' → p_state c' = ZOMBIE → fdTable c' = replicate 16 0) → family s'.
Proof.
  intros [F1 F2 F3] K E Hf Hz. split; [| |exact Hz]; intros q c' Hc'; destruct (kin_back _ _ _ _ _ K Hc') as (c & Hc & L);
    destruct (Hf q c Hc) as [Hp Hq]; red in L; rewrite L.
  - rewrite E. cbn [p_pid with_state]. rewrite Hp. by apply F1.
  - exact Hq.
Qed.

(** A process becomes a zombie, off the ready queue. *)
Lemma zombify_ok N s pid p c : kinv N no_ghost s → processTable s !! pid = Some p → k_procs s !! p = Some c → pid ≠ IDLE_PID →
  kinv N no_ghost (set_ready (q_remove (readyQueue s) pid) (set_procs (<[p := with_state ZOMBIE c]> (k_procs s)) s)).
Proof.
  intros H Ht Hc Hi. pose proof (ki_sched _ _ _ H) as Hs. destruct (si_table _ Hs _ _ Ht) as (Hr & Hp & _).
  destruct (si_ready _ Hs) as (l & Hl & Hnd & Hmem).
  assert (Hrange : ∀ x, x ∈ l → 0 ≤ x < 64) by (intros x Hx; eapply state_of_range; [done|by apply Hmem]).
  eapply (kinv_proc N no_ghost s _ p c (with_state ZOMBIE c)); try done.
  pose proof (λ q, q_remove_elem l pid q Hrange Hr) as Hrem. pose proof (q_remove_NoDup l pid Hnd) as Hnd'.
  rewrite Hl. cbn [q_remove default from_option id] in Hrem, Hnd' |- *.
  eapply (sched_inv_move s _ pid p c (with_state ZOMBIE c) l); kred; try done.
  - intros q Hq. rewrite Hrem. tauto.
  - rewrite Hrem. split; [tauto|]. done.
Qed.

Lemma kinv_fg N g s fg : kinv N g s → (∀ pid, pid ∈ fg → pid ∈ foregroundSet s) → kinv N g (set_fg fg s).
Proof.
  intros H Hfg. pose proof (ki_sched _ _ _ H) as [S1 S2 S3 S4 S5 S6]. destruct H. split; try done.
  split; kred; try done. intros pid Hp. apply S6. auto.
Qed.

(** What the end of [pid], at [p], child of the process at [par], makes of the descriptor at [q]. *)
Definition bereaved (pid p par : Z) (q : Z) (c : processCDT) : processCDT :=
  at_addr par (app_terminated pid) q (at_addr p shut q c).

#[export] Instance shut_proper : Proper (proc_like ==> proc_like) shut.
Proof. intros a b L. by apply put_slots_like. Qed.

Lemma shut_keeps c : children (shut c) = children c ∧ terminatedChildren (shut c) = terminatedChildren c ∧
  p_pid (shut c) = p_pid c ∧ p_ppid (shut c) = p_ppid c ∧ p_state (shut c) = p_state c ∧
  terminated (shut c) = terminated c ∧ childTerminated (shut c) = childTerminated c.
Proof.
  unfold shut. generalize (seqZ 0 MAX_FDS) as l. intros l. revert c. induction l as [|i l IH]; intros c; [done|]. cbn [foldl].
  destruct (IH (put_slot closing c i)) as (-> & -> & -> & -> & -> & -> & ->).
  unfold put_slot. by destruct (_ && _).
Qed.

#[local] Opaque shut.

Lemma like_children a b : proc_like a b → children b = children a.
Proof. intros L. red in L. by rewrite L. Qed.
Lemma like_terminated a b : proc_like a b → terminatedChildren b = terminatedChildren a.
Proof. intros L. red in L. by rewrite L. Qed.
Lemma like_pid a b : proc_like a b → p_pid b = p_pid a.
Proof. intros L. red in L. by rewrite L. Qed.
Lemma like_fds a b : proc_like a b → fdTable b = fdTable a.
Proof. intros L. red in L. by rewrite L. Qed.

Lemma shut_at_terminated a q c : terminatedChildren (at_addr a shut q c) = terminatedChildren c.
Proof. unfold at_addr. destruct (q =? a); [apply shut_keeps|done]. Qed.

#[export] Instance bereaved_proper pid p par q : Proper (proc_like ==> proc_like) (bereaved pid p par q).
Proof. unfold bereaved. intros a b L. apply at_addr_proper; [apply _|]. by apply at_addr_proper; [apply _|]. Qed.

Lemma is_pid_app l x : Forall is_pid l → is_pid x → Forall is_pid (l ++ [x]).
Proof. intros. apply list.Forall_app. by split; [|constructor]. Qed.

(** The pid and the children of [d], and queues of pids. *)
Definition kept (d c : processCDT) : Prop := p_pid c = p_pid d ∧ good_queues c ∧ children c = children d.

Lemma shut_kept d c : kept d c → kept d (shut c).
Proof.
  unfold kept, good_queues. destruct (shut_keeps c) as (K1 & K2 & K3 & _). by rewrite K1, K2, K3.
Qed.
Lemma app_terminated_kept d x c : is_pid x → kept d c → kept d (app_terminated x c).
Proof.
  intros Hx (H1 & (cs & ts & H2 & H3 & H4 & H5) & H6). split; [exact H1|]. split; [|exact H6].
  exists cs, (ts ++ [x]). split; [exact H2|]. split; [cbn; by rewrite H3|]. split; [done|by apply is_pid_app].
Qed.
Lemma at_addr_elim (P : processCDT → Prop) a f q c : (P c → P (f c)) → P c → P (at_addr a f q c).
Proof. intros Hf Hc. unfold at_addr. destruct (q =? a); auto. Qed.
Lemma bereaved_kept pid p par q d : is_pid pid → good_queues d → kept d (bereaved pid p par q d).
Proof.
  intros Hx Hd. unfold bereaved. apply at_addr_elim; [by apply app_terminated_kept|].
  apply at_addr_elim; [by apply shut_kept|]. by split.
Qed.

(** [notifyTermination]: the process is a zombie, its semaphore and its parent's are posted. *)
Lemma notify_ok N s pid p c par pc tl : kinv N no_ghost s → processTable s !! pid = Some p → k_procs s !! p = Some c →
  pid ≠ IDLE_PID → k_procs s !! par = Some pc → terminatedChildren pc = Some tl → N + 2 ≤ 2 ^ 30 →
  ∃ s', notifyTermination p par pid s = KDone s' () ∧ kinv (N + 2) no_ghost s' ∧
    kin (at_addr par (app_terminated pid)) s s' ∧ k_files s' = k_files s ∧ k_pipes s' = k_pipes s ∧
    processTable s' = processTable s ∧ currentProcess s' = currentProcess s ∧ foregroundSet s' = foregroundSet s ∧
    state_of s' pid = Some ZOMBIE ∧
    ∀ x, x ≠ pid → state_of s' x = state_of s x ∨ (state_of s x = Some BLOCKED ∧ state_of s' x = Some READY).
Proof.
  intros H Ht Hc Hi Hpar Htl HN. pose proof (ki_sched _ _ _ H) as Hs.
  pose proof (zombify_ok N s pid p c H Ht Hc Hi) as H1.
  set (s1 := set_ready (q_remove (readyQueue s) pid) (set_procs (<[p := with_state ZOMBIE c]> (k_procs s)) s)) in *.
  assert (F1 : kin idf s s1).
  { intros q. unfold s1, idf. kred. destruct (decide (q = p)) as [->|Hq].
    - rewrite lookup_insert_eq, Hc. by constructor.
    - rewrite lookup_insert_ne by done. destruct (k_procs s !! q); by constructor. }
  assert (Hc1 : k_procs s1 !! p = Some (with_state ZOMBIE c)) by apply lookup_insert_eq.
  destruct (post_kin N s1 (terminated c) H1) as (s2 & E2 & H2 & O2 & F2);
    [apply (ki_live _ _ _ H1 _ (OProc p 0)); by exists (with_state ZOMBIE c)|lia|].
  pose proof (kin_trans _ _ _ _ _ F1 F2 ltac:(intros ? ?? ?; done)) as F12.
  destruct (kin_some _ _ _ _ _ F12 Hpar) as (pc2 & Hpc2 & L2).
  destruct (post_kin (N + 1) s2 (childTerminated pc2) H2) as (s3 & E3 & H3 & O3 & F3);
    [apply (ki_live _ _ _ H2 _ (OProc par 1)); by exists pc2|lia|].
  pose proof (kin_trans _ _ _ _ _ F12 F3 ltac:(intros ? ?? ?; done)) as F13.
  destruct (kin_some _ _ _ _ _ F13 Hpar) as (pc3 & Hpc3 & L3).
  assert (Htl3 : terminatedChildren pc3 = Some tl) by (red in L3; by rewrite L3).
  destruct (enqueue_terminated_ok _ s3 par pid pc3 tl H3 Hpc3 Htl3) as (s4 & E4 & H4 & O4 & F4).
  pose proof (outer_trans _ _ _ O2 (outer_trans _ _ _ O3 O4)) as O.
  exists s4. unfold notifyTermination, setState. rewrite kbind_eq, (kstore_proc_eq _ _ _ c) by done. kred.
  rewrite kbind_eq. unfold kmod. kred. fold s1. unfold proc. rewrite kbind_eq, (kload_some _ _ _ _ Hc1). kred.
  cbn [terminated with_state]. rewrite kbind_eq, E2. kred. rewrite kbind_eq, (kload_some _ _ _ _ Hpc2). kred.
  rewrite kbind_eq, E3. kred. split; [done|]. split; [by replace (N + 2) with (N + 1 + 1) by lia|].
  split; [exact (kin_trans _ _ _ _ _ F13 F4 ltac:(apply _))|].
  split; [by rewrite (ou_files _ _ O)|]. split; [by rewrite (ou_pipes _ _ O)|]. split; [by rewrite (ou_table _ _ O)|].
  split; [by rewrite (ou_current _ _ O)|]. split; [by rewrite (ou_fg _ _ O)|].
  assert (S1 : ∀ x, state_of s1 x = if bool_decide (processTable s !! x = Some p) then Some ZOMBIE else state_of s x).
  { intros x. exact (state_of_insert s p (with_state ZOMBIE c) x). }
  split.
  - apply (wakes_zombie s1 s4 pid (ou_wakes _ _ O)). rewrite S1. by rewrite bool_decide_true.
  - intros x Hx. pose proof (ou_wakes _ _ O x) as W. rewrite S1, bool_decide_false in W; [done|].
    intros E. apply Hx. exact (table_inj _ _ _ _ Hs E Ht).
Qed.

Lemma closeFdsOf_ok N s pid p c : held N s → processTable s !! pid = Some p → k_procs s !! p = Some c → N + 1024 ≤ 2 ^ 30 →
  ∃ s', closeFdsOf pid s = KDone s' () ∧ held (N + 1024) s' ∧ kin (at_addr p shut) s s' ∧
    processTable s' = processTable s ∧ currentProcess s' = currentProcess s ∧ foregroundSet s' = foregroundSet s ∧
    wakes s s' ∧ fdTable (shut c) = replicate 16 0.
Proof.
  intros H Ht Hc HN. destruct (si_table _ (ki_sched _ _ _ (proj1 H)) _ _ Ht) as (Hr & _).
  destruct (closeAllFDs_ok N s p c H Hc HN) as (s' & E & H' & B & Z). exists s'. unfold closeFdsOf.
  rewrite bad_pid_false by done. rewrite kbind_eq, slot_eq, Ht. kred. split; [done|]. split; [done|].
  pose proof B as [B1 B2 B3 B4 B5 B6].
  split; [|split; [exact B2|split; [exact B3|split; [exact B4|split; [|exact Z]]]]].
  - intros q. destruct (decide (q = p)) as [->|Hq].
    + destruct (becomes_proc _ _ _ _ B) as (c' & -> & L). rewrite Hc. constructor. unfold at_addr. by rewrite Z.eqb_refl.
    + unfold at_addr. rewrite (proj2 (Z.eqb_neq q p)) by done. exact (becomes_other _ _ _ _ _ B Hq).
  - intros x. specialize (B6 x). rewrite (state_of_same s p c (shut c)) in B6; [done|done|]. apply shut_keeps.
Qed.

Lemma orphaned_queues s cs p ip q c cl tl : children c = Some cl → terminatedChildren c = Some tl →
  Forall is_pid cl → Forall is_pid tl → Forall is_pid cs → good_queues (orphaned s cs p ip q c).
Proof.
  intros K1 K2 K3 K4 K5.
  assert (Hf : ∀ f, Forall is_pid (List.filter f cs)).
  { intros f. rewrite list.Forall_forall in *. intros x Hx. apply K5. apply list_elem_of_In in Hx.
    apply List.filter_In in Hx as [Hx _]. by apply list_elem_of_In. }
  unfold orphaned, good_queues. cbn. rewrite K1, K2.
  destruct (q =? p), (q =? ip); cbn; eexists _, _; (split; [done|]); (split; [done|]); rewrite ?list.Forall_app; auto.
Qed.

Lemma fg_without (X : gset Z) y x : x ∈ X ∖ {[y]} → x ∈ X.
Proof. set_solver. Qed.


(** The fields the life-cycle changes, of a process that ends, of its parent and of init. *)
Lemma finish_ok N s pid p c par pc ip cs : sound N s → processTable s !! pid = Some p → k_procs s !! p = Some c → 1 < pid →
  processTable s !! p_ppid c = Some par → k_procs s !! par = Some pc → processTable s !! INIT_PID = Some ip →
  children c = Some cs → N + 1026 + len cs ≤ 2 ^ 30 →
  ∃ s', finish_process pid s = KDone s' 0 ∧ sound (N + 1026 + len cs) s' ∧
    processTable s' = processTable s ∧ currentProcess s' = currentProcess s ∧
    foregroundSet s' = foregroundSet s ∖ {[pid]} ∧ state_of s' pid = Some ZOMBIE ∧
    (∀ x, x ≠ pid → state_of s' x = state_of s x ∨ (state_of s x = Some BLOCKED ∧ state_of s' x = Some READY)) ∧
    ∃ s6, (∀ x, zombie s6 x = zombie s x || (x =? pid)) ∧ (∀ x, present s6 x = present s x) ∧
      kin (λ q c, orphaned s6 cs p ip q (bereaved pid p par q c)) s s'.
Proof.
  intros [H Fam] Ht Hc Hpid Hpar Hpc Hinit Hcs HN. pose proof (ki_sched _ _ _ (proj1 H)) as Hs.
  destruct (si_table _ Hs _ _ Ht) as (Hr & Hp & _). destruct (si_table _ Hs _ _ Hpar) as (Hrp & Hp' & _).
  destruct (si_table _ Hs _ _ Hinit) as (_ & Hip & ic & Hic & Hicp).
  assert (Hpip : p ≠ ip) by (intros ->; pose proof (table_inj _ _ _ _ Hs Ht Hinit); unfold INIT_PID in *; lia).
  destruct (closeFdsOf_ok N s pid p c H Ht Hc) as (s1 & E1 & [H1 T1] & F1 & Tb1 & Cu1 & Fg1 & W1 & Z1); [lia|].
  pose proof (kinv_fg _ _ s1 (foregroundSet s1 ∖ {[pid]}) H1 (fg_without _ _)) as H2.
  set (s2 := set_fg (foregroundSet s1 ∖ {[pid]}) s1) in *.
  assert (F2 : kin (at_addr p shut) s s2) by exact F1.
  destruct (kin_some _ _ _ _ _ F2 Hc) as (c2 & Hc2 & L2). destruct (kin_some _ _ _ _ _ F2 Hpc) as (pc2 & Hpc2 & Lp2).
  destruct (fm_queues _ Fam _ _ Hpc) as (pcl & ptl & Hpcl & Hptl & _ & Hptlr).
  assert (Hptl2 : terminatedChildren pc2 = Some ptl).
  { by rewrite (like_terminated _ _ Lp2), shut_at_terminated. }
  assert (Ht2 : processTable s2 !! pid = Some p) by (unfold s2; kred; by rewrite Tb1).
  destruct (notify_ok _ s2 pid p c2 par pc2 ptl H2 Ht2 Hc2) as (s3 & E3 & H3 & F3 & Fi3 & Pi3 & Tb3 & Cu3 & Fg3 & Z3 & W3);
    [unfold IDLE_PID; lia|done|done|lia|].
  pose proof (kin_trans _ _ _ _ _ F2 F3 ltac:(apply _)) as F23. change (kin (bereaved pid p par) s s3) in F23.
  destruct (kin_some _ _ _ _ _ F23 Hc) as (c3 & Hc3 & L3). destruct (kin_some _ _ _ _ _ F23 Hic) as (ic3 & Hic3 & Li3).
  assert (Hb : ∀ q d, k_procs s !! q = Some d → kept d (bereaved pid p par q d)).
  { intros q d Hd. apply bereaved_kept; [unfold is_pid; lia|exact (fm_queues _ Fam q d Hd)]. }
  assert (Hcs3 : children c3 = Some cs) by (rewrite (like_children _ _ L3), <- Hcs; by apply Hb).
  assert (Hq3 : ∃ cl tl, children ic3 = Some cl ∧ terminatedChildren ic3 = Some tl).
  { destruct (Hb ip ic Hic) as (_ & (cl & tl & K1 & K2 & _) & _). exists cl, tl.
    by rewrite (like_children _ _ Li3), (like_terminated _ _ Li3). }
  destruct Hq3 as (cl3 & tl3 & Hcl3 & Htl3).
  assert (Hcsr : Forall is_pid cs).
  { destruct (fm_queues _ Fam _ _ Hc) as (? & ? & K1 & _ & K2 & _). congruence. }
  destruct (orphan_loop_ok p ip Hpip cs _ s3 c3 ic3 cl3 tl3 H3) as (s4 & E4 & H4 & O4 & F4); try done; [lia| |].
  { intros q d Hd. destruct (kin_back _ _ _ _ _ F23 Hd) as (d0 & Hd0 & L). rewrite (like_pid _ _ L).
    destruct (Hb q d0 Hd0) as (-> & _). rewrite Tb3. unfold s2. kred. rewrite Tb1. by apply (fm_listed _ Fam). }
  assert (Tb : processTable s3 = processTable s) by (rewrite Tb3; unfold s2; kred; done).
  assert (Hcomp : ∀ x, x ≠ pid → wake1 (state_of s x) (state_of s4 x)).
  { intros x Hx. eapply wake1_trans; [exact (W1 x)|]. eapply wake1_trans; [|exact (ou_wakes _ _ O4 x)]. exact (W3 x Hx). }
  assert (Hz : ∀ x, zombie s3 x = zombie s x || (x =? pid)).
  { intros x. unfold zombie. destruct (Z.eqb_spec x pid) as [->|Hx]; rewrite ?orb_true_r, ?orb_false_r; [by apply bool_decide_true|].
    apply bool_decide_ext. apply wake1_zombie. eapply wake1_trans; [exact (W1 x)|exact (W3 x Hx)]. }
  assert (Hpr : ∀ x, present s3 x = present s x) by (intros x; unfold present; by rewrite Tb).
  pose proof (kin_trans _ _ _ _ _ F23 F4 ltac:(apply _)) as F.
  exists s4. split; [|split; [|split; [by rewrite (ou_table _ _ O4)|split; [|split; [|split; [|split; [exact Hcomp|]]]]]]].
  - unfold finish_process. rewrite bad_pid_false by done. unfold isUnkillable, IDLE_PID, INIT_PID.
    rewrite (proj2 (Z.eqb_neq pid 0)), (proj2 (Z.eqb_neq pid 1)) by lia. cbn [orb].
    rewrite kbind_eq, slot_eq, Ht. kred. rewrite (proj2 (Z.eqb_neq p 0)) by done.
    rewrite kbind_eq, (getPPID_eq _ _ _ Hc). kred. rewrite bad_pid_false by done.
    rewrite kbind_eq, slot_eq, Hpar. kred. rewrite (proj2 (Z.eqb_neq par 0)) by done.
    rewrite kbind_eq, E1. kred. rewrite kbind_eq. unfold kmod. kred. fold s2. rewrite kbind_eq, E3. kred.
    unfold transferOrphanChildren, proc. rewrite kbind_eq, kbind_eq, (kload_some _ _ _ _ Hc3). kred.
    rewrite kbind_eq, slot_eq, Tb, Hinit. kred. rewrite (proj2 (Z.eqb_neq ip 0)), Hcs3 by done. cbn [default from_option id].
    by rewrite E4.
  - split; [split|].
    + by replace (N + 1026 + len cs) with (N + 1024 + 2 + len cs) by lia.
    + eapply (tight_kin _ s1 s4 T1 (kin_trans _ _ _ _ _ F3 F4 ltac:(apply _))).
      * intros q d. unfold at_addr. by destruct (q =? par).
      * by rewrite (ou_files _ _ O4), Fi3.
      * by rewrite (ou_pipes _ _ O4), Pi3.
    + apply (family_kin _ _ _ Fam F); [by rewrite (ou_table _ _ O4)| |].
      * intros q d Hd. destruct (Hb q d Hd) as (K1 & (cl & tl & K2 & K3 & K4 & K5) & _). split; [exact K1|].
        by apply orphaned_queues with cl tl.
      * intros q c' Hc' Hzc. destruct (kin_back _ _ _ _ _ F Hc') as (d & Hd & L).
        assert (Hfd : fdTable c' = fdTable (at_addr p shut q d)).
        { rewrite (like_fds _ _ L). unfold bereaved, at_addr. by destruct (q =? par). }
        rewrite Hfd. unfold at_addr. destruct (Z.eqb_spec q p) as [->|Hq]; [by assert (d = c) as -> by congruence|].
        apply (fm_zombie _ Fam q d Hd). pose proof (fm_listed _ Fam q d Hd) as Htd.
        assert (Hpd : p_pid d ≠ pid) by (intros E; congruence).
        pose proof (wake1_zombie _ _ (Hcomp (p_pid d) Hpd)) as Hw.
        rewrite (state_of_eq s (p_pid d) q d), (state_of_eq s4 (p_pid d) q c') in Hw; [|by rewrite (ou_table _ _ O4), Tb|done|done|done].
        destruct Hw as [Hw _]. specialize (Hw ltac:(by f_equal)). congruence.
  - by rewrite (ou_current _ _ O4), Cu3.
  - rewrite (ou_fg _ _ O4), Fg3. unfold s2. kred. by rewrite Fg1.
  - by apply (wakes_zombie _ _ _ (ou_wakes _ _ O4)).
  - by exists s3.
Qed.

Lemma like_ppid a b : proc_like a b → p_ppid b = p_ppid a.
Proof. intros L. red in L. by rewrite L. Qed.

Lemma proc_of_eq s pid p c : processTable s !! pid = Some p → k_procs s !! p = Some c → proc_of s pid = Some c.
Proof. intros E1 E2. unfold proc_of. by rewrite E1. Qed.

Lemma bereaved_told pid p par c : ∀ d, good_queues d → c = bereaved pid p par par d →
  ∃ ts, terminatedChildren c = Some (ts ++ [pid]).
Proof.
  intros d (cs & ts & _ & H & _) ->. exists ts. unfold bereaved, at_addr at 1. rewrite Z.eqb_refl. cbn.
  by rewrite shut_at_terminated, H.
Qed.

Lemma bereaved_fds pid p par q d : fdTable (bereaved pid p par q d) = fdTable (at_addr p shut q d).
Proof. unfold bereaved. by apply (at_addr_elim (λ c, fdTable c = _)). Qed.

(** C5. Ending a process: it becomes a zombie without descriptors or children, out of the
    foreground and the ready queue; its parent finds it among its terminated children; init
    inherits its children, the zombies among them as terminated children; every other process
    keeps its state or is woken.  A process that ends itself does not come back. *)
Theorem terminateProcess_ends N s pid p c par pc ip cs :
  sound N s → processTable s !! pid = Some p → k_procs s !! p = Some c → 1 < pid →
  processTable s !! p_ppid c = Some par → k_procs s !! par = Some pc → processTable s !! INIT_PID = Some ip →
  children c = Some cs → N + 1026 + len cs ≤ 2 ^ 30 →
  ∃ s', terminateProcess pid s = (if currentProcess s =? p then KSwitch s' (λ s'', KDone s'' 0) else KDone s' 0) ∧
    sound (N + 1026 + len cs) s' ∧ state_of s' pid = Some ZOMBIE ∧
    foregroundSet s' = foregroundSet s ∖ {[pid]} ∧ (∀ l, readyQueue s' = Some l → pid ∉ l) ∧
    (∃ c', proc_of s' pid = Some c' ∧ fdTable c' = replicate 16 0 ∧ children c' = Some []) ∧
    (∃ pc' ts, proc_of s' (p_ppid c) = Some pc' ∧ terminatedChildren pc' = Some ts ∧ pid ∈ ts) ∧
    (∃ ic' cl tl, proc_of s' INIT_PID = Some ic' ∧ children ic' = Some cl ∧ terminatedChildren ic' = Some tl ∧
      ∀ x d, x ∈ cs → proc_of s x = Some d → x ∈ cl ∧ (p_state d = ZOMBIE → x ∈ tl) ∧
        ∃ d', proc_of s' x = Some d' ∧ p_ppid d' = INIT_PID) ∧
    (∀ x, x ≠ pid → state_of s' x = state_of s x ∨ (state_of s x = Some BLOCKED ∧ state_of s' x = Some READY)).
Proof.
  intros Hsd Ht Hc Hpid Hpar Hpc Hinit Hcs HN. pose proof Hsd as [[H _] Fam]. pose proof (ki_sched _ _ _ H) as Hs.
  destruct (finish_ok N s pid p c par pc ip cs Hsd Ht Hc Hpid Hpar Hpc Hinit Hcs HN)
    as (s' & E & Hsd' & Tb & Cu & Fg & Z & W & s6 & Hz & Hpr & F).
  destruct (si_table _ Hs _ _ Ht) as (Hr & Hp & d0 & Hd0 & Hpidc). assert (d0 = c) as -> by congruence. clear Hd0.
  destruct (si_table _ Hs _ _ Hinit) as (_ & Hip & ic & Hic & _).
  assert (Hpip : p ≠ ip) by (intros ->; pose proof (table_inj _ _ _ _ Hs Ht Hinit); unfold INIT_PID in *; lia).
  destruct (kin_some _ _ _ _ _ F Hc) as (c' & Hc' & L). destruct (kin_some _ _ _ _ _ F Hpc) as (pc' & Hpc' & Lp).
  destruct (kin_some _ _ _ _ _ F Hic) as (ic' & Hic' & Li).
  pose proof Hsd' as [[H' _] Fam']. pose proof (ki_sched _ _ _ H') as Hs'.
  exists s'. split; [|split; [exact Hsd'|split; [exact Z|split; [exact Fg|split; [|split; [|split; [|split; [|exact W]]]]]]]].
  - unfold terminateProcess. rewrite kbind_eq, E. kred. change (0 <? 0) with false. cbv iota. rewrite kbind_eq.
    destruct (Z.eqb_spec (currentProcess s) p) as [Ec|Ec].
    + assert (Hcu : currentProcess s' = p) by congruence.
      rewrite (getCurrentPID_eq s' c'); [|congruence|by rewrite Hcu]. kred. rewrite kbind_eq. kred. rewrite kbind_eq.
      rewrite Hcu, (proj2 (Z.eqb_neq p 0)) by done.
      assert (Hpc2 : p_pid c' = pid).
      { apply (table_inj _ _ _ p Hs'); [by apply (fm_listed _ Fam')|congruence]. }
      by rewrite Hpc2, Z.eqb_refl.
    + unfold getCurrentPID. rewrite kbind_eq. kred. rewrite Cu. destruct (Z.eqb_spec (currentProcess s) 0) as [E0|E0].
      { kred. rewrite kbind_eq. kred. by rewrite Cu, (proj2 (Z.eqb_eq _ 0) E0). }
      destruct (si_cur _ Hs E0) as (cp & Hcp). destruct (si_table _ Hs _ _ Hcp) as (_ & _ & cc & Hcc & Hccp).
      destruct (kin_some _ _ _ _ _ F Hcc) as (cc' & Hcc' & _).
      rewrite (getPID_eq _ _ _ Hcc'). kred. rewrite kbind_eq. kred. rewrite Cu. assert (Hne : p_pid cc' ≠ pid).
      { intros E1. pose proof (fm_listed _ Fam' _ _ Hcc') as E2. rewrite Tb, E1 in E2. congruence. }
      rewrite (proj2 (Z.eqb_neq _ _) Hne), andb_false_r. done.
  - intros l Hl. destruct (si_ready _ Hs') as (l' & Hl' & _ & Hm). assert (l' = l) as -> by congruence. rewrite Hm. congruence.
  - exists c'. split; [apply (proc_of_eq _ _ p); congruence|]. split.
    + apply (fm_zombie _ Fam' p c' Hc'). rewrite (state_of_eq _ _ p c') in Z by congruence. congruence.
    + rewrite (like_children _ _ L). unfold orphaned. by rewrite Z.eqb_refl.
  - destruct (bereaved_told pid p par _ pc (fm_queues _ Fam _ _ Hpc) eq_refl) as (ts & Hts).
    exists pc'. assert (Htl : ∃ b, terminatedChildren pc' = Some ((ts ++ [pid]) ++ b)).
    { rewrite (like_terminated _ _ Lp). unfold orphaned. cbn [terminatedChildren with_ppid with_children with_terminatedChildren].
      rewrite Hts. destruct (par =? ip); [by eexists|]. exists []. by rewrite app_nil_r. }
    destruct Htl as (b & Htl). eexists. split; [apply (proc_of_eq _ _ par); congruence|]. split; [exact Htl|]. set_solver.
  - destruct (bereaved_kept pid p par ip ic) as (_ & (cl & tl & Hcl & Htl & _) & _);
      [unfold is_pid; lia|exact (fm_queues _ Fam _ _ Hic)|].
    exists ic', (cl ++ List.filter (present s6) cs), (tl ++ List.filter (zombie s6) cs).
    split; [apply (proc_of_eq _ _ ip); congruence|].
    split; [rewrite (like_children _ _ Li); unfold orphaned; cbn [children with_ppid with_children];
      by rewrite (proj2 (Z.eqb_neq ip p)), Z.eqb_refl, Hcl by done|].
    split; [rewrite (like_terminated _ _ Li); unfold orphaned;
      cbn [terminatedChildren with_ppid with_children with_terminatedChildren]; by rewrite Z.eqb_refl, Htl|].
    intros x d Hx Hd. destruct (proc_of_some _ _ _ Hd) as (xp & Hxt & Hxd).
    split; [apply elem_of_app; right; apply list_elem_of_In, List.filter_In; split; [by apply list_elem_of_In|];
      rewrite Hpr; unfold present; rewrite Hxt; by apply bool_decide_true|].
    split.
    + intros Hzd. apply elem_of_app; right; apply list_elem_of_In, List.filter_In; split; [by apply list_elem_of_In|].
      rewrite Hz. unfold zombie. rewrite bool_decide_true; [done|]. by rewrite (state_of_eq _ _ _ _ Hxt Hxd), Hzd.
    + destruct (kin_some _ _ _ _ _ F Hxd) as (d' & Hd' & Ld). exists d'. split; [apply (proc_of_eq _ _ xp); congruence|].
      rewrite (like_ppid _ _ Ld). unfold orphaned. cbn [p_ppid with_ppid]. rewrite bool_decide_true; [done|].
      destruct (bereaved_kept pid p par xp d) as (-> & _); [unfold is_pid; lia|exact (fm_queues _ Fam _ _ Hxd)|].
      rewrite (table_inj _ _ _ _ Hs (fm_listed _ Fam _ _ Hxd) Hxt). done.
Qed.

Definition family_check (s : kst) : bool :=
  forallb (λ '(q, c), bool_decide (processTable s !! p_pid c = Some q) &&
      match children c, terminatedChildren c with
      | Some cs, Some ts => forallb (λ x, (0 <=? x) && (x <? 64)) (cs ++ ts)
      | _, _ => false
      end && implb (bool_decide (p_state c = ZOMBIE)) (bool_decide (fdTable c = replicate 16 0))) (map_to_list (k_procs s)).

Lemma family_check_sound s : family_check s = true → family s.
Proof.
  intros H. assert (T : ∀ q c, k_procs s !! q = Some c → processTable s !! p_pid c = Some q ∧ good_queues c ∧
    (p_state c = ZOMBIE → fdTable c = replicate 16 0)).
  { intros q c Hc. pose proof (forallb_map _ _ _ _ H Hc) as E. cbn beta iota in E. rewrite !andb_true_iff in E.
    destruct E as [[E1 E2] E3]. split; [by apply bool_decide_eq_true in E1|]. split.
    - unfold good_queues. destruct (children c) as [cs|], (terminatedChildren c) as [ts|]; try done.
      exists cs, ts. split; [done|]. split; [done|]. rewrite forallb_forall in E2.
      split; apply list.Forall_forall; intros x Hx; unfold is_pid;
        assert (Hin : In x (cs ++ ts)) by (apply list_elem_of_In; set_solver); specialize (E2 x Hin); lia.
    - intros Hz. rewrite bool_decide_true in E3 by done. by apply bool_decide_eq_true in E3. }
  split; intros q c Hc; by apply (T q c Hc).
Qed.

End Pinned.

Lemma small_sound : sound 1024 small.
Proof. split; [exact small_held|]. apply family_check_sound. vm_compute. reflexivity. Qed.

Lemma terminateProcess_ends_witness : ∃ s', terminateProcess 2 small = KSwitch s' (λ s'', KDone s'' 0) ∧
  sound 2051 s' ∧ state_of s' 2 = Some ZOMBIE.
Proof.
  destruct (terminateProcess_ends 1024 small 2 16 (small_proc 2 1 RUNNING [3] 336 344 [400; 408]) 32
    (small_proc 1 1 BLOCKED [2] 320 328 []) 32 [3] small_sound eq_refl eq_refl) as (s' & E & H & Z & _);
    [lia|reflexivity|reflexivity|reflexivity|reflexivity|simpl; lia|].
  exists s'. split; [exact E|]. split; [exact H|exact Z].
Defined.

Section Pinned.
Context {pin : Pinned}.

#[local] Opaque shut.

(** ** Reaping *)

(** The value of a semaphore changes. *)
Lemma kinv_sem N g s q d d' : kinv N g s → k_sems s !! q = Some d → sem_ok d' → - 2 ^ 20 - N ≤ sem_value d' ≤ N →
  kinv N g (set_sems (<[q := d']> (k_sems s)) s).
Proof.
  intros H Hd Hok Hv. pose proof H as [I0 I1 I2 (I3a & I3b & I3c & I3d) I4 I5 I6 I7 I8 I9 I10]. split; try done; kred.
  - keep_sched I2.
  - split_and!; try done. by apply below_insert.
  - intros x e [[<- <-]|[_ He]]%lookup_insert_Some; [done|exact (I4 x e He)].
  - intros x o Ho. rewrite lookup_insert_is_Some'. right. by eapply I5.
Qed.

Lemma semTryWait_ok N s q d : kinv N no_ghost s → N ≤ 2 ^ 30 → k_sems s !! q = Some d →
  ∃ s' r, semTryWait q s = KDone s' r ∧ kinv N no_ghost s' ∧ outer s s' ∧ k_procs s' = k_procs s.
Proof.
  intros H HN Hd. destruct (ki_sem _ _ _ H q d Hd) as [[O1 O2 O3] Hv].
  assert (Hq : q ≠ 0) by (intros ->; destruct (kinv_pos _ _ _ H) as (_ & _ & _ & E0); congruence).
  unfold semTryWait. rewrite (proj2 (Z.eqb_neq q 0)) by done. rewrite kbind_eq, (ACQUIRE_eq _ _ d) by done. kred.
  rewrite kbind_eq. erewrite kload_some by (kred; apply lookup_insert_eq). kred. cbn [sem_value set_lock].
  destruct (Z.ltb_spec 0 (sem_value d)) as [Hpos|Hpos].
  - rewrite kbind_eq, kbind_eq. erewrite kstore_sem_eq by (kred; apply lookup_insert_eq). kred.
    unfold RELEASE. rewrite kbind_eq. erewrite kstore_sem_eq by (kred; apply lookup_insert_eq). kred.
    rewrite !insert_insert_eq. rewrite i32_small by lia. eexists _, _. split; [reflexivity|]. split; [|split; [|done]].
    + apply (kinv_sem N no_ghost s q d); [done|done| |cbn; lia]. split; cbn; [done|lia|done].
    + split; try done. by apply wakes_refl.
  - unfold RELEASE. rewrite kbind_eq. kred. rewrite kbind_eq. erewrite kstore_sem_eq by (kred; apply lookup_insert_eq). kred.
    rewrite !insert_insert_eq. eexists _, _. split; [reflexivity|]. split; [|split; [|done]].
    + apply (kinv_sem N no_ghost s q d); [done|done| |cbn; lia]. split; cbn; [done|lia|done].
    + split; try done. by apply wakes_refl.
Qed.

(** A descriptor without open descriptors, not the current process nor a ready one, disappears
    together with its semaphores. *)
Lemma kinv_drop_proc N s pid p c : kinv N no_ghost s → processTable s !! pid = Some p → k_procs s !! p = Some c →
  fdTable c = replicate 16 0 → p_state c = ZOMBIE → currentProcess s ≠ p → pid ≠ IDLE_PID →
  kinv N no_ghost (set_fg (foregroundSet s ∖ {[pid]}) (set_table (delete pid (processTable s))
    (set_procs (delete p (k_procs s)) (set_sems (drop_sems (proc_sems c) (k_sems s)) s)))).
Proof.
  intros H Ht Hc Hfd Hz Hcu Hid. pose proof H as [I0 I1 I2 (I3a & I3b & I3c & I3d) I4 I5 I6 I7 I8 I9 I10].
  set (s' := set_fg _ _).
  assert (Hni : ∀ q o, owns s q o → (∀ i, o ≠ OProc p i) → q ∉ proc_sems c).
  { intros q o Ho Hne (i & Hi)%list_elem_of_lookup. apply (Hne i). eapply I6; [exact Ho|]. by exists c. }
  assert (Hown : ∀ q o, owns s' q o → owns s q o ∧ q ∉ proc_sems c).
  { intros q [x i|x i|i]; simpl.
    - intros (d & Hd & Hi). split; [by exists d|]. apply (Hni q (OPipe x i)); [by exists d|]. done.
    - intros (d & [Hx Hd]%lookup_delete_Some & Hi). split; [by exists d|].
      apply (Hni q (OProc x i)); [by exists d|]. intros j E. congruence.
    - intros Ho. split; [done|]. by apply (Hni q (OShared i)). }
  assert (Hst : ∀ x, state_of s' x = if bool_decide (x = pid) then None else state_of s x).
  { intros x. unfold state_of, proc_of, s'. kred. case_bool_decide as E; [subst x; by rewrite lookup_delete_eq|].
    rewrite lookup_delete_ne by congruence. destruct (processTable s !! x) as [y|] eqn:Ey; [|done]. cbn [mbind option_bind].
    rewrite lookup_delete_ne; [done|]. intros <-. apply E. exact (table_inj _ _ _ _ I2 Ey Ht). }
  split; try done; unfold s'; kred.
  - pose proof I2 as [S1 (l & S2 & S2a & S2b) S3 S4 S5 S6]. fold s'. split; unfold s'; kred; fold s'.
    + intros x y [Hx Hy]%lookup_delete_Some. destruct (S1 x y Hy) as (? & ? & d & Hd & Ed). split; [done|]. split; [done|].
      exists d. rewrite lookup_delete_ne; [done|]. intros <-. apply Hx. symmetry. exact (table_inj _ _ _ _ I2 Hy Ht).
    + exists l. split; [done|]. split; [done|]. intros x. rewrite Hst, S2b. case_bool_decide as E; [|done]. subst x.
      rewrite (state_of_eq _ _ _ _ Ht Hc), Hz. done.
    + intros x. rewrite Hst. case_bool_decide as E; [done|]. intros Hr. rewrite lookup_delete_ne by congruence. by apply S3.
    + intros Hne. destruct (S4 Hne) as (x & Hx). exists x. rewrite lookup_delete_ne; [done|]. intros <-. congruence.
    + rewrite Hst, bool_decide_false by congruence. exact S5.
    + intros x [Hx Hn]%elem_of_difference. rewrite lookup_delete_ne; [by apply S6|]. intros <-. by apply Hn, elem_of_singleton.
  - split_and!; try done; intros k [d Hd].
    + apply drop_sems_sub in Hd. apply I3a. by exists d.
    + apply lookup_delete_Some in Hd as [_ Hd]. apply I3d. by exists d.
  - intros q d Hd. apply drop_sems_sub in Hd. exact (I4 q d Hd).
  - intros q o [Ho Hq]%Hown. rewrite drop_sems_ne by done. by eapply I5.
  - intros q o o' [Ho _]%Hown [Ho' _]%Hown. by eapply I6.
  - intros fa f Hf. destruct (I8 fa f Hf) as [Hp Hr]. split; [done|]. rewrite (sum_of_delete _ _ _ c) by done.
    assert (E0 : slots fa c = 0); [|lia]. unfold slots. rewrite Hfd. assert (E0 : fa ≠ 0).
    { intros ->. destruct (kinv_pos _ _ _ H) as (E & _). congruence. }
    cbn. by rewrite (proj2 (Z.eqb_neq fa 0)).
  - intros x d [_ Hd]%lookup_delete_Some. exact (I9 x d Hd).
  - split; [|apply I10]. rewrite map_size_delete_Some by eauto. lia.
Qed.

(** The state [reapProcess] leaves. *)
Definition reaped (pid p : Z) (c : processCDT) (s : kst) : kst :=
  set_fg (foregroundSet s ∖ {[pid]}) (set_table (delete pid (processTable s))
    (set_procs (delete p (k_procs s)) (set_sems (drop_sems (proc_sems c) (k_sems s)) s))).

Lemma reapProcess_eq N s pid p c : kinv N no_ghost s → processTable s !! pid = Some p → k_procs s !! p = Some c →
  reapProcess pid s = KDone (reaped pid p c s) ().
Proof.
  intros H Ht Hc. destruct (si_table _ (ki_sched _ _ _ H) _ _ Ht) as (Hr & Hp & _).
  unfold reapProcess. rewrite bad_pid_false by done. rewrite kbind_eq, slot_eq, Ht. kred.
  rewrite (proj2 (Z.eqb_neq p 0)) by done. pose proof (proc_disposable _ _ _ _ _ H Hc) as D. unfold proc_sems in D.
  apply disposable_next in D as [(d1 & D1 & D1' & D1'') D]. apply disposable_next in D as [(d2 & D2 & D2' & D2'') _].
  rewrite kbind_eq. unfold freeProcess, proc. rewrite (proj2 (Z.eqb_neq p 0)) by done.
  rewrite kbind_eq, (kload_some _ _ _ _ Hc). kred.
  rewrite kbind_eq, (freeSemaphore_eq _ _ _ D1 D1' D1''). kred.
  rewrite kbind_eq, (freeSemaphore_eq _ _ _ D2 D2' D2''). kred. done.
Qed.

Lemma zero_slots fa c : fa ≠ 0 → fdTable c = replicate 16 0 → slots fa c = 0.
Proof. intros Hfa E. unfold slots. rewrite E. cbn. by rewrite (proj2 (Z.eqb_neq fa 0)). Qed.

Lemma reaped_sound N s pid p c : sound N s → processTable s !! pid = Some p → k_procs s !! p = Some c →
  p_state c = ZOMBIE → currentProcess s ≠ p → pid ≠ IDLE_PID → sound N (reaped pid p c s).
Proof.
  intros [[H [T1 T0 T2]] [F1 F2 F3]] Ht Hc Hz Hcu Hid. pose proof (F3 _ _ Hc Hz) as Hfd. unfold reaped. split; [split|].
  - by apply kinv_drop_proc.
  - split; kred; [|exact T0|exact T2]. intros fa Hfa. rewrite (sum_of_delete _ _ _ c) by done. rewrite (zero_slots fa c); [|intros ->|done].
    + specialize (T1 fa Hfa). lia.
    + destruct (kinv_pos _ _ _ H) as (E & _). rewrite E in Hfa. by destruct Hfa.
  - split; kred.
    + intros q d [Hq Hd]%lookup_delete_Some. rewrite lookup_delete_ne; [by apply F1|].
      intros E. apply Hq. pose proof (F1 q d Hd). congruence.
    + intros q d [_ Hd]%lookup_delete_Some. exact (F2 q d Hd).
    + intros q d [_ Hd]%lookup_delete_Some. exact (F3 q d Hd).
Qed.

(** The parent forgets the child. *)
Definition forget (pid : Z) (c : processCDT) : processCDT :=
  with_children (q_remove (children c) pid) (with_terminatedChildren (q_remove (terminatedChildren c) pid) c).

#[export] Instance forget_proper pid : Proper (proc_like ==> proc_like) (forget pid).
Proof. intros a b L. red in L. rewrite L. done. Qed.

Lemma filter_forall (P : Z → Prop) f l : Forall P l → Forall P (List.filter f l).
Proof.
  rewrite !list.Forall_forall. intros H x Hx. apply H. apply list_elem_of_In in Hx. apply List.filter_In in Hx as [Hx _].
  by apply list_elem_of_In.
Qed.

Lemma forget_queues pid c : good_queues c → is_pid pid → ∃ cl tl, children (forget pid c) = Some cl ∧
  terminatedChildren (forget pid c) = Some tl ∧ Forall is_pid cl ∧ Forall is_pid tl ∧ pid ∉ cl ∧ pid ∉ tl.
Proof.
  intros (cl & tl & H1 & H2 & H3 & H4) Hp. unfold forget. cbn. rewrite H1, H2. eexists _, _. split; [done|]. split; [done|].
  split; [by apply filter_forall|]. split; [by apply filter_forall|].
  assert (Hni : ∀ l, pid ∉ List.filter (λ y, negb (i16 pid - i16 y =? 0)) l).
  { intros l Hin. apply list_elem_of_In, List.filter_In in Hin as [_ Hin]. by rewrite Z.sub_diag in Hin. }
  split; apply Hni.
Qed.


End Pinned.

(** [small] after process 3 has ended. *)
Definition small_dead : kst :=
  mkK [] 65536
    {[ 200 := mkSem 0 [] false; 208 := mkSem 1024 [] false; 216 := mkSem 1 [] false; 224 := mkSem 1 [] false;
       304 := mkSem 0 [] false; 312 := mkSem 0 [] false; 320 := mkSem 0 [] false; 328 := mkSem (-1) [1] false;
       336 := mkSem 0 [] false; 344 := mkSem 1 [] false; 352 := mkSem 1 [] false; 360 := mkSem 0 [] false ]}
    {[ 48 := mkPipe (Some small_buffer) 200 208 216 224 2 1 ]}
    {[ 400 := mkFile 48 FILE_READ 1; 408 := mkFile 48 FILE_WRITE 1 ]}
    {[ 8 := small_proc 0 1 READY [] 304 312 []; 32 := small_proc 1 1 BLOCKED [2] 320 328 [];
       16 := with_terminatedChildren (Some [3]) (small_proc 2 1 RUNNING [3] 336 344 [400; 408]);
       24 := small_proc 3 2 ZOMBIE [] 352 360 [] ]} ∅
    {[ 0 := 8; 1 := 32; 2 := 16; 3 := 24 ]} {[ 2 ]} 16 (Some [0]) true [] false 0.

Lemma small_dead_sound : sound 1024 small_dead.
Proof. split; [apply held_check|apply family_check_sound]; vm_compute; reflexivity. Qed.


End LifeCycle.
