(* ===== verification/Creation.v ===== *)
(** * The creation of processes

    [newProcess] of [process.c] and [startNewProcess] of [scheduler.c], while memory lasts:
    the new process has the lowest free pid, two semaphores of its own, a copy of its
    arguments and the descriptors of its parent. *)

From S2P Require Import Prelude CircularBuffer KState ProcTable Semaphore Pipe Process KernelInv KernelCheck.
From S2P Require Import Descriptors Scheduler LifeCycle.
Import ProcTable Semaphore Pipe FileAccess Process KernelInv KernelCheck Descriptors Scheduler LifeCycle.

Module Creation.

Section Pinned.
Context {pin : Pinned}.

(** ** [newProcess] *)

Lemma alloc_ok n s : mem_ok s → 0 < n → ∃ m, kalloc n s = KDone (set_next m s) (k_next s) ∧ k_next s < m.
Proof.
  intros [E Hp] Hn. exists (k_next s + (n + 7) / 8 * 8). rewrite (kalloc_ok _ _ E). split; [by rewrite <- E|divlia].
Qed.

Lemma mem_next s m : mem_ok s → k_next s < m → mem_ok (set_next m s).
Proof. intros [? ?] ?. split; kred; [done|lia]. Qed.

Lemma set_next_next s m n : set_next n (set_next m s) = set_next n s.
Proof. done. Qed.

Lemma q_new_ok s : mem_ok s → ∃ m, q_new s = KDone (set_next m s) (Some []) ∧ k_next s < m.
Proof.
  intros Hm. destruct (alloc_ok 24 s Hm) as (m & E & Hlt); [lia|]. exists m. split; [|done].
  unfold q_new. rewrite kbind_eq, E. kred. destruct Hm. by rewrite (proj2 (Z.eqb_neq (k_next s) 0)) by lia.
Qed.

Lemma newSemaphore_ok v s : mem_ok s → ∃ m, k_next s < m ∧
  newSemaphore v s = KDone (set_sems (<[k_next s := mkSem v [] false]> (k_sems s)) (set_next m s)) (k_next s).
Proof.
  intros Hm. destruct (alloc_ok 24 s Hm) as (m & E & Hlt); [lia|]. pose proof (mem_next _ _ Hm Hlt) as Hm1.
  destruct (q_new_ok _ Hm1) as (m2 & E2 & Hlt2). cbn [k_next set_next] in Hlt2. exists m2. split; [lia|].
  unfold newSemaphore. rewrite kbind_eq, E. kred. destruct Hm. rewrite (proj2 (Z.eqb_neq (k_next s) 0)) by lia.
  rewrite kbind_eq, E2. done.
Qed.

Lemma copy_args_ok : ∀ args s, mem_ok s → ∃ m, k_next s ≤ m ∧ copy_args args s = KDone (set_next m s) (Some args).
Proof.
  induction args as [|[a|] args IH]; intros s Hm; cbn [copy_args].
  - exists (k_next s). split; [lia|]. by destruct s.
  - destruct (alloc_ok (len a + 1) s Hm) as (m & E & Hlt); [lia|].
    destruct (IH _ (mem_next _ _ Hm Hlt)) as (m2 & Hle & E2). cbn [k_next set_next] in Hle. exists m2. split; [lia|].
    rewrite kbind_eq, E. kred. destruct Hm. rewrite (proj2 (Z.eqb_neq (k_next s) 0)) by lia. rewrite kbind_eq, E2. done.
  - destruct (IH s Hm) as (m & Hle & E). exists m. split; [done|]. rewrite kbind_eq, E. done.
Qed.

(** The copy of the arguments a process gets. *)
Definition arguments (argc : Z) (argv : option (list (option cstring))) : option (list (option cstring)) :=
  if 0 <? argc then take (Z.to_nat argc) <$> argv else None.

Lemma deepCopyArgv_ok argc argv s : mem_ok s → ∃ m a, k_next s ≤ m ∧
  (if (0 <? argc) && bool_decide (is_Some argv) then deepCopyArgv argc argv else mret None) s =
    KDone (set_next m s) ((a,.) <$> arguments argc argv).
Proof.
  intros Hm. unfold arguments. destruct argv as [l|].
  - rewrite bool_decide_true by (by eexists). rewrite andb_true_r. destruct (Z.ltb_spec 0 argc) as [Hc|Hc].
    + destruct (alloc_ok (8 * argc) s Hm) as (m & E & Hlt); [lia|].
      destruct (copy_args_ok (take (Z.to_nat argc) l) _ (mem_next _ _ Hm Hlt)) as (m2 & Hle & E2).
      cbn [k_next set_next] in Hle. exists m2, (k_next s). split; [lia|]. unfold deepCopyArgv.
      destruct (Z.leb_spec argc 0); [lia|]. rewrite kbind_eq, E. kred. destruct Hm.
      rewrite (proj2 (Z.eqb_neq (k_next s) 0)) by lia. rewrite kbind_eq, E2. done.
    + exists (k_next s), 0. split; [lia|]. by destruct s.
  - rewrite bool_decide_false by (intros [? ?]; done). rewrite andb_false_r. exists (k_next s), 0. split; [lia|].
    destruct (0 <? argc); by destruct s.
Qed.

(** The descriptor of a new process. *)
Definition fresh (entry : Z) (name : option cstring) (base stack pid prio argc : Z) (argv : option (list (option cstring)))
    (a te cte : Z) : processCDT :=
  mkProc pid base stack (u64 (base + stack)) entry READY (copyProcessName name) prio prio INIT_PID (Some []) (Some []) te cte
    (if bool_decide (is_Some (arguments argc argv)) then argc else 0) ((a,.) <$> arguments argc argv)
    (replicate 16 0) (replicate 16 false).

Lemma newProcess_ok entry name stack pid prio argc argv s : mem_ok s → 0 < stack →
  ∃ base te cte m a, newProcess entry name stack pid prio argc argv s =
    KDone (set_procs (<[k_next s := fresh entry name base stack pid prio argc argv a te cte]> (k_procs s))
      (set_sems (<[cte := mkSem 0 [] false]> (<[te := mkSem 0 [] false]> (k_sems s))) (set_next m s))) (k_next s) ∧
    k_next s < te < cte ∧ cte < m.
Proof.
  intros Hm Hst. destruct (alloc_ok PCB_SIZE s Hm) as (m1 & E1 & L1); [done|]. pose proof (mem_next _ _ Hm L1) as Hm1.
  destruct (alloc_ok stack _ Hm1) as (m2 & E2 & L2); [done|]. cbn [k_next set_next] in L2, E2.
  rewrite set_next_next in E2. assert (Hm2 : mem_ok (set_next m2 s)) by (apply mem_next; [done|lia]).
  destruct (q_new_ok _ Hm2) as (m3 & E3 & L3). cbn [k_next set_next] in L3. rewrite set_next_next in E3.
  assert (Hm3 : mem_ok (set_next m3 s)) by (apply mem_next; [done|lia]).
  destruct (q_new_ok _ Hm3) as (m4 & E4 & L4). cbn [k_next set_next] in L4. rewrite set_next_next in E4.
  assert (Hm4 : mem_ok (set_next m4 s)) by (apply mem_next; [done|lia]).
  destruct (newSemaphore_ok 0 _ Hm4) as (m5 & L5 & E5). cbn [k_next set_next k_sems] in L5, E5.
  set (s5 := set_sems (<[m4 := mkSem 0 [] false]> (k_sems s)) (set_next m5 s)).
  assert (E5' : newSemaphore 0 (set_next m4 s) = KDone s5 m4) by exact E5. clear E5.
  assert (Hm5 : mem_ok s5) by (unfold s5; destruct Hm; split; kred; [done|lia]).
  destruct (newSemaphore_ok 0 _ Hm5) as (m6 & L6 & E6). cbn [k_next set_next set_sems s5] in L6, E6.
  set (s6 := set_sems (<[m5 := mkSem 0 [] false]> (<[m4 := mkSem 0 [] false]> (k_sems s))) (set_next m6 s)).
  assert (E6' : newSemaphore 0 s5 = KDone s6 m5) by exact E6. clear E6.
  assert (Hm6 : mem_ok s6) by (unfold s6; destruct Hm; split; kred; [done|lia]).
  destruct (deepCopyArgv_ok argc argv s6 Hm6) as (m7 & a & L7 & E7). cbn [k_next set_next set_sems s6] in L7.
  exists m1, m4, m5, m7, a. split; [|lia].
  unfold newProcess. rewrite kbind_eq, E1. kred. destruct Hm as [_ Hm].
  rewrite (proj2 (Z.eqb_neq (k_next s) 0)) by lia. rewrite kbind_eq, E2. kred. rewrite (proj2 (Z.eqb_neq m1 0)) by lia.
  rewrite kbind_eq, E3. kred. rewrite kbind_eq, E4. kred. rewrite kbind_eq, E5'. kred. rewrite kbind_eq, E6'. kred.
  rewrite kbind_eq, E7. kred.
  assert (Ha : bool_decide (is_Some (arguments argc argv)) = (0 <? argc) && bool_decide (is_Some argv)).
  { unfold arguments. destruct (0 <? argc); [|done]. by destruct argv. }
  unfold fresh. rewrite Ha. destruct (arguments argc argv) as [l|] eqn:El.
  - cbn [fmap option_fmap option_map] in *. rewrite <- Ha. rewrite (bool_decide_true (is_Some (Some l))) by (by eexists).
    rewrite (bool_decide_false (Some (a, l) = None)), andb_false_r by done. done.
  - rewrite <- Ha. rewrite (bool_decide_false (is_Some None)) by (intros [? ?]; done). done.
Qed.

(** ** [prepareStack] *)

(** Pushing values one after the other. *)
Fixpoint push_all (l : list Z) (sp : Z) (w : gmap Z Z) : gmap Z Z :=
  match l with [] => w | v :: l => push_all l (u64 (sp - 8)) (<[u64 (sp - 8) := u64 v]> w) end.
Fixpoint sp_after (n : nat) (sp : Z) : Z := match n with O => sp | S n => sp_after n (u64 (sp - 8)) end.

Lemma push_all_app l1 l2 : ∀ sp w, push_all (l1 ++ l2) sp w = push_all l2 (sp_after (length l1) sp) (push_all l1 sp w).
Proof. induction l1 as [|v l1 IH]; intros sp w; [done|]. apply IH. Qed.
Lemma sp_after_add n m : ∀ sp, sp_after (n + m) sp = sp_after m (sp_after n sp).
Proof. induction n as [|n IH]; intros sp; [done|]. apply IH. Qed.

(** [m] pushes [l] and leaves the rest of the kernel alone. *)
Definition pushes (m : Z → K Z) (l : list Z) : Prop :=
  ∀ sp s, m sp s = KDone (set_words (push_all l sp (k_words s)) s) (sp_after (length l) sp).

Lemma push_pushes v : pushes (push v) [v].
Proof. intros sp s. done. Qed.
Lemma push_zeros_pushes n : pushes (push_zeros n) (replicate n 0).
Proof.
  induction n as [|n IH]; intros sp s; cbn [push_zeros replicate].
  - by destruct s.
  - rewrite kbind_eq, push_pushes. cbn [kbind]. rewrite IH. done.
Qed.
(** Having pushed [l0], [m] goes on. *)
Lemma pushes_then {A} m l l0 (k : Z → K A) sp w s : pushes m l →
  (x ← m (sp_after (length l0) sp); k x) (set_words (push_all l0 sp w) s) =
    k (sp_after (length (l0 ++ l)) sp) (set_words (push_all (l0 ++ l) sp w) s).
Proof. intros H. by rewrite kbind_eq, H, push_all_app, length_app, sp_after_add. Qed.

Lemma proc_words p w s c : k_procs s !! p = Some c → proc p (set_words w s) = KDone (set_words w s) c.
Proof. intros Hc. exact (kload_some k_procs p (set_words w s) c Hc). Qed.

(** The frame of a new process, in the order it is pushed: the words [iretq] pops, and the
    registers, all 0 but [rdi] and [rsi]. *)
Definition frame_words (c : processCDT) : list Z :=
  [KERNEL_SS; p_rsp c; INITIAL_RFLAGS; KERNEL_CS; p_rip c] ++ replicate 5 0 ++ [u32 (p_argc c); getArgv c] ++ replicate 8 0.

(** Where it starts. *)
Definition frame_top (c : processCDT) : Z :=
  let mis := u64 (p_rsp c - stackBase c) mod 8 in
  u64 (p_rsp c - (if (stackBase c =? 0) || (p_rsp c =? 0) || (mis =? 0) then 0 else 8 - mis)).

Lemma prepareStack_eq p s c : p ≠ 0 → k_procs s !! p = Some c →
  prepareStack p s = KDone (set_procs (<[p := with_rsp (sp_after 20 (frame_top c)) c]> (k_procs s))
    (set_words (push_all (frame_words c) (frame_top c) (k_words s)) s)) ().
Proof.
  intros Hp Hc. unfold prepareStack, getRSP. rewrite kbind_eq, kbind_eq, (proc_eq _ _ _ Hc). kred.
  assert (Em : getStackMisalignment p s = KDone s
    (let mis := u64 (p_rsp c - stackBase c) mod 8 in
     if (stackBase c =? 0) || (p_rsp c =? 0) || (mis =? 0) then 0 else 8 - mis)).
  { unfold getStackMisalignment, proc. rewrite (proj2 (Z.eqb_neq p 0)) by done. rewrite kbind_eq, (kload_some _ _ _ _ Hc).
    cbn [kbind]. destruct ((stackBase c =? 0) || (p_rsp c =? 0)); [done|]. cbn zeta. cbn [orb].
    by destruct (_ =? 0). }
  rewrite kbind_eq, Em. cbn [kbind]. fold (frame_top c).
  assert (Es : s = set_words (push_all [] (frame_top c) (k_words s)) s) by (by destruct s).
  rewrite Es at 1. change (frame_top c) with (sp_after (length (@nil Z)) (frame_top c)) at 1.
  do 4 rewrite (pushes_then _ _ _ _ _ _ _ (push_pushes _)). rewrite kbind_eq, (proc_words _ _ _ _ Hc). cbn [kbind].
  rewrite (pushes_then _ _ _ _ _ _ _ (push_pushes _)), (pushes_then _ _ _ _ _ _ _ (push_zeros_pushes 5)).
  do 2 rewrite (pushes_then _ _ _ _ _ _ _ (push_pushes _)). rewrite (pushes_then _ _ _ _ _ _ _ (push_zeros_pushes 8)).
  match goal with |- context [push_all ?l] => change l with (frame_words c) end.
  unfold setRSP. rewrite (kstore_proc_eq p _ _ c) by exact Hc. done.
Qed.

Lemma sp_after_small n : ∀ sp, 8 * Z.of_nat n ≤ sp < 2 ^ 64 → sp_after n sp = sp - 8 * Z.of_nat n.
Proof.
  induction n as [|n IH]; intros sp H; [simpl; lia|]. cbn [sp_after]. rewrite u64_small by lia. rewrite IH by lia. lia.
Qed.

(** Without wrap-around, the words sit below each other. *)
Lemma push_all_lookup l : ∀ sp w a, 8 * len l ≤ sp < 2 ^ 64 →
  push_all l sp w !! a = match l !! Z.to_nat ((sp - a) / 8 - 1) with
                         | Some v => if ((sp - a) mod 8 =? 0) && (a <? sp) then Some (u64 v) else w !! a
                         | None => w !! a end.
Proof.
  induction l as [|v l IH]; intros sp w a H; [done|]. cbn [push_all]. cbn [length] in H. rewrite u64_small by lia.
  rewrite IH by lia. destruct (decide (a = sp - 8)) as [->|Ha].
  - replace ((sp - (sp - 8)) / 8 - 1) with 0 by (replace (sp - (sp - 8)) with 8 by lia; done).
    replace ((sp - 8 - (sp - 8)) / 8 - 1) with (-1) by (by rewrite Z.sub_diag). cbn [Z.to_nat lookup list_lookup].
    replace ((sp - (sp - 8)) mod 8) with 0 by (replace (sp - (sp - 8)) with 8 by lia; done).
    rewrite (proj2 (Z.ltb_lt (sp - 8) sp)) by lia. cbn [Z.eqb andb].
    rewrite lookup_insert_eq, (proj2 (Z.ltb_ge (sp - 8) (sp - 8))), andb_false_r by lia.
    change ((v :: l) !! Z.to_nat 0) with (Some v). by case_match.
  - rewrite lookup_insert_ne by done.
    assert (Em : (sp - 8 - a) mod 8 = (sp - a) mod 8).
    { replace (sp - a) with (sp - 8 - a + 1 * 8) by lia. by rewrite Z_mod_plus_full. }
    assert (Ed : (sp - a) / 8 = (sp - 8 - a) / 8 + 1).
    { replace (sp - a) with (sp - 8 - a + 1 * 8) by lia. rewrite Z_div_plus_full; lia. }
    rewrite Em. destruct (Z.eqb_spec ((sp - a) mod 8) 0) as [E0|E0]; cbn [andb]; [|by repeat case_match].
    destruct (Z.ltb_spec a sp) as [Hlt|Hlt].
    + assert (H8 : a < sp - 8) by (rewrite <- Em in E0; clear - E0 Hlt Ha; divlia).
      rewrite (proj2 (Z.ltb_lt a (sp - 8))) by done. rewrite Ed.
      replace (Z.to_nat ((sp - 8 - a) / 8 + 1 - 1)) with (S (Z.to_nat ((sp - 8 - a) / 8 - 1))) by (clear - H8 E0 Em; divlia).
      done.
    + rewrite (proj2 (Z.ltb_ge a (sp - 8))) by lia. by repeat case_match.
Qed.

(** What [iretq] and the restored registers find on the stack of a new process, from the lowest
    address up: the entry point gets [argc] in [rdi] and [argv] in [rsi], with interrupts on
    and its own stack. *)
Definition interrupt_frame (c : processCDT) : list Z :=
  replicate 8 0 ++ [getArgv c; u32 (p_argc c)] ++ replicate 5 0 ++ [p_rip c; KERNEL_CS; INITIAL_RFLAGS; p_rsp c; KERNEL_SS].

(** C23. [prepareStack] leaves the stack pointer on a complete interrupt frame of twenty words
    below the top of the stack, and writes nowhere else. *)
Theorem prepareStack_frame p s c : p ≠ 0 → k_procs s !! p = Some c → 160 ≤ frame_top c < 2 ^ 64 →
  ∃ s', prepareStack p s = KDone s' () ∧ k_procs s' = <[p := with_rsp (frame_top c - 160) c]> (k_procs s) ∧
    (∀ i v, interrupt_frame c !! i = Some v → k_words s' !! (frame_top c - 160 + 8 * Z.of_nat i) = Some (u64 v)) ∧
    (∀ a, a < frame_top c - 160 ∨ frame_top c ≤ a → k_words s' !! a = k_words s !! a).
Proof.
  intros Hp Hc Ht. rewrite (prepareStack_eq _ _ _ Hp Hc). rewrite sp_after_small by lia. eexists. split; [reflexivity|].
  change (8 * Z.of_nat 20) with 160. split; [done|]. assert (L : length (frame_words c) = 20%nat) by done. kred. split.
  - intros i v Hi. pose proof (lookup_lt_Some _ _ _ Hi) as Hlt. change (length (interrupt_frame c)) with 20%nat in Hlt.
    rewrite push_all_lookup by (rewrite L; lia).
    replace (frame_top c - (frame_top c - 160 + 8 * Z.of_nat i)) with ((20 - Z.of_nat i) * 8) by lia.
    rewrite Z_div_mult, Z_mod_mult by lia. rewrite (proj2 (Z.ltb_lt _ _)) by lia. cbn [Z.eqb andb].
    change (interrupt_frame c) with (reverse (frame_words c)) in Hi. rewrite reverse_lookup in Hi by (rewrite L; lia).
    rewrite L in Hi. replace (Z.to_nat (20 - Z.of_nat i - 1)) with (20 - S i)%nat by lia. by rewrite Hi.
  - intros a Ha. rewrite push_all_lookup by (rewrite L; lia). case_match eqn:El; [|done].
    pose proof (lookup_lt_Some _ _ _ El) as Hlt. rewrite L in Hlt.
    destruct (Z.ltb_spec a (frame_top c)) as [Hl|Hl]; [|by rewrite andb_false_r].
    destruct (Z.eqb_spec ((frame_top c - a) mod 8) 0) as [E0|E0]; [|done]. exfalso. clear - Ha Hl E0 Hlt. divlia.
Qed.

End Pinned.

Lemma prepareStack_frame_witness : ∃ s', prepareStack 16 small = KDone s' () ∧
  k_words s' !! (229376 - 160 + 8 * 15) = Some 4194304.
Proof.
  destruct (prepareStack_frame 16 small (small_proc 2 1 RUNNING [3] 336 344 [400; 408])) as (s' & E & _ & F & _);
    [lia|reflexivity|vm_compute; split; congruence|].
  exists s'. split; [exact E|]. exact (F 15%nat 4194304 eq_refl).
Defined.

Section Pinned.
Context {pin : Pinned}.

(** ** Starting a process *)

(** The pids in use are one per descriptor. *)
Lemma procs_bound s pid : sched_inv s → family s → 0 ≤ pid < 64 → processTable s !! pid = None →
  Z.of_nat (size (k_procs s)) ≤ 63.
Proof.
  intros Hs Fam Hr Hn. set (pids := (λ x : Z * processCDT, p_pid x.2) <$> map_to_list (k_procs s)).
  assert (Hnd : NoDup pids).
  { apply NoDup_fmap_2_strong; [|apply NoDup_map_to_list]. intros [q1 c1] [q2 c2] H1%elem_of_map_to_list H2%elem_of_map_to_list E.
    cbn in E. pose proof (fm_listed _ Fam _ _ H1) as K1. pose proof (fm_listed _ Fam _ _ H2) as K2.
    assert (q1 = q2) as -> by congruence. congruence. }
  assert (Hin : ∀ x, x ∈ pids → x ∈ seqZ 0 pid ++ seqZ (pid + 1) (63 - pid)).
  { intros x ([q c] & -> & Hq%elem_of_map_to_list)%list_elem_of_fmap. cbn. pose proof (fm_listed _ Fam _ _ Hq) as K.
    destruct (si_table _ Hs _ _ K) as (Hx & _). assert (p_pid c ≠ pid) by congruence.
    rewrite elem_of_app, !elem_of_seqZ. lia. }
  pose proof (submseteq_length _ _ (NoDup_submseteq _ _ Hnd Hin)) as HL.
  rewrite length_app, !length_seqZ in HL. unfold pids in HL. rewrite length_fmap, length_map_to_list in HL. lia.
Qed.

(** A descriptor that is in no table yet. *)
Lemma kinv_new_proc N s p te cte m c : kinv N no_ghost s → k_next s ≤ p < m → k_next s ≤ te < m → k_next s ≤ cte < m →
  te ≠ cte → terminated c = te → childTerminated c = cte → fdTable c = replicate 16 0 → eofRequests c = replicate 16 false →
  Z.of_nat (size (k_procs s)) ≤ 63 →
  kinv N no_ghost (set_procs (<[p := c]> (k_procs s))
    (set_sems (<[cte := mkSem 0 [] false]> (<[te := mkSem 0 [] false]> (k_sems s))) (set_next m s))).
Proof.
  intros H Hp Hte Hcte Hne E1 E2 E3 E4 Hsz.
  pose proof H as [I0 I1 I2 (I3a & I3b & I3c & I3d) I4 I5 I6 I7 I8 I9 I10]. destruct I1 as [I1 I1'].
  set (s' := set_procs _ _).
  assert (Hnp : k_procs s !! p = None) by (apply eq_None_not_Some; intros Hx; specialize (I3d p Hx); lia).
  assert (Hnew : ∀ q, k_next s ≤ q → ∀ o, ¬ owns s q o).
  { intros q Hq o Ho. pose proof (I5 q o Ho) as Hx. specialize (I3a q Hx). lia. }
  assert (Hown : ∀ q o, owns s' q o → owns s q o ∨ (o = OProc p 0 ∧ q = te) ∨ (o = OProc p 1 ∧ q = cte)).
  { intros q [x i|x i|i]; simpl; try (by left). intros (d & [[<- <-]|[Hx Hd]]%lookup_insert_Some & Hi); [|left; by exists d].
    right. destruct i as [|[|i]]; cbn in Hi; [left|right|done]; injection Hi as <-; split; congruence. }
  assert (Hlive : ∀ q, is_Some (k_sems s !! q) → is_Some (k_sems s' !! q)).
  { intros q Hq. unfold s'. kred. rewrite !lookup_insert_is_Some'. auto. }
  split; try done; unfold s'; kred.
  - split; kred; [done|lia].
  - assert (Hst : ∀ x, state_of s' x = state_of s x).
    { intros x. unfold state_of, proc_of, s'. kred. destruct (processTable s !! x) as [y|] eqn:Ey; [|done].
      cbn [mbind option_bind]. destruct (si_table _ I2 _ _ Ey) as (_ & _ & d & Hd & _). rewrite lookup_insert_ne; [done|congruence]. }
    pose proof I2 as [S1 (l & S2 & S2a & S2b) S3 S4 S5 S6]. split; unfold s'; kred; fold s'; try done.
    + intros x y Hx. destruct (S1 x y Hx) as (? & ? & d & Hd & Ed). split; [done|]. split; [done|].
      exists d. rewrite lookup_insert_ne; [done|congruence].
    + exists l. split; [done|]. split; [done|]. intros x. rewrite Hst. apply S2b.
    + intros x. rewrite Hst. apply S3.
    + by rewrite Hst.
  - unfold below in *. kred. split_and!; intros k Hk.
    + apply lookup_insert_is_Some' in Hk as [<-|[<-|Hk]%lookup_insert_is_Some']; [lia|lia|]. specialize (I3a k Hk). lia.
    + specialize (I3b k Hk). lia.
    + specialize (I3c k Hk). lia.
    + apply lookup_insert_is_Some' in Hk as [<-|Hk]; [lia|]. specialize (I3d k Hk). lia.
  - assert (Hok : sem_ok (mkSem 0 [] false)).
    { split; cbn; [done|lia|]. intros x Hx. by apply elem_of_nil in Hx. }
    intros q d [[_ <-]|[_ [[_ <-]|[_ Hd]]%lookup_insert_Some]]%lookup_insert_Some; [split; [done|cbn; lia]|split; [done|cbn; lia]|].
    exact (I4 q d Hd).
  - intros q o [Ho|[[_ ->]|[_ ->]]]%Hown; [by eapply Hlive, I5| |]; rewrite !lookup_insert_is_Some'; auto.
  - intros q o o' [Ho|[[-> ->]|[-> ->]]]%Hown [Ho'|[[-> E']|[-> E']]]%Hown; try done; try congruence; try (by eapply I6).
    + by destruct (Hnew q ltac:(lia) o).
    + by destruct (Hnew q ltac:(lia) o).
    + by destruct (Hnew te ltac:(lia) o').
    + by destruct (Hnew cte ltac:(lia) o').
  - intros fa f Hf. destruct (I8 fa f Hf) as [Hpp Hr]. split; [done|]. rewrite sum_of_insert by done.
    rewrite zero_slots; [lia| |done]. intros ->. destruct (kinv_pos _ _ _ H) as (E & _). congruence.
  - intros x d [[<- <-]|[_ Hd]]%lookup_insert_Some; [|exact (I9 x d Hd)]. rewrite E3, E4. split; [done|]. split; [done|].
    intros fa Hfa. apply elem_of_replicate in Hfa as [-> _]. by left.
  - rewrite map_size_insert_None by done. split; [lia|apply I10].
Qed.

Lemma find_split {A} (f : A → bool) l :
  match List.find f l with
  | Some x => ∃ l1 l2, l = l1 ++ x :: l2 ∧ f x = true ∧ ∀ y, y ∈ l1 → f y = false
  | None => ∀ y, y ∈ l → f y = false
  end.
Proof.
  induction l as [|a l IH]; cbn [List.find]; [intros y Hy; by apply elem_of_nil in Hy|].
  destruct (f a) eqn:Ea.
  - exists [], l. split; [done|]. split; [done|]. intros y Hy. by apply elem_of_nil in Hy.
  - destruct (List.find f l) as [x|].
    + destruct IH as (l1 & l2 & -> & Hx & Hl). exists (a :: l1), l2. split; [done|]. split; [done|].
      intros y [->|Hy]%elem_of_cons; auto.
    + intros y [->|Hy]%elem_of_cons; auto.
Qed.

Lemma table_used s i : sched_inv s → (default 0 (processTable s !! i) =? 0) = false ↔ is_Some (processTable s !! i).
Proof.
  intros Hs. destruct (processTable s !! i) as [p|] eqn:E; cbn.
  - destruct (si_table _ Hs _ _ E) as (_ & Hp & _). rewrite (proj2 (Z.eqb_neq p 0)) by done. split; [by eexists|done].
  - split; [done|]. by intros [].
Qed.

(** The lowest free pid, or -1 when all are in use. *)
Lemma findFreePid_spec s : sched_inv s →
  (findFreePid s = -1 ∧ ∀ i, 0 ≤ i < 64 → is_Some (processTable s !! i)) ∨
  (0 ≤ findFreePid s < 64 ∧ processTable s !! findFreePid s = None ∧
   ∀ i, 0 ≤ i < findFreePid s → is_Some (processTable s !! i)).
Proof.
  intros Hs. unfold findFreePid. pose proof (find_split (λ i, default 0 (processTable s !! i) =? 0) (seqZ 0 MAX_PROCESSES)) as H.
  destruct (List.find _ _) as [x|]; cbn [default from_option id].
  - right. destruct H as (l1 & l2 & E & Hx & Hl). apply seqZ_split in E as [Hr Hlow]; [|done]. unfold MAX_PROCESSES in Hr.
    split; [done|]. split.
    + apply eq_None_not_Some. intros Hsome. apply table_used in Hsome; [|done]. congruence.
    + intros i Hi. apply table_used; [done|]. by apply Hl, Hlow.
  - left. split; [done|]. intros i Hi. apply table_used; [done|]. apply H. apply elem_of_seqZ. unfold MAX_PROCESSES. lia.
Qed.

Lemma becomes_kin p f s s' c : k_procs s !! p = Some c → becomes p (f c) s s' → kin (at_addr p f) s s'.
Proof.
  intros Hc B q. destruct (decide (q = p)) as [->|Hq].
  - destruct (becomes_proc _ _ _ _ B) as (c' & -> & L). rewrite Hc. constructor. unfold at_addr. by rewrite Z.eqb_refl.
  - unfold at_addr. rewrite (proj2 (Z.eqb_neq q p)) by done. exact (becomes_other _ _ _ _ _ B Hq).
Qed.

(** The process enters the table and the ready queue. *)
Definition enlisted (pid p : Z) (c : processCDT) (l : list Z) (s : kst) : kst :=
  set_ready (Some (l ++ [pid])) (set_next (k_next s + 16) (set_table (<[pid := p]> (processTable s))
    (set_procs (<[p := with_state READY c]> (k_procs s)) s))).

Lemma sched_inv_enlist s pid p c l : sched_inv s → 0 ≤ pid < 64 → p ≠ 0 → k_procs s !! p = Some c → p_pid c = pid →
  processTable s !! pid = None → (∀ x, processTable s !! x ≠ Some p) → readyQueue s = Some l →
  sched_inv (enlisted pid p c l s).
Proof.
  intros Hs Hr Hp Hc Hpid Hfree Hni Hl. set (s' := enlisted pid p c l s).
  assert (Hst : ∀ x, state_of s' x = if bool_decide (x = pid) then Some READY else state_of s x).
  { intros x. unfold state_of, proc_of, s', enlisted. kred. case_bool_decide as E.
    - subst x. rewrite lookup_insert_eq. cbn [mbind option_bind]. by rewrite lookup_insert_eq.
    - rewrite lookup_insert_ne by congruence. destruct (processTable s !! x) as [y|] eqn:Ey; [|done]. cbn [mbind option_bind].
      rewrite lookup_insert_ne; [done|]. intros <-. by apply (Hni x). }
  pose proof Hs as [S1 (l0 & S2 & S2a & S2b) S3 S4 S5 S6]. assert (l0 = l) as -> by congruence.
  split.
  - intros x y. unfold s', enlisted. kred. intros [[<- <-]|[_ Hx]]%lookup_insert_Some.
    + split; [done|]. split; [done|]. eexists. split; [apply lookup_insert_eq|done].
    + destruct (S1 x y Hx) as (? & ? & d & Hd & Ed). split; [done|]. split; [done|]. exists d.
      rewrite lookup_insert_ne; [done|]. intros <-. by apply (Hni x).
  - exists (l ++ [pid]). split; [done|]. split.
    + apply list.NoDup_app. split; [done|]. split; [|apply NoDup_singleton]. intros x Hx ->%list_elem_of_singleton.
      apply S2b in Hx. destruct (state_of_some _ _ _ Hx) as (y & _ & Hy & _). congruence.
    + intros x. rewrite elem_of_app, list_elem_of_singleton, Hst, S2b. case_bool_decide as E; [tauto|].
      split; [intros [?|?]; done|by left].
  - intros x. rewrite Hst. case_bool_decide as E; [done|]. intros Hx. unfold s', enlisted. kred.
    rewrite lookup_insert_ne by congruence. by apply S3.
  - intros Hne. destruct (S4 Hne) as (x & Hx). exists x. unfold s', enlisted. kred. rewrite lookup_insert_ne; [done|congruence].
  - rewrite Hst. case_bool_decide as E; [by left|exact S5].
  - unfold s', enlisted. kred. intros x Hx. rewrite lookup_insert_is_Some'. right. by apply S6.
Qed.

(** What starting a process with pid [pid] at [p] makes of the descriptors there were: the
    parent, at [cur], gets a child. *)
Definition has_fields (c : processCDT) (pid entry prio argc : Z) (name : option cstring) (argv : option (list (option cstring))) : Prop :=
  p_pid c = pid ∧ p_rip c = entry ∧ p_name c = copyProcessName name ∧ priorityLevel c = prio ∧ remainingQuantums c = prio ∧
  snd <$> p_argv c = arguments argc argv ∧ p_argc c = (if bool_decide (is_Some (arguments argc argv)) then argc else 0).

Lemma filled_keeps v l : ∀ c, same_fields c (foldl (put_slot v) c l) ∧ p_ppid (foldl (put_slot v) c l) = p_ppid c.
Proof.
  induction l as [|i l IH]; intros c; [done|]. cbn [foldl]. destruct (IH (put_slot v c i)) as [H ->]. split.
  - eapply same_fields_trans; [|exact H]. unfold put_slot. by destruct (_ && _).
  - unfold put_slot. by destruct (_ && _).
Qed.

Lemma like_fields a b : proc_like a b → same_fields a b.
Proof. intros L. red in L. rewrite L. done. Qed.

(** Creation, up to the copy of the descriptors. *)
Lemma inherit_ok N s pid entry name prio argc argv cc : sound N s → N + 1024 ≤ 2 ^ 30 → 0 ≤ pid < 64 →
  processTable s !! pid = None → k_procs s !! currentProcess s = Some cc →
  let p := k_next s in
  ∃ s1 s2 c2, newProcess entry name DEFAULT_STACK_SIZE pid prio argc argv s = KDone s1 p ∧ currentProcess s1 = currentProcess s ∧
    k_procs s1 !! currentProcess s = Some cc ∧ currentProcess s ≠ p ∧
    (_ ← setPPID p (p_pid cc); _ ← addChild (currentProcess s) pid; copyFdTable p (currentProcess s)) s1 = KDone s2 () ∧
    held (N + 1024) s2 ∧ processTable s2 = processTable s ∧ currentProcess s2 = currentProcess s ∧
    foregroundSet s2 = foregroundSet s ∧ wakes s s2 ∧ k_procs s2 !! p = Some c2 ∧
    has_fields c2 pid entry prio argc name argv ∧ p_ppid c2 = p_pid cc ∧ fdTable c2 = fdTable cc ∧
    children c2 = Some [] ∧ terminatedChildren c2 = Some [] ∧ k_procs s !! p = None ∧
    (∀ q, q ≠ p → option_Forall2 (λ c c', proc_like (at_addr (currentProcess s) (app_child pid) q c) c')
      (k_procs s !! q) (k_procs s2 !! q)).
Proof.
  intros [[H [T1 T0 T2]] Fam] HN Hr Hfree Hcc p. pose proof (ki_sched _ _ _ H) as Hs. set (cur := currentProcess s) in *.
  destruct (newProcess_ok entry name DEFAULT_STACK_SIZE pid prio argc argv s (ki_mem _ _ _ H) ltac:(done))
    as (base & te & cte & m & a & E1 & Hord & Hm). fold p in E1, Hord.
  set (c1 := fresh entry name base DEFAULT_STACK_SIZE pid prio argc argv a te cte) in *.
  set (s1 := set_procs _ _) in E1.
  assert (Hnp : k_procs s !! p = None).
  { apply eq_None_not_Some. intros Hx. destruct (ki_below _ _ _ H) as (_ & _ & _ & B). specialize (B p Hx). unfold p in B. lia. }
  assert (Hcur : cur ≠ p) by congruence.
  assert (H1 : kinv N no_ghost s1).
  { apply (kinv_new_proc N s p te cte m c1 H); try done; try (unfold p in *; lia). by apply (procs_bound s pid). }
  assert (Hc1 : k_procs s1 !! p = Some c1) by apply lookup_insert_eq.
  assert (Hcc1 : k_procs s1 !! cur = Some cc) by (unfold s1; kred; by rewrite lookup_insert_ne by done).
  destruct (mild_store_ok N s1 p (with_ppid (p_pid cc)) c1 H1 Hc1) as (s3 & E3 & H3 & O3 & F3); [done|].
  destruct (kin_some _ _ _ _ _ F3 Hcc1) as (cc3 & Hcc3 & Lc3).
  unfold at_addr in Lc3. rewrite (proj2 (Z.eqb_neq cur p)) in Lc3 by done.
  destruct (fm_queues _ Fam _ _ Hcc) as (cl & tl & Hcl & _).
  destruct (enqueue_child_ok N s3 cur pid cc3 cl H3 Hcc3) as (s4 & E4 & H4 & O4 & F4); [by rewrite (like_children _ _ Lc3)|].
  pose proof (kin_trans _ _ _ _ _ F3 F4 ltac:(apply _)) as F34. pose proof (outer_trans _ _ _ O3 O4) as O34.
  destruct (kin_some _ _ _ _ _ F34 Hc1) as (c4 & Hc4 & L4). destruct (kin_some _ _ _ _ _ F34 Hcc1) as (cc4 & Hcc4 & Lc4).
  assert (T4 : tight s4).
  { apply (tight_kin _ s1 s4) with (2 := F34); [|intros q x; unfold at_addr; by destruct (q =? cur), (q =? p)|
      by rewrite (ou_files _ _ O34)|by rewrite (ou_pipes _ _ O34)].
    split; unfold s1; kred; [|exact T0|exact T2]. intros fa Hfa. rewrite sum_of_insert by done. specialize (T1 fa Hfa).
    pose proof (slots_nonneg fa c1). lia. }
  destruct (copyFdTable_ok N s4 p cur c4 cc4 (conj H4 T4) Hc4 Hcc4 (not_eq_sym Hcur) HN) as (s2 & E2 & H2 & B2 & Z2).
  set (fill := λ c, foldl (put_slot (fd_slot cc4)) c (seqZ 0 MAX_FDS)) in *.
  assert (F2 : kin (at_addr p fill) s4 s2) by (by apply (becomes_kin p fill _ _ c4)).
  pose proof (of_table _ _ B2 : processTable s2 = processTable s4) as Tb2.
  pose proof (of_current _ _ B2 : currentProcess s2 = currentProcess s4) as Cu2.
  pose proof (of_fg _ _ B2 : foregroundSet s2 = foregroundSet s4) as Fg2.
  destruct (becomes_proc _ _ _ _ B2) as (c2 & Hc2 & L2).
  assert (Fd : same_fields c1 c2 ∧ p_ppid c2 = p_pid cc).
  { destruct (filled_keeps (fd_slot cc4) (seqZ 0 MAX_FDS) c4) as [K1 K2]. rewrite (like_ppid _ _ L2). unfold fill. rewrite K2, (like_ppid _ _ L4).
    unfold at_addr. rewrite Z.eqb_refl, (proj2 (Z.eqb_neq p cur)) by congruence. split; [|done].
    eapply same_fields_trans; [|exact (like_fields _ _ L2)]. eapply same_fields_trans; [|exact K1].
    eapply same_fields_trans; [|exact (like_fields _ _ L4)]. unfold at_addr.
    rewrite Z.eqb_refl, (proj2 (Z.eqb_neq p cur)) by congruence. done. }
  destruct Fd as [(K1 & K2 & K3 & K4 & K5 & K6 & K7 & K8 & K9) Hpp].
  exists s1, s2, c2. split; [exact E1|]. split; [done|]. split; [exact Hcc1|]. split; [exact Hcur|]. split.
  { unfold setPPID. rewrite kbind_eq, E3. kred. unfold addChild. rewrite kbind_eq, E4. kred. exact E2. }
  split; [exact H2|]. split; [by rewrite Tb2, (ou_table _ _ O34)|].
  split; [by rewrite Cu2, (ou_current _ _ O34)|]. split; [by rewrite Fg2, (ou_fg _ _ O34)|].
  split.
  { assert (W1 : wakes s s1).
    { apply wakes_refl. intros x. unfold s1, state_of, proc_of. kred. destruct (processTable s !! x) as [y|] eqn:Ey; [|done]. cbn [mbind option_bind].
      destruct (si_table _ Hs _ _ Ey) as (_ & _ & d & Hd & _). rewrite lookup_insert_ne; [done|congruence]. }
    eapply wakes_trans; [exact W1|]. eapply wakes_trans; [exact (ou_wakes _ _ O34)|]. intros x.
    pose proof (of_wakes _ _ B2 x) as W. rewrite (state_of_same s4 p c4 _ x Hc4) in W; [exact W|]. by rewrite put_slots_state. }
  split; [exact Hc2|]. split.
  { unfold has_fields. rewrite K1, K2, K3, K4, K5, K6, K7. unfold c1, fresh. cbn.
    repeat (split; [done|]). split; [|done]. by destruct (arguments argc argv). }
  split; [exact Hpp|]. split.
  { rewrite (like_fds _ _ L2), Z2, (like_fds _ _ Lc4). unfold at_addr. rewrite Z.eqb_refl, (proj2 (Z.eqb_neq cur p)) by done. done. }
  split; [by rewrite K8|]. split; [by rewrite K9|]. split; [exact Hnp|].
  intros q Hq. pose proof (F34 q) as G1. pose proof (F2 q) as G2. unfold s1 in G1. revert G1. kred. rewrite lookup_insert_ne by done.
  unfold at_addr. rewrite (proj2 (Z.eqb_neq q p)) by done. intros G1. unfold at_addr in G2. rewrite (proj2 (Z.eqb_neq q p)) in G2 by done.
  destruct G1 as [d d' Ld|]; inversion G2 as [? d2 Ld2|]; constructor. by etrans.
Qed.

(** The stack is prepared and the process enters the table. *)
Lemma enlist_ok N s pid p c l : held N s → 0 ≤ pid < 64 → p ≠ 0 → k_procs s !! p = Some c → p_pid c = pid →
  processTable s !! pid = None → (∀ x, processTable s !! x ≠ Some p) → readyQueue s = Some l →
  ∃ s', (_ ← prepareStack p; _ ← setState p READY; _ ← kmod (λ s, set_table (<[pid := p]> (processTable s)) s);
         _ ← enqueue_ready pid; mret pid) s = KDone s' pid ∧ held N s' ∧
    processTable s' = <[pid := p]> (processTable s) ∧ currentProcess s' = currentProcess s ∧
    foregroundSet s' = foregroundSet s ∧ readyQueue s' = Some (l ++ [pid]) ∧
    (∃ v, k_procs s' = <[p := with_state READY (with_rsp v c)]> (k_procs s)) ∧
    (∀ x, x ≠ pid → state_of s' x = state_of s x).
Proof.
  intros [H T] Hr Hp Hc Hpid Hfree Hni Hl. set (v := sp_after 20 (frame_top c)).
  set (s1 := set_procs (<[p := with_rsp v c]> (k_procs s)) (set_words (push_all (frame_words c) (frame_top c) (k_words s)) s)).
  assert (Hc1 : k_procs s1 !! p = Some (with_rsp v c)) by apply lookup_insert_eq.
  pose proof (ki_sched _ _ _ H) as Hs.
  assert (Hs1 : sched_inv s1).
  { eapply sched_inv_frame; [..|exact (sched_inv_procs s p c (with_rsp v c) Hs Hc eq_refl eq_refl)]; done. }
  assert (H1 : kinv N no_ghost s1) by (apply (kinv_proc N no_ghost s s1 p c (with_rsp v c) H Hc); try done).
  pose proof (sched_inv_enlist s1 pid p _ l Hs1 Hr Hp Hc1 Hpid Hfree Hni Hl) as Hs2.
  set (s2 := enlisted pid p (with_rsp v c) l s1) in *.
  assert (H2 : kinv N no_ghost s2).
  { apply (kinv_proc N no_ghost s1 s2 p (with_rsp v c) (with_state READY (with_rsp v c)) H1 Hc1); try done.
    unfold s2, enlisted. kred. lia. }
  assert (F : kin (at_addr p (with_rsp v)) s s2).
  { intros q. unfold s2, enlisted, s1, at_addr. kred. destruct (Z.eqb_spec q p) as [->|Hq].
    - rewrite lookup_insert_eq, Hc. by constructor.
    - rewrite !lookup_insert_ne by done. destruct (k_procs s !! q); by constructor. }
  exists s2. split; [|split; [split; [exact H2|]|]].
  - rewrite kbind_eq, (prepareStack_eq p s c Hp Hc). cbn [kbind]. fold v s1. unfold setState.
    rewrite kbind_eq, (kstore_proc_eq _ _ _ _ Hc1). cbn [kbind]. unfold kmod. rewrite kbind_eq. cbn [kbind].
    rewrite kbind_eq, (enqueue_ready_eq _ _ l); [done| |exact Hl].
    destruct (ki_mem _ _ _ H1). by split.
  - apply (tight_kin _ s s2 T F); [|done|done]. intros q d. unfold at_addr. by destruct (q =? p).
  - split; [done|]. split; [done|]. split; [done|]. split; [done|]. split.
    + exists v. unfold s2, enlisted, s1. kred. by rewrite insert_insert_eq.
    + intros x Hx. unfold state_of, proc_of, s2, enlisted, s1. kred. rewrite lookup_insert_ne by congruence.
      destruct (processTable s !! x) as [y|] eqn:Ey; [|done]. cbn [mbind option_bind].
      rewrite !lookup_insert_ne; [done|intros <-; by apply (Hni x)..].
Qed.

(** The start of a process, from a sound state. *)
Lemma startNewProcess_ok N s entry name prio argc argv cc :
  sound N s → N + 1024 ≤ 2 ^ 30 → k_procs s !! currentProcess s = Some cc → p_pid cc ≠ IDLE_PID →
  (startNewProcess entry name prio argc argv s = KDone s (-1) ∧ ∀ i, 0 ≤ i < 64 → is_Some (processTable s !! i)) ∨
  ∃ s' pid p c' cc', startNewProcess entry name prio argc argv s = KDone s' pid ∧ sound (N + 1024) s' ∧
    0 ≤ pid < 64 ∧ (∀ i, 0 ≤ i < pid → is_Some (processTable s !! i)) ∧
    processTable s !! pid = None ∧ k_procs s !! p = None ∧
    processTable s' = <[pid := p]> (processTable s) ∧ currentProcess s' = currentProcess s ∧
    (∃ l, readyQueue s' = Some (l ++ [pid])) ∧
    k_procs s' !! p = Some c' ∧ p_state c' = READY ∧ has_fields c' pid entry prio argc name argv ∧
    p_ppid c' = p_pid cc ∧ fdTable c' = fdTable cc ∧ children c' = Some [] ∧
    k_procs s' !! currentProcess s = Some cc' ∧ children cc' = (λ l, l ++ [pid]) <$> children cc ∧
    (∀ q d', q ≠ p → k_procs s' !! q = Some d' → ∃ d, k_procs s !! q = Some d ∧ p_ppid d' = p_ppid d) ∧
    ∀ x, x ≠ pid → state_of s' x = state_of s x ∨ (state_of s x = Some BLOCKED ∧ state_of s' x = Some READY).
Proof.
  intros Hsd HN Hcc Hidle. pose proof Hsd as [[H T] Fam]. pose proof (ki_sched _ _ _ H) as Hs.
  unfold startNewProcess. rewrite kbind_eq. kred.
  destruct (findFreePid_spec s Hs) as [[-> Hall]|(Hr & Hfree & Hlow)]; [by left|right].
  set (pid := findFreePid s) in *. rewrite (proj2 (Z.ltb_ge pid 0)) by lia.
  destruct (inherit_ok N s pid entry name prio argc argv cc Hsd HN Hr Hfree Hcc) as
    (s1 & s2 & c2 & E1 & Cu1 & Hcc1 & Hcur & E2 & H2 & Tb2 & Cu2 & Fg2 & W2 & Hc2 & Hf & Hpp & Hfd & Hch & Htc & Hnp & F2).
  set (p := k_next s) in *. assert (Hp : p ≠ 0) by (destruct (ki_mem _ _ _ H); unfold p; lia).
  pose proof (kinv_ne _ _ _ _ _ H Hcc) as Hcu0.
  destruct (si_ready _ (ki_sched _ _ _ (proj1 H2))) as (l & Hl & _).
  destruct (enlist_ok (N + 1024) s2 pid p c2 l H2 Hr Hp Hc2) as (s3 & E3 & H3 & Tb3 & Cu3 & Fg3 & Rq3 & (v & P3) & St3);
    [apply Hf|by rewrite Tb2| |done|].
  { intros x Hx. rewrite Tb2 in Hx. destruct (si_table _ Hs _ _ Hx) as (_ & _ & d & Hd & _). congruence. }
  assert (Hw : ∀ x, x ≠ pid → wake1 (state_of s x) (state_of s3 x)).
  { intros x Hx. rewrite St3 by done. apply W2. }
  pose proof (F2 (currentProcess s) Hcur) as Gc. rewrite Hcc in Gc. unfold at_addr in Gc. rewrite Z.eqb_refl in Gc.
  inversion Gc as [? cc2 Lcc Ecc|]. symmetry in Ecc.
  exists s3, pid, p, (with_state READY (with_rsp v c2)), cc2. split; [|split; [split; [exact H3|]|]].
  - unfold startNewProcessWithPid. rewrite bad_pid_false by done. rewrite kbind_eq, slot_eq, Hfree. kred.
    cbn [Z.eqb negb]. rewrite kbind_eq, E1. kred. rewrite (proj2 (Z.eqb_neq p 0)) by done. rewrite kbind_eq. kred. rewrite Cu1.
    rewrite (proj2 (Z.eqb_neq (currentProcess s) 0)) by done. rewrite kbind_eq, (getPID_eq _ _ _ Hcc1). kred.
    rewrite (proj2 (Z.eqb_neq (p_pid cc) IDLE_PID)) by done. cbn [negb andb]. rewrite kbind_eq, E2. kred. exact E3.
  - split; rewrite ?P3, ?Tb3, ?Tb2.
    + intros q d [[<- <-]|[Hq Hd]]%lookup_insert_Some.
      * destruct Hf as (Hf & _). cbn. rewrite Hf. apply lookup_insert_eq.
      * specialize (F2 q (not_eq_sym Hq)). rewrite Hd in F2. inversion F2 as [d0 ? L E0|]. rewrite (like_pid _ _ L).
        symmetry in E0. pose proof (fm_listed _ Fam q d0 E0) as K. unfold at_addr.
        assert (Ep : p_pid (if q =? currentProcess s then app_child pid d0 else d0) = p_pid d0) by (by destruct (q =? _)).
        rewrite Ep, lookup_insert_ne; [done|congruence].
    + intros q d [[<- <-]|[Hq Hd]]%lookup_insert_Some.
      * exists [], []. cbn. rewrite Hch, Htc. done.
      * specialize (F2 q (not_eq_sym Hq)). rewrite Hd in F2. inversion F2 as [d0 ? L E0|]. symmetry in E0.
        destruct (fm_queues _ Fam q d0 E0) as (cl & tl & K1 & K2 & K3 & K4).
        rewrite (like_children _ _ L), (like_terminated _ _ L). unfold at_addr. destruct (q =? currentProcess s).
        -- exists (cl ++ [pid]), tl. cbn. rewrite K1. split; [done|]. split; [done|]. split; [by apply is_pid_app|done].
        -- by exists cl, tl.
    + intros q d [[<- <-]|[Hq Hd]]%lookup_insert_Some; [done|]. intros Hz.
      specialize (F2 q (not_eq_sym Hq)). rewrite Hd in F2. inversion F2 as [d0 ? L E0|]. symmetry in E0.
      assert (Hfd0 : fdTable d = fdTable d0) by (rewrite (like_fds _ _ L); unfold at_addr; by destruct (q =? _)).
      rewrite Hfd0. apply (fm_zombie _ Fam q d0 E0). pose proof (fm_listed _ Fam q d0 E0) as K.
      assert (Hne : p_pid d0 ≠ pid) by congruence. pose proof (wake1_zombie _ _ (Hw _ Hne)) as Hzz.
      rewrite (state_of_eq s _ _ _ K E0), (state_of_eq s3 _ q d) in Hzz;
        [|rewrite Tb3, Tb2, lookup_insert_ne by congruence; exact K|rewrite P3, lookup_insert_ne by congruence; exact Hd].
      destruct Hzz as [Hzz _]. specialize (Hzz ltac:(by f_equal)). congruence.
  - split; [exact Hr|]. split; [exact Hlow|]. split; [exact Hfree|]. split; [exact Hnp|].
    split; [by rewrite Tb3, Tb2|]. split; [by rewrite Cu3|]. split; [by exists l|].
    split; [rewrite P3; apply lookup_insert_eq|]. split; [done|]. split; [exact Hf|]. split; [exact Hpp|].
    split; [exact Hfd|]. split; [exact Hch|]. split; [rewrite P3, lookup_insert_ne by congruence; done|].
    split; [by rewrite (like_children _ _ Lcc)|]. split; [|exact Hw].
    intros q d Hq Hd. rewrite P3, lookup_insert_ne in Hd by done. specialize (F2 q Hq). rewrite Hd in F2.
    inversion F2 as [d0 ? L E0|]. exists d0. split; [done|]. rewrite (like_ppid _ _ L). unfold at_addr. by destruct (q =? _).
Qed.

(** C6. A process started by a process other than idle gets the lowest free pid, the arguments
    and the name it was given, the descriptors of its parent and an empty family; it is ready,
    last in the queue; its parent gets it as a child.  When every pid is in use the answer is
    -1 and nothing changes. *)
Theorem startNewProcess_inherits N s entry name prio argc argv cc :
  sound N s → N + 1024 ≤ 2 ^ 30 → k_procs s !! currentProcess s = Some cc → p_pid cc ≠ IDLE_PID →
  (startNewProcess entry name prio argc argv s = KDone s (-1) ∧ ∀ i, 0 ≤ i < 64 → is_Some (processTable s !! i)) ∨
  ∃ s' pid p c' cc', startNewProcess entry name prio argc argv s = KDone s' pid ∧ sound (N + 1024) s' ∧
    0 ≤ pid < 64 ∧ (∀ i, 0 ≤ i < pid → is_Some (processTable s !! i)) ∧
    processTable s !! pid = None ∧ k_procs s !! p = None ∧
    processTable s' = <[pid := p]> (processTable s) ∧ currentProcess s' = currentProcess s ∧
    (∃ l, readyQueue s' = Some (l ++ [pid])) ∧
    k_procs s' !! p = Some c' ∧ p_state c' = READY ∧ has_fields c' pid entry prio argc name argv ∧
    p_ppid c' = p_pid cc ∧ fdTable c' = fdTable cc ∧ children c' = Some [] ∧
    k_procs s' !! currentProcess s = Some cc' ∧ children cc' = (λ l, l ++ [pid]) <$> children cc ∧
    ∀ x, x ≠ pid → state_of s' x = state_of s x ∨ (state_of s x = Some BLOCKED ∧ state_of s' x = Some READY).
Proof.
  intros Hsd HN Hcc Hid. destruct (startNewProcess_ok N s entry name prio argc argv cc Hsd HN Hcc Hid) as
    [?|(s' & pid & p & c' & cc' & A1 & A2 & A3 & A4 & A5 & A6 & A7 & A8 & A9 & B1 & B2 & B3 & B4 & B5 & B6 & B7 & B8 & _ & B9)];
    [by left|right].
  by exists s', pid, p, c', cc'.
Qed.

End Pinned.

Lemma startNewProcess_inherits_witness : ∃ s', startNewProcess 5000 (Some [97]) 1 0 None small = KDone s' 4 ∧ sound 2048 s'.
Proof.
  destruct (startNewProcess_inherits 1024 small 5000 (Some [97]) 1 0 None (small_proc 2 1 RUNNING [3] 336 344 [400; 408])
    small_sound) as [[_ H]|(s' & pid & p & c' & cc' & E & H & Hr & Hlow & Hfree & _)]; [lia|reflexivity|vm_compute; congruence| |].
  - destruct (H 4) as [x Hx]; [lia|]. vm_compute in Hx. discriminate Hx.
  - exists s'. assert (Hpid : pid = 4); [|rewrite Hpid in E; split; [exact E|exact H]].
    destruct (Z.lt_trichotomy pid 4) as [L|[L|L]]; [|exact L|].
    + assert (C : pid = 0 ∨ pid = 1 ∨ pid = 2 ∨ pid = 3) by lia.
      destruct C as [->|[->|[->| ->]]]; vm_compute in Hfree; discriminate Hfree.
    + destruct (Hlow 4) as [x Hx]; [lia|]. vm_compute in Hx. discriminate Hx.
Defined.

Section Pinned.
Context {pin : Pinned}.


End Pinned.


End Creation.
