(* ===== verification/Channels.v ===== *)
(** * The creation of pipes and file accesses

    [newPipe], [newFileAccess] and the opening of a descriptor, step by step against the
    invariant of [KernelInv.v]: between them a new pipe has no file access and a new file
    access no descriptor. *)

From S2P Require Import Prelude MemoryManager CircularBuffer KState ProcTable Semaphore Pipe Process KernelInv KernelCheck.
From S2P Require Import Descriptors Creation.
Import ProcTable Semaphore Pipe FileAccess Process KernelInv KernelCheck Descriptors Creation.

Module Channels.

Section Pinned.
Context {pin : Pinned}.

(** ** What holds nothing *)

Lemma unheld N s fa : kinv N no_ghost s → k_files s !! fa = None → fa ≠ 0 → sum_of (slots fa) (k_procs s) = 0.
Proof.
  intros H Hn H0. apply sum_pos_ex. intros q d Hd. destruct (ki_proc _ _ _ H q d Hd) as (_ & _ & L). unfold slots.
  destruct (List.filter (Z.eqb fa) (fdTable d)) as [|y l] eqn:E; [done|]. exfalso.
  assert (Hin : In y (List.filter (Z.eqb fa) (fdTable d))) by (rewrite E; by left).
  apply List.filter_In in Hin as [Hin Hy]. apply Z.eqb_eq in Hy. subst y. apply list_elem_of_In in Hin.
  destruct (L fa Hin) as [|[f0 Hf0]]; congruence.
Qed.

(** ** File accesses *)

(** A new file access without references; its pipe does not count it yet. *)
Lemma kinv_add_file N s fa m p flags : kinv N no_ghost s → k_next s ≤ fa < m → p = 0 ∨ is_Some (k_pipes s !! p) →
  Z.of_nat (size (k_files s)) < 2 ^ 20 → fa ∉ pins →
  kinv N (mkGhost driver_refs (bump (λ _, 0) p (-1)) (bump (λ _, 0) p (if has_flag flags FILE_WRITE then -1 else 0)))
    (set_files (<[fa := mkFile p flags 0]> (k_files s)) (set_next m s)).
Proof.
  intros H Hfa Hp Hsz Hpin. pose proof H as [I0 I1 I2 (I3a & I3b & I3c & I3d) I4 I5 I6 I7 I8 I9 I10]. destruct I1 as [I1 I1'].
  assert (Hnf : k_files s !! fa = None) by (apply eq_None_not_Some; intros Hx; specialize (I3c fa Hx); lia).
  split; try done; kred.
  - split; kred; [done|lia].
  - keep_sched I2.
  - unfold below in *. kred. split_and!; intros k Hk.
    + specialize (I3a k Hk). lia.
    + specialize (I3b k Hk). lia.
    + apply lookup_insert_is_Some' in Hk as [<-|Hk]; [lia|]. specialize (I3c k Hk). lia.
    + specialize (I3d k Hk). lia.
  - intros q d Hd. destruct (I7 q d Hd) as [E1 E2]. rewrite !sum_of_insert by done. cbn [g_ref g_wr no_ghost] in *.
    unfold bump. assert (U : uses q (mkFile p flags 0) = if q =? p then 1 else 0) by (unfold uses; cbn; by rewrite Z.eqb_sym).
    assert (W : writes q (mkFile p flags 0) = if q =? p then if has_flag flags FILE_WRITE then 1 else 0 else 0).
    { unfold writes. cbn. rewrite (Z.eqb_sym q). by destruct (p =? q). }
    rewrite U, W. destruct (q =? p); [destruct (has_flag _ _)|]; lia.
  - intros x f [[<- <-]|[Hne Hf]]%lookup_insert_Some; [|exact (I8 x f Hf)]. cbn. split; [done|].
    rewrite (unheld N s) by (done || lia). unfold driver_refs. by rewrite bool_decide_false.
  - intros q d Hd. destruct (I9 q d Hd) as (L1 & L2 & L3). split; [done|]. split; [done|]. intros x Hx.
    destruct (L3 x Hx) as [?|?]; [by left|right]. rewrite lookup_insert_is_Some'. by right.
  - rewrite map_size_insert_None by done. split; [apply I10|lia].
Qed.

Lemma newFileAccess_ok N s p c flags : kinv N no_ghost s → k_pipes s !! p = Some c → Z.of_nat (size (k_files s)) < 2 ^ 20 →
  (∀ x, x ∈ pins → is_Some (k_files s !! x)) →
  let w := if has_flag flags FILE_WRITE then 1 else 0 in
  let fa := k_next s in
  ∃ s', newFileAccess p flags s = KDone s' fa ∧ kinv N no_ghost s' ∧ k_files s !! fa = None ∧ fa ≠ 0 ∧
    k_files s' = <[fa := mkFile p flags 0]> (k_files s) ∧ oframe s s' ∧ k_procs s' = k_procs s ∧
    k_pipes s' = <[p := set_counts (pipe_refCount c + 1) (writerCount c + w) c]> (k_pipes s).
Proof.
  intros H Hc Hsz Hpin w fa. destruct (ki_mem _ _ _ H) as [M1 M2]. destruct (alloc_ok FILE_SIZE s (ki_mem _ _ _ H)) as (m & E & Hlt); [done|].
  pose proof (kinv_pipe_ne _ _ _ _ _ H Hc) as Hp. destruct (refs_range _ _ _ p H) as [R1 R2].
  destruct (ki_pipe _ _ _ H p c Hc) as [P1 P2]. cbn [g_ref g_wr no_ghost] in P1, P2.
  pose proof (kinv_add_file N s fa m p flags H ltac:(unfold fa; lia) (or_intror (mk_is_Some _ _ Hc)) Hsz ltac:(intros X%Hpin; destruct (ki_below _ _ _ H) as (_ & _ & B & _); specialize (B fa X); unfold fa in B; lia)) as H1.
  set (s1 := set_files (<[fa := mkFile p flags 0]> (k_files s)) (set_next m s)) in *.
  pose proof (kinv_counts _ _ _ p c 1 w H1 Hc) as H2.
  set (s2 := set_pipes (<[p := set_counts (pipe_refCount c + 1) (writerCount c + w) c]> (k_pipes s1)) s1) in *.
  exists s2. split; [|split; [|split; [|split; [unfold fa; lia|split; [done|split; [by apply oframe_same|done]]]]]].
  - unfold newFileAccess. rewrite kbind_eq, E. kred. fold fa. rewrite (proj2 (Z.eqb_neq fa 0)) by (unfold fa; lia).
    unfold kmod. rewrite kbind_eq. cbn [kbind]. fold s1. rewrite (proj2 (Z.eqb_neq p 0)) by done. cbn [negb].
    rewrite kbind_eq, kbind_eq. unfold addPipeRef. rewrite (proj2 (Z.eqb_neq p 0)) by done.
    rewrite (kstore_pipe_eq _ _ _ c) by done. cbn [kbind]. rewrite i32_small by lia. unfold w in *.
    destruct (has_flag flags FILE_WRITE).
    + unfold addPipeWriter. rewrite (proj2 (Z.eqb_neq p 0)) by done.
      erewrite kstore_pipe_eq by (kred; apply lookup_insert_eq). kred. rewrite insert_insert_eq. cbn [writerCount set_counts pipe_refCount].
      by rewrite i32_small by lia.
    + unfold s2. rewrite Z.add_0_r. done.
  - apply (kinv_ghost _ _ _ _ H2); [done|]. intros x _. cbn [g_ref g_wr no_ghost]. unfold bump, w.
    destruct (x =? p), (has_flag _ _); lia.
  - apply eq_None_not_Some. intros Hx. destruct (ki_below _ _ _ H) as (_ & _ & B & _). specialize (B fa Hx). unfold fa in B. lia.
Qed.

(** A file access without a pipe. *)
Lemma consoleAccess_ok N s flags : kinv N no_ghost s → Z.of_nat (size (k_files s)) < 2 ^ 20 →
  (∀ x, x ∈ pins → is_Some (k_files s !! x)) →
  ∃ s', newFileAccess 0 flags s = KDone s' (k_next s) ∧ kinv N no_ghost s' ∧ k_files s !! k_next s = None ∧ k_next s ≠ 0 ∧
    k_files s' = <[k_next s := mkFile 0 flags 0]> (k_files s) ∧ oframe s s' ∧ k_procs s' = k_procs s ∧ k_pipes s' = k_pipes s.
Proof.
  intros H Hsz Hpin. pose proof (ki_mem _ _ _ H) as Hm. destruct (alloc_ok FILE_SIZE s Hm) as (m & E & Hlt); [done|].
  destruct Hm as [M1 M2]. set (fa := k_next s) in *.
  assert (Hnf : k_files s !! fa = None).
  { apply eq_None_not_Some. intros Hx. destruct (ki_below _ _ _ H) as (_ & _ & B & _). specialize (B fa Hx). unfold fa in B. lia. }
  exists (set_files (<[fa := mkFile 0 flags 0]> (k_files s)) (set_next m s)).
  split; [|split; [|split; [done|split; [unfold fa; lia|split; [done|split; [by apply oframe_same|done]]]]]].
  - unfold newFileAccess. rewrite kbind_eq, E. kred. fold fa. rewrite (proj2 (Z.eqb_neq fa 0)) by (unfold fa; lia). done.
  - pose proof (kinv_add_file N s fa m 0 flags H ltac:(unfold fa; lia) (or_introl eq_refl) Hsz
      ltac:(intros X%Hpin; rewrite Hnf in X; by destruct X)) as H1.
    apply (kinv_ghost _ _ _ _ H1); [done|]. intros x Hx. destruct (kinv_pos _ _ _ H1) as (_ & E0 & _).
    assert (x ≠ 0) by (intros ->; rewrite E0 in Hx; by destruct Hx). cbn [g_ref g_wr no_ghost]. unfold bump.
    by rewrite (proj2 (Z.eqb_neq x 0)).
Qed.

(** ** [newPipe] *)

(** The four semaphores a pipe of 1024 bytes starts with, at [q1] to [q4]. *)
Definition pipe_start (q1 q2 q3 q4 : Z) (m : gmap Z semCDT) : gmap Z semCDT :=
  <[q4 := mkSem 1 [] false]> (<[q3 := mkSem 1 [] false]> (<[q2 := mkSem PIPE_BUF_SIZE [] false]>
    (<[q1 := mkSem 0 [] false]> m))).

Lemma pipe_start_some q1 q2 q3 q4 m q d : pipe_start q1 q2 q3 q4 m !! q = Some d →
  (q ∈ [q1; q2; q3; q4] ∧ sem_ok d ∧ 0 ≤ sem_value d ≤ 1024) ∨ m !! q = Some d.
Proof.
  assert (Hok : ∀ v, 0 ≤ v ≤ 1024 → sem_ok (mkSem v [] false) ∧ 0 ≤ sem_value (mkSem v [] false) ≤ 1024).
  { intros v Hv. split; [|done]. split; cbn; [done|lia|]. intros x Hx. by apply elem_of_nil in Hx. }
  unfold pipe_start. rewrite !lookup_insert_Some. unfold PIPE_BUF_SIZE. rewrite !elem_of_cons.
  intros [[-> <-]|[_ [[-> <-]|[_ [[-> <-]|[_ [[-> <-]|[_ H]]]]]]]]; [left..|by right].
  all: split; [tauto|]; apply Hok; lia.
Qed.

Lemma pipe_start_live q1 q2 q3 q4 m q : is_Some (pipe_start q1 q2 q3 q4 m !! q) ↔ q ∈ [q1; q2; q3; q4] ∨ is_Some (m !! q).
Proof. unfold pipe_start. rewrite !lookup_insert_is_Some', !elem_of_cons, elem_of_nil. naive_solver. Qed.

(** The pipe nobody refers to yet, at [p]. *)
Lemma kinv_new_pipe N s p b q1 q2 q3 q4 m : kinv N no_ghost s → k_next s ≤ p < m →
  (∀ q, q ∈ [q1; q2; q3; q4] → k_next s ≤ q < m) → NoDup [q1; q2; q3; q4] →
  kinv (N + 1024) no_ghost (set_pipes (<[p := mkPipe b q1 q2 q3 q4 0 0]> (k_pipes s))
    (set_sems (pipe_start q1 q2 q3 q4 (k_sems s)) (set_next m s))).
Proof.
  intros H Hp Hq Hnd.
  pose proof H as [I0 I1 I2 (I3a & I3b & I3c & I3d) I4 I5 I6 I7 I8 I9 I10]. destruct I1 as [I1 I1'].
  set (c := mkPipe b q1 q2 q3 q4 0 0). set (s' := set_pipes _ _).
  assert (Hnp : k_pipes s !! p = None) by (apply eq_None_not_Some; intros Hx; specialize (I3b p Hx); lia).
  assert (Hnew : ∀ q, k_next s ≤ q → ∀ o, ¬ owns s q o).
  { intros q Hge o Ho. pose proof (I5 q o Ho) as Hx. specialize (I3a q Hx). lia. }
  assert (Hown : ∀ q o, owns s' q o → owns s q o ∨ ∃ i, o = OPipe p i ∧ [q1; q2; q3; q4] !! i = Some q).
  { intros q [x i|x i|i]; simpl; try (by left). intros (d & [[<- <-]|[Hx Hd]]%lookup_insert_Some & Hi); [|left; by exists d].
    right. by exists i. }
  assert (Hfresh : ∀ i q, [q1; q2; q3; q4] !! i = Some q → k_next s ≤ q) by (intros i q E; apply Hq, list_elem_of_lookup; by exists i).
  split; try done; unfold s'; kred.
  - lia.
  - split; kred; [done|lia].
  - keep_sched I2.
  - unfold below in *. kred. split_and!; intros k Hk.
    + apply pipe_start_live in Hk as [Hk|Hk]; [specialize (Hq k Hk); lia|]. specialize (I3a k Hk). lia.
    + apply lookup_insert_is_Some' in Hk as [<-|Hk]; [lia|]. specialize (I3b k Hk). lia.
    + specialize (I3c k Hk). lia.
    + specialize (I3d k Hk). lia.
  - intros q d [(_ & Hok & Hv)|Hd]%pipe_start_some; [split; [done|lia]|]. destruct (I4 q d Hd). split; [done|lia].
  - intros q o [Ho|(i & _ & E)]%Hown; apply pipe_start_live; [right; by eapply I5|left; apply list_elem_of_lookup; by exists i].
  - intros q o o' [Ho|(i & -> & E)]%Hown [Ho'|(i' & -> & E')]%Hown; [by eapply I6|by destruct (Hnew q (Hfresh _ _ E') o)|
      by destruct (Hnew q (Hfresh _ _ E) o')|]. by rewrite (NoDup_lookup _ _ _ _ Hnd E E').
  - intros x d [[<- <-]|[_ Hd]]%lookup_insert_Some; [|exact (I7 x d Hd)]. cbn [g_ref g_wr no_ghost].
    assert (Hz : ∀ fa f, k_files s !! fa = Some f → (fa_pipe f =? p) = false).
    { intros fa f Hf. apply Z.eqb_neq. intros E. destruct (proj1 (I8 fa f Hf)) as [E0|Hx]; [lia|]. rewrite E in Hx. specialize (I3b p Hx). lia. }
    rewrite !sum_pos_ex; [done|..]; intros fa f Hf; unfold uses, writes; by rewrite (Hz fa f Hf).
  - intros fa f Hf. destruct (I8 fa f Hf) as [[E|Hx] Hr]; (split; [|exact Hr]); [by left|right].
    rewrite lookup_insert_is_Some'. by right.
Qed.

Lemma newPipe_ok N s : kinv N no_ghost s →
  ∃ s' c, newPipe s = KDone s' (k_next s) ∧ kinv (N + 1024) no_ghost s' ∧ k_pipes s !! k_next s = None ∧
    k_next s ≠ 0 ∧ k_pipes s' = <[k_next s := c]> (k_pipes s) ∧ pipe_refCount c = 0 ∧ writerCount c = 0 ∧
    CircularBuffer.bufferHasData (buffer c) = false ∧ k_files s' = k_files s ∧ k_procs s' = k_procs s ∧ oframe s s'.
Proof.
  intros H. pose proof (ki_mem _ _ _ H) as Hm. pose proof Hm as [M1 M2].
  destruct (alloc_ok PIPE_SIZE s Hm) as (m1 & E1 & L1); [done|]. pose proof (mem_next _ _ Hm L1) as Hm1.
  destruct (alloc_ok CircularBuffer.CDT_SIZE _ Hm1) as (m2 & E2 & L2); [done|]. cbn [k_next set_next] in L2, E2. rewrite set_next_next in E2.
  assert (Hm2 : mem_ok (set_next m2 s)) by (apply mem_next; [done|lia]).
  destruct (alloc_ok PIPE_BUF_SIZE _ Hm2) as (m3 & E3 & L3); [done|]. cbn [k_next set_next] in L3, E3. rewrite set_next_next in E3.
  assert (Hm3 : mem_ok (set_next m3 s)) by (apply mem_next; [done|lia]).
  assert (Eb : ∃ b, k_newBuffer PIPE_BUF_SIZE (set_next m1 s) = KDone (set_next m3 s) (Some b) ∧ CircularBuffer.count b = 0).
  { eexists. unfold k_newBuffer, CircularBuffer.newBuffer. cbn [PIPE_BUF_SIZE Z.eqb mm_alloc kernel_memory]. rewrite E2.
    cbn [mbind option_bind]. rewrite (proj2 (Z.eqb_neq m1 0)) by lia. cbn [mm_alloc kernel_memory]. rewrite E3. cbn [mbind option_bind]. rewrite (proj2 (Z.eqb_neq m2 0)) by lia. done. }
  destruct Eb as (b & Eb & Hb).
  destruct (newSemaphore_ok 0 _ Hm3) as (m4 & L4 & E4). cbn [k_next set_next k_sems] in L4, E4.
  set (s4 := set_sems (<[m3 := mkSem 0 [] false]> (k_sems s)) (set_next m4 s)).
  assert (E4' : newSemaphore 0 (set_next m3 s) = KDone s4 m3) by exact E4. clear E4.
  destruct (newSemaphore_ok PIPE_BUF_SIZE s4) as (m5 & L5 & E5); [split; [done|cbn; lia]|]. cbn [k_next k_sems set_sems set_next s4] in L5, E5.
  set (s5 := set_sems (<[m4 := mkSem PIPE_BUF_SIZE [] false]> (<[m3 := mkSem 0 [] false]> (k_sems s))) (set_next m5 s)).
  assert (E5' : newSemaphore PIPE_BUF_SIZE s4 = KDone s5 m4) by exact E5. clear E5.
  destruct (newSemaphore_ok 1 s5) as (m6 & L6 & E6); [split; [done|cbn; lia]|]. cbn [k_next k_sems set_sems set_next s5] in L6, E6.
  set (s6 := set_sems (<[m5 := mkSem 1 [] false]> (k_sems s5)) (set_next m6 s)).
  assert (E6' : newSemaphore 1 s5 = KDone s6 m5) by exact E6. clear E6.
  destruct (newSemaphore_ok 1 s6) as (m7 & L7 & E7); [split; [done|cbn; lia]|]. cbn [k_next k_sems set_sems set_next s6] in L7, E7.
  pose proof (kinv_new_pipe N s (k_next s) (Some b) m3 m4 m5 m6 m7 H ltac:(lia)
    ltac:(intros q Hq; rewrite !elem_of_cons, elem_of_nil in Hq; lia)
    ltac:(rewrite !list.NoDup_cons, !elem_of_cons, !elem_of_nil; split_and!; try lia; by apply NoDup_nil_2)) as H'.
  eexists _, _. split; [|split; [exact H'|]].
  - unfold newPipe. rewrite kbind_eq, E1. kred. rewrite (proj2 (Z.eqb_neq (k_next s) 0)) by lia.
    rewrite kbind_eq, Eb. kred. rewrite kbind_eq, E4'. kred. rewrite kbind_eq, E5'. kred.
    rewrite kbind_eq, E6'. kred. rewrite kbind_eq, E7. kred.
    unfold kmod. rewrite kbind_eq. kred. rewrite bool_decide_false by done.
    rewrite !(proj2 (Z.eqb_neq _ 0)) by lia. done.
  - split; [|split; [lia|split; [done|split; [done|split; [done|split; [|split; [done|split; [done|by apply oframe_same]]]]]]]].
    + apply eq_None_not_Some. intros Hx. destruct (ki_below _ _ _ H) as (_ & B & _). specialize (B _ Hx). lia.
    + cbn. by rewrite Hb.
Qed.

(** ** The lowest free descriptor *)

(** [fa] at the free descriptor [r] of the process at [p]. *)
Definition opened_at (p r fa : Z) (c : processCDT) (f : fileAccessCDT) (s : kst) : kst :=
  set_files (<[fa := set_refs (fa_refCount f + 1) f]> (k_files s)) (with_slot p r fa c s).

(** [r] is the lowest free descriptor of [c]. *)
Definition lowest_free (r : Z) (c : processCDT) : Prop :=
  0 ≤ r < 16 ∧ fd_slot c r = 0 ∧ ∀ i, 0 ≤ i < r → fd_slot c i ≠ 0.
Definition no_free (c : processCDT) : Prop := ∀ i, 0 ≤ i < 16 → fd_slot c i ≠ 0.

Lemma add_loop_exact N s p c fa f : kinv N no_ghost s → k_procs s !! p = Some c → k_files s !! fa = Some f → ∀ l,
  (∀ i, i ∈ l → isValidFd i = true) →
  (add_loop l p fa s = KDone s (-1) ∧ ∀ i, i ∈ l → fd_slot c i ≠ 0) ∨
  (∃ l1 r l2, add_loop l p fa s = KDone (opened_at p r fa c f s) r ∧ l = l1 ++ r :: l2 ∧
    (∀ i, i ∈ l1 → fd_slot c i ≠ 0) ∧ fd_slot c r = 0 ∧ kinv N no_ghost (opened_at p r fa c f s)).
Proof.
  intros H Hc Hf. induction l as [|i l IH]; intros Hl; cbn [add_loop].
  - left. split; [done|]. intros i Hi. by apply elem_of_nil in Hi.
  - unfold proc. rewrite kbind_eq, (kload_some _ _ _ _ Hc). kred.
    destruct (Z.eqb_spec (fd_slot c i) 0) as [E|E].
    + right. destruct (openFd_ok N s p c i fa f H Hc (Hl i ltac:(by left)) E Hf) as [E' H'].
      exists [], i, l. split; [done|]. split; [done|]. split; [|done]. intros j Hj. by apply elem_of_nil in Hj.
    + destruct IH as [[E' Hall]|(l1 & r & l2 & E' & -> & Hall & Hr & Hrest)]; [intros; apply Hl; by right| |].
      * left. split; [done|]. intros j [->|Hj]%elem_of_cons; auto.
      * right. exists (i :: l1), r, l2. split; [done|]. split; [done|]. split; [|done]. intros j [->|Hj]%elem_of_cons; auto.
Qed.

Lemma addFd_exact N s p c fa f : kinv N no_ghost s → k_procs s !! p = Some c → k_files s !! fa = Some f →
  (addFd p fa s = KDone s (-1) ∧ no_free c) ∨
  ∃ r, lowest_free r c ∧ addFd p fa s = KDone (opened_at p r fa c f s) r ∧ kinv N no_ghost (opened_at p r fa c f s).
Proof.
  intros H Hc Hf. unfold addFd.
  rewrite (proj2 (Z.eqb_neq p 0)), (proj2 (Z.eqb_neq fa 0)) by
    first [exact (kinv_file_ne _ _ _ _ _ H Hf)|exact (kinv_ne _ _ _ _ _ H Hc)]. cbn [orb].
  destruct (add_loop_exact N s p c fa f H Hc Hf (seqZ 0 MAX_FDS)) as [[E Hall]|(l1 & r & l2 & E & El & Hall & Hr & H')];
    [intros i; apply seq16| |].
  - left. split; [done|]. intros i Hi. apply Hall, seq16, valid_range. lia.
  - right. apply seqZ_split in El as [Hrange Hlow]; [|done]. exists r. split; [|done].
    split; [done|]. split; [done|]. intros i Hi. by apply Hall, Hlow.
Qed.

Lemma tight_same s s' : tight s → k_files s' = k_files s →
  (∀ fa, sum_of (slots fa) (k_procs s') = sum_of (slots fa) (k_procs s)) →
  (∀ q, is_Some (k_pipes s' !! q) → is_Some (k_pipes s !! q)) → tight s'.
Proof.
  intros [T1 T0 T2] F S P. split.
  - intros fa. rewrite F, S. apply T1.
  - intros fa. rewrite F. apply T0.
  - intros q Hq. rewrite F. auto.
Qed.

End Pinned.

End Channels.
