(* ===== verification/Steady.v ===== *)
(** * Changes that keep the invariants of the kernel

    The invariants of the objects, of the families and of the scheduler together, the small
    changes of descriptors and variables that keep them, and what it is for a call to go well. *)

From S2P Require Import Prelude KState ProcTable Semaphore Pipe Process KernelInv KernelCheck Descriptors.
From S2P Require Import Scheduler LifeCycle Channels.
Import ProcTable Semaphore Pipe FileAccess Process KernelInv KernelCheck Descriptors Scheduler LifeCycle Channels.

Module Steady.

Section Pinned.
Context {pin : Pinned}.

(** ** Changes of one descriptor *)

Record same_stores (s s' : kst) : Prop := {
  ss_sems : k_sems s' = k_sems s;
  ss_pipes : k_pipes s' = k_pipes s;
  ss_files : k_files s' = k_files s;
  ss_shared : sharedTable s' = sharedTable s;
  ss_mem : k_mem s' = k_mem s;
  ss_next : k_next s ≤ k_next s';
  ss_table : processTable s' = processTable s;
}.

Lemma same_stores_refl s : same_stores s s.
Proof. by split. Qed.

(** The scheduling fields of a descriptor change, not its objects. *)
Definition rescheduled (c c' : processCDT) : Prop :=
  same_objects c c' ∧ children c' = children c ∧ terminatedChildren c' = terminatedChildren c ∧
  p_ppid c' = p_ppid c ∧ (p_state c' = ZOMBIE → p_state c = ZOMBIE).

(** Nobody appears, and nobody gets another parent. *)
Definition same_parents (s s' : kst) : Prop :=
  ∀ q d', k_procs s' !! q = Some d' → ∃ d, k_procs s !! q = Some d ∧ p_ppid d' = p_ppid d.

(** The table is as before, and the invariants hold. *)
Definition steady (N : Z) (s s' : kst) : Prop := sound N s' ∧ processTable s' = processTable s ∧ same_parents s s'.

Lemma same_parents_refl s : same_parents s s.
Proof. intros q d Hd. by exists d. Qed.
Lemma steady_refl N s : sound N s → steady N s s.
Proof. intros H. split; [done|]. split; [done|apply same_parents_refl]. Qed.
Lemma steady_trans N s1 s2 s3 : steady N s1 s2 → steady N s2 s3 → steady N s1 s3.
Proof.
  intros (_ & T1 & P1) (H2 & T2 & P2). split; [done|]. split; [congruence|]. intros q d3 Hd3.
  destruct (P2 q d3 Hd3) as (d2 & Hd2 & E2). destruct (P1 q d2 Hd2) as (d1 & Hd1 & E1). exists d1. split; [done|congruence].
Qed.

Lemma proc_sound N s s' p c c' : sound N s → k_procs s !! p = Some c → rescheduled c c' →
  k_procs s' = <[p := c']> (k_procs s) → same_stores s s' → sched_inv s' → sound N s'.
Proof.
  intros [[H T] [F1 F2 F3]] Hc (So & Hch & Ht & _ & Hz) E [S1 S2 S3 S4 S5 S6 S7] Hs. split; [split|split].
  - by apply (kinv_proc N no_ghost s s' p c c').
  - apply (tight_same s); [done|done| |by rewrite S2].
    intros fa. rewrite E, (sum_of_update _ _ _ c) by done. unfold slots at 2 3. destruct So as (_ & _ & _ & -> & _). lia.
  - rewrite E, S7. intros q d [[<- <-]|[_ Hd]]%lookup_insert_Some; [|by apply F1].
    destruct So as (-> & _). by apply F1.
  - rewrite E. intros q d [[<- <-]|[_ Hd]]%lookup_insert_Some; [|by apply (F2 q)]. rewrite Hch, Ht. by apply (F2 p).
  - rewrite E. intros q d [[<- <-]|[_ Hd]]%lookup_insert_Some; [|by apply (F3 q)].
    intros X. destruct So as (_ & _ & _ & -> & _). by apply (F3 p), Hz.
Qed.

Lemma proc_steady N s s' p c c' : sound N s → k_procs s !! p = Some c → rescheduled c c' →
  k_procs s' = <[p := c']> (k_procs s) → same_stores s s' → sched_inv s' → steady N s s'.
Proof.
  intros H Hc Hr E S Hs. split; [by apply (proc_sound N s s' p c c')|]. split; [apply S|]. unfold same_parents. rewrite E.
  intros q d [[<- <-]|[_ Hd]]%lookup_insert_Some; [exists c; split; [done|apply Hr]|by exists d].
Qed.

(** Only the variables of the scheduler change. *)
Lemma vars_steady N s s' : sound N s → k_procs s' = k_procs s → same_stores s s' → sched_inv s' → steady N s s'.
Proof.
  intros Hsd E S Hs. pose proof (ki_sched _ _ _ (proj1 (proj1 Hsd))) as Hs0.
  assert (∃ p c, k_procs s !! p = Some c) as (p & c & Hc).
  { destruct (si_idle _ Hs0) as [(p & c & _ & Hc & _)%state_of_some|(p & c & _ & Hc & _)%state_of_some]; by exists p, c. }
  apply (proc_steady N s s' p c c); try done. by rewrite E, insert_id.
Qed.

Lemma sound_parts N s : sound N s → sched_inv s ∧ mem_ok s.
Proof. intros [[H _] _]. split; [apply (ki_sched _ _ _ H)|apply (ki_mem _ _ _ H)]. Qed.

(** ** What it is for a call to go well *)

(** A run ends, or gives up the processor, in the state [s']. *)
Definition ends_in {A} (m : kres A) (s' : kst) : Prop := (∃ a, m = KDone s' a) ∨ ∃ k, m = KSwitch s' k.

Lemma ends_in_det {A} (m : kres A) s1 s2 : ends_in m s1 → ends_in m s2 → s1 = s2.
Proof. intros [[a1 E1]|[k1 E1]] [[a2 E2]|[k2 E2]]; congruence. Qed.

(** Init is never reaped, and neither is a parent before its children. *)
Record lineage (s : kst) : Prop := {
  ln_init : is_Some (processTable s !! INIT_PID);
  ln_parent : ∀ q c, k_procs s !! q = Some c → is_Some (processTable s !! p_ppid c);
}.

Lemma lineage_keep s s' : lineage s → processTable s' = processTable s → same_parents s s' → lineage s'.
Proof.
  intros [L1 L2] T P. split; rewrite T; [done|]. intros q d' Hd'. destruct (P q d' Hd') as (d & Hd & ->). by apply (L2 q).
Qed.

Definition goes_well {A} (N : Z) (m : kres A) : Prop := ∃ s', ends_in m s' ∧ sound N s' ∧ lineage s'.

Lemma well_done {A} N (m : kres A) s s' a : lineage s → m = KDone s' a → steady N s s' → goes_well N m.
Proof.
  intros L E (H & T & P). exists s'. split; [left; by exists a|]. split; [done|]. by apply (lineage_keep s).
Qed.

Lemma well_same {A} N (m : kres A) s a : sound N s → lineage s → m = KDone s a → goes_well N m.
Proof. intros H L E. eapply well_done; [exact L|exact E|by apply steady_refl]. Qed.

Lemma well_bind {A B} N (m : K A) (f : A → K B) (g : A → B) s : goes_well N (m s) →
  (∀ a s', f a s' = KDone s' (g a)) → goes_well N ((m ≫= f) s).
Proof.
  intros (s' & [[a E]|[k E]] & H) Hf; exists s'; (split; [|done]); rewrite kbind_eq, E; kred.
  - left. exists (g a). apply Hf.
  - right. by eexists.
Qed.

Lemma well_mono {A} N N' (m : kres A) : goes_well N m → N ≤ N' → goes_well N' m.
Proof.
  intros (s' & E & [Hh F] & I) HN. exists s'. split; [done|]. split; [split; [by apply (held_mono N)|done]|done].
Qed.

Lemma sound_mono N N' s : sound N s → N ≤ N' → sound N' s.
Proof. intros [H F] HN. split; [by apply (held_mono N)|done]. Qed.

(** Who makes a call: not idle nor init, and not a dead process. *)
Definition caller (s : kst) (c : processCDT) : Prop :=
  k_procs s !! currentProcess s = Some c ∧ p_state c ≠ ZOMBIE ∧ INIT_PID < p_pid c.

End Pinned.

End Steady.
