(* ===== verification/Syscall.v ===== *)
(** * The system calls ([Kernel/interruptions/syscallDispatcher.c])

    The dispatch table, the numbers the user-side stubs put in [rax]
    ([Userland/SampleCodeModule/asm/syscalls.asm]) and the wrappers of the process layer.  The
    memory of the caller is an argument: the strings and arrays its pointers lead to. *)

From S2P Require Import Prelude CircularBuffer KState ProcTable Semaphore Pipe Process KernelInv KernelCheck.
From S2P Require Import Descriptors Scheduler LifeCycle Creation Channels.
Import ProcTable Semaphore SharedSemaphores Pipe FileAccess Process KernelInv KernelCheck Descriptors Scheduler LifeCycle Creation Channels.

Module Syscall.

(** ** The table *)

Inductive syscallFunction :=
  | F_sysRead | F_sysWrite | F_sysDrawRect | F_sysDrawCircle | F_sysDrawChar | F_sysScrWidth | F_sysScrHeight
  | F_sysBg | F_sysVideoAux | F_sysRender | F_sysSleep | F_sysDrawStr | F_sysGetKey | F_sysPlaySound | F_sysDate
  | F_sysTime | F_sysKernelTime | F_sysRegisters
  | F_sysMalloc | F_sysFree | F_sysMemStatus
  | F_sysGetpid | F_sysCreateProcess | F_sysKill | F_sysNice | F_sysBlock | F_sysYield | F_sysWaitpid | F_sysPs
  | F_sysExit | F_sysUnblock
  | F_sysSemOpen | F_sysSemClose | F_sysSemWait | F_sysSemPost
  | F_sysPipe | F_sysClose | F_sysDup | F_sysCreateProcessFds | F_sysForeground | F_sysReopen | F_sysScrollUp
  | F_sysReapZombies | F_sysGetMaxProcesses | F_sysGetProcessesCount.

#[global] Instance syscallFunction_eq_dec : EqDecision syscallFunction.
Proof. solve_decision. Defined.

Definition syscalls : list syscallFunction := [
  F_sysRead; F_sysWrite; F_sysDrawRect; F_sysDrawCircle; F_sysDrawChar; F_sysScrWidth; F_sysScrHeight;
  F_sysBg; F_sysVideoAux; F_sysRender; F_sysSleep; F_sysDrawStr; F_sysGetKey; F_sysPlaySound; F_sysDate;
  F_sysTime; F_sysKernelTime; F_sysRegisters;
  F_sysMalloc; F_sysFree; F_sysMemStatus;
  F_sysGetpid; F_sysCreateProcess; F_sysKill; F_sysNice; F_sysBlock; F_sysYield; F_sysWaitpid; F_sysPs;
  F_sysExit; F_sysUnblock;
  F_sysSemOpen; F_sysSemClose; F_sysSemWait; F_sysSemPost;
  F_sysPipe; F_sysClose; F_sysDup; F_sysCreateProcessFds; F_sysForeground; F_sysReopen; F_sysScrollUp;
  F_sysReapZombies; F_sysGetMaxProcesses; F_sysGetProcessesCount].

Definition SYSCALL_COUNT : Z := len syscalls.

(** The user-side stub of each wrapper: [sys_read] executes [syscall 0], and so on. *)
Definition stub_number (f : syscallFunction) : Z :=
  match f with
  | F_sysRead => 0 | F_sysWrite => 1 | F_sysDrawRect => 2 | F_sysDrawCircle => 3 | F_sysDrawChar => 4
  | F_sysScrWidth => 5 | F_sysScrHeight => 6 | F_sysBg => 7 | F_sysVideoAux => 8 | F_sysRender => 9
  | F_sysSleep => 10 | F_sysDrawStr => 11 | F_sysGetKey => 12 | F_sysPlaySound => 13 | F_sysDate => 14
  | F_sysTime => 15 | F_sysKernelTime => 16 | F_sysRegisters => 17 | F_sysMalloc => 18 | F_sysFree => 19
  | F_sysMemStatus => 20 | F_sysGetpid => 21 | F_sysCreateProcess => 22 | F_sysKill => 23 | F_sysNice => 24
  | F_sysBlock => 25 | F_sysYield => 26 | F_sysWaitpid => 27 | F_sysPs => 28 | F_sysExit => 29
  | F_sysUnblock => 30 | F_sysSemOpen => 31 | F_sysSemClose => 32 | F_sysSemWait => 33 | F_sysSemPost => 34
  | F_sysPipe => 35 | F_sysClose => 36 | F_sysDup => 37 | F_sysCreateProcessFds => 38 | F_sysForeground => 39
  | F_sysReopen => 40 | F_sysScrollUp => 41 | F_sysReapZombies => 42 | F_sysGetMaxProcesses => 43
  | F_sysGetProcessesCount => 44
  end.

(** ** The wrappers of the process layer *)

Section Wrappers.
(** The caller's memory: a string, [n] bytes, an argument vector, [n] descriptor overrides. *)
Context (user_str : Z → option cstring) (user_bytes : Z → Z → list Z)
  (user_argv : Z → option (list (option cstring))) (user_overrides : Z → Z → option (list fd_override_t)).

(** [(uint64_t)] of a signed result. *)
Definition ret64 (m : K Z) : K Z := r ← m; mret (u64 r).

(** A read also answers the bytes it stored at [arg2]. *)
Definition sysRead (fuel : nat) (arg1 arg3 : Z) : K (Z * list Z) :=
  pid ← getCurrentPID; '(n, bytes) ← readFdOnPID fuel pid (i32 arg1) arg3; mret (u64 n, bytes).
Definition sysWrite (fuel : nat) (arg1 arg2 arg3 : Z) : K Z :=
  pid ← getCurrentPID; ret64 (writeFdOnPID fuel pid (i32 arg1) (user_bytes arg2 arg3)).
Definition sysGetpid : K Z := ret64 getCurrentPID.
Definition sysCreateProcess (arg1 arg2 arg3 arg4 : Z) : K Z :=
  ret64 (startNewProcess arg1 (user_str arg4) 1 (i32 arg2) (user_argv arg3)).
Definition sysKill (arg1 : Z) : K Z := ret64 (terminateProcess (i16 arg1)).
Definition sysNice (arg1 arg2 : Z) : K Z := ret64 (setPriorityOnPID (i16 arg1) (u8 arg2)).
Definition sysBlock (arg1 : Z) : K Z := ret64 (setBlocked (i16 arg1)).
Definition sysUnblock (arg1 : Z) : K Z :=
  let pid := i16 arg1 in
  if (pid =? IDLE_PID) || (pid =? INIT_PID) then mret (u64 (-1)) else ret64 (setReady pid).
Definition sysYield : K Z := _ ← kswitch; mret 0.
Definition sysWaitpid (arg1 : Z) : K Z := _ ← wait_pid (i16 arg1); mret 0.
Definition sysPs (arg2 : Z) : K (Z * list ProcessInfo) :=
  infos ← getProcessInfo (i32 arg2); mret (u64 (len infos), infos).
(** [while (1);] after the process has ended. *)
Definition sysExit : K Z := pid ← getCurrentPID; _ ← terminateProcess pid; khang.

Definition sysSemOpen (arg1 arg2 : Z) : K Z := ret64 (sharedSemOpen (user_str arg1) (i32 arg2)).
Definition sysSemClose (arg1 : Z) : K Z := ret64 (sharedSemClose (user_str arg1)).
Definition sysSemWait (arg1 : Z) : K Z := ret64 (sharedSemWait (user_str arg1)).
Definition sysSemPost (arg1 : Z) : K Z := ret64 (sharedSemPost (user_str arg1)).

(** [free_if fa]: [if (fa) freeFileAccess(fa)]. *)
Definition free_if (fa : Z) : K unit := if negb (fa =? 0) then freeFileAccess fa else mret ().

(** The answer, and the two descriptors stored at [userFds]. *)
Definition sysPipe (userFds : Z) : K (Z * option (Z * Z)) :=
  let fail := (u64 (-1), None) in
  if userFds =? 0 then mret fail
  else
    p ← newPipe;
    if p =? 0 then mret fail
    else
      readEnd ← newFileAccess p FILE_READ;
      writeEnd ← newFileAccess p FILE_WRITE;
      if (readEnd =? 0) || (writeEnd =? 0) then
        _ ← free_if readEnd;
        _ ← free_if writeEnd;
        _ ← (if (readEnd =? 0) && (writeEnd =? 0) then freePipe p else mret ());
        mret fail
      else
        readFD ← addCurrentFd readEnd;
        if readFD <? 0 then
          _ ← freeFileAccess readEnd;
          _ ← freeFileAccess writeEnd;
          mret fail
        else
          writeFD ← addCurrentFd writeEnd;
          if writeFD <? 0 then
            _ ← closeCurrentFd readFD;
            _ ← freeFileAccess writeEnd;
            mret fail
          else mret (0, Some (readFD, writeFD)).

Definition sysClose (arg1 : Z) : K Z := ret64 (closeCurrentFd (i32 arg1)).
Definition sysDup (arg1 arg2 : Z) : K Z := ret64 (dupCurrentFd (i32 arg1) (i32 arg2)).
Definition sysReopen (arg1 : Z) : K Z := ret64 (reopenCurrentFd (i32 arg1)).
Definition sysCreateProcessFds (arg1 arg2 arg3 arg4 arg5 arg6 : Z) : K Z :=
  ret64 (startNewProcessWithFds arg1 (user_str arg4) 1 (i32 arg2) (user_argv arg3) (user_overrides arg5 (i32 arg6))).
Definition sysForeground (arg1 : Z) : K Z := ret64 (addToFG (i16 arg1)).
Definition sysReapZombies (fuel : nat) : K Z := _ ← reap_zombies fuel; mret 0.
Definition sysGetMaxProcesses : K Z := mret (u64 getMaxProcesses).
Definition sysGetProcessesCount : K Z := s ← kget; mret (u64 (getProcessesCount s)).

(** ** The dispatcher *)

(** What a call does to the process layer and answers; the calls on the devices and on the
    heap, which other parts of the development model, are the argument [device]. *)
Definition run_syscall (device : syscallFunction → list Z → K Z) (fuel : nat) (f : syscallFunction)
    (arg1 arg2 arg3 arg4 arg5 arg6 : Z) : K Z :=
  match f with
  | F_sysRead => r ← sysRead fuel arg1 arg3; mret (fst r)
  | F_sysWrite => sysWrite fuel arg1 arg2 arg3
  | F_sysGetpid => sysGetpid
  | F_sysCreateProcess => sysCreateProcess arg1 arg2 arg3 arg4
  | F_sysKill => sysKill arg1
  | F_sysNice => sysNice arg1 arg2
  | F_sysBlock => sysBlock arg1
  | F_sysYield => sysYield
  | F_sysWaitpid => sysWaitpid arg1
  | F_sysPs => r ← sysPs arg2; mret (fst r)
  | F_sysExit => sysExit
  | F_sysUnblock => sysUnblock arg1
  | F_sysSemOpen => sysSemOpen arg1 arg2
  | F_sysSemClose => sysSemClose arg1
  | F_sysSemWait => sysSemWait arg1
  | F_sysSemPost => sysSemPost arg1
  | F_sysPipe => r ← sysPipe arg1; mret (fst r)
  | F_sysClose => sysClose arg1
  | F_sysDup => sysDup arg1 arg2
  | F_sysCreateProcessFds => sysCreateProcessFds arg1 arg2 arg3 arg4 arg5 arg6
  | F_sysForeground => sysForeground arg1
  | F_sysReopen => sysReopen arg1
  | F_sysReapZombies => sysReapZombies fuel
  | F_sysGetMaxProcesses => sysGetMaxProcesses
  | F_sysGetProcessesCount => sysGetProcessesCount
  | _ => device f [arg1; arg2; arg3; arg4; arg5; arg6]
  end.

Definition syscallDispatcher (device : syscallFunction → list Z → K Z) (fuel : nat)
    (arg1 arg2 arg3 arg4 arg5 arg6 syscallNumber : Z) : K Z :=
  match (if syscallNumber <? SYSCALL_COUNT then syscalls !! Z.to_nat syscallNumber else None) with
  | Some f => run_syscall device fuel f arg1 arg2 arg3 arg4 arg5 arg6
  | None => mret 0
  end.

End Wrappers.

(** Every user-side stub reaches its own wrapper: the dispatcher, called with the number
    the stub passes, runs exactly that wrapper on the arguments; a number beyond the table
    does nothing and answers 0. *)
Theorem stubs_agree user_str user_bytes user_argv user_overrides device fuel a1 a2 a3 a4 a5 a6 :
  (∀ f, syscallDispatcher user_str user_bytes user_argv user_overrides device fuel a1 a2 a3 a4 a5 a6 (stub_number f) =
        run_syscall user_str user_bytes user_argv user_overrides device fuel f a1 a2 a3 a4 a5 a6) ∧
  (∀ n s, SYSCALL_COUNT ≤ n →
    syscallDispatcher user_str user_bytes user_argv user_overrides device fuel a1 a2 a3 a4 a5 a6 n s = KDone s 0).
Proof.
  split; [by intros []|]. intros n s Hn. unfold syscallDispatcher. by rewrite (proj2 (Z.ltb_ge n SYSCALL_COUNT)).
Qed.

Lemma stubs_agree_witness :
  syscallDispatcher (λ _, None) (λ _ _, []) (λ _, None) (λ _ _, None) (λ _ _, mret 7) 0 1 2 3 4 5 6 45 small = KDone small 0.
Proof.
  destruct (stubs_agree (λ _, None) (λ _ _, []) (λ _, None) (λ _ _, None) (λ _ _, mret 7) 0 1 2 3 4 5 6) as [_ H]. apply H.
  vm_compute. congruence.
Defined.

(** ** [sysPipe] *)

Section Pinned.
Context {pin : Pinned}.

(** The two file accesses [sysPipe] makes. *)
Definition read_end (p : Z) : fileAccessCDT := mkFile p FILE_READ 0.
Definition write_end (p : Z) : fileAccessCDT := mkFile p FILE_WRITE 0.

(** [s'] is [s] with a pipe and its two ends, to which no descriptor leads yet. *)
Record made (N : Z) (s s' : kst) (p re we : Z) (c : pipeCDT) : Prop := {
  md_inv : kinv (N + 1024) no_ghost s';
  md_frame : oframe s s';
  md_procs : k_procs s' = k_procs s;
  md_pipe : p ≠ 0 ∧ k_pipes s !! p = None ∧ k_pipes s' = <[p := c]> (k_pipes s);
  md_read : re ≠ 0 ∧ re ≠ we ∧ k_files s !! re = None;
  md_write : we ≠ 0 ∧ k_files s !! we = None;
  md_files : k_files s' = <[we := write_end p]> (<[re := read_end p]> (k_files s));
  md_counts : pipe_refCount c = 2 ∧ writerCount c = 1 ∧ CircularBuffer.bufferHasData (buffer c) = false;
}.

Lemma ends_ok N s : kinv N no_ghost s → Z.of_nat (size (k_files s)) + 2 ≤ 2 ^ 20 →
  (∀ x, x ∈ pins → is_Some (k_files s !! x)) →
  ∃ s1 s2 s3 p re we c, newPipe s = KDone s1 p ∧ newFileAccess p FILE_READ s1 = KDone s2 re ∧
    newFileAccess p FILE_WRITE s2 = KDone s3 we ∧ made N s s3 p re we c.
Proof.
  intros H Hsz Hpin.
  destruct (newPipe_ok N s H) as (s1 & c & E1 & H1 & Np & P0 & Pp & R & W & B & F1 & D1 & O1).
  set (p := k_next s) in *.
  destruct (newFileAccess_ok _ s1 p c FILE_READ H1) as (s2 & E2 & H2 & N2 & Z2 & F2 & O2 & D2 & P2);
    [by rewrite Pp, lookup_insert_eq|rewrite F1; lia|by rewrite F1|].
  set (re := k_next s1) in *. change (has_flag FILE_READ FILE_WRITE) with false in P2. cbv iota in P2.
  destruct (newFileAccess_ok _ s2 p (set_counts 1 0 c) FILE_WRITE H2) as (s3 & E3 & H3 & N3 & Z3 & F3 & O3 & D3 & P3).
  { rewrite P2, lookup_insert_eq, R, W. done. }
  { rewrite F2, map_size_insert_None, F1 by done. lia. }
  { intros x Hx. rewrite F2, F1, lookup_insert_is_Some'. auto. }
  set (we := k_next s2) in *. change (has_flag FILE_WRITE FILE_WRITE) with true in P3. cbv iota in P3.
  assert (Hne : re ≠ we) by (intros E; rewrite F2, E, lookup_insert_eq in N3; done).
  exists s1, s2, s3, p, re, we, (set_counts 2 1 c). split; [done|]. split; [done|]. split; [done|]. split; try done.
  - by apply (oframe_trans _ s1); [|apply (oframe_trans _ s2)].
  - by rewrite D3, D2, D1.
  - split; [done|]. split; [done|]. by rewrite P3, P2, Pp, !insert_insert_eq.
  - split; [done|]. split; [done|]. by rewrite <- F1.
  - split; [done|]. by rewrite F2, lookup_insert_ne, F1 in N3 by done.
  - by rewrite F3, F2, F1.
Qed.

(** Giving the ends back. *)
Lemma drop_end_ok N s fa f F : kinv N no_ghost s → k_files s = <[fa := f]> F → F !! fa = None →
  sum_of (slots fa) (k_procs s) = 0 → N + 64 ≤ 2 ^ 30 →
  ∃ s', freeFileAccess fa s = KDone s' () ∧ kinv (N + 64) no_ghost s' ∧ oframe s s' ∧ k_files s' = F ∧
    ∀ q, is_Some (k_pipes s' !! q) ↔ is_Some (k_pipes s !! q) ∧ (q = fa_pipe f → 0 < sum_of (uses q) F).
Proof.
  intros H HF Hn H0 HN.
  destruct (freeFileAccess_ok N no_ghost s fa f H) as (s' & E & H' & O & F' & P & _); [by rewrite HF, lookup_insert_eq|done|done|done|].
  exists s'. split; [done|]. split; [done|]. split; [done|].
  assert (ED : delete fa (<[fa := f]> F) = F) by (by apply delete_insert_id). rewrite HF, ED in F'. split; [exact F'|].
  intros q. rewrite (P q), HF, ED. done.
Qed.

(** The pipe is gone with its second end. *)
Lemma drop_write_ok N s we p F : kinv N no_ghost s → k_files s = <[we := write_end p]> F → F !! we = None →
  sum_of (slots we) (k_procs s) = 0 → N + 64 ≤ 2 ^ 30 → sum_of (uses p) F = 0 →
  ∃ s', freeFileAccess we s = KDone s' () ∧ kinv (N + 64) no_ghost s' ∧ oframe s s' ∧ k_files s' = F ∧
    ∀ q, is_Some (k_pipes s' !! q) ↔ is_Some (k_pipes s !! q) ∧ q ≠ p.
Proof.
  intros H HF Hn H0 HN Hu. destruct (drop_end_ok N s we (write_end p) F H HF Hn H0 HN) as (s' & E & H' & O & F' & P).
  exists s'. split; [done|]. split; [done|]. split; [done|]. split; [done|]. intros q. rewrite (P q). cbn [fa_pipe write_end].
  split; (intros [Hq Hx]; split; [done|]).
  - intros ->. specialize (Hx eq_refl). lia.
  - intros ->. done.
Qed.

Lemma pipe_unused N s p : kinv N no_ghost s → k_pipes s !! p = None → p ≠ 0 → sum_of (uses p) (k_files s) = 0.
Proof.
  intros H Hn H0. apply sum_pos_ex. intros fa f Hf. unfold uses. destruct (Z.eqb_spec (fa_pipe f) p) as [E|]; [|done].
  destruct (proj1 (ki_file _ _ _ H fa f Hf)) as [|[x Hx]]; congruence.
Qed.

Lemma uses_end p q f : fa_pipe f = p → uses q f = if q =? p then 1 else 0.
Proof. intros <-. unfold uses. by rewrite Z.eqb_sym. Qed.

(** Both ends without a descriptor are given back. *)
Lemma give_back_ok N s s3 p re we c : kinv N no_ghost s → made N s s3 p re we c → N + 2048 ≤ 2 ^ 30 →
  ∃ s', (_ ← freeFileAccess re; freeFileAccess we) s3 = KDone s' () ∧ kinv (N + 2048) no_ghost s' ∧ oframe s s' ∧
    k_files s' = k_files s ∧ ∀ q, is_Some (k_pipes s' !! q) ↔ is_Some (k_pipes s !! q).
Proof.
  intros H [H3 O3 D3 (P0 & Np & P3) (R0 & Rw & Nr) (W0 & Nw) F3 _] HN.
  assert (Hun : ∀ fa, fa ≠ 0 → k_files s !! fa = None → sum_of (slots fa) (k_procs s3) = 0) by
    (intros fa ? ?; rewrite D3; by apply (unheld N)).
  destruct (drop_end_ok (N + 1024) s3 re (read_end p) (<[we := write_end p]> (k_files s)) H3) as (s4 & E4 & H4 & O4 & F4 & P4);
    [by rewrite F3, insert_insert_ne|by rewrite lookup_insert_ne|by apply Hun|lia|].
  destruct (drop_write_ok (N + 1024 + 64) s4 we p (k_files s) H4 F4 Nw) as (s5 & E5 & H5 & O5 & F5 & P5);
    [by rewrite (slots_like we s3 s4), Hun|lia|by apply (pipe_unused N)|].
  exists s5. split; [by rewrite kbind_eq, E4|]. split; [apply (kinv_mono _ _ _ _ H5); lia|].
  split; [by apply (oframe_trans _ s3); [|apply (oframe_trans _ s4)]|]. split; [done|].
  intros q. rewrite (P5 q), (P4 q), P3, lookup_insert_is_Some', sum_of_insert by done. rewrite (uses_end p q (write_end p)) by done.
  split.
  - intros [[[<-|Hq] _] Hne]; done.
  - intros Hq. assert (q ≠ p) by (intros ->; rewrite Np in Hq; by destruct Hq). split; [split; [by right|by intros ->]|done].
Qed.

(** The reading end has the descriptor [i] already. *)
Lemma take_back_ok N s s3 p re we c i d : kinv N no_ghost s → made N s s3 p re we c → N + 2048 ≤ 2 ^ 30 →
  k_procs s !! currentProcess s = Some d → lowest_free i d → re ∉ pins →
  kinv (N + 1024) no_ghost (opened_at (currentProcess s) i re d (read_end p) s3) →
  ∃ s', (_ ← closeCurrentFd i; freeFileAccess we) (opened_at (currentProcess s) i re d (read_end p) s3) = KDone s' () ∧
    kinv (N + 2048) no_ghost s' ∧ k_files s' = k_files s ∧ (∀ q, is_Some (k_pipes s' !! q) ↔ is_Some (k_pipes s !! q)) ∧
    (∀ fa, sum_of (slots fa) (k_procs s') = sum_of (slots fa) (k_procs s)) ∧
    ∃ d', becomes (currentProcess s) d' s s' ∧ only_fds d d' ∧ fdTable d' = fdTable d.
Proof.
  intros H [H3 O3 D3 (P0 & Np & P3) (R0 & Rw & Nr) (W0 & Nw) F3 _] HN Hd (Hi & Hfi & _) Hpin H4.
  set (cur := currentProcess s) in *. set (s4 := opened_at cur i re d (read_end p) s3) in *.
  assert (Hv : isValidFd i = true) by (apply valid_range; lia). set (d1 := set_fd i re d).
  assert (Hd1 : k_procs s4 !! cur = Some d1) by apply lookup_insert_eq.
  pose proof (kinv_full _ _ _ _ _ H Hd) as Hfull.
  assert (Hfd1 : fd_slot d1 i = re) by (unfold d1; rewrite fd_slot_set, Z.eqb_refl by done; done).
  destruct (closeFd_ok (N + 1024) s4 cur d1 i H4 Hd1 Hv) as (s5 & f & E5 & H5 & O5 & Hf & R5); [congruence|lia|].
  rewrite Hfd1 in Hf, R5. set (t4 := with_slot cur i 0 d1 s4) in *.
  assert (Hftd : fdTable (set_fd i 0 d1) = fdTable d).
  { cbn. rewrite list_insert_insert_eq. apply list_insert_id. rewrite <- Hfi. exact (fd_lookup _ _ _ _ _ _ H Hd Hv). }
  assert (Hall : ∀ x, sum_of (slots x) (k_procs t4) = sum_of (slots x) (k_procs s)).
  { intros x. unfold t4, s4, opened_at, with_slot. kred. rewrite insert_insert_eq, D3, (sum_of_update _ _ _ d) by done.
    unfold slots at 3. rewrite Hftd. unfold slots. lia. }
  unfold released in R5. rewrite Hall, (unheld N s re H Nr R0) in R5. unfold driver_refs in R5. rewrite bool_decide_false in R5 by done. cbn [Z.add Z.eqb] in R5. destruct R5 as (F5 & P5 & _).
  assert (Hfp : fa_pipe f = p).
  { revert Hf. unfold s4, opened_at. kred. rewrite lookup_insert_eq. by intros [= <-]. }
  assert (E4 : k_files t4 = <[re := set_refs 1 (read_end p)]> (<[we := write_end p]> (k_files s))).
  { unfold t4, s4, opened_at, with_slot. kred. rewrite F3, (insert_insert_ne _ re we), insert_insert_eq, (insert_insert_ne _ we re) by done. done. }
  assert (E6 : delete re (k_files t4) = <[we := write_end p]> (k_files s)).
  { rewrite E4. apply delete_insert_id. by rewrite lookup_insert_ne. }
  rewrite E6 in F5.
  destruct (drop_write_ok (N + 1024 + 64) s5 we p (k_files s) H5 F5 Nw) as (s6 & E & H6 & O6 & F6 & P6);
    [rewrite (slots_like we t4 s5 O5), Hall; by apply (unheld N)|lia|by apply (pipe_unused N)|].
  pose proof (oframe_trans _ _ _ O5 O6) as O46. exists s6. split.
  { unfold closeCurrentFd. rewrite kbind_eq. rewrite kbind_eq. kred.
    change (currentProcess s4) with (currentProcess s3). rewrite (of_current _ _ O3). fold cur.
    rewrite (proj2 (Z.eqb_neq cur 0)) by exact (kinv_ne _ _ _ _ _ H Hd). rewrite E5. kred. exact E. }
  split; [apply (kinv_mono _ _ _ _ H6); lia|]. split; [done|]. split; [|split].
  - intros q. rewrite (P6 q), (P5 q), Hfp, E6, sum_of_insert by done.
    rewrite (uses_end p q (write_end p)) by done. change (k_pipes t4) with (k_pipes s3).
    rewrite P3, lookup_insert_is_Some'. split.
    + intros [[[<-|Hq] _] Hne]; done.
    + intros Hq. assert (q ≠ p) by (intros ->; rewrite Np in Hq; by destruct Hq). split; [split; [by right|by intros ->]|done].
  - intros fa. by rewrite (slots_like fa t4 s6), Hall.
  - exists (set_fd i 0 d1). split; [|done]. unfold becomes. apply (oframe_trans _ t4); [|exact O46].
    destruct O3 as [X1 X2 X3 X4 _ _]. apply oframe_same; unfold t4, s4, opened_at, with_slot; kred; try done.
    by rewrite insert_insert_eq, D3.
Qed.

(** Both ends have descriptors. *)
Lemma both_held N s s3 p re we c i j d : held N s → made N s s3 p re we c → k_procs s !! currentProcess s = Some d →
  lowest_free i d → lowest_free j (set_fd i re d) →
  let s4 := opened_at (currentProcess s) i re d (read_end p) s3 in
  let s5 := opened_at (currentProcess s) j we (set_fd i re d) (write_end p) s4 in
  kinv (N + 1024) no_ghost s4 → kinv (N + 1024) no_ghost s5 →
  held (N + 1024) s5 ∧ k_files s5 = <[we := mkFile p FILE_WRITE 1]> (<[re := mkFile p FILE_READ 1]> (k_files s)) ∧
  becomes (currentProcess s) (set_fd j we (set_fd i re d)) s s5.
Proof.
  intros [H [T1 T0 T2]] [H3 O3 D3 (P0 & Np & P3) (R0 & Rw & Nr) (W0 & Nw) F3 (C1 & _)] Hd (Hi & Hfi & _) (Hj & Hfj & _) s4 s5 H4 H5.
  set (cur := currentProcess s) in *. set (d1 := set_fd i re d) in *.
  assert (Hvi : isValidFd i = true) by (apply valid_range; lia). assert (Hvj : isValidFd j = true) by (apply valid_range; lia).
  assert (Hf5 : k_files s5 = <[we := mkFile p FILE_WRITE 1]> (<[re := mkFile p FILE_READ 1]> (k_files s))).
  { unfold s5, s4, opened_at, with_slot. kred. rewrite F3, (insert_insert_ne _ re we), !insert_insert_eq by done. done. }
  assert (Hsl : ∀ x, x ≠ 0 → sum_of (slots x) (k_procs s5) =
    sum_of (slots x) (k_procs s) + (if x =? re then 1 else 0) + (if x =? we then 1 else 0)).
  { intros x Hx. change (k_procs s5) with (k_procs (with_slot cur j we d1 s4)).
    rewrite (slots_with_slot _ _ s4 cur d1 _ _ _ H4) by (try done; apply lookup_insert_eq).
    change (k_procs s4) with (k_procs (with_slot cur i re d s3)).
    rewrite (slots_with_slot _ _ s3 cur d _ _ _ H3), D3, Hfi, Hfj, (proj2 (Z.eqb_neq x 0)) by (try done; by rewrite D3). lia. }
  split; [split; [done|split]|split; [done|]].
  - intros x Hx. destruct (kinv_pos _ _ _ H5) as (E0 & _).
    assert (Hx0 : x ≠ 0) by (intros ->; rewrite E0 in Hx; by destruct Hx). rewrite (Hsl x Hx0).
    pose proof (sum_of_nonneg (slots x) (k_procs s) (slots_nonneg x)) as Hn. pose proof (driver_refs_range x) as Dx.
    rewrite Hf5, !lookup_insert_is_Some' in Hx. destruct Hx as [<-|[<-|Hx]].
    + rewrite Z.eqb_refl. destruct (we =? re); lia.
    + rewrite Z.eqb_refl. destruct (re =? we); lia.
    + specialize (T1 x Hx). destruct (x =? re), (x =? we); lia.
  - intros x Hx. rewrite Hf5, !lookup_insert_is_Some'. auto.
  - intros q [cq Hq]. destruct (ki_pipe _ _ _ H5 q cq Hq) as [Er _]. cbn [g_ref no_ghost] in Er.
    change (k_pipes s5) with (k_pipes s3) in Hq. rewrite P3 in Hq. apply lookup_insert_Some in Hq as [[<- <-]|[_ Hq]]; [lia|].
    destruct (ki_pipe _ _ _ H q cq Hq) as [Es _]. cbn [g_ref no_ghost] in Es. specialize (T2 q (mk_is_Some _ _ Hq)). lia.
  - destruct O3 as [O1 O2 O3 O4 _ _]. apply oframe_same; unfold s5, s4, opened_at, with_slot; kred; try done.
    by rewrite insert_insert_eq, D3.
Qed.

(** [sysPipe] once the pipe and its ends are made. *)
Lemma sysPipe_run userFds s s1 s2 s3 p re we : userFds ≠ 0 → newPipe s = KDone s1 p →
  newFileAccess p FILE_READ s1 = KDone s2 re → newFileAccess p FILE_WRITE s2 = KDone s3 we →
  p ≠ 0 → re ≠ 0 → we ≠ 0 → currentProcess s3 ≠ 0 →
  ∀ s' x, (readFD ← addFd (currentProcess s3) re;
      if readFD <? 0 then _ ← freeFileAccess re; _ ← freeFileAccess we; mret (u64 (-1), None)
      else writeFD ← addCurrentFd we;
        if writeFD <? 0 then _ ← closeCurrentFd readFD; _ ← freeFileAccess we; mret (u64 (-1), None)
        else mret (0, Some (readFD, writeFD))) s3 = KDone s' x → sysPipe userFds s = KDone s' x.
Proof.
  intros Hu E1 E2 E3 P0 R0 W0 Hc s' x Hr. unfold sysPipe. rewrite (proj2 (Z.eqb_neq userFds 0)) by done.
  rewrite kbind_eq, E1. kred. rewrite (proj2 (Z.eqb_neq p 0)) by done. rewrite kbind_eq, E2. kred. rewrite kbind_eq, E3. kred.
  rewrite (proj2 (Z.eqb_neq re 0)), (proj2 (Z.eqb_neq we 0)) by done. cbn [orb].
  rewrite kbind_eq. unfold addCurrentFd at 1. rewrite kbind_eq. kred. rewrite (proj2 (Z.eqb_neq (currentProcess s3) 0)) by done.
  rewrite <- Hr. symmetry. apply kbind_eq.
Qed.

(** [sysPipe], with the rest of the caller's descriptor as it was. *)
Lemma sysPipe_ok N s userFds d : held N s → k_procs s !! currentProcess s = Some d → userFds ≠ 0 →
  Z.of_nat (size (k_files s)) + 2 ≤ 2 ^ 20 → N + 2048 ≤ 2 ^ 30 →
  ∃ s', held (N + 2048) s' ∧
  ((∃ i j p re we pc, sysPipe userFds s = KDone s' (0, Some (i, j)) ∧ lowest_free i d ∧ lowest_free j (set_fd i re d) ∧
      k_pipes s !! p = None ∧ k_files s !! re = None ∧ k_files s !! we = None ∧
      k_files s' = <[we := mkFile p FILE_WRITE 1]> (<[re := mkFile p FILE_READ 1]> (k_files s)) ∧
      k_pipes s' = <[p := pc]> (k_pipes s) ∧ pipe_refCount pc = 2 ∧ writerCount pc = 1 ∧
      CircularBuffer.bufferHasData (buffer pc) = false ∧
      becomes (currentProcess s) (set_fd j we (set_fd i re d)) s s') ∨
   (sysPipe userFds s = KDone s' (u64 (-1), None) ∧ (∀ i j, 0 ≤ i < j → j < 16 → fd_slot d i = 0 → fd_slot d j ≠ 0) ∧
      k_files s' = k_files s ∧ (∀ q, is_Some (k_pipes s' !! q) ↔ is_Some (k_pipes s !! q)) ∧
      ∃ d', becomes (currentProcess s) d' s s' ∧ only_fds d d' ∧ fdTable d' = fdTable d)).
Proof.
  intros Hh Hd Hu Hsz HN. pose proof Hh as [H T]. pose proof (kinv_ne _ _ _ _ _ H Hd) as Hcur.
  destruct (ends_ok N s H Hsz (t_pin _ T)) as (s1 & s2 & s3 & p & re & we & pc & E1 & E2 & E3 & M). pose proof M as M'.
  destruct M' as [H3 O3 D3 (P0 & Np & P3) (R0 & Rw & Nr) (W0 & Nw) F3 (C1 & C2 & C3)].
  assert (Hcu : currentProcess s3 = currentProcess s) by apply O3. set (cur := currentProcess s) in *.
  pose proof (sysPipe_run userFds s s1 s2 s3 p re we Hu E1 E2 E3 P0 R0 W0 ltac:(by rewrite Hcu)) as Run. rewrite Hcu in Run.
  assert (Hd3 : k_procs s3 !! cur = Some d) by (by rewrite D3).
  destruct (addFd_exact _ s3 cur d re (read_end p) H3 Hd3) as [[E4 Hno]|(i & Hi & E4 & H4)];
    [by rewrite F3, lookup_insert_ne, lookup_insert_eq| |].
  - destruct (give_back_ok N s s3 p re we pc H M HN) as (s' & E & H' & O & F & P). exists s'.
    assert (Hsl : ∀ fa, sum_of (slots fa) (k_procs s') = sum_of (slots fa) (k_procs s)) by (intros fa; by apply slots_like).
    split; [split; [done|by apply (tight_same s); [..|intros q; apply P]]|right]. split.
    + apply Run. rewrite kbind_eq, E4. kred. change (-1 <? 0) with true. cbv iota. revert E. rewrite !kbind_eq.
      destruct (freeFileAccess re s3); try done. kred. intros E. by rewrite kbind_eq, E.
    + split; [intros i j Hij Hj _; apply Hno; lia|]. split; [done|]. split; [done|].
      exists d. split; [by apply becomes_id|done].
  - set (s4 := opened_at cur i re d (read_end p) s3) in *. set (d1 := set_fd i re d) in *.
    assert (Hi0 : (i <? 0) = false) by (apply Z.ltb_ge; destruct Hi; lia).
    assert (Hcu4 : currentProcess s4 = cur) by done.
    destruct (addFd_exact _ s4 cur d1 we (write_end p) H4) as [[E5 Hno]|(j & Hj & E5 & H5)];
      [apply lookup_insert_eq|unfold s4, opened_at; kred; by rewrite lookup_insert_ne, F3, lookup_insert_eq| |].
    + destruct (take_back_ok N s s3 p re we pc i d H M HN Hd Hi
        ltac:(intros X%(t_pin _ T); rewrite Nr in X; by destruct X) H4) as (s' & E & H' & F & P & Hsl & Hfd).
      exists s'. split; [split; [done|by apply (tight_same s); [..|intros q; apply P]]|right]. split.
      * apply Run. rewrite kbind_eq, E4. kred. rewrite Hi0, kbind_eq. unfold addCurrentFd. rewrite kbind_eq. kred.
        rewrite Hcu4, (proj2 (Z.eqb_neq cur 0)), E5 by done. kred. change (-1 <? 0) with true. cbv iota.
        change (opened_at (currentProcess s) i re d (read_end p) s3) with s4 in E. revert E. rewrite !kbind_eq.
        destruct (closeCurrentFd i s4); try done. kred. intros E. by rewrite kbind_eq, E.
      * split; [|done]. intros a b Hab Hb Ha Hb0. pose proof (kinv_full _ _ _ _ _ H Hd) as Hfull.
        destruct Hi as (Hi & Hfi & Hlow). assert (i ≤ a) by (destruct (Z_lt_le_dec a i); [destruct (Hlow a); [lia|done]|done]).
        apply (Hno b); [lia|]. unfold d1. rewrite fd_slot_set, (proj2 (Z.eqb_neq b i)) by (try done; try apply valid_range; lia). done.
    + destruct (both_held N s s3 p re we pc i j d Hh M Hd Hi Hj H4 H5) as (Hh5 & F5 & B5).
      exists (opened_at cur j we d1 (write_end p) s4). split; [apply (held_mono (N + 1024)); [done|lia]|left].
      exists i, j, p, re, we, pc. split; [|split; [done|split; [done|split; [done|split; [done|split; [done|split; [done|split; [done|done]]]]]]]].
      apply Run. rewrite kbind_eq, E4. kred. rewrite Hi0, kbind_eq. unfold addCurrentFd. rewrite kbind_eq. kred.
      rewrite Hcu4, (proj2 (Z.eqb_neq cur 0)), E5 by done. kred.
      assert (Hj0 : (j <? 0) = false) by (apply Z.ltb_ge; destruct Hj; lia). by rewrite Hj0.
Qed.

(** C14. [sysPipe] gives the caller the two lowest free descriptors, the reading end at the lower
    one, of a new empty pipe that counts two references and one writer.  With fewer than two
    free descriptors the answer is -1, and the file accesses, the pipes and the descriptors
    are as before: nothing leaks. *)
Theorem sysPipe_opens N s userFds d : held N s → k_procs s !! currentProcess s = Some d → userFds ≠ 0 →
  Z.of_nat (size (k_files s)) + 2 ≤ 2 ^ 20 → N + 2048 ≤ 2 ^ 30 →
  ∃ s', held (N + 2048) s' ∧
  ((∃ i j p re we pc, sysPipe userFds s = KDone s' (0, Some (i, j)) ∧ lowest_free i d ∧ lowest_free j (set_fd i re d) ∧
      k_pipes s !! p = None ∧ k_files s !! re = None ∧ k_files s !! we = None ∧
      k_files s' = <[we := mkFile p FILE_WRITE 1]> (<[re := mkFile p FILE_READ 1]> (k_files s)) ∧
      k_pipes s' = <[p := pc]> (k_pipes s) ∧ pipe_refCount pc = 2 ∧ writerCount pc = 1 ∧
      CircularBuffer.bufferHasData (buffer pc) = false ∧
      becomes (currentProcess s) (set_fd j we (set_fd i re d)) s s') ∨
   (sysPipe userFds s = KDone s' (u64 (-1), None) ∧ (∀ i j, 0 ≤ i < j → j < 16 → fd_slot d i = 0 → fd_slot d j ≠ 0) ∧
      k_files s' = k_files s ∧ (∀ q, is_Some (k_pipes s' !! q) ↔ is_Some (k_pipes s !! q)) ∧
      ∃ d', k_procs s' !! currentProcess s = Some d' ∧ fdTable d' = fdTable d)).
Proof.
  intros Hh Hd Hu Hsz HN. destruct (sysPipe_ok N s userFds d Hh Hd Hu Hsz HN) as (s' & H' & [D|(E & Hno & F & P & d' & B & _ & Hf)]);
    (exists s'; split; [done|]); [by left|right].
  split; [done|]. split; [done|]. split; [done|]. split; [done|]. destruct (becomes_proc _ _ _ _ B) as (d2 & Hd2 & L).
  exists d2. split; [done|]. by rewrite (like_fds _ _ L).
Qed.

(** ** Opening a descriptor again *)

(** A new file access of the same pipe, with the same flags. *)
Lemma cloneFile_ok N s fa f : kinv N no_ghost s → k_files s !! fa = Some f → Z.of_nat (size (k_files s)) < 2 ^ 20 →
  (∀ x, x ∈ pins → is_Some (k_files s !! x)) →
  ∃ s', cloneFile fa s = KDone s' (k_next s) ∧ kinv N no_ghost s' ∧ k_files s !! k_next s = None ∧ k_next s ≠ 0 ∧
    k_files s' = <[k_next s := mkFile (fa_pipe f) (fa_flags f) 0]> (k_files s) ∧ oframe s s' ∧ k_procs s' = k_procs s ∧
    ∀ q, is_Some (k_pipes s' !! q) ↔ is_Some (k_pipes s !! q).
Proof.
  intros H Hf Hsz Hpin. pose proof (kinv_file_ne _ _ _ _ _ H Hf) as Hfa.
  assert (E : cloneFile fa s = newFileAccess (fa_pipe f) (fa_flags f) s).
  { unfold cloneFile, file. rewrite (proj2 (Z.eqb_neq fa 0)) by done. by rewrite kbind_eq, (kload_some _ _ _ _ Hf). }
  destruct (proj1 (ki_file _ _ _ H fa f Hf)) as [E0|[c Hc]].
  - destruct (consoleAccess_ok N s (fa_flags f) H Hsz Hpin) as (s' & E' & H' & Hn & Hz & F & O & D & P).
    rewrite E, E0. exists s'. split; [done|]. split; [done|]. split; [done|]. split; [done|]. split; [done|]. split; [done|].
    split; [done|]. by rewrite P.
  - destruct (newFileAccess_ok N s _ c (fa_flags f) H Hc Hsz Hpin) as (s' & E' & H' & Hn & Hz & F & O & D & P).
    rewrite E. exists s'. split; [done|]. split; [done|]. split; [done|]. split; [done|]. split; [done|]. split; [done|].
    split; [done|]. intros q. rewrite P, lookup_insert_is_Some'. split; [intros [<-|]; [by eexists|done]|by right].
Qed.

(** The reference that was never counted is given back. *)
Lemma drop_new_ok N s fa f F : kinv N no_ghost s → k_files s = <[fa := f]> F → F !! fa = None → fa ∉ pins →
  sum_of (slots fa) (k_procs s) = 0 → N + 64 ≤ 2 ^ 30 →
  ∃ s', removeFileRef fa s = KDone s' () ∧ kinv (N + 64) no_ghost s' ∧ oframe s s' ∧ k_files s' = F ∧
    ∀ q, is_Some (k_pipes s' !! q) → is_Some (k_pipes s !! q) ∧ (q = fa_pipe f → 0 < sum_of (uses q) F).
Proof.
  intros H HF Hn Hpin H0 HN. assert (Hf : k_files s !! fa = Some f) by (by rewrite HF, lookup_insert_eq).
  pose proof (kinv_file_ne _ _ _ _ _ H Hf) as Hfa. destruct (ki_file _ _ _ H fa f Hf) as [_ Er].
  cbn [g_file no_ghost] in Er. unfold driver_refs in Er. rewrite bool_decide_false, H0 in Er by done.
  set (f1 := set_refs (-1) f). set (s1 := set_files (<[fa := f1]> (k_files s)) s).
  assert (H1 : kinv N (over fa (-1)) s1).
  { pose proof (kinv_refs _ _ _ _ _ (-1) H Hf) as H1. replace (fa_refCount f + -1) with (-1) in H1 by lia.
    apply (kinv_ghost _ _ _ _ H1); [|done]. intros x _. cbn. unfold bump. destruct (x =? fa); lia. }
  destruct (freeFileAccess_ok N (over fa (-1)) s1 fa f1 H1) as (s2 & E2 & H2 & O2 & F2 & P2 & _);
    [apply lookup_insert_eq|exact H0|done|done|].
  assert (ED : delete fa (k_files s1) = F) by (unfold s1; kred; by rewrite delete_insert_eq, HF, delete_insert_id).
  exists s2. split.
  - unfold removeFileRef. rewrite (proj2 (Z.eqb_neq fa 0)) by done. rewrite kbind_eq, (kstore_file_eq _ _ _ f) by done. kred.
    replace (i32 (fa_refCount f - 1)) with (-1) by (rewrite i32_small; lia). fold f1 s1. unfold file.
    rewrite kbind_eq. erewrite (kload_some k_files fa s1) by (unfold s1; kred; apply lookup_insert_eq). kred. exact E2.
  - split; [|split; [by apply (oframe_trans _ s1); [apply oframe_same|]|split; [by rewrite F2|]]].
    + apply (kinv_ghost _ _ _ _ H2); [|done]. intros x Hx. rewrite F2, ED in Hx. cbn.
      destruct (Z.eqb_spec x fa) as [->|]; [rewrite Hn in Hx; by destruct Hx|lia].
    + intros q. rewrite (P2 q), ED. intros [Hq Hx]. by split.
Qed.

(** The new file access gets its descriptor. *)
Lemma tight_opened N s s1 p c r fa f : tight s → kinv N no_ghost s1 → k_procs s1 = k_procs s → k_procs s !! p = Some c →
  isValidFd r = true → fd_slot c r = 0 → fa ≠ 0 → k_files s !! fa = None → k_files s1 = <[fa := f]> (k_files s) →
  (∀ q, is_Some (k_pipes s1 !! q) → is_Some (k_pipes s !! q)) → (∀ x, is_Some (k_files s !! x) → x ≠ 0) →
  tight (opened_at p r fa c f s1).
Proof.
  intros [T1 T0 T2] H1 D Hc Hv Hr Hfa Hn F P H0. unfold opened_at. rewrite F, insert_insert_eq. split; kred.
  - intros x Hx. rewrite (slots_with_slot _ _ s1 p c _ _ _ H1), D, Hr by (by rewrite ?D).
    pose proof (sum_of_nonneg (slots x) (k_procs s) (slots_nonneg x)). pose proof (driver_refs_range x).
    apply lookup_insert_is_Some' in Hx as [<-|Hx].
    + rewrite Z.eqb_refl, (proj2 (Z.eqb_neq _ _)) by done. lia.
    + rewrite (proj2 (Z.eqb_neq x 0)) by auto. specialize (T1 x Hx). destruct (x =? fa); lia.
  - intros x Hx. rewrite lookup_insert_is_Some'. auto.
  - intros q Hq. change (k_pipes (with_slot p r fa c s1)) with (k_pipes s1) in Hq.
    rewrite sum_of_insert by done. specialize (T2 q (P q Hq)). pose proof (uses_range q (set_refs (fa_refCount f + 1) f)). lia.
Qed.

(** [reopenFd] gives the lowest free descriptor a file access of its own, new, of the pipe and
    with the flags of the one that [fd] refers to; when no descriptor is free, the answer is -1
    and nothing leaks. *)
Lemma reopenFd_ok N s p c fd : held N s → k_procs s !! p = Some c → Z.of_nat (size (k_files s)) < 2 ^ 20 → N + 64 ≤ 2 ^ 30 →
  ∃ s' r, reopenFd p fd s = KDone s' r ∧ held (N + 64) s' ∧
  if isValidFd fd && negb (fd_slot c fd =? 0) then
    (r = -1 ∧ no_free c ∧ k_files s' = k_files s ∧ becomes p c s s') ∨
    (lowest_free r c ∧ ∃ fa f, k_files s !! fd_slot c fd = Some f ∧ k_files s !! fa = None ∧
      k_files s' = <[fa := mkFile (fa_pipe f) (fa_flags f) 1]> (k_files s) ∧ becomes p (set_fd r fa c) s s')
  else r = -1 ∧ s' = s.
Proof.
  intros [H T] Hc Hsz HN. pose proof (kinv_ne _ _ _ _ _ H Hc) as Hp.
  assert (Hm : held (N + 64) s) by (apply (held_mono N); [done|lia]).
  unfold reopenFd. rewrite (proj2 (Z.eqb_neq p 0)) by done.
  destruct (isValidFd fd) eqn:Hv; [|exists s, (-1); unfold isOpenFd; by rewrite Hv].
  rewrite kbind_eq, (isOpenFd_eq _ _ _ _ Hv Hc). kred. destruct (Z.eqb_spec (fd_slot c fd) 0) as [E0|E0]; cbn [negb andb];
    [by exists s, (-1)|].
  unfold proc. rewrite kbind_eq, (kload_some _ _ _ _ Hc). kred. destruct (fd_live _ _ _ _ _ _ H Hc Hv E0) as [f Hf].
  destruct (cloneFile_ok N s _ f H Hf Hsz (t_pin _ T)) as (s1 & E1 & H1 & Hn & Hz & F1 & O1 & D1 & P1).
  rewrite kbind_eq, E1. kred. set (fa := k_next s) in *. rewrite (proj2 (Z.eqb_neq fa 0)) by done.
  assert (Hc1 : k_procs s1 !! p = Some c) by (by rewrite D1).
  destruct (addFd_exact _ s1 p c fa (mkFile (fa_pipe f) (fa_flags f) 0) H1 Hc1) as [[E2 Hno]|(r & Hr & E2 & H2)];
    [by rewrite F1, lookup_insert_eq|..]; rewrite kbind_eq, E2; kred.
  - change (-1 <? 0) with true. cbv iota.
    destruct (drop_new_ok N s1 fa _ (k_files s) H1 F1 Hn) as (s2 & E3 & H3 & O3 & F3 & P3); [..|done|].
    { intros X%(t_pin _ T). rewrite Hn in X. by destruct X. }
    { rewrite D1. by apply (unheld N). }
    exists s2, (-1). rewrite kbind_eq, E3. split; [done|]. assert (O : oframe s s2) by (by apply (oframe_trans _ s1)).
    split; [|left; split; [done|split; [done|split; [done|by apply becomes_id]]]].
    split; [done|]. apply (tight_same s); [done|done| |].
    + intros x. by apply slots_like.
    + intros q Hq. by apply P1, P3.
  - pose proof Hr as (Hrr & Hr0 & _). rewrite (proj2 (Z.ltb_ge r 0)) by lia. rewrite kbind_eq. kred.
    eexists _, r. split; [done|]. split; [|right; split; [done|]].
    + apply (held_mono N); [|lia]. split; [exact H2|]. apply (tight_opened N s); try done.
      * apply valid_range. lia.
      * intros q. apply P1.
      * intros x Hx ->. destruct (kinv_pos _ _ _ H) as (E00 & _). rewrite E00 in Hx. by destruct Hx.
    + exists fa, f. split; [done|]. split; [done|]. split.
      * unfold opened_at. by rewrite F1, insert_insert_eq.
      * destruct O1 as [X1 X2 X3 X4 _ _]. apply oframe_same; unfold opened_at, with_slot; kred; try done. by rewrite D1.
Qed.

End Pinned.

Lemma sysPipe_opens_witness : ∃ s', sysPipe 9000 small = KDone s' (0, Some (2, 3)) ∧ held 3072 s'.
Proof.
  destruct (sysPipe_opens 1024 small 9000 _ small_held eq_refl) as (s' & H & D); [done|done|lia|].
  exists s'. split; [|exact H]. destruct D as [(i & j & p & re & we & pc & E & (Hi & Fi & Li) & (Hj & Fj & Lj) & _)|(E & Hno & _)].
  - rewrite E. assert (i = 2) as ->.
    { destruct (Z_lt_le_dec i 2); [|destruct (Z_lt_le_dec 2 i) as [L|]; [by destruct (Li 2)|lia]].
      assert (i = 0 ∨ i = 1) as [-> | ->] by lia; vm_compute in Fi; discriminate Fi. }
    assert (j = 3) as ->; [|done].
    destruct (Z_lt_le_dec j 3); [|destruct (Z_lt_le_dec 3 j) as [L|]; [by destruct (Lj 3)|lia]].
    assert (j = 0 ∨ j = 1 ∨ j = 2) as [-> |[-> | ->]] by lia; cbn in Fj; try discriminate Fj.
    revert E. vm_compute. discriminate.
  - exfalso. by apply (Hno 2 3).
Defined.

End Syscall.
