(* ===== verification/NamedSems.v ===== *)
(** * Named semaphores: the table and the kernel around it ([Kernel/semaphores/sharedSemaphores.c])

    Which operations leave the table of the named semaphores alone, the invariant of the table,
    and what opening, closing, waiting and posting by name do to it and to the kernel. *)

From S2P Require Import Prelude MemoryManager CircularBuffer KState ProcTable Semaphore Pipe Process KernelInv KernelCheck Descriptors.
From S2P Require Import Scheduler LifeCycle Creation Channels Syscall Steady.
Import ProcTable Semaphore SharedSemaphores Pipe FileAccess Process KernelInv KernelCheck Descriptors Scheduler.
Import LifeCycle Creation Channels Syscall Steady.

Module NamedSems.

(** ** The operations that leave the table alone *)

Definition same_names (s s' : kst) : Prop := sharedTable s' = sharedTable s ∧ tableLock s' = tableLock s.

(** Wherever a run ends or gives up the processor, the table and its lock are as before. *)
Definition spares {A} (m : K A) : Prop := ∀ s,
  match m s with KDone s' _ | KSwitch s' _ => same_names s s' | _ => True end.

Lemma spares_ret {A} (a : A) : spares (mret a).
Proof. done. Qed.
Lemma spares_mod f : (∀ s, same_names s (f s)) → spares (kmod f).
Proof. intros H s. apply H. Qed.
Lemma spares_get : spares kget.
Proof. done. Qed.
Lemma spares_switch : spares kswitch.
Proof. done. Qed.
Lemma spares_fault {A} : spares (A := A) kfault.
Proof. done. Qed.
Lemma spares_hang {A} : spares (A := A) khang.
Proof. done. Qed.
Lemma spares_fuel {A} : spares (A := A) kfuel.
Proof. done. Qed.
Lemma spares_load {A} (store : kst → gmap Z A) p : spares (kload store p).
Proof. intros s. unfold kload. by destruct (store s !! p). Qed.
Lemma spares_bind {A B} (m : K A) (f : A → K B) : spares m → (∀ a, spares (f a)) → spares (m ≫= f).
Proof.
  intros Hm Hf s. specialize (Hm s). rewrite kbind_eq. destruct (m s) as [s1 a| | | |s1 k]; cbn [kbind]; try done.
  specialize (Hf a s1). destruct Hm as [E1 E2].
  destruct (f a s1); try done; destruct Hf as [F1 F2]; split; congruence.
Qed.
Lemma spares_alloc n : spares (kalloc n).
Proof. intros s. unfold kalloc. by destruct (k_mem s) as [|[] ?]. Qed.

Create HintDb spares discriminated.
#[export] Hint Resolve spares_ret spares_get spares_switch spares_load spares_alloc spares_fault spares_hang spares_fuel : spares.
#[export] Hint Extern 1 (spares (kmod _)) => apply spares_mod; intros s; split; reflexivity : spares.

(** The sequences, the tests, what the database knows and the operations it unfolds. *)
Ltac spare :=
  repeat first
    [ progress eauto 2 with spares nocore
    | apply spares_bind; [|intros ?]
    | match goal with
      | |- spares (if ?b then _ else _) => destruct b
      | |- spares (match ?x with _ => _ end) => destruct x
      end
    | progress cbv beta zeta
    | progress autounfold with spares ].

#[export] Hint Unfold kstore_sem kstore_pipe kstore_file kstore_proc kfree_sem kfree_pipe kfree_file kfree_proc
  q_enqueue q_new : spares.
#[export] Hint Unfold proc getRSP setRSP getPID getPPID setPPID getState setState setPriority hasQuantums useQuantum
  resetQuantums slot getCurrentPID setCurrentBlocked enqueue_ready setBlocked setReady setPriorityOnPID addToFG
  removeFromFG getProcessInfo : spares.
#[export] Hint Unfold ACQUIRE RELEASE newSemaphore semWait semPost semTryWait freeSemaphore : spares.
#[export] Hint Unfold pipe freePipe newPipe addPipeRef addPipeWriter removePipeRef forceReadersWakeUp removePipeWriter
  file newFileAccess freeFileAccess addFileRef removeFileRef cloneFile : spares.
#[export] Hint Unfold deepCopyArgv newProcess freeProcess getStackMisalignment enqueue_child addChild removeChild
  isOpenFd getFd openFd addFd closeFd dupFd reopenFd closeAllFDs copyFdTable : spares.
#[export] Hint Unfold push prepareStack startNewProcessWithPid startNewProcess startNewProcessWithFds reapProcess
  enqueue_terminated transferOrphanChildren notifyTermination closeFdsOf finish_process terminateProcess
  addCurrentFd closeCurrentFd dupCurrentFd reopenCurrentFd getNextPID dispatch schedule : spares.
#[export] Hint Unfold ret64 sysGetpid sysCreateProcess sysKill sysNice sysBlock sysUnblock sysYield sysPs sysExit
  free_if sysPipe sysClose sysDup sysReopen sysCreateProcessFds sysForeground sysGetMaxProcesses sysGetProcessesCount : spares.

Lemma spares_post_loop sem : ∀ q, spares (post_loop q sem).
Proof. induction q as [|pid q IH]; cbn [post_loop]; spare. Qed.
#[export] Hint Resolve spares_post_loop : spares.
Lemma spares_post_times p : ∀ n, spares (post_times n p).
Proof. induction n as [|n IH]; cbn [post_times]; spare. Qed.
Lemma spares_newBuffer n : spares (k_newBuffer n).
Proof.
  intros s. unfold k_newBuffer, CircularBuffer.newBuffer. destruct (n =? 0); [done|]. cbn [mm_alloc kernel_memory].
  pose proof (spares_alloc CircularBuffer.CDT_SIZE s) as H1.
  destruct (kalloc CircularBuffer.CDT_SIZE s) as [s1 p| | | |]; cbn; try done. destruct (p =? 0); [done|].
  pose proof (spares_alloc n s1) as H2. destruct (kalloc n s1) as [s2 q| | | |]; cbn; try done.
  destruct H1 as [A1 A2], H2 as [B1 B2]. destruct (q =? 0); split; congruence.
Qed.
Lemma spares_copy_args : ∀ args, spares (copy_args args).
Proof. induction args as [|[a|] args IH]; cbn [copy_args]; spare. Qed.
Lemma spares_info_loop : ∀ ids room, spares (info_loop ids room).
Proof. induction ids as [|i ids IH]; intros room; cbn [info_loop]; spare. Qed.
Lemma spares_push_zeros : ∀ n sp, spares (push_zeros n sp).
Proof. induction n as [|n IH]; intros sp; cbn [push_zeros]; spare. Qed.
#[export] Hint Resolve spares_post_times spares_newBuffer spares_copy_args spares_info_loop spares_push_zeros : spares.

Lemma spares_closeFd p fd : spares (closeFd p fd).
Proof. spare. Qed.
Lemma spares_newPipe : spares newPipe.
Proof. spare. Qed.
Lemma spares_newProcess entry name stack pid prio argc argv : spares (newProcess entry name stack pid prio argc argv).
Proof. spare. Qed.
Lemma spares_semPost q : spares (semPost q).
Proof. spare. Qed.
#[export] Hint Resolve spares_closeFd spares_newPipe spares_newProcess spares_semPost : spares.
Lemma spares_dupFd p old new : spares (dupFd p old new).
Proof. spare. Qed.
Lemma spares_add_loop p fa : ∀ fds, spares (add_loop fds p fa).
Proof. induction fds as [|i fds IH]; cbn [add_loop]; spare. Qed.
Lemma spares_close_loop p : ∀ fds, spares (close_loop fds p).
Proof. induction fds as [|i fds IH]; cbn [close_loop]; spare. Qed.
Lemma spares_copyfd_loop p q : ∀ fds, spares (copyfd_loop fds p q).
Proof. induction fds as [|i fds IH]; cbn [copyfd_loop]; spare. Qed.
Lemma spares_orphan_loop p ip : ∀ cs, spares (orphan_loop cs p ip).
Proof. induction cs as [|c cs IH]; cbn [orphan_loop]; spare. Qed.
#[export] Hint Resolve spares_dupFd spares_add_loop spares_close_loop spares_copyfd_loop spares_orphan_loop : spares.
Lemma spares_override_loop p : ∀ os, spares (override_loop os p).
Proof. induction os as [|o os IH]; cbn [override_loop]; spare. Qed.
Lemma spares_finish pid : spares (finish_process pid).
Proof. spare. Qed.
#[export] Hint Resolve spares_override_loop spares_finish : spares.

Lemma spares_schedule prev : spares (schedule prev).
Proof. spare. Qed.
Lemma spares_sysPipe fds : spares (sysPipe fds).
Proof. spare. Qed.

(** ** The invariant of the table *)

(** The lock is free, a name in use is there once, and has been opened at most [R] times. *)
Record named (R : Z) (s : kst) : Prop := {
  nm_free : tableLock s = false;
  nm_once : ∀ i j e e', sharedTable s !! i = Some e → sharedTable s !! j = Some e' →
    ss_used e = true → ss_used e' = true → ss_name e = ss_name e' → i = j;
  nm_refs : ∀ i e, sharedTable s !! i = Some e → ss_used e = true → 1 ≤ ss_refCount e ≤ R;
}.

Lemma named_same R R' s s' : named R s → R ≤ R' → same_names s s' → named R' s'.
Proof. intros [H1 H2 H3] HR [E1 E2]. split; rewrite ?E1, ?E2; try done. intros i e Hi Hu. specialize (H3 i e Hi Hu). lia. Qed.

(** The entry of a name. *)
Definition found (n : cstring) (s : kst) (i : nat) (e : SharedSem) : Prop :=
  sharedTable s !! i = Some e ∧ ss_used e = true ∧ ss_name e = n.
Definition missing (n : cstring) (s : kst) : Prop := ∀ i e, ¬ found n s i e.

Lemma first_index_spec P : ∀ t i,
  (∃ k e, t !! k = Some e ∧ P e = true ∧ first_index P i t = i + Z.of_nat k) ∨
  ((∀ k e, t !! k = Some e → P e = false) ∧ first_index P i t = -1).
Proof.
  induction t as [|e t IH]; intros i; cbn [first_index]; [by right|]. destruct (P e) eqn:He.
  - left. exists 0%nat, e. split_and!; [done|done|lia].
  - destruct (IH (i + 1)) as [(k & d & Hk & Hd & ->)|[Hno ->]].
    + left. exists (S k), d. split_and!; [done|done|lia].
    + right. split; [|done]. intros [|k] d Hd; [by injection Hd as <-|by apply (Hno k)].
Qed.

Lemma findByName_spec n s :
  (∃ i e, found n s i e ∧ findByName n s = Z.of_nat i) ∨ (missing n s ∧ findByName n s = -1).
Proof.
  unfold findByName. destruct (first_index_spec (λ e, ss_used e && bool_decide (ss_name e = n)) (sharedTable s) 0)
    as [(i & e & Hi & [Hu Hn%bool_decide_eq_true]%andb_true_iff & ->)|[Hno ->]].
  - left. by exists i, e.
  - right. split; [|done]. intros i e (Hi & Hu & Hn). specialize (Hno i e Hi).
    by rewrite Hu, bool_decide_true in Hno by done.
Qed.

Lemma findFreeSlot_spec s :
  (∃ i e, sharedTable s !! i = Some e ∧ ss_used e = false ∧ findFreeSlot s = Z.of_nat i) ∨
  ((∀ i e, sharedTable s !! i = Some e → ss_used e = true) ∧ findFreeSlot s = -1).
Proof.
  unfold findFreeSlot. destruct (first_index_spec (λ e, negb (ss_used e)) (sharedTable s) 0)
    as [(i & e & Hi & Hu%negb_true_iff & ->)|[Hno ->]].
  - left. by exists i, e.
  - right. split; [|done]. intros i e Hi. by apply negb_false_iff, (Hno i).
Qed.

Lemma found_eq R n s i e j d : named R s → found n s i e → found n s j d → i = j ∧ e = d.
Proof.
  intros H (Hi & Hu & Hn) (Hj & Hv & Hm). assert (i = j) as <- by (apply (nm_once _ _ H i j e d); congruence).
  split; [done|congruence].
Qed.

(** Changing one entry. *)
Lemma named_insert R R' s s' i e : named R s → R ≤ R' → tableLock s' = false → sharedTable s' = <[i := e]> (sharedTable s) →
  (ss_used e = true → 1 ≤ ss_refCount e ≤ R' ∧ ∀ j d, found (ss_name e) s j d → j = i) → named R' s'.
Proof.
  intros [H1 H2 H3] HR L E He. split; [done|rewrite E..].
  - intros j k d d' [(<- & <- & _)|[Hj Hd]]%list_lookup_insert_Some [(<- & <- & _)|[Hk Hd']]%list_lookup_insert_Some Hu Hu' Hn; [done|..].
    + symmetry. by apply (proj2 (He Hu) k d').
    + by apply (proj2 (He Hu') j d).
    + by apply (H2 j k d d').
  - intros j d [(<- & <- & _)|[Hj Hd]]%list_lookup_insert_Some Hu; [by apply He|]. specialize (H3 j d Hd Hu). lia.
Qed.

(** ** The invariants of the kernel *)

Section Pinned.
Context {pin : Pinned}.

Lemma kinv_table N g s t : kinv N g s →
  (∀ i e, t !! i = Some e → ss_used e = true → is_Some (k_sems s !! ss_sem e) ∧ ∀ o, owns s (ss_sem e) o → o = OShared i) →
  (∀ i j e e', t !! i = Some e → t !! j = Some e' → ss_used e = true → ss_used e' = true → ss_sem e = ss_sem e' → i = j) →
  kinv N g (set_shared t s).
Proof.
  intros H Ht Hj. pose proof H as [I0 I1 I2 I3 I4 I5 I6 I7 I8 I9 I10].
  assert (Hout : ∀ q o, owns (set_shared t s) q o →
    owns s q o ∧ (∀ i, o ≠ OShared i) ∨ ∃ i e, o = OShared i ∧ t !! i = Some e ∧ ss_used e = true ∧ ss_sem e = q).
  { intros q [p i|p i|i] Ho; [by left|by left|right]. destruct Ho as (e & He). by exists i, e. }
  split; try done; kred.
  - keep_sched I2.
  - intros q o [[Ho _]|(i & e & -> & Hi & Hu & <-)]%Hout; [by apply (I5 q o)|by apply (Ht i e)].
  - intros q o o' [[Ho Hn]|(i & e & -> & Hi & Hu & <-)]%Hout [[Ho' Hn']|(j & e' & -> & Hi' & Hu' & Eq)]%Hout.
    + by apply (I6 q).
    + subst q. exfalso. apply (Hn j). by apply (proj2 (Ht j e' Hi' Hu')).
    + exfalso. apply (Hn' i). by apply (proj2 (Ht i e Hi Hu)).
    + f_equal. by apply (Hj i j e e').
Qed.

(** One entry changes. *)
Lemma kinv_entry N g s i e : kinv N g s →
  (ss_used e = true → is_Some (k_sems s !! ss_sem e) ∧ ∀ o, owns s (ss_sem e) o → o = OShared i) →
  kinv N g (set_shared (<[i := e]> (sharedTable s)) s).
Proof.
  intros H He. pose proof H as [I0 I1 I2 I3 I4 I5 I6 I7 I8 I9 I10]. apply kinv_table; [done|..].
  - intros j d [(<- & <- & _)|[Hj Hd]]%list_lookup_insert_Some Hu; [by apply He|].
    assert (Ho : owns s (ss_sem d) (OShared j)) by (by exists d). split; [by eapply I5|]. intros o Ho'. by eapply I6.
  - intros j k d d' [(<- & <- & _)|[Hj Hd]]%list_lookup_insert_Some [(<- & <- & _)|[Hk Hd']]%list_lookup_insert_Some Hu Hu' Eq; [done|..].
    + assert (Ho : owns s (ss_sem e) (OShared k)) by (exists d'; by rewrite Eq).
      apply (proj2 (He Hu)) in Ho. congruence.
    + assert (Ho : owns s (ss_sem e) (OShared j)) by (by exists d).
      apply (proj2 (He Hu')) in Ho. congruence.
    + assert (E : OShared j = OShared k) by (eapply I6; [by exists d|by exists d']). by injection E.
Qed.

Lemma kinv_add_sem N g s v m : kinv N g s → 0 ≤ v → k_next s < m →
  kinv (N + v) g (set_sems (<[k_next s := mkSem v [] false]> (k_sems s)) (set_next m s)).
Proof.
  intros H Hv Hm. pose proof H as [I0 [I1 I1'] I2 (I3a & I3b & I3c & I3d) I4 I5 I6 I7 I8 I9 I10].
  split; try done; kred; [lia|split; [done|cbn; lia]|keep_sched I2|..].
  - unfold below in *. kred. split_and!; intros k Hk.
    + apply lookup_insert_is_Some' in Hk as [<-|Hk]; [lia|]. specialize (I3a k Hk). lia.
    + specialize (I3b k Hk). lia.
    + specialize (I3c k Hk). lia.
    + specialize (I3d k Hk). lia.
  - intros q c [[<- <-]|[_ Hc]]%lookup_insert_Some; [|destruct (I4 q c Hc); split; [done|lia]].
    split; [|cbn; lia]. split; cbn; [done|lia|]. intros x Hx. by apply elem_of_nil in Hx.
  - intros q o Ho. apply lookup_insert_is_Some'. right. by apply (I5 q o).
Qed.

Lemma kinv_drop_sem N g s q : kinv N g s → (∀ o, ¬ owns s q o) → kinv N g (set_sems (delete q (k_sems s)) s).
Proof.
  intros H Hq. pose proof H as [I0 I1 I2 (I3a & I3b & I3c & I3d) I4 I5 I6 I7 I8 I9 I10]. split; try done; kred.
  - keep_sched I2.
  - split_and!; try done. intros k Hk. apply I3a. destruct Hk as [c [_ Hc]%lookup_delete_Some]. by exists c.
  - intros k c [_ Hc]%lookup_delete_Some. by apply (I4 k).
  - intros k o Ho. rewrite lookup_delete_ne; [by apply (I5 k o)|]. intros <-. by apply (Hq o).
Qed.

(** ** The operations, case by case *)

(** The table is consulted and changed between taking the lock and releasing it. *)
Definition locked (s : kst) : kst := set_tableLock true s.
(** The entry of a name changes. *)
Definition reentered (i : nat) (e : SharedSem) (s : kst) : kst := set_shared (<[i := e]> (sharedTable s)) s.

Lemma unlocked s : tableLock s = false → set_tableLock false (locked s) = s.
Proof. destruct s. cbn. by intros <-. Qed.
Lemma unlocked_entry i e s : tableLock s = false →
  set_tableLock false (set_entry (Z.of_nat i) e (locked s)) = reentered i e s.
Proof. unfold set_entry. rewrite Nat2Z.id. destruct s. cbn. by intros <-. Qed.

Lemma acquire_eq s : tableLock s = false → acquire_table s = KDone (locked s) ().
Proof. intros E. unfold acquire_table. ksimp. by rewrite E. Qed.
Lemma release_eq s : release_table s = KDone (set_tableLock false s) ().
Proof. done. Qed.

Lemma find_locked n s : findByName n (locked s) = findByName n s.
Proof. done. Qed.
Lemma slot_locked s : findFreeSlot (locked s) = findFreeSlot s.
Proof. done. Qed.
Lemma entry_locked i s : entry i (locked s) = entry i s.
Proof. done. Qed.

Lemma found_index R n s i e : named R s → found n s i e → findByName n s = Z.of_nat i ∧ entry (Z.of_nat i) s = e.
Proof.
  intros H F. destruct (findByName_spec n s) as [(j & d & F' & ->)|[M _]]; [|by destruct (M i e)].
  destruct (found_eq R n s i e j d H F F') as [-> ->]. split; [done|]. unfold entry. rewrite Nat2Z.id.
  by rewrite (proj1 F').
Qed.
Lemma missing_index n s : missing n s → findByName n s = -1.
Proof. intros M. destruct (findByName_spec n s) as [(j & d & F & _)|[_ ->]]; [by destruct (M j d)|done]. Qed.

(** One step of a sequence: the first operation has ended. *)
Ltac mon := repeat (progress (cbn [kbind mret K_ret kget kmod]; rewrite ?kbind_eq)).
Ltac release := mon; rewrite release_eq; mon.

Section Names.
Context (R : Z) (n : cstring) (s : kst) (H : named R s) (HR : R < 2 ^ 31 - 1).

Let lock : tableLock s = false := nm_free R s H.

Lemma lookup_found i e : found n s i e → lookup_sem n s = KDone s (ss_sem e).
Proof.
  intros F. destruct (found_index R n s i e H F) as [E1 E2]. unfold lookup_sem. rewrite kbind_eq, acquire_eq by done.
  mon. rewrite find_locked, E1, entry_locked, E2, (proj2 (Z.leb_le 0 (Z.of_nat i))) by lia.
  release. by rewrite unlocked.
Qed.
Lemma lookup_missing : missing n s → lookup_sem n s = KDone s 0.
Proof.
  intros M. unfold lookup_sem. rewrite kbind_eq, acquire_eq by done. mon. rewrite find_locked, missing_index by done.
  release. by rewrite unlocked.
Qed.

Context (Hn : n ≠ []).

Lemma open_again_eq i e v : found n s i e →
  sharedSemOpen (Some n) v s = KDone (reentered i (mkShared true n (ss_sem e) (ss_refCount e + 1)) s) 0.
Proof.
  intros F. destruct (found_index R n s i e H F) as [E1 E2]. destruct F as (Hi & Hu & Hnm).
  pose proof (nm_refs _ _ H i e Hi Hu). unfold sharedSemOpen. destruct n as [|x l] eqn:En; [done|]. rewrite <- En in *.
  rewrite kbind_eq, acquire_eq by done. mon. rewrite find_locked, E1, (proj2 (Z.leb_le 0 (Z.of_nat i))) by lia.
  release. by rewrite entry_locked, E2, Hu, Hnm, i32_small, unlocked_entry by (done || lia).
Qed.

Lemma open_full_eq v : missing n s → (∀ i e, sharedTable s !! i = Some e → ss_used e = true) →
  sharedSemOpen (Some n) v s = KDone s (-1).
Proof.
  intros M Hu. unfold sharedSemOpen. destruct n as [|x l] eqn:En; [done|]. rewrite <- En in *.
  rewrite kbind_eq, acquire_eq by done. mon. rewrite find_locked, slot_locked, missing_index by done.
  destruct (findFreeSlot_spec s) as [(i & e & Hi & He & _)|[_ ->]]; [by rewrite (Hu i e Hi) in He|].
  cbn [Z.leb Z.ltb Z.compare]. release. by rewrite unlocked.
Qed.

(** The name fits in its field and memory lasts. *)
Lemma open_new_eq i v : missing n s → findFreeSlot s = Z.of_nat i → len n < 32 → mem_ok s → ∃ m, k_next s < m ∧
  sharedSemOpen (Some n) v s = KDone (reentered i (mkShared true n (k_next s) 1)
    (set_sems (<[k_next s := mkSem v [] false]> (k_sems s)) (set_next m s))) 0.
Proof.
  intros M Hi Hl Hm. destruct (newSemaphore_ok v (locked s)) as (m & Hlt & E); [done|]. exists m. split; [done|].
  unfold sharedSemOpen. destruct n as [|x l] eqn:En; [done|]. rewrite <- En in *.
  rewrite kbind_eq, acquire_eq by done. mon. rewrite find_locked, slot_locked, missing_index, Hi by done.
  cbn [Z.leb Z.ltb Z.compare]. rewrite (proj2 (Z.ltb_ge (Z.of_nat i) 0)) by lia. mon. rewrite E. mon.
  destruct Hm as [_ Hm]. change (k_next (locked s)) with (k_next s). rewrite (proj2 (Z.eqb_neq (k_next s) 0)) by lia.
  unfold name_overflow, SEM_NAME_MAX. rewrite (proj2 (Z.ltb_ge 0 _)) by lia. release.
  by rewrite <- unlocked_entry.
Qed.

Lemma close_missing_eq : missing n s → sharedSemClose (Some n) s = KDone s (-1).
Proof.
  intros M. unfold sharedSemClose. destruct n as [|x l] eqn:En; [done|]. rewrite <- En in *.
  rewrite kbind_eq, acquire_eq by done. mon. rewrite find_locked, missing_index by done.
  cbn [Z.ltb Z.compare]. release. by rewrite unlocked.
Qed.

Lemma close_eq i e : found n s i e → sharedSemClose (Some n) s =
  (if ss_refCount e =? 1 then _ ← freeSemaphore (ss_sem e); mret 0 else mret 0)
    (reentered i (if ss_refCount e =? 1 then mkShared false n 0 0 else mkShared true n (ss_sem e) (ss_refCount e - 1)) s).
Proof.
  intros F. destruct (found_index R n s i e H F) as [E1 E2]. destruct F as (Hi & Hu & Hnm).
  pose proof (nm_refs _ _ H i e Hi Hu). unfold sharedSemClose. destruct n as [|x l] eqn:En; [done|]. rewrite <- En in *.
  rewrite kbind_eq, acquire_eq by done. mon. rewrite find_locked, E1, entry_locked, E2, Hu, Hnm, i32_small by lia.
  rewrite (proj2 (Z.ltb_ge (Z.of_nat i) 0)) by lia. destruct (Z.eqb_spec (ss_refCount e) 1) as [E|E].
  - rewrite E. change (1 - 1 <=? 0) with true. cbv iota. release. by rewrite unlocked_entry.
  - rewrite (proj2 (Z.leb_gt (ss_refCount e - 1) 0)) by lia. release. by rewrite unlocked_entry.
Qed.

Lemma wait_eq i e : found n s i e → ss_sem e ≠ 0 → sharedSemWait (Some n) s = semWait (ss_sem e) s.
Proof.
  intros F Hs. unfold sharedSemWait. destruct n as [|x l] eqn:En; [done|]. rewrite <- En in *.
  rewrite kbind_eq, (lookup_found i e) by done. cbn [kbind]. by rewrite (proj2 (Z.eqb_neq _ 0)).
Qed.
Lemma post_eq i e : found n s i e → ss_sem e ≠ 0 → sharedSemPost (Some n) s = semPost (ss_sem e) s.
Proof.
  intros F Hs. unfold sharedSemPost. destruct n as [|x l] eqn:En; [done|]. rewrite <- En in *.
  rewrite kbind_eq, (lookup_found i e) by done. cbn [kbind]. by rewrite (proj2 (Z.eqb_neq _ 0)).
Qed.
Lemma wait_missing_eq : missing n s → sharedSemWait (Some n) s = KDone s (-1).
Proof.
  intros M. unfold sharedSemWait. destruct n as [|x l] eqn:En; [done|]. rewrite <- En in *.
  by rewrite kbind_eq, lookup_missing.
Qed.
Lemma post_missing_eq : missing n s → sharedSemPost (Some n) s = KDone s (-1).
Proof.
  intros M. unfold sharedSemPost. destruct n as [|x l] eqn:En; [done|]. rewrite <- En in *.
  by rewrite kbind_eq, lookup_missing.
Qed.

End Names.

(** ** What a name stands for *)

(** The units a caller can take and the number of times the name is open. *)
Definition view (s : kst) (n : cstring) : option (Z * Z) :=
  if findByName n s <? 0 then None
  else
    let e := entry (findByName n s) s in
    c ← k_sems s !! ss_sem e; Some (Z.max 0 (sem_value c), ss_refCount e).

(** The name [n] now stands for [o], every other name for what it did. *)
Definition rebinds (n : cstring) (o : option (Z * Z)) (s s' : kst) : Prop :=
  ∀ x, view s' x = if bool_decide (x = n) then o else view s x.

Lemma view_found R n s i e : named R s → found n s i e →
  view s n = (λ c, (Z.max 0 (sem_value c), ss_refCount e)) <$> (k_sems s !! ss_sem e).
Proof.
  intros H F. destruct (found_index R n s i e H F) as [E1 E2]. unfold view. rewrite E1, E2, (proj2 (Z.ltb_ge _ 0)) by lia.
  by destruct (k_sems s !! ss_sem e).
Qed.
Lemma view_missing n s : missing n s → view s n = None.
Proof. intros M. unfold view. by rewrite missing_index. Qed.

Lemma found_or_missing n s : (∃ i e, found n s i e) ∨ missing n s.
Proof. destruct (findByName_spec n s) as [(i & e & F & _)|[M _]]; [left; by exists i, e|by right]. Qed.

Lemma view_same R n s s' : named R s → named R s' → (∀ i e, found n s' i e ↔ found n s i e) →
  (∀ i e, found n s i e → k_sems s' !! ss_sem e = k_sems s !! ss_sem e) → view s' n = view s n.
Proof.
  intros H H' Hf Hs. destruct (found_or_missing n s) as [(i & e & F)|M].
  - rewrite (view_found R n s i e), (view_found R n s' i e) by (done || by apply Hf). by rewrite (Hs i e).
  - rewrite !view_missing; [done|done|]. intros i e F%Hf. by apply (M i e).
Qed.

(** The semaphore of another name is another semaphore. *)
Lemma other_sem N g n x s i j e d : kinv N g s → found n s i e → found x s j d → x ≠ n → ss_sem d ≠ ss_sem e.
Proof.
  intros H (Hi & Hu & Hn) (Hj & Hv & Hx) Hne Eq. apply Hne.
  assert (E : OShared i = OShared j) by (apply (ki_owner _ _ _ H (ss_sem e)); [by exists e|by exists d]).
  injection E as <-. congruence.
Qed.

(** The entry [i], which was free or [n]'s, is now free or [n]'s, and no semaphore has changed
    but [n]'s. *)
Lemma rebinds_entry R n o s s' i e' q : named R s → named R s' →
  sharedTable s' = <[i := e']> (sharedTable s) → (i < length (sharedTable s))%nat →
  (∀ e, sharedTable s !! i = Some e → ss_used e = true → ss_name e = n) → ss_name e' = n →
  (∀ x j d, found x s j d → x ≠ n → ss_sem d ≠ q) → (∀ k, k ≠ q → k_sems s' !! k = k_sems s !! k) →
  view s' n = o → rebinds n o s s'.
Proof.
  intros H H' E Hi Ho Hn Hq Hs Hv x. case_bool_decide as Hx; [by rewrite Hx|].
  apply (view_same R); try done.
  - intros j d. unfold found. rewrite E. destruct (decide (j = i)) as [->|Hj]; [|by rewrite list_lookup_insert_ne].
    rewrite list_lookup_insert_eq by done. split; [intros ([=<-] & _ & ?)|intros (Hd & Hu & ?)]; [congruence|].
    specialize (Ho d Hd Hu). congruence.
  - intros j d F. apply Hs. by apply (Hq x j d).
Qed.

(** Only the semaphore of [n] changes. *)
Lemma rebinds_sem R n o s s' q : named R s → named R s' → sharedTable s' = sharedTable s →
  (∀ x j d, found x s j d → x ≠ n → ss_sem d ≠ q) → (∀ k, k ≠ q → k_sems s' !! k = k_sems s !! k) →
  view s' n = o → rebinds n o s s'.
Proof.
  intros H H' E Hq Hs Hv x. case_bool_decide as Hx; [by rewrite Hx|].
  apply (view_same R); try done.
  - intros j d. unfold found. by rewrite E.
  - intros j d F. apply Hs. by apply (Hq x j d).
Qed.

(** ** Opening and closing *)

(** The objects other than semaphores, and what lineage and scheduling look at, are as before. *)
Record beside (s s' : kst) : Prop := {
  bs_procs : k_procs s' = k_procs s;
  bs_pipes : k_pipes s' = k_pipes s;
  bs_files : k_files s' = k_files s;
  bs_table : processTable s' = processTable s;
  bs_current : currentProcess s' = currentProcess s;
}.

Lemma sound_beside N N' s s' : sound N s → kinv N' no_ghost s' → beside s s' → sound N' s'.
Proof.
  intros [[_ T] [F1 F2 F3]] H [B1 B2 B3 B4 B5]. split; [split; [done|]|split; rewrite ?B1, ?B4; done].
  apply (tight_same s); [done|done|by rewrite B1|by rewrite B2].
Qed.
Lemma lineage_beside s s' : lineage s → beside s s' → lineage s'.
Proof. intros [L1 L2] [B1 _ _ B4 _]. by split; rewrite ?B1, B4. Qed.

(** The kernel between two calls on named semaphores, [N] bounding their values and references. *)
Definition shares (N : Z) (s : kst) : Prop := sound N s ∧ lineage s ∧ named N s.

Lemma shares_sem N s n i e : shares N s → found n s i e → ∃ c, k_sems s !! ss_sem e = Some c ∧ ss_sem e ≠ 0 ∧
  sem_ok c ∧ - 2 ^ 20 - N ≤ sem_value c ≤ N ∧ owns s (ss_sem e) (OShared i) ∧ view s n = Some (Z.max 0 (sem_value c), ss_refCount e).
Proof.
  intros (Hsd & _ & Hn) F. pose proof (proj1 (proj1 Hsd)) as H. pose proof F as (Hi & Hu & _).
  assert (Ho : owns s (ss_sem e) (OShared i)) by (by exists e). destruct (ki_live _ _ _ H _ _ Ho) as [c Hc].
  exists c. split; [done|]. split; [intros E0; destruct (kinv_pos _ _ _ H) as (_ & _ & _ & E); congruence|].
  destruct (ki_sem _ _ _ H _ _ Hc). split; [done|]. split; [done|]. split; [done|]. rewrite (view_found N n s i e) by done. by rewrite Hc.
Qed.

Lemma entry_shares N N' s s' i e : shares N s → N ≤ N' → kinv N' no_ghost s' → beside s s' → tableLock s' = false →
  sharedTable s' = <[i := e]> (sharedTable s) →
  (ss_used e = true → 1 ≤ ss_refCount e ≤ N' ∧ ∀ j d, found (ss_name e) s j d → j = i) → shares N' s'.
Proof.
  intros (Hsd & L & Hn) HN H' B Hl E He. split; [by apply (sound_beside N _ s)|]. split; [by apply (lineage_beside s)|].
  by apply (named_insert N N' s s' i e).
Qed.

Lemma named_mono N N' s : named N s → N ≤ N' → named N' s.
Proof. intros H HN. by apply (named_same N N' s). Qed.

(** [open] of a name that is open counts one more reference; of another one it starts it at the
    value given, or answers -1 when the table is full. *)
Lemma open_spec N s (n : cstring) v : shares N s → n ≠ [] → len n < 32 → 0 ≤ v → N + 1 + v ≤ 2 ^ 30 →
  ∃ s' r, sharedSemOpen (Some n) v s = KDone s' r ∧ shares (N + 1 + v) s' ∧ beside s s' ∧
   ((view s n = None ∧ r = 0 ∧ rebinds n (Some (v, 1)) s s') ∨
    (∃ w k, view s n = Some (w, k) ∧ r = 0 ∧ rebinds n (Some (w, k + 1)) s s') ∨
    (view s n = None ∧ (∀ i e, sharedTable s !! i = Some e → ss_used e = true) ∧ r = -1 ∧ s' = s)).
Proof.
  intros S Hne Hlen Hv HN. pose proof S as (Hsd & L & Hn). pose proof (proj1 (proj1 Hsd)) as H. pose proof (ki_bound _ _ _ H).
  pose proof (named_mono _ (N + 1 + v) _ Hn ltac:(lia)) as Hn'.
  destruct (found_or_missing n s) as [(i & e & F)|M].
  - destruct (shares_sem N s n i e S F) as (c & Hc & Hq & Hok & Hr & Ho & Hw). pose proof F as (Hi & Hu & Hnm).
    pose proof (nm_refs _ _ Hn i e Hi Hu). set (e' := mkShared true n (ss_sem e) (ss_refCount e + 1)).
    exists (reentered i e' s), 0. rewrite (open_again_eq N n s Hn ltac:(lia) Hne i e v F). split; [done|].
    assert (S' : shares (N + 1 + v) (reentered i e' s)).
    { apply (entry_shares N _ s _ i e'); try done; [lia| | |].
      - apply (kinv_mono N); [|lia]. apply kinv_entry; [done|]. intros _. split; [by exists c|]. intros o Ho'. by apply (ki_owner _ _ _ H (ss_sem e)).
      - apply Hn.
      - intros _. split; [cbn; lia|]. intros j d F'. by destruct (found_eq N n s i e j d Hn F F'). }
    split; [done|]. split; [done|]. right; left. exists (Z.max 0 (sem_value c)), (ss_refCount e). split; [done|]. split; [done|].
    apply (rebinds_entry (N + 1 + v) n _ s _ i e' (ss_sem e)); try done; [apply S'|by eapply lookup_lt_Some|intros d Hd _; congruence| |].
    + intros x j d Fx Hx. by apply (other_sem N no_ghost n x s i j e d).
    + rewrite (view_found (N + 1 + v) n _ i e'); [cbn; by rewrite Hc|apply S'|].
      split; [|done]. apply list_lookup_insert_eq. by eapply lookup_lt_Some.
  - destruct (findFreeSlot_spec s) as [(i & e & Hi & He & Es)|[Hall _]].
    + destruct (open_new_eq N n s Hn Hne i v M Es Hlen (ki_mem _ _ _ H)) as (m & Hm & E).
      set (e' := mkShared true n (k_next s) 1) in *. set (s1 := set_sems _ _) in *.
      assert (Hfresh : ∀ o, ¬ owns s (k_next s) o).
      { intros o Ho. destruct (proj1 (ki_below _ _ _ H) (k_next s)) as [_ Hlt]; [by apply (ki_live _ _ _ H _ o)|lia]. }
      pose proof (kinv_add_sem N no_ghost s v m H Hv Hm) as H1. fold s1 in H1.
      exists (reentered i e' s1), 0. split; [done|].
      assert (S' : shares (N + 1 + v) (reentered i e' s1)).
      { apply (entry_shares N _ s _ i e'); try done; [lia| | |].
        - apply (kinv_mono (N + v)); [|lia]. apply kinv_entry; [done|]. intros _. cbn [ss_sem e']. split.
          + unfold s1. kred. rewrite lookup_insert_eq. by eexists.
          + intros o Ho. by destruct (Hfresh o).
        - apply Hn.
        - intros _. split; [cbn; lia|]. intros j d F'. by destruct (M j d). }
      split; [done|]. split; [done|]. left. split; [by apply view_missing|]. split; [done|].
      apply (rebinds_entry (N + 1 + v) n _ s _ i e' (k_next s)); try done; [apply S'|by eapply lookup_lt_Some|intros d Hd Hu; congruence| | |].
      * intros x j d (Hj & Hu & _) _ Eq. destruct (Hfresh (OShared j)). by exists d.
      * intros k Hk. cbn. by rewrite lookup_insert_ne.
      * rewrite (view_found (N + 1 + v) n _ i e'); [|apply S'|split; [|done]; apply list_lookup_insert_eq; by eapply lookup_lt_Some].
        cbn. rewrite lookup_insert_eq. cbn. by rewrite Z.max_r.
    + exists s, (-1). split; [by apply (open_full_eq N)|]. split; [|split; [done|]].
      * split; [apply (sound_mono N); [done|lia]|done].
      * right; right. split; [by apply view_missing|done].
Qed.

(** The semaphore goes, unless somebody waits on it. *)
Lemma free_any q s c : k_sems s !! q = Some c → sem_lock c = false → q ≠ 0 → freeSemaphore q s =
  KDone (match blockedQueue c with [] => set_sems (delete q (k_sems s)) s | _ => s end) ().
Proof.
  intros Hc Hl Hq. unfold freeSemaphore. rewrite (proj2 (Z.eqb_neq q 0)) by done.
  rewrite kbind_eq, (ACQUIRE_eq _ _ c) by done. kred. rewrite kbind_eq. erewrite kload_some by (kred; apply lookup_insert_eq).
  kred. cbn [blockedQueue set_lock]. destruct (blockedQueue c) as [|x l] eqn:E.
  - unfold kfree_sem, kmod. kred. by rewrite delete_insert_eq.
  - unfold RELEASE. erewrite kstore_sem_eq by (kred; apply lookup_insert_eq). kred. rewrite insert_insert_eq.
    replace (set_lock false (set_lock true c)) with c; [rewrite insert_id by done; by destruct s|].
    destruct c; cbn in *; by subst.
Qed.

Lemma found_reentered n s i e j d : (i < length (sharedTable s))%nat →
  found n (reentered i e s) j d ↔ (j = i ∧ d = e ∧ ss_used e = true ∧ ss_name e = n) ∨ (j ≠ i ∧ found n s j d).
Proof.
  intros Hi. unfold found, reentered. kred. destruct (decide (j = i)) as [->|Hj].
  - rewrite list_lookup_insert_eq by done. split; [intros ([=<-] & ? & ?); by left|intros [(_ & -> & ? & ?)|[? _]]; done].
  - rewrite list_lookup_insert_ne by done. split; [by right|by intros [[? _]|[_ ?]]].
Qed.

(** [close] gives a reference back; the last one takes the name away. *)
Lemma close_spec N s (n : cstring) : shares N s → n ≠ [] → N < 2 ^ 31 - 1 →
  ∃ s' r, sharedSemClose (Some n) s = KDone s' r ∧ shares N s' ∧ beside s s' ∧
   ((view s n = None ∧ r = -1 ∧ s' = s) ∨
    (∃ w k, view s n = Some (w, k) ∧ r = 0 ∧ rebinds n (if k - 1 <=? 0 then None else Some (w, k - 1)) s s')).
Proof.
  intros S Hne HN. pose proof S as (Hsd & L & Hn). pose proof (proj1 (proj1 Hsd)) as H.
  destruct (found_or_missing n s) as [(i & e & F)|M].
  2: { exists s, (-1). split; [by apply (close_missing_eq N)|]. split; [done|]. split; [done|]. left. split; [by apply view_missing|done]. }
  destruct (shares_sem N s n i e S F) as (c & Hc & Hq & Hok & Hr & Ho & Hw). pose proof F as (Hi & Hu & Hnm).
  pose proof (nm_refs _ _ Hn i e Hi Hu). rewrite (close_eq N n s Hn HN Hne i e F).
  assert (Hil : (i < length (sharedTable s))%nat) by (by eapply lookup_lt_Some).
  assert (Honly : ∀ o, owns s (ss_sem e) o → o = OShared i) by (intros o Ho'; by apply (ki_owner _ _ _ H (ss_sem e))).
  assert (Hoth : ∀ x j d, found x s j d → x ≠ n → ss_sem d ≠ ss_sem e) by (intros x j d Fx Hx; by apply (other_sem N no_ghost n x s i j e d)).
  destruct (Z.eqb_spec (ss_refCount e) 1) as [E1|E1].
  - set (e' := mkShared false n 0 0).
    assert (S1 : shares N (reentered i e' s)).
    { apply (entry_shares N N s _ i e'); try done; [by apply kinv_entry|apply Hn]. }
    assert (Hfree : ∀ o, ¬ owns (reentered i e' s) (ss_sem e) o).
    { intros o Ho'. destruct o as [p k|p k|k]; [by specialize (Honly (OPipe p k) Ho')|by specialize (Honly (OProc p k) Ho')|].
      destruct Ho' as (d & Hd & Hv & Hs). destruct (proj1 (found_reentered (ss_name d) s i e' k d Hil)) as [(_ & -> & ? & _)|[Hk F']]; try done.
      assert (Eq : OShared k = OShared i) by (apply Honly; exists d; by destruct F' as (? & ? & _)). by injection Eq. }
    rewrite kbind_eq, (free_any _ _ c) by (done || apply Hok). cbn [kbind mret K_ret].
    set (s' := match blockedQueue c with [] => _ | _ => _ end).
    assert (B : beside (reentered i e' s) s') by (unfold s'; by destruct (blockedQueue c)).
    assert (Et : sharedTable s' = <[i := e']> (sharedTable s)) by (unfold s'; by destruct (blockedQueue c)).
    assert (S' : shares N s').
    { destruct S1 as (A1 & A2 & A3). split; [|split; [by apply (lineage_beside (reentered i e' s))|]].
      - apply (sound_beside N N (reentered i e' s)); [done| |done]. unfold s'.
        destruct (blockedQueue c); [apply kinv_drop_sem; [apply A1|done]|apply A1].
      - apply (named_same N N (reentered i e' s)); [done|lia|]. unfold s'. by destruct (blockedQueue c). }
    exists s', 0. split; [done|]. split; [done|]. split; [by destruct B; split|]. right. exists (Z.max 0 (sem_value c)), (ss_refCount e).
    split; [done|]. split; [done|]. rewrite E1. change (1 - 1 <=? 0) with true. cbv iota.
    apply (rebinds_entry N n _ s s' i e' (ss_sem e)); try done; [apply S'|intros d Hd _; congruence| |].
    + intros k Hk. unfold s'. destruct (blockedQueue c); kred; [by rewrite lookup_delete_ne|done].
    + apply view_missing. intros j d (Hj & Hd & Hx). rewrite Et in Hj.
      destruct (proj1 (found_reentered n s i e' j d Hil)) as [(_ & _ & ? & _)|[Hji F']]; [done|done|].
      by destruct (found_eq N n s i e j d Hn F F') as [-> _].
  - set (e' := mkShared true n (ss_sem e) (ss_refCount e - 1)).
    assert (S' : shares N (reentered i e' s)).
    { apply (entry_shares N N s _ i e'); try done; [|apply Hn|].
      - apply kinv_entry; [done|]. intros _. split; [by exists c|done].
      - intros _. split; [cbn; lia|]. intros j d F'. by destruct (found_eq N n s i e j d Hn F F'). }
    exists (reentered i e' s), 0. split; [done|]. split; [done|]. split; [done|]. right. exists (Z.max 0 (sem_value c)), (ss_refCount e).
    split; [done|]. split; [done|]. rewrite (proj2 (Z.leb_gt _ 0)) by lia.
    apply (rebinds_entry N n _ s _ i e' (ss_sem e)); try done; [apply S'|intros d Hd _; congruence|].
    rewrite (view_found N n _ i e'); [cbn; by rewrite Hc|apply S'|apply found_reentered; [done|by left]].
Qed.

(** ** Waiting and posting *)

(** One process changes its state. *)
Record restated (s s' : kst) (p : Z) (pc : processCDT) (st : State) : Prop := {
  rs_old : k_procs s !! p = Some pc;
  rs_procs : k_procs s' = <[p := with_state st pc]> (k_procs s);
  rs_pipes : k_pipes s' = k_pipes s;
  rs_files : k_files s' = k_files s;
  rs_table : processTable s' = processTable s;
  rs_names : same_names s s';
}.

Lemma sound_restated N N' s s' p pc st : sound N s → kinv N' no_ghost s' → restated s s' p pc st → st ≠ ZOMBIE → sound N' s'.
Proof.
  intros [[_ T] [F1 F2 F3]] H [R1 R2 R3 R4 R5 _] Hz. split; [split; [done|]|split; rewrite ?R2, ?R5].
  - apply (tight_same s); [done|done| |by rewrite R3]. intros fa. rewrite R2, (sum_of_update _ _ _ pc) by done.
    unfold slots at 2 3. cbn [fdTable with_state]. lia.
  - intros q d [[<- <-]|[_ Hd]]%lookup_insert_Some; [exact (F1 _ pc R1)|by apply F1].
  - intros q d [[<- <-]|[_ Hd]]%lookup_insert_Some; [exact (F2 _ pc R1)|by apply (F2 q)].
  - intros q d [[<- <-]|[_ Hd]]%lookup_insert_Some; [done|by apply (F3 q)].
Qed.
Lemma lineage_restated s s' p pc st : lineage s → restated s s' p pc st → lineage s'.
Proof.
  intros [L1 L2] [R1 R2 _ _ R5 _]. split; rewrite R5; [done|]. rewrite R2.
  intros q d [[<- <-]|[_ Hd]]%lookup_insert_Some; [exact (L2 _ pc R1)|by apply (L2 q)].
Qed.
Lemma shares_restated N N' s s' p pc st : shares N s → N ≤ N' → kinv N' no_ghost s' → restated s s' p pc st → st ≠ ZOMBIE → shares N' s'.
Proof.
  intros (Hsd & L & Hn) HN H Re Hz. split; [by apply (sound_restated N N' s s' p pc st)|].
  split; [by apply (lineage_restated s s' p pc st)|]. apply (named_same N N' s); [done|done|apply Re].
Qed.

(** Who waits on the semaphore of a name. *)
Definition waiters (s : kst) (n : cstring) : list Z :=
  default [] (blockedQueue <$> k_sems s !! ss_sem (entry (findByName n s) s)).

Lemma waiters_found R n s i e c : named R s → found n s i e → k_sems s !! ss_sem e = Some c → waiters s n = blockedQueue c.
Proof. intros H F Hc. destruct (found_index R n s i e H F) as [E1 E2]. unfold waiters. by rewrite E1, E2, Hc. Qed.

(** The semaphore of [n] alone has changed, to [c']. *)
Lemma rebinds_to N N' s s' n i e c' : shares N s → N ≤ N' → found n s i e → same_names s s' → named N' s' →
  k_sems s' = <[ss_sem e := c']> (k_sems s) →
  rebinds n (Some (Z.max 0 (sem_value c'), ss_refCount e)) s s' ∧ waiters s' n = blockedQueue c'.
Proof.
  intros (Hsd & _ & Hn) HN F [Et El] Hn' Es. pose proof (proj1 (proj1 Hsd)) as H.
  assert (F' : found n s' i e) by (unfold found; by rewrite Et). assert (Hc' : k_sems s' !! ss_sem e = Some c') by (rewrite Es; apply lookup_insert_eq).
  split; [|by apply (waiters_found N' n s' i e)]. apply (rebinds_sem N' n _ s s' (ss_sem e)); try done; [by apply (named_mono N)| | |].
  - intros x j d Fx Hx. by apply (other_sem N no_ghost n x s i j e d).
  - intros k Hk. by rewrite Es, lookup_insert_ne.
  - rewrite (view_found N' n s' i e) by done. by rewrite Hc'.
Qed.

(** [wait] takes a unit, or puts the caller to sleep behind those who wait already. *)
Lemma wait_spec N s (n : cstring) pid : shares N s → n ≠ [] → N + 1 ≤ 2 ^ 30 →
  processTable s !! pid = Some (currentProcess s) → state_of s pid = Some RUNNING → pid ≠ IDLE_PID →
  (view s n = None ∧ sharedSemWait (Some n) s = KDone s (-1)) ∨
  (∃ w k s', view s n = Some (w, k) ∧ 0 < w ∧ sharedSemWait (Some n) s = KDone s' 0 ∧ shares (N + 1) s' ∧ beside s s' ∧
     rebinds n (Some (w - 1, k)) s s') ∨
  (∃ k s', view s n = Some (0, k) ∧ sharedSemWait (Some n) s = KSwitch s' (λ s'', KDone s'' 0) ∧ shares (N + 1) s' ∧
     rebinds n (Some (0, k)) s s' ∧ waiters s' n = waiters s n ++ [pid] ∧ state_of s' pid = Some BLOCKED).
Proof.
  intros S Hne HN Ht Hrun Hid. pose proof S as (Hsd & L & Hn). pose proof (proj1 (proj1 Hsd)) as H.
  pose proof (named_mono _ (N + 1) _ Hn ltac:(lia)) as Hn'.
  destruct (found_or_missing n s) as [(i & e & F)|M].
  2: { left. split; [by apply view_missing|by apply (wait_missing_eq N)]. }
  right. destruct (shares_sem N s n i e S F) as (c & Hc & Hq & Hok & Hr & Ho & Hw).
  rewrite (wait_eq N n s Hn Hne i e F Hq). assert (Hir : in_range c) by (unfold in_range; lia).
  pose proof (kinv_mono N (N + 1) no_ghost s H ltac:(lia)) as H1. destruct (Z.lt_ge_cases 0 (sem_value c)) as [Hv|Hv].
  - left. set (c' := mkSem (sem_value c - 1) (blockedQueue c) false). set (s' := set_sems (<[ss_sem e := c']> (k_sems s)) s).
    assert (S' : shares (N + 1) s').
    { split; [|split; [by apply (lineage_beside s)|by apply (named_same (N + 1) (N + 1) s)]]. apply (sound_beside N _ s); [done| |done].
      apply (kinv_sem _ _ s _ c c'); [done|done| |cbn; lia]. destruct Hok. split; cbn; [done|lia|done]. }
    exists (sem_value c), (ss_refCount e), s'. split; [rewrite Hw; f_equal; f_equal; lia|]. split; [done|].
    split; [by apply semWait_go|]. split; [done|]. split; [done|].
    replace (sem_value c - 1) with (Z.max 0 (sem_value c')) by (cbn; lia).
    apply (rebinds_to N (N + 1) s s' n i e c'); try done; [lia|apply S'].
  - right. destruct (state_of_some _ _ _ Hrun) as (p & pc & Ht' & Hpc & Hst). assert (p = currentProcess s) as -> by congruence.
    pose proof (ki_sched _ _ _ H) as Hs. destruct (si_table _ Hs _ _ Ht) as (Hrg & Hp0 & c0 & Hc0 & Hpid). assert (c0 = pc) as -> by congruence.
    set (c' := mkSem (sem_value c - 1) (blockedQueue c ++ [pid]) false).
    destruct (semWait_sleeps (ss_sem e) s c pid (ki_mem _ _ _ H) Hs Hc Hok Hir Hq Hv Ht Hrun Hid) as (s' & E & Hm' & Hs' & Hb & _ & _ & _ & Hok').
    rewrite (semWait_block (ss_sem e) s c pid _ pc) in E by (done || apply H). injection E as E.
    assert (Re : restated s s' (currentProcess s) pc BLOCKED) by (by rewrite <- E).
    assert (K : kinv (N + 1) no_ghost s').
    { apply (kinv_proc (N + 1) no_ghost (set_sems (<[ss_sem e := c']> (k_sems s)) s) s' (currentProcess s) pc (with_state BLOCKED pc)); try (by rewrite <- E); try done.
      - apply (kinv_sem _ _ s _ c c'); [done|done|done|cbn; lia].
      - rewrite <- E. kred. lia. }
    assert (S' : shares (N + 1) s') by (apply (shares_restated N (N + 1) s s' (currentProcess s) pc BLOCKED); try done; lia).
    destruct (rebinds_to N (N + 1) s s' n i e c') as [Hre Hwa]; try done; [lia|by rewrite <- E|apply S'|by rewrite <- E|].
    exists (ss_refCount e), s'. split; [rewrite Hw; f_equal; f_equal; lia|]. split; [rewrite (semWait_block (ss_sem e) s c pid _ pc) by (done || apply H); by rewrite E|].
    split; [done|]. split; [replace 0 with (Z.max 0 (sem_value c')) by (cbn; lia); done|]. split; [|done].
    by rewrite Hwa, (waiters_found N n s i e c).
Qed.

(** [post] adds a unit, which the first waiter that is still blocked takes at once. *)
Lemma post_spec N s (n : cstring) : shares N s → n ≠ [] → N + 1 ≤ 2 ^ 30 →
  (view s n = None ∧ sharedSemPost (Some n) s = KDone s (-1)) ∨
  (∃ w k s', view s n = Some (w, k) ∧ sharedSemPost (Some n) s = KDone s' 0 ∧ shares (N + 1) s' ∧
    ((Forall (stale s) (waiters s n) ∧ beside s s' ∧ rebinds n (Some (w + 1, k)) s s') ∨
     (∃ dead pid, w = 0 ∧ waiters s n = dead ++ pid :: waiters s' n ∧ Forall (stale s) dead ∧
        state_of s pid = Some BLOCKED ∧ state_of s' pid = Some READY ∧ rebinds n (Some (0, k)) s s'))).
Proof.
  intros S Hne HN. pose proof S as (Hsd & L & Hn). pose proof (proj1 (proj1 Hsd)) as H.
  destruct (found_or_missing n s) as [(i & e & F)|M].
  2: { left. split; [by apply view_missing|by apply (post_missing_eq N)]. }
  right. destruct (shares_sem N s n i e S F) as (c & Hc & Hq & Hok & Hr & Ho & Hw).
  rewrite (post_eq N n s Hn Hne i e F Hq). assert (Hir : in_range c) by (unfold in_range; lia). pose proof (ki_sched _ _ _ H) as Hs.
  destruct (post_ok N no_ghost s (ss_sem e) H (mk_is_Some _ _ Hc) ltac:(lia)) as (s' & E & K & Fr).
  destruct (semPost_spec (ss_sem e) s c (ki_mem _ _ _ H) Hs Hc Hok Hir Hq) as (s2 & E2 & _ & _ & Hp).
  rewrite E in E2. injection E2 as <-. exists (Z.max 0 (sem_value c)), (ss_refCount e), s'. split; [done|]. split; [done|].
  pose proof Hok as [_ Hcount _]. rewrite (waiters_found N n s i e c) by done.
  destruct Hp as [(dead & pid & rest & p & pc & l & Eq & Hd & Hb & Ht & Hpc & Hl & Es)|(Hd & Es)].
  - rewrite Eq, length_app in Hcount. cbn [length] in Hcount.
    assert (Re : restated s s' p pc READY) by (by rewrite Es).
    assert (S' : shares (N + 1) s') by (apply (shares_restated N (N + 1) s s' p pc READY); try done; lia).
    split; [done|]. right. set (c' := mkSem (sem_value c + 1 + len dead) rest false) in *.
    destruct (rebinds_to N (N + 1) s s' n i e c') as [Hre Hwa]; try done; [lia|by rewrite Es|apply S'|by rewrite Es|].
    exists dead, pid. split; [lia|]. split; [by rewrite Hwa|]. split; [done|]. split; [done|]. split.
    + rewrite (state_of_eq s' pid p (with_state READY pc)); [done|by rewrite Es|rewrite Es; kred; apply lookup_insert_eq].
    + replace 0 with (Z.max 0 (sem_value c')); [done|]. cbn. lia.
  - assert (B : beside s s') by (by rewrite Es). set (c' := mkSem (Z.max (sem_value c + 1) 1) [] false) in *.
    assert (S' : shares (N + 1) s').
    { split; [by apply (sound_beside N _ s)|]. split; [by apply (lineage_beside s)|]. apply (named_same N (N + 1) s); [done|lia|by rewrite Es]. }
    split; [done|]. left. split; [done|]. split; [done|].
    destruct (rebinds_to N (N + 1) s s' n i e c') as [Hre _]; try done; [lia|by rewrite Es|apply S'|by rewrite Es|].
    replace (Z.max 0 (sem_value c) + 1) with (Z.max 0 (sem_value c')); [done|]. cbn. lia.
Qed.

End Pinned.

End NamedSems.
