(* ===== verification/Keyboard.v ===== *)
(** * The keyboard driver ([Kernel/Drivers/keyboardDriver.c]) *)

From S2P Require Import Prelude KState ProcTable Semaphore Pipe Process Scheduler.
Import ProcTable Pipe FileAccess Process Scheduler.

Module Keyboard.

Definition STDIN : Z := 0.
Definition MULTI_BYTE_SCANCODE : Z := 0xE0.
Definition KEYCODE_SHIFT : Z := 0x7F.
Definition LSHIFT : Z := 0x2A.
Definition RSHIFT : Z := 0x36.
Definition CAPSLOCK : Z := 0x3A.
Definition LCONTROL : Z := 0x1D.
Definition PRESS_C : Z := 0x2E.
Definition PRESS_D : Z := 0x20.
Definition END_OF_TEXT : Z := 0x03.
Definition END_OF_TRANSMISSION : Z := 0x04.
Definition SNAPSHOT_SCANCODE : Z := 0x40.

Definition scancodeToAscii : list Z :=
  [0; 0; 49; 50; 51; 52; 53; 54; 55; 56; 57; 48; 45; 61; 8;
   9; 113; 119; 101; 114; 116; 121; 117; 105; 111; 112; 91; 93; 10;
   0; 97; 115; 100; 102; 103; 104; 106; 107; 108; 59; 39; 96;
   0; 92; 122; 120; 99; 118; 98; 110; 109; 44; 46; 47; 0;
   42; 0; 32; 0].

Definition shiftedScancodeToAscii : list Z :=
  [0; 0; 33; 34; 35; 36; 37; 94; 38; 42; 40; 41; 95; 43; 8;
   9; 81; 87; 69; 82; 84; 89; 85; 73; 79; 80; 123; 125; 10;
   0; 65; 83; 68; 70; 71; 72; 74; 75; 76; 58; 64; 126;
   0; 124; 90; 88; 67; 86; 66; 78; 77; 60; 62; 63; 0;
   42; 0; 32; 0].

(** The driver's static variables; [registers.c] adds whether a snapshot was taken. *)
Record kbd := mkKbd {
  keyboardStatus : gset Z;     (* the pressed keycodes *)
  multiByteFlag : bool;
  capsLockActive : bool;
  keyboardBuffer : Z;
  snapshotTaken : bool;
}.

Definition kbd0 : kbd := mkKbd ∅ false false 0 false.

(** Only a writable end is accepted, and the driver holds a reference to it. *)
Definition initializeKeyboardDriver (kbdWriteEnd : Z) (k : kbd) : K kbd :=
  w ← isWritable kbdWriteEnd;
  if negb w then mret k
  else
    _ ← addFileRef kbdWriteEnd;
    mret (mkKbd (keyboardStatus k) (multiByteFlag k) (capsLockActive k) kbdWriteEnd (snapshotTaken k)).

Definition getKeyboardPipe (k : kbd) : K Z := getFilePipe (keyboardBuffer k).

Definition isPressed (keycode : Z) (k : kbd) : bool := bool_decide (keycode ∈ keyboardStatus k).

(** [sizeof(scancodeToAscii)] *)
Definition TABLE_SIZE : Z := Z.of_nat (length scancodeToAscii).
Definition table_at (t : list Z) (i : Z) : Z := default 0 (t !! Z.to_nat i).

Definition isAlpha (scancode : Z) : bool :=
  if TABLE_SIZE <=? scancode then false
  else let ascii := table_at scancodeToAscii scancode in (97 <=? ascii) && (ascii <=? 122).

Definition shouldShift (scancode : Z) (k : kbd) : bool :=
  negb (eqb (isPressed LSHIFT k || isPressed RSHIFT k) (capsLockActive k && isAlpha scancode)).

(** The answer is a [char]: 0, an ASCII code, or the code of a key without one. *)
Definition getKeyPress (scancode : Z) (k : kbd) : Z * kbd :=
  let releaseFlag := negb (Z.shiftr (Z.land scancode 0x80) 7 =? 0) in
  let code := Z.land scancode 0x7F in
  let code := if multiByteFlag k then u8 (code + KEYCODE_SHIFT) else code in
  let k1 := mkKbd (if releaseFlag then keyboardStatus k ∖ {[code]} else {[code]} ∪ keyboardStatus k)
              false (capsLockActive k) (keyboardBuffer k) (snapshotTaken k) in
  if releaseFlag then (0, k1)
  else if code =? CAPSLOCK then
    (0, mkKbd (keyboardStatus k1) false (negb (capsLockActive k1)) (keyboardBuffer k1) (snapshotTaken k1))
  else if code <? TABLE_SIZE then
    (table_at (if shouldShift code k1 then shiftedScancodeToAscii else scancodeToAscii) code, k1)
  else if KEYCODE_SHIFT <=? code then (code, k1)
  else (0, k1).

Definition processControl (scancode : Z) (k : kbd) : Z :=
  if negb (isPressed LCONTROL k) then 0
  else if scancode =? PRESS_C then END_OF_TEXT
  else if scancode =? PRESS_D then END_OF_TRANSMISSION
  else 0.

Definition requestEofOnKbdFg (k : kbd) (pid : Z) : K unit :=
  stdinFa ← getFdOnPID pid STDIN;
  r ← isReadable stdinFa;
  if (stdinFa =? 0) || negb r then mret ()
  else
    p ← getFilePipe stdinFa;
    kp ← getKeyboardPipe k;
    if negb (p =? kp) then mret () else _ ← requestEofOnPID pid STDIN; mret ().

(** [has_data] is the status port's bit and [scancode] the data port's byte. *)
Definition keyboardInterrupt (fuel : nat) (has_data : bool) (scancode : Z) (k : kbd) : K kbd :=
  if negb has_data then mret k
  else if scancode =? MULTI_BYTE_SCANCODE then
    mret (mkKbd (keyboardStatus k) true (capsLockActive k) (keyboardBuffer k) (snapshotTaken k))
  else
    let k := mkKbd (keyboardStatus k) (multiByteFlag k) (capsLockActive k) (keyboardBuffer k)
               ((scancode =? SNAPSHOT_SCANCODE) || snapshotTaken k) in
    let ctrl := processControl scancode k in
    let '(key, k) := if negb (ctrl =? 0) then (ctrl, k) else getKeyPress scancode k in
    if key =? 0 then mret k
    else if key =? END_OF_TEXT then _ ← forEachInFG killFromIsr; mret k
    else if key =? END_OF_TRANSMISSION then
      _ ← forEachInFG (requestEofOnKbdFg k);
      _ ← fileWrite fuel (keyboardBuffer k) [0];
      mret k
    else _ ← fileWrite fuel (keyboardBuffer k) [key]; mret k.

(** ** Properties *)

(** The scancodes of the letter keys. *)
Definition letter (scancode : Z) : Prop := isAlpha scancode = true.

Lemma alpha_facts : forallb (λ c, negb (isAlpha c) ||
  ((table_at shiftedScancodeToAscii c =? table_at scancodeToAscii c - 32) &&
   (97 <=? table_at scancodeToAscii c) && (table_at scancodeToAscii c <=? 122) &&
   negb (c =? CAPSLOCK) && negb (c =? LSHIFT) && negb (c =? RSHIFT) && (c <? 128))) (seqZ 0 256) = true.
Proof. vm_compute. reflexivity. Qed.

Lemma letter_codes c : 0 ≤ c < 256 → letter c →
  table_at shiftedScancodeToAscii c = table_at scancodeToAscii c - 32 ∧
  97 ≤ table_at scancodeToAscii c ≤ 122 ∧ c ≠ CAPSLOCK ∧ c ≠ LSHIFT ∧ c ≠ RSHIFT ∧ c < 128.
Proof.
  intros Hc Hl. pose proof alpha_facts as H. rewrite forallb_forall in H.
  specialize (H c ltac:(apply list_elem_of_In, elem_of_seqZ; lia)). cbn beta in H. unfold letter in Hl.
  rewrite Hl in H. cbn [negb orb] in H. rewrite !andb_true_iff, !negb_true_iff in H.
  destruct H as [[[[[[H1 H2] H3] H4] H5] H6] H7].
  apply Z.eqb_eq in H1. apply Z.leb_le in H2, H3. apply Z.eqb_neq in H4, H5, H6. apply Z.ltb_lt in H7. lia.
Qed.

Lemma land_7f c : 0 ≤ c < 128 → Z.land c 0x7F = c.
Proof. intros. change 0x7F with (Z.ones 7). rewrite Z.land_ones by lia. apply Z.mod_small. lia. Qed.
Lemma land_80 c : 0 ≤ c < 128 → Z.shiftr (Z.land c 0x80) 7 = 0.
Proof.
  intros. rewrite Z.shiftr_land. change (Z.shiftr 0x80 7) with 1.
  rewrite Z.shiftr_div_pow2 by lia. change (2 ^ 7) with 128. rewrite Z.div_small by lia. done.
Qed.
Lemma release_80 c : 0 ≤ c < 128 → Z.shiftr (Z.land (c + 128) 0x80) 7 = 1 ∧ Z.land (c + 128) 0x7F = c.
Proof.
  intros. split.
  - rewrite Z.shiftr_land. change (Z.shiftr 0x80 7) with 1.
    rewrite Z.shiftr_div_pow2 by lia. change (2 ^ 7) with 128.
    replace ((c + 128) / 128) with 1 by divlia. done.
  - change 0x7F with (Z.ones 7). rewrite Z.land_ones by lia. change (2 ^ 7) with 128.
    rewrite <- (Z.mul_1_l 128) at 1. rewrite Z.mod_add by lia. apply Z.mod_small. lia.
Qed.

(** The modifiers work as on a keyboard: a letter key gives the capital exactly when
    Shift and CapsLock disagree; pressing CapsLock toggles it and types nothing; releasing a
    key types nothing and lifts exactly that key, so that Shift only acts while it is held. *)
Theorem getKeyPress_letters c k :
  0 ≤ c < 128 → multiByteFlag k = false →
  (letter c → (getKeyPress c k).1 =
     if eqb (isPressed LSHIFT k || isPressed RSHIFT k) (capsLockActive k)
     then table_at scancodeToAscii c else table_at scancodeToAscii c - 32) ∧
  (let '(ch, k') := getKeyPress (c + 128) k in
   ch = 0 ∧ capsLockActive k' = capsLockActive k ∧
   ∀ q, isPressed q k' = if decide (q = c) then false else isPressed q k) ∧
  (let '(ch, k') := getKeyPress CAPSLOCK k in ch = 0 ∧ capsLockActive k' = negb (capsLockActive k)).
Proof.
  intros Hc Hm. split; [|split].
  - intros Hl. destruct (letter_codes c ltac:(lia) Hl) as (E1 & E2 & N1 & N2 & N3 & _).
    unfold getKeyPress. rewrite land_80, land_7f, Hm by done. cbn [Z.eqb negb].
    destruct (Z.eqb_spec c CAPSLOCK); [done|].
    destruct (Z.ltb_spec c TABLE_SIZE) as [Hlt|Hge]; cycle 1.
    { unfold letter, isAlpha in Hl. destruct (Z.leb_spec TABLE_SIZE c); [done|lia]. }
    cbn [fst]. unfold shouldShift. cbn [capsLockActive]. rewrite Hl, andb_true_r.
    assert (Hp : ∀ q, q ≠ c → isPressed q (mkKbd ({[c]} ∪ keyboardStatus k) false (capsLockActive k) (keyboardBuffer k) (snapshotTaken k)) = isPressed q k).
    { intros q Hq. unfold isPressed. cbn [keyboardStatus]. apply bool_decide_ext. set_solver. }
    rewrite !Hp by done. destruct (eqb _ _); cbn [negb]; [done|exact E1].
  - unfold getKeyPress. destruct (release_80 c Hc) as [E1 E2]. rewrite E1, E2, Hm. cbn [Z.eqb negb].
    split; [done|]. split; [done|]. intros q. unfold isPressed. cbn [keyboardStatus].
    case_decide as Hq; [subst; rewrite bool_decide_false by set_solver; done|apply bool_decide_ext; set_solver].
  - unfold getKeyPress. rewrite Hm. done.
Qed.

Lemma getKeyPress_letters_witness :
  multiByteFlag kbd0 = false ∧ letter 0x1E ∧ (getKeyPress 0x1E kbd0).1 = 97.
Proof.
  split; [reflexivity|]. split; [reflexivity|].
  rewrite (proj1 (getKeyPress_letters 0x1E kbd0 ltac:(lia) eq_refl)) by reflexivity. reflexivity.
Defined.

End Keyboard.
