(* ===== verification/LibC.v ===== *)
(** * The kernel's C library and the clock ([Kernel/lib.c], [Kernel/dateTime.c])

    Memory is a map from addresses to bytes, a byte never written being 0.  A C string is the
    list of its bytes before the terminator; reading at its length gives the terminator. *)

From S2P Require Import Prelude.

Module LibC.

Notation memory := (gmap Z Z).
Definition byte (m : memory) (a : Z) : Z := default 0 (m !! a).
Definition store (m : memory) (a v : Z) : memory := <[a := u8 v]> m.

(** ** [lib.c] *)

(** [while (length--) dst[length] = chr]. *)
Fixpoint memset_loop (length : nat) (dst chr : Z) (m : memory) : memory :=
  match length with
  | O => m
  | S length => memset_loop length dst chr (store m (dst + Z.of_nat length) chr)
  end.
Definition memset (dst c length : Z) (m : memory) : memory :=
  memset_loop (Z.to_nat length) dst (u8 c) m.

(** A little-endian 32-bit word. *)
Definition load32 (m : memory) (a : Z) : Z :=
  byte m a + byte m (a + 1) * 2 ^ 8 + byte m (a + 2) * 2 ^ 16 + byte m (a + 3) * 2 ^ 24.
Definition store32 (m : memory) (a v : Z) : memory :=
  store (store (store (store m a v) (a + 1) (Z.shiftr v 8)) (a + 2) (Z.shiftr v 16)) (a + 3) (Z.shiftr v 24).

(** [for (i = 0; i < n; i++) d[i] = s[i]], by words and by bytes. *)
Fixpoint copy_words (n : nat) (i d s : Z) (m : memory) : memory :=
  match n with
  | O => m
  | S n => copy_words n (i + 1) d s (store32 m (d + 4 * i) (load32 m (s + 4 * i)))
  end.
Fixpoint copy_bytes (n : nat) (i d s : Z) (m : memory) : memory :=
  match n with
  | O => m
  | S n => copy_bytes n (i + 1) d s (store m (d + i) (byte m (s + i)))
  end.

Definition memcpy (d s length : Z) (m : memory) : memory :=
  if (d mod 4 =? 0) && (s mod 4 =? 0) && (length mod 4 =? 0)
  then copy_words (Z.to_nat (length / 4)) 0 d s m
  else copy_bytes (Z.to_nat length) 0 d s m.

(** [unsigned char] comparison up to the first difference or the terminator of [s1]. *)
Fixpoint strcmp (s1 s2 : list Z) : Z :=
  match s1, s2 with
  | [], [] => 0
  | [], c2 :: _ => 0 - u8 c2
  | c1 :: _, [] => u8 c1 - 0
  | c1 :: s1, c2 :: s2 => if u8 c1 =? u8 c2 then strcmp s1 s2 else u8 c1 - u8 c2
  end.

(** The terminator is copied too. *)
Fixpoint strcpy (dest : Z) (src : list Z) (m : memory) : memory :=
  match src with
  | [] => store m dest 0
  | c :: src => strcpy (dest + 1) src (store m dest c)
  end.

Definition hexChars : list Z := [48; 49; 50; 51; 52; 53; 54; 55; 56; 57; 65; 66; 67; 68; 69; 70].

(** The 18 characters before the terminator: ["0x"] and the nibbles from the top one down. *)
Definition uint64ToHex (value : Z) : list Z :=
  [48; 120] ++ map (λ i, default 0 (hexChars !! Z.to_nat (Z.land (Z.shiftr value (i * 4)) 0xF)))
                 (rev (seqZ 0 16)).

Definition strlen (str : list Z) : Z := Z.of_nat (length str).

(** Positions in [dest] are those of the concatenation. *)
Definition concat_strings (str1 str2 : list Z) : list Z := str1 ++ str2.

(** ** [dateTime.c] *)

Definition bcdToDecimal (bcd : Z) : Z := u8 (Z.shiftr (Z.land bcd 0xF0) 4 * 10 + Z.land bcd 0x0F).

(** The clock's registers are parameters: what [getTime] and [getDate] store. *)
Definition getCurrentTime (raw : Z * Z * Z) : Z * Z * Z :=
  let '(hours, minutes, seconds) := raw in
  (bcdToDecimal hours, bcdToDecimal minutes, bcdToDecimal seconds).
Definition getCurrentDate (raw : Z * Z * Z * Z) : Z * Z * Z * Z :=
  let '(weekday, day, month, year) := raw in
  (bcdToDecimal weekday, bcdToDecimal day, bcdToDecimal month, bcdToDecimal year).

(** ** [moduleLoader.c] *)

Definition readUint32 (m : memory) (address : Z) : Z * Z := (load32 m address, address + 4).

Definition loadModule (m : memory) (module target : Z) : memory * Z :=
  let '(moduleSize, p) := readUint32 m module in
  (memcpy target p moduleSize m, p + moduleSize).

(** [targets] are the addresses for the modules; the count in the payload is trusted, and one
    larger than the array of targets reads past its end ([None]). *)
Fixpoint load_loop (n : nat) (m : memory) (current : Z) (targets : list Z) : option memory :=
  match n with
  | O => Some m
  | S n =>
    match targets with
    | [] => None
    | t :: targets => let '(m', current') := loadModule m current t in load_loop n m' current' targets
    end
  end.
Definition loadModules (m : memory) (payloadStart : Z) (targets : list Z) : option memory :=
  let '(moduleCount, p) := readUint32 m payloadStart in
  load_loop (Z.to_nat moduleCount) m p targets.

(** ** Copies *)

(** Every byte is one. *)
Definition bytes_ok (m : memory) : Prop := ∀ a v, m !! a = Some v → 0 ≤ v < 256.

Lemma byte_range m a : bytes_ok m → 0 ≤ byte m a < 256.
Proof. intros H. unfold byte. destruct (m !! a) eqn:E; cbn; [by eapply H|lia]. Qed.

Lemma store_ok m a v : bytes_ok m → bytes_ok (store m a v).
Proof.
  intros H b w Hb. unfold store in Hb. apply lookup_insert_Some in Hb as [[_ <-]|[_ Hb]]; [|by eapply H].
  pose proof (wrap_range 8 v ltac:(lia)) as Hr. change (2 ^ 8) with 256 in Hr. exact Hr.
Qed.

Lemma byte_store m a b v : byte (store m a v) b = if decide (b = a) then u8 v else byte m b.
Proof.
  unfold byte, store. case_decide as E; [rewrite E, lookup_insert_eq|rewrite lookup_insert_ne]; done.
Qed.

(** Storing a byte that is there already stores that byte. *)

(** The four bytes of a word read from memory. *)
Lemma load32_bytes m a : bytes_ok m →
  u8 (load32 m a) = byte m a ∧ u8 (Z.shiftr (load32 m a) 8) = byte m (a + 1) ∧
  u8 (Z.shiftr (load32 m a) 16) = byte m (a + 2) ∧ u8 (Z.shiftr (load32 m a) 24) = byte m (a + 3).
Proof.
  intros Hm. unfold load32, u8, wrap. rewrite !Z.shiftr_div_pow2 by lia.
  pose proof (byte_range m a Hm). pose proof (byte_range m (a + 1) Hm).
  pose proof (byte_range m (a + 2) Hm). pose proof (byte_range m (a + 3) Hm).
  change (2 ^ 8) with 256 in *. change (2 ^ 16) with 65536. change (2 ^ 24) with 16777216.
  repeat split; divlia.
Qed.

Lemma copy_bytes_spec n : ∀ i d s m a, bytes_ok m → 0 ≤ i →
  d + i + Z.of_nat n ≤ s ∨ s + i + Z.of_nat n ≤ d →
  bytes_ok (copy_bytes n i d s m) ∧
  byte (copy_bytes n i d s m) a =
    if decide (d + i ≤ a < d + i + Z.of_nat n) then byte m (s + (a - d)) else byte m a.
Proof.
  induction n as [|n IH]; intros i d s m a Hm Hi Hov; cbn [copy_bytes].
  - rewrite decide_False by lia. done.
  - destruct (IH (i + 1) d s (store m (d + i) (byte m (s + i))) a) as [G1 G2]; [by apply store_ok|lia|lia|].
    split; [done|]. rewrite G2, !byte_store. pose proof (byte_range m (s + i) Hm).
    rewrite u8_small by lia. repeat case_decide; try lia; try done. do 2 f_equal. lia.
Qed.

Lemma byte_store32 m a v b : byte (store32 m a v) b =
  if decide (b = a + 3) then u8 (Z.shiftr v 24) else if decide (b = a + 2) then u8 (Z.shiftr v 16)
  else if decide (b = a + 1) then u8 (Z.shiftr v 8) else if decide (b = a) then u8 v else byte m b.
Proof. unfold store32. by rewrite !byte_store. Qed.

Lemma store32_ok m a v : bytes_ok m → bytes_ok (store32 m a v).
Proof. intros. unfold store32. by repeat apply store_ok. Qed.

Lemma copy_words_spec n : ∀ i d s m a, bytes_ok m → 0 ≤ i →
  d + 4 * (i + Z.of_nat n) ≤ s ∨ s + 4 * (i + Z.of_nat n) ≤ d →
  bytes_ok (copy_words n i d s m) ∧
  byte (copy_words n i d s m) a =
    if decide (d + 4 * i ≤ a < d + 4 * (i + Z.of_nat n)) then byte m (s + (a - d)) else byte m a.
Proof.
  induction n as [|n IH]; intros i d s m a Hm Hi Hov; cbn [copy_words].
  - rewrite decide_False by lia. done.
  - destruct (IH (i + 1) d s (store32 m (d + 4 * i) (load32 m (s + 4 * i))) a) as [G1 G2];
      [by apply store32_ok|lia|lia|].
    split; [done|]. rewrite G2, !byte_store32. destruct (load32_bytes m (s + 4 * i) Hm) as (B0 & B1 & B2 & B3).
    rewrite B0, B1, B2, B3. repeat case_decide; try lia; try done; f_equal; lia.
Qed.

(** [memcpy] copies: for ranges that do not overlap, on both of its paths (whole words
    when the addresses and the length are aligned, bytes otherwise), the destination holds the
    bytes the source held and nothing else in memory changes. *)
Theorem memcpy_correct d s n m a :
  bytes_ok m → 0 ≤ n → d + n ≤ s ∨ s + n ≤ d →
  byte (memcpy d s n m) a = if decide (d ≤ a < d + n) then byte m (s + (a - d)) else byte m a.
Proof.
  intros Hm Hn Hov. unfold memcpy. destruct (Z.eqb_spec (n mod 4) 0) as [En|En]; cycle 1.
  - rewrite andb_false_r. destruct (copy_bytes_spec (Z.to_nat n) 0 d s m a Hm) as [_ E]; [lia|lia|].
    rewrite E, Z.add_0_r, Z2Nat.id by lia. done.
  - rewrite andb_true_r. destruct (_ && _).
    + assert (En4 : 4 * (n / 4) = n) by divlia.
      destruct (copy_words_spec (Z.to_nat (n / 4)) 0 d s m a Hm) as [_ E]; [lia|divlia|].
      rewrite E, Z2Nat.id, Z.add_0_l, En4, Z.mul_0_r, Z.add_0_r by divlia. done.
    + destruct (copy_bytes_spec (Z.to_nat n) 0 d s m a Hm) as [_ E]; [lia|lia|].
      rewrite E, Z.add_0_r, Z2Nat.id by lia. done.
Qed.

Lemma memcpy_correct_witness :
  byte (memcpy 64 0 8 (store ∅ 3 7)) 67 = 7.
Proof.
  rewrite (memcpy_correct 64 0 8 (store ∅ 3 7) 67); [reflexivity| |lia|lia].
  apply store_ok. intros a v E. by rewrite lookup_empty in E.
Defined.

Lemma memcpy_bytes_ok d s n m : bytes_ok m → 0 ≤ n → d + n ≤ s ∨ s + n ≤ d → bytes_ok (memcpy d s n m).
Proof.
  intros Hm Hn Hov. unfold memcpy. destruct (Z.eqb_spec (n mod 4) 0) as [En|En]; cycle 1.
  - rewrite andb_false_r. eapply (copy_bytes_spec (Z.to_nat n) 0 d s m 0 Hm); lia.
  - rewrite andb_true_r. destruct (_ && _).
    + eapply (copy_words_spec (Z.to_nat (n / 4)) 0 d s m 0 Hm); [lia|divlia].
    + eapply (copy_bytes_spec (Z.to_nat n) 0 d s m 0 Hm); lia.
Qed.

Lemma memset_loop_spec n : ∀ dst chr m a, 0 ≤ chr < 256 →
  byte (memset_loop n dst chr m) a = if decide (dst ≤ a < dst + Z.of_nat n) then chr else byte m a.
Proof.
  induction n as [|n IH]; intros dst chr m a Hc; cbn [memset_loop].
  - by rewrite decide_False by lia.
  - rewrite IH, byte_store, u8_small by done. repeat case_decide; try lia; done.
Qed.

(** ** Modules in memory *)

(** These bytes are at [a]. *)
Definition holds (m : memory) (a : Z) (l : list Z) : Prop := ∀ i v, l !! i = Some v → byte m (a + Z.of_nat i) = v.

Lemma holds_app m a l1 l2 : holds m a (l1 ++ l2) ↔ holds m a l1 ∧ holds m (a + len l1) l2.
Proof.
  unfold holds. split.
  - intros H. split; intros i v Hi.
    + apply H. by apply lookup_app_l_Some.
    + rewrite <- Z.add_assoc, <- Nat2Z.inj_add. apply H. rewrite lookup_app_r by lia. by rewrite Nat.add_comm, Nat.add_sub.
  - intros [H1 H2] i v Hi. apply lookup_app_Some in Hi as [Hi|[Hl Hi]]; [by apply H1|].
    rewrite <- (H2 _ _ Hi). f_equal. lia.
Qed.
Lemma holds_same m m' a l : holds m a l → (∀ b, a ≤ b < a + len l → byte m' b = byte m b) → holds m' a l.
Proof. intros H Hs i v Hi. rewrite Hs; [by apply H|]. apply lookup_lt_Some in Hi. lia. Qed.

(** A number of 32 bits in memory, the low byte first. *)
Definition le32 (v : Z) : list Z := [u8 v; u8 (Z.shiftr v 8); u8 (Z.shiftr v 16); u8 (Z.shiftr v 24)].
Lemma load_le32 m a v : holds m a (le32 v) → 0 ≤ v < 2 ^ 32 → load32 m a = v.
Proof.
  intros H Hv. unfold load32. pose proof (H 0%nat _ eq_refl) as H0. pose proof (H 1%nat _ eq_refl) as H1.
  pose proof (H 2%nat _ eq_refl) as H2. pose proof (H 3%nat _ eq_refl) as H3. 
  change (Z.of_nat 0) with 0 in H0. change (Z.of_nat 1) with 1 in H1. change (Z.of_nat 2) with 2 in H2. change (Z.of_nat 3) with 3 in H3.
  rewrite Z.add_0_r in H0.
  rewrite H0, H1, H2, H3. unfold u8, wrap. rewrite !Z.shiftr_div_pow2 by lia.
  change (2 ^ 8) with 256. change (2 ^ 16) with 65536. change (2 ^ 24) with 16777216. divlia.
Qed.

(** Every module with its size before it. *)
Definition payload (mods : list (list Z)) : list Z := concat (map (λ c, le32 (len c) ++ c) mods).
(** The modules at their targets, apart from each other and from [lo, hi). *)
Fixpoint apart (lo hi : Z) (mods : list (list Z)) (targets : list Z) : Prop :=
  match mods, targets with
  | [], _ => True
  | c :: mods, t :: targets =>
    (t + len c ≤ lo ∨ hi ≤ t) ∧ Forall2 (λ c' t', t + len c ≤ t' ∨ t' + len c' ≤ t) mods (take (length mods) targets) ∧ apart lo hi mods targets
  | _ :: _, [] => False
  end.

Lemma apart_mono lo lo' hi mods : ∀ targets, lo ≤ lo' → apart lo hi mods targets → apart lo' hi mods targets.
Proof. induction mods as [|c mods IH]; intros [|t ts] Hl H; cbn in *; try done. destruct H as (H1 & H2 & H3). split; [lia|]. split; [done|]. by apply IH. Qed.

Lemma load_loop_loads mods : ∀ m cur targets hi, bytes_ok m → Forall (λ c, len c < 2 ^ 32) mods →
  holds m cur (payload mods) → hi = cur + len (payload mods) → apart cur hi mods targets →
  ∃ m', load_loop (length mods) m cur targets = Some m' ∧ Forall2 (holds m') (take (length mods) targets) mods ∧
    ∀ a, Forall2 (λ c t, a < t ∨ t + len c ≤ a) mods (take (length mods) targets) → byte m' a = byte m a.
Proof.
  induction mods as [|c mods IH]; intros m cur targets hi Hm Hs Hp Hhi Ha.
  - exists m. cbn. split; [done|]. split; [constructor|done].
  - destruct targets as [|t targets]; [done|]. cbn [apart] in Ha. destruct Ha as (A1 & A2 & A3).
    apply list.Forall_cons in Hs as [Hc Hs]. unfold payload in Hp, Hhi. cbn [map concat] in Hp, Hhi.
    fold (payload mods) in Hp, Hhi. rewrite !length_app in Hhi. cbn [le32 length] in Hhi.
    apply holds_app in Hp as [Hp Hrest]. apply holds_app in Hp as [Hsz Hcont].
    cbn [length load_loop]. unfold loadModule, readUint32. rewrite (load_le32 m cur (len c) Hsz) by lia.
    rewrite length_app in Hrest. cbn [le32 length] in Hrest, Hcont.
    assert (Hov : t + len c ≤ cur + 4 ∨ cur + 4 + len c ≤ t) by lia.
    set (m1 := memcpy t (cur + 4) (len c) m).
    assert (E1 : ∀ a, byte m1 a = if decide (t ≤ a < t + len c) then byte m (cur + 4 + (a - t)) else byte m a).
    { intros a. by apply memcpy_correct; [|lia|]. }
    destruct (IH m1 (cur + 4 + len c) targets hi) as (m' & El & Hh & Hf).
    + by apply memcpy_bytes_ok; [|lia|].
    + done.
    + replace (cur + 4 + len c) with (cur + Z.of_nat (4 + length c)) by lia. eapply holds_same; [exact Hrest|].
      intros b Hb. rewrite E1, decide_False by lia. done.
    + lia.
    + by apply (apart_mono cur); [lia|].
    + exists m'. split; [done|]. cbn [take]. split.
      * constructor; [|done]. intros i v Hi. pose proof (lookup_lt_Some _ _ _ Hi). rewrite Hf.
        { rewrite E1, decide_True by lia. rewrite <- (Hcont i v Hi). f_equal. lia. }
        eapply Forall2_impl; [|exact A2]. cbn. intros c' t' Ht'. lia.
      * intros a Hfa. inversion Hfa as [|? ? ? ? Ht Hr]; subst. rewrite Hf by done. rewrite E1, decide_False by lia. done.
Qed.

(** ** Strings *)

(** The bytes of a C string. *)
Definition cstr (s : list Z) : Prop := ∀ c, c ∈ s → 0 < c < 256.

Lemma cstr_cons c s : cstr (c :: s) → 0 < c < 256 ∧ cstr s.
Proof. intros H. split; [apply H; set_solver|]. intros d Hd. apply H. set_solver. Qed.

Lemma strcmp_zero s1 : ∀ s2, cstr s1 → cstr s2 → strcmp s1 s2 = 0 ↔ s1 = s2.
Proof.
  induction s1 as [|c1 s1 IH]; intros [|c2 s2] H1 H2; cbn [strcmp];
    repeat match goal with H : cstr (_ :: _) |- _ => apply cstr_cons in H as [? ?] end;
    rewrite ?u8_small by lia; try (split; [lia|done]); [done|].
  destruct (Z.eqb_spec c1 c2) as [->|Hne]; [|split; [lia|congruence]].
  rewrite IH by done. split; congruence.
Qed.

Lemma strcmp_anti s1 : ∀ s2, strcmp s2 s1 = - strcmp s1 s2.
Proof.
  induction s1 as [|c1 s1 IH]; intros [|c2 s2]; cbn [strcmp]; try lia.
  rewrite (Z.eqb_sym (u8 c2)). destruct (u8 c1 =? u8 c2); [apply IH|lia].
Qed.

Lemma strcmp_trans s1 : ∀ s2 s3, cstr s1 → cstr s2 → cstr s3 →
  strcmp s1 s2 < 0 → strcmp s2 s3 < 0 → strcmp s1 s3 < 0.
Proof.
  induction s1 as [|c1 s1 IH]; intros [|c2 s2] [|c3 s3] H1 H2 H3; cbn [strcmp];
    repeat match goal with H : cstr (_ :: _) |- _ => apply cstr_cons in H as [? ?] end;
    rewrite ?u8_small by lia; try lia.
  specialize (IH s2 s3).
  repeat match goal with |- context [?a =? ?b] => destruct (Z.eqb_spec a b) end; try lia; tauto.
Qed.

(** [strcmp] is the lexicographic order of the bytes: 0 exactly on equal strings,
    antisymmetric, and transitive. *)
Theorem strcmp_order s1 s2 s3 :
  cstr s1 → cstr s2 → cstr s3 →
  (strcmp s1 s2 = 0 ↔ s1 = s2) ∧ strcmp s2 s1 = - strcmp s1 s2 ∧
  (strcmp s1 s2 < 0 → strcmp s2 s3 < 0 → strcmp s1 s3 < 0).
Proof.
  intros H1 H2 H3. split; [by apply strcmp_zero|]. split; [apply strcmp_anti|by apply strcmp_trans].
Qed.

Lemma strcmp_order_witness : strcmp [97; 98] [97] = - strcmp [97] [97; 98].
Proof.
  assert (H : ∀ l, Forall (λ c, 0 < c < 256) l → cstr l) by (intros l Hl; unfold cstr; by rewrite <- list.Forall_forall).
  apply (strcmp_order [97] [97; 98] []); apply H; repeat (apply Forall_cons; [lia|]); apply Forall_nil.
Defined.

(** ** The clock *)

(** The clock's BCD conversion is exact: it inverts the packing of two decimal digits,
    and never overflows the byte on a valid register. *)
Theorem bcd_roundtrip tens units :
  0 ≤ tens < 10 → 0 ≤ units < 10 → bcdToDecimal (Z.lor (Z.shiftl tens 4) units) = 10 * tens + units.
Proof.
  intros Ht Hu.
  assert (Hall : forallb (λ t, forallb (λ u, bcdToDecimal (Z.lor (Z.shiftl t 4) u) =? 10 * t + u) (seqZ 0 10)) (seqZ 0 10) = true)
    by (vm_compute; reflexivity).
  rewrite forallb_forall in Hall.
  specialize (Hall tens ltac:(apply list_elem_of_In, elem_of_seqZ; lia)). rewrite forallb_forall in Hall.
  specialize (Hall units ltac:(apply list_elem_of_In, elem_of_seqZ; lia)). by apply Z.eqb_eq in Hall.
Qed.

Lemma bcd_roundtrip_witness : bcdToDecimal (Z.lor (Z.shiftl 5 4) 9) = 59.
Proof. rewrite (bcd_roundtrip 5 9); [reflexivity|lia|lia]. Defined.

End LibC.
