(* ===== verification/Video.v ===== *)
(** * The video driver ([Kernel/Drivers/videoDriver.c])

    The frame buffer, or the auxiliary one a program draws into, is memory; pixels are three
    bytes, blue first.  The mode information the boot loader left is an argument. *)

From S2P Require Import Prelude LibC Font.
Import LibC.

Module Video.

Definition CHAR_WIDTH : Z := 8.
Definition CHAR_HEIGHT : Z := 16.
Definition STRING_SPACING : Z := 0.

(** The fields of [struct vbe_mode_info_structure] that the driver reads. *)
Record vbe_mode_info_structure := mkVBE { pitch : Z; width : Z; height : Z; bpp : Z; framebuffer : Z }.

Record vst := mkV { v_mem : memory; auxFramebuffer : Z; auxBuffWidth : Z; auxBuffHeight : Z }.
Definition set_mem (m : memory) (s : vst) : vst := mkV m (auxFramebuffer s) (auxBuffWidth s) (auxBuffHeight s).

Section Driver.
Context (VBE_mode_info : vbe_mode_info_structure).
(** The bytes that follow [font] in memory. *)
Context (after_font : Z → Z).

(** ** Geometry *)

Definition getScreenWidth (s : vst) : Z :=
  if auxFramebuffer s =? 0 then width VBE_mode_info else u16 (auxBuffWidth s).
Definition getScreenHeight (s : vst) : Z :=
  if auxFramebuffer s =? 0 then height VBE_mode_info else u16 (auxBuffHeight s).
Definition withinScreenBounds (x y : Z) (s : vst) : bool := (x <? getScreenWidth s) && (y <? getScreenHeight s).
Definition getFrameBuffer (s : vst) : Z :=
  if auxFramebuffer s =? 0 then framebuffer VBE_mode_info else auxFramebuffer s.

Definition setAuxFramebuffer (buffer w h : Z) (s : vst) : vst :=
  if buffer =? 0 then mkV (v_mem s) 0 0 0 else mkV (v_mem s) buffer (u32 w) (u32 h).

Definition getVideoOffset (x y : Z) (s : vst) : Z :=
  if auxFramebuffer s =? 0 then u64 (x * (bpp VBE_mode_info / 8) + y * pitch VBE_mode_info)
  else u64 ((x + y * auxBuffWidth s) * 3).

(** ** Pixels *)

(** A channel of the blend: the fraction [alpha]/255 of the foreground over the background. *)
Definition mix (fg bg alpha : Z) : Z := u8 ((fg * alpha + bg * (255 - alpha)) / 255).
Definition channel (shift color : Z) : Z := Z.land (Z.shiftr color shift) 255.

Definition alphaBlend (fgColor bgColor alpha : Z) : Z :=
  if alpha =? 0 then bgColor
  else if alpha =? 255 then fgColor
  else
    Z.lor (Z.lor (Z.shiftl (mix (channel 16 fgColor) (channel 16 bgColor) alpha) 16)
                 (Z.shiftl (mix (channel 8 fgColor) (channel 8 bgColor) alpha) 8))
          (mix (channel 0 fgColor) (channel 0 bgColor) alpha).

Definition readPixel (x y : Z) (s : vst) : Z :=
  if negb (withinScreenBounds x y s) then 0
  else
    let a := getFrameBuffer s + getVideoOffset x y s in
    Z.lor (Z.lor (byte (v_mem s) a) (Z.shiftl (byte (v_mem s) (a + 1)) 8)) (Z.shiftl (byte (v_mem s) (a + 2)) 16).

Definition blendPixel (colorARGB x y : Z) (s : vst) : Z :=
  if negb (withinScreenBounds x y s) then 0
  else
    let alpha := channel 24 colorARGB in
    let alpha := if alpha =? 0 then 255 else alpha in
    alphaBlend (Z.land colorARGB 0xFFFFFF) (readPixel x y s) alpha.

(** [framebuffer[offset + i] = value]. *)
Definition put3 (a color : Z) (m : memory) : memory :=
  store (store (store m a (channel 0 color)) (a + 1) (channel 8 color)) (a + 2) (channel 16 color).

Definition putPixel (hexColor x y : Z) (s : vst) : vst :=
  if negb (withinScreenBounds x y s) then s
  else
    let hexColor := u32 (blendPixel hexColor x y s) in
    set_mem (put3 (getFrameBuffer s + getVideoOffset x y s) hexColor (v_mem s)) s.

(** ** Shapes *)

(** [for (i = lo; i < lo + n; i++) body]. *)
Definition for_range (lo n : Z) (body : Z → vst → vst) (s : vst) : vst :=
  foldl (λ s i, body i s) s (seqZ lo n).

(** The counters are [int]: the loops are those of the code for sizes below [2 ^ 31]. *)
Definition drawRectangle (hexColor x y w h : Z) (s : vst) : vst :=
  for_range 0 w (λ i, for_range 0 h (λ j, putPixel hexColor (u64 (x + i)) (u64 (y + j)))) s.

Definition drawCircle (hexColor centerX centerY radius : Z) (s : vst) : vst :=
  let rSquared := i64 (radius * radius) in
  let startX := i64 (centerX - radius) in
  let startY := i64 (centerY - radius) in
  let endX := i64 (centerX + radius) in
  let endY := i64 (centerY + radius) in
  for_range startX (endX - startX + 1) (λ x,
    for_range startY (endY - startY + 1) (λ y s,
      if (x - centerX) * (x - centerX) + (y - centerY) * (y - centerY) <? rSquared
      then putPixel hexColor (u64 x) (u64 y) s else s)) s.

(** The eight pixels of one step of the midpoint circle. *)
Definition octants (hexColor centerX centerY x y : Z) (s : vst) : vst :=
  let put px py s := putPixel hexColor (u64 px) (u64 py) s in
  let s := put (centerX + x) (centerY + y) s in
  let s := put (centerX - x) (centerY + y) s in
  let s := put (centerX + y) (centerY + x) s in
  let s := put (centerX - y) (centerY + x) s in
  let s := put (centerX + x) (centerY - y) s in
  let s := put (centerX - x) (centerY - y) s in
  let s := put (centerX + y) (centerY - x) s in
  put (centerX - y) (centerY - x) s.

Fixpoint circumference_loop (fuel : nat) (hexColor centerX centerY x y radiusError : Z) (s : vst) : option vst :=
  match fuel with
  | O => None
  | S fuel =>
    if y <=? x then
      let s := octants hexColor centerX centerY x y s in
      let y := y + 1 in
      if radiusError <? 0
      then circumference_loop fuel hexColor centerX centerY x y (radiusError + (2 * y + 1)) s
      else
        let x := x - 1 in
        circumference_loop fuel hexColor centerX centerY x y (radiusError + (2 * (y - x) + 1)) s
    else Some s
  end.
Definition drawCircumference (fuel : nat) (hexColor centerX centerY radius : Z) (s : vst) : option vst :=
  let x := i64 radius in circumference_loop fuel hexColor centerX centerY x 0 (1 - x) s.

Definition setBackground (color : Z) (s : vst) : vst :=
  let w := getScreenWidth s in
  let fb := getFrameBuffer s in
  for_range 0 (getScreenHeight s) (λ y, for_range 0 w (λ x s,
    set_mem (put3 (fb + u64 (u64 (y * w + x) * 3)) color (v_mem s)) s)) s.

(** ** Text *)

(** [glyph[row]], past the end of the font for the characters from 128 on. *)
Definition glyph_row (c row : Z) : Z :=
  let i := c * CHAR_HEIGHT + row in
  match font !! Z.to_nat i with Some b => b | None => after_font (i - 2048) end.
Definition mask : list Z := [128; 64; 32; 16; 8; 4; 2; 1].
Definition lit (c cy cx scale : Z) : bool :=
  negb (Z.land (glyph_row c (Z.quot cy scale)) (default 0 (mask !! Z.to_nat (Z.quot cx scale))) =? 0).

(** [scale] is positive: the terminal and the exception handler are the callers. *)
Definition drawSymbol (c x y fgcolor bgcolor scale : Z) (s : vst) : vst :=
  let at_pixel cy cx color := putPixel color (u64 (x + cx)) (u64 (y + cy - 12 * scale)) in
  if bgcolor =? 0xFFFFFFFF then
    for_range 0 (CHAR_HEIGHT * scale) (λ cy, for_range 0 (CHAR_WIDTH * scale) (λ cx s,
      if lit c cy cx scale then at_pixel cy cx fgcolor s else s)) s
  else
    for_range 0 (CHAR_HEIGHT * scale) (λ cy, for_range 0 (CHAR_WIDTH * scale) (λ cx,
      at_pixel cy cx (if lit c cy cx scale then fgcolor else bgcolor))) s.

(** [x] and [y] are [int]s here. *)
Fixpoint drawString (str : list Z) (x y fgcolor bgcolor scale : Z) (s : vst) : vst :=
  match str with
  | [] => s
  | c :: str =>
    drawString str (i32 (x + (CHAR_WIDTH + STRING_SPACING) * scale)) y fgcolor bgcolor scale
      (drawSymbol (u8 c) (u64 x) (u64 y) fgcolor bgcolor scale s)
  end.

(** ** Copies *)

Definition scrollUp (pixelRows fillColor : Z) (s : vst) : vst :=
  let w := getScreenWidth s in
  let h := getScreenHeight s in
  if (pixelRows =? 0) || (h <=? pixelRows) then s
  else if negb (auxFramebuffer s =? 0) then
    let s := for_range 0 (h - pixelRows) (λ y, for_range 0 w (λ x s,
      putPixel (readPixel x (y + pixelRows) s) x y s)) s in
    for_range (h - pixelRows) pixelRows (λ y, for_range 0 w (λ x, putPixel fillColor x y)) s
  else
    let fb := framebuffer VBE_mode_info in
    let bytes := bpp VBE_mode_info / 8 in
    let s := for_range 0 (h - pixelRows) (λ dst, for_range 0 (w * bytes) (λ i s,
      set_mem (store (v_mem s) (fb + dst * pitch VBE_mode_info + i)
        (byte (v_mem s) (fb + (pixelRows + dst) * pitch VBE_mode_info + i))) s)) s in
    for_range (h - pixelRows) pixelRows (λ y, for_range 0 w (λ x s,
      set_mem (put3 (fb + y * pitch VBE_mode_info + x * bytes) fillColor (v_mem s)) s)) s.

(** A row is copied by 8-byte words and then by bytes. *)
Definition copy8 (d a : Z) (m : memory) : memory :=
  foldl (λ m' i, store m' (d + i) (byte m (a + i))) m (seqZ 0 8).
Definition copy_row (d a n : Z) (m : memory) : memory :=
  let m := foldl (λ m i, copy8 (d + 8 * i) (a + 8 * i) m) m (seqZ 0 (n / 8)) in
  foldl (λ m i, store m (d + i) (byte m (a + i))) m (seqZ (n / 8 * 8) (n mod 8)).
Definition renderAux (s : vst) : vst :=
  if auxFramebuffer s =? 0 then s
  else
    let copyWidth := Z.min (auxBuffWidth s) (width VBE_mode_info) in
    let copyHeight := Z.min (auxBuffHeight s) (height VBE_mode_info) in
    let auxRowBytes := u32 (auxBuffWidth s * 3) in
    let fbRowBytes := width VBE_mode_info * 3 in
    for_range 0 copyHeight (λ y s,
      set_mem (copy_row (framebuffer VBE_mode_info + y * fbRowBytes) (auxFramebuffer s + y * auxRowBytes)
        (copyWidth * 3) (v_mem s)) s) s.

(** ** Bytes and colours *)

Lemma byte_store_eq m a v : byte (store m a v) a = u8 v.
Proof. unfold byte, store. by rewrite lookup_insert_eq. Qed.
Lemma byte_store_ne m a b v : a ≠ b → byte (store m a v) b = byte m b.
Proof. intros. unfold byte, store. by rewrite lookup_insert_ne. Qed.

(** The three bytes at [a] as a colour. *)
Definition read3 (a : Z) (m : memory) : Z :=
  Z.lor (Z.lor (byte m a) (Z.shiftl (byte m (a + 1)) 8)) (Z.shiftl (byte m (a + 2)) 16).

Lemma channel_u8 sh c : u8 (channel sh c) = channel sh c.
Proof. unfold u8, wrap, channel. change 255 with (Z.ones 8). rewrite Z.land_ones by lia. by rewrite Z.mod_mod. Qed.

Lemma channel_bit sh c i : 0 ≤ sh → 0 ≤ i → Z.testbit (channel sh c) i = Z.testbit c (i + sh) && (i <? 8).
Proof.
  intros Hs Hi. unfold channel. rewrite Z.land_spec, Z.shiftr_spec by lia. f_equal. change 255 with (Z.ones 8).
  destruct (Z.ltb_spec i 8); [apply Z.ones_spec_low|apply Z.ones_spec_high]; lia.
Qed.

Lemma ones24 i : 0 ≤ i → Z.testbit 0xFFFFFF i = (i <? 24).
Proof. intros Hi. change 0xFFFFFF with (Z.ones 24). destruct (Z.ltb_spec i 24); [apply Z.ones_spec_low|apply Z.ones_spec_high]; lia. Qed.

(** Three channels are the low 24 bits. *)
Lemma channels c : Z.lor (Z.lor (channel 0 c) (Z.shiftl (channel 8 c) 8)) (Z.shiftl (channel 16 c) 16) = Z.land c 0xFFFFFF.
Proof.
  apply Z.bits_inj'. intros i Hi. rewrite !Z.lor_spec, Z.land_spec, ones24, !Z.shiftl_spec, channel_bit, Z.add_0_r by lia.
  assert (T : ∀ sh, 0 ≤ sh → Z.testbit (channel sh c) (i - sh) = Z.testbit c i && ((sh <=? i) && (i <? sh + 8))).
  { intros sh Hs. destruct (Z.leb_spec sh i).
    - rewrite channel_bit by lia. replace (i - sh + sh) with i by lia. cbn [andb]. f_equal.
      destruct (Z.ltb_spec (i - sh) 8), (Z.ltb_spec i (sh + 8)); lia || done.
    - rewrite Z.testbit_neg_r by lia. by rewrite andb_false_r. }
  rewrite (T 8), (T 16) by lia. destruct (Z.testbit c i); cbn [andb orb]; [|done].
  destruct (Z.ltb_spec i 8), (Z.leb_spec 8 i), (Z.ltb_spec i (8 + 8)), (Z.leb_spec 16 i), (Z.ltb_spec i (16 + 8)), (Z.ltb_spec i 24);
    cbn; lia || done.
Qed.

Lemma read3_put3 a c m : read3 a (put3 a c m) = Z.land c 0xFFFFFF.
Proof.
  unfold read3, put3. rewrite !byte_store_eq, (byte_store_ne _ (a + 2) (a + 1)), byte_store_eq,
    (byte_store_ne _ (a + 2) a), (byte_store_ne _ (a + 1) a), byte_store_eq by lia.
  rewrite !channel_u8. apply channels.
Qed.
Lemma byte_put3 a b c m : ¬ a ≤ b < a + 3 → byte (put3 a c m) b = byte m b.
Proof. intros H. unfold put3. by rewrite !byte_store_ne by lia. Qed.
Lemma read3_put3_ne a b c m : a + 3 ≤ b ∨ b + 3 ≤ a → read3 b (put3 a c m) = read3 b m.
Proof. intros H. unfold read3. by rewrite !byte_put3 by lia. Qed.

(** ** The pixels of the screen *)

Definition stride (s : vst) : Z := if auxFramebuffer s =? 0 then pitch VBE_mode_info else auxBuffWidth s * 3.

(** A 24-bit mode whose rows fit in the pitch, or an auxiliary buffer whose sides fit in
    16 bits, that does not reach the end of the address space. *)
Definition geometry (s : vst) : Prop :=
  (if auxFramebuffer s =? 0
   then bpp VBE_mode_info = 24 ∧ 0 ≤ width VBE_mode_info ∧ 3 * width VBE_mode_info ≤ pitch VBE_mode_info
   else 0 ≤ auxBuffWidth s < 2 ^ 16 ∧ 0 ≤ auxBuffHeight s < 2 ^ 16) ∧
  0 ≤ getFrameBuffer s ∧ getScreenHeight s * stride s < 2 ^ 64.

(** The address of a pixel. *)
Definition pixel (x y : Z) (s : vst) : Z := getFrameBuffer s + 3 * x + stride s * y.

Lemma within_spec x y s : withinScreenBounds x y s = true ↔ x < getScreenWidth s ∧ y < getScreenHeight s.
Proof. unfold withinScreenBounds. by rewrite andb_true_iff, !Z.ltb_lt. Qed.

Lemma row_fits s : geometry s → 3 * getScreenWidth s ≤ stride s.
Proof.
  intros [H _]. unfold getScreenWidth, stride. destruct (auxFramebuffer s =? 0); [tauto|].
  unfold u16. rewrite wrap_small by lia. lia.
Qed.

Lemma pixel_inside x y s : geometry s → 0 ≤ x → 0 ≤ y → withinScreenBounds x y s = true →
  0 ≤ stride s * y ∧ 3 * x + stride s * y + 3 ≤ getScreenHeight s * stride s.
Proof.
  intros H Hx Hy [Hw Hh]%within_spec. pose proof (row_fits s H). split; [nia|].
  assert (stride s * y + stride s ≤ getScreenHeight s * stride s) by nia. lia.
Qed.

Lemma offset_pixel x y s : geometry s → 0 ≤ x → 0 ≤ y → withinScreenBounds x y s = true →
  getFrameBuffer s + getVideoOffset x y s = pixel x y s.
Proof.
  intros H Hx Hy Hb. pose proof (pixel_inside x y s H Hx Hy Hb) as [P1 P2]. destruct H as [H1 [H2 H3]].
  unfold getVideoOffset, pixel, stride in *. destruct (auxFramebuffer s =? 0).
  - destruct H1 as (-> & _). change (24 / 8) with 3. rewrite u64_small by lia. lia.
  - rewrite u64_small by lia. lia.
Qed.

Lemma pixel_apart x y x' y' s : geometry s → 0 ≤ x → 0 ≤ y → 0 ≤ x' → 0 ≤ y' →
  withinScreenBounds x y s = true → withinScreenBounds x' y' s = true → (x, y) ≠ (x', y') →
  pixel x y s + 3 ≤ pixel x' y' s ∨ pixel x' y' s + 3 ≤ pixel x y s.
Proof.
  intros H Hx Hy Hx' Hy' [Hw _]%within_spec [Hw' _]%within_spec Hne. pose proof (row_fits s H) as R. unfold pixel.
  destruct (Z.lt_trichotomy y y') as [L|[L|L]].
  - left. assert (stride s * y + stride s ≤ stride s * y') by nia. lia.
  - assert (x ≠ x') by congruence. rewrite L. lia.
  - right. assert (stride s * y' + stride s ≤ stride s * y) by nia. lia.
Qed.

Lemma readPixel_eq x y s : geometry s → 0 ≤ x → 0 ≤ y →
  readPixel x y s = if withinScreenBounds x y s then read3 (pixel x y s) (v_mem s) else 0.
Proof.
  intros H Hx Hy. unfold readPixel. destruct (withinScreenBounds x y s) eqn:E; cbn [negb]; [|done].
  by rewrite offset_pixel.
Qed.

Lemma putPixel_eq c x y s : geometry s → 0 ≤ x → 0 ≤ y →
  putPixel c x y s = if withinScreenBounds x y s
    then set_mem (put3 (pixel x y s) (u32 (blendPixel c x y s)) (v_mem s)) s else s.
Proof.
  intros H Hx Hy. unfold putPixel. destruct (withinScreenBounds x y s) eqn:E; cbn [negb]; [|done].
  by rewrite offset_pixel.
Qed.

Lemma land_u32 c : Z.land (u32 c) 0xFFFFFF = Z.land c 0xFFFFFF.
Proof.
  apply Z.bits_inj'. intros i Hi. rewrite !Z.land_spec, ones24 by done. unfold u32, wrap.
  destruct (Z.ltb_spec i 24); [|by rewrite !andb_false_r]. by rewrite Z.mod_pow2_bits_low by lia.
Qed.

(** Writing a pixel changes the bytes of memory only. *)
Lemma putPixel_frame c x y s : ∃ m, putPixel c x y s = set_mem m s.
Proof. unfold putPixel. destruct (negb _); [exists (v_mem s); by destruct s|by eexists]. Qed.

Lemma geometry_mem m s : geometry (set_mem m s) ↔ geometry s.
Proof. done. Qed.

(** One pixel is written, and only that. *)
Lemma putPixel_read c x y x' y' s : geometry s → 0 ≤ x → 0 ≤ y → 0 ≤ x' → 0 ≤ y' →
  readPixel x' y' (putPixel c x y s) =
    if withinScreenBounds x y s && (x' =? x) && (y' =? y) then Z.land (blendPixel c x y s) 0xFFFFFF else readPixel x' y' s.
Proof.
  intros H Hx Hy Hx' Hy'. rewrite putPixel_eq by done. destruct (withinScreenBounds x y s) eqn:E; cbn [andb]; [|done].
  rewrite readPixel_eq by done. change (withinScreenBounds x' y' (set_mem _ s)) with (withinScreenBounds x' y' s).
  change (pixel x' y' (set_mem ?m s)) with (pixel x' y' s). cbn [v_mem set_mem].
  destruct (Z.eqb_spec x' x) as [->|Hne]; [destruct (Z.eqb_spec y' y) as [->|Hne]|]; cbn [andb].
  - rewrite E, read3_put3. apply land_u32.
  - rewrite (readPixel_eq x y' s) by done. destruct (withinScreenBounds x y' s) eqn:E'; [|done].
    apply read3_put3_ne. apply pixel_apart; try done. congruence.
  - rewrite (readPixel_eq x' y' s) by done. destruct (withinScreenBounds x' y' s) eqn:E'; [|done].
    apply read3_put3_ne. apply pixel_apart; try done. congruence.
Qed.

(** An opaque colour replaces what was there. *)
Definition opaque (c : Z) : Prop := channel 24 c = 0 ∨ channel 24 c = 255.

Lemma blend_opaque c x y s : opaque c → withinScreenBounds x y s = true → blendPixel c x y s = Z.land c 0xFFFFFF.
Proof. intros Hc Hb. unfold blendPixel. rewrite Hb. cbn [negb]. by destruct Hc as [->| ->]. Qed.

Lemma land_twice c : Z.land (Z.land c 0xFFFFFF) 0xFFFFFF = Z.land c 0xFFFFFF.
Proof. by rewrite <- Z.land_assoc. Qed.

Lemma putPixel_opaque c x y x' y' s : geometry s → opaque c → 0 ≤ x → 0 ≤ y → 0 ≤ x' → 0 ≤ y' →
  readPixel x' y' (putPixel c x y s) =
    if withinScreenBounds x y s && (x' =? x) && (y' =? y) then Z.land c 0xFFFFFF else readPixel x' y' s.
Proof.
  intros H Hc Hx Hy Hx' Hy'. rewrite putPixel_read by done. destruct (withinScreenBounds x y s) eqn:E; cbn [andb]; [|done].
  rewrite blend_opaque by done. by rewrite land_twice.
Qed.

(** ** Loops *)

Lemma for_range_ind (P : Z → vst → Prop) lo n body s : 0 ≤ n → P lo s →
  (∀ i s, lo ≤ i < lo + n → P i s → P (i + 1) (body i s)) → P (lo + n) (for_range lo n body s).
Proof.
  intros Hn. unfold for_range. revert lo s. pattern n. apply natlike_ind; [| |exact Hn]; clear n Hn.
  - intros lo s H _. by rewrite Z.add_0_r.
  - intros n Hn IH lo s H Hb. rewrite seqZ_cons by lia. cbn [foldl]. rewrite Z.pred_succ.
    replace (lo + Z.succ n) with (Z.succ lo + n) by lia. apply IH.
    + rewrite <- Z.add_1_r. apply Hb; [lia|done].
    + intros i s' Hi. apply Hb. lia.
Qed.

(** What drawing never changes: the geometry. *)
Definition same_screen (s s' : vst) : Prop := ∃ m, s' = set_mem m s.
Lemma screen_refl s : same_screen s s.
Proof. exists (v_mem s). by destruct s. Qed.
Lemma screen_trans a b c : same_screen a b → same_screen b c → same_screen a c.
Proof. intros [m ->] [m' ->]. by exists m'. Qed.
Lemma same_put c x y s : same_screen s (putPixel c x y s).
Proof. apply putPixel_frame. Qed.
Lemma same_geometry s s' : same_screen s s' → geometry s → geometry s'.
Proof. by intros [m ->]. Qed.
Lemma same_within s s' x y : same_screen s s' → withinScreenBounds x y s' = withinScreenBounds x y s.
Proof. by intros [m ->]. Qed.
#[local] Hint Resolve screen_refl same_put same_geometry : kernel.

Lemma same_loop lo n body s : (∀ i s, same_screen s (body i s)) → same_screen s (for_range lo n body s).
Proof.
  intros Hb. unfold for_range. generalize (seqZ lo n) as l. intros l. revert s. induction l as [|i l IH]; intros s; [apply screen_refl|].
  cbn [foldl]. eapply screen_trans; [apply Hb|apply IH].
Qed.

(** A rectangle of an opaque colour covers exactly its pixels that are on the screen. *)
Theorem drawRectangle_fills c x y w h s x' y' : geometry s → opaque c → 0 ≤ x → 0 ≤ y → 0 ≤ w → 0 ≤ h →
  x + w < 2 ^ 64 → y + h < 2 ^ 64 → 0 ≤ x' → 0 ≤ y' →
  readPixel x' y' (drawRectangle c x y w h s) =
    if bool_decide (x ≤ x' < x + w ∧ y ≤ y' < y + h) && withinScreenBounds x' y' s then Z.land c 0xFFFFFF
    else readPixel x' y' s.
Proof.
  intros H Hc Hx Hy Hw Hh Hxw Hyh Hx' Hy'. unfold drawRectangle.
  pose (P := λ i s', same_screen s s' ∧ readPixel x' y' s' =
    if bool_decide (x ≤ x' < x + i ∧ y ≤ y' < y + h) && withinScreenBounds x' y' s then Z.land c 0xFFFFFF else readPixel x' y' s).
  assert (HP : P (0 + w) (for_range 0 w (λ i, for_range 0 h (λ j, putPixel c (u64 (x + i)) (u64 (y + j)))) s)).
  { apply for_range_ind; [done| |].
    - split; [apply screen_refl|]. rewrite bool_decide_false by lia. done.
    - intros i s1 Hi [S1 E1].
      pose (Q := λ j s', same_screen s s' ∧ readPixel x' y' s' =
        if bool_decide (x' = x + i ∧ y ≤ y' < y + j) && withinScreenBounds x' y' s then Z.land c 0xFFFFFF else readPixel x' y' s1).
      assert (HQ : Q (0 + h) (for_range 0 h (λ j, putPixel c (u64 (x + i)) (u64 (y + j))) s1)).
      { apply for_range_ind; [done| |].
        - split; [done|]. rewrite bool_decide_false by lia. done.
        - intros j s2 Hj [S2 E2]. split; [eapply screen_trans; [exact S2|apply same_put]|].
          rewrite !u64_small by lia. rewrite putPixel_opaque; try lia; [|by eapply same_geometry|done].
          rewrite (same_within _ _ _ _ S2), E2. clear - Hj Hi.
          destruct (Z.eqb_spec x' (x + i)) as [->|Hne1], (Z.eqb_spec y' (y + j)) as [->|Hne2]; rewrite ?andb_true_r, ?andb_false_r.
          + rewrite (bool_decide_true (x + i = x + i ∧ y ≤ y + j < y + (j + 1))) by lia. cbn [andb].
            destruct (withinScreenBounds _ _ _); [done|]. by rewrite andb_false_r.
          + by rewrite (bool_decide_ext (x + i = x + i ∧ y ≤ y' < y + (j + 1)) (x + i = x + i ∧ y ≤ y' < y + j)) by lia.
          + by rewrite !bool_decide_false by lia.
          + by rewrite !bool_decide_false by lia. }
      destruct HQ as [S2 E2]. split; [done|]. rewrite E2, E1. rewrite Z.add_0_l. clear - Hi.
      destruct (decide (x' = x + i)) as [->|Hne].
      + destruct (decide (y ≤ y' < y + h)) as [Hin|Hout].
        * rewrite (bool_decide_true (x + i = x + i ∧ _)), (bool_decide_true (x ≤ x + i < x + (i + 1) ∧ _)) by lia.
          cbn [andb]. destruct (withinScreenBounds _ _ _); [done|]. by rewrite andb_false_r.
        * by rewrite !bool_decide_false by lia.
      + rewrite (bool_decide_false (x' = x + i ∧ _)) by lia. cbn [andb].
        by rewrite (bool_decide_ext (x ≤ x' < x + (i + 1) ∧ y ≤ y' < y + h) (x ≤ x' < x + i ∧ y ≤ y' < y + h)) by lia. }
  rewrite Z.add_0_l in HP. apply HP.
Qed.

(** Memory holds bytes. *)
Definition bytes_ok (s : vst) : Prop := ∀ a, 0 ≤ byte (v_mem s) a < 256.

Lemma byte_bits b i : 0 ≤ b < 256 → 24 ≤ i + 16 → 8 ≤ i → Z.testbit b i = false.
Proof.
  intros Hb _ Hi. replace b with (Z.land b (Z.ones 8)) by (rewrite Z.land_ones by lia; apply Z.mod_small; lia).
  by rewrite Z.land_spec, Z.ones_spec_high, andb_false_r by lia.
Qed.

Lemma readPixel_24 x y s : bytes_ok s → Z.land (readPixel x y s) 0xFFFFFF = readPixel x y s ∧ opaque (readPixel x y s).
Proof.
  intros Hb. unfold readPixel. destruct (negb _); [split; [done|by left]|].
  set (a := getFrameBuffer s + getVideoOffset x y s). pose proof (Hb a). pose proof (Hb (a + 1)). pose proof (Hb (a + 2)).
  set (r := Z.lor _ _). assert (Hr : ∀ i, 24 ≤ i → Z.testbit r i = false).
  { intros i Hi. unfold r. rewrite !Z.lor_spec, !Z.shiftl_spec by lia. by rewrite !byte_bits by lia. }
  split.
  - apply Z.bits_inj'. intros i Hi. rewrite Z.land_spec, ones24 by done. destruct (Z.ltb_spec i 24); [by rewrite andb_true_r|].
    by rewrite Hr by lia.
  - left. apply Z.bits_inj'. intros i Hi. rewrite channel_bit, Z.testbit_0_l by lia. by rewrite Hr by lia.
Qed.

Lemma bytes_put3 a c m : (∀ b, 0 ≤ byte m b < 256) → ∀ b, 0 ≤ byte (put3 a c m) b < 256.
Proof.
  intros H b. unfold put3. assert (S : ∀ m a v, (∀ b, 0 ≤ byte m b < 256) → ∀ b, 0 ≤ byte (store m a v) b < 256).
  { intros m0 a0 v Hm b0. destruct (decide (a0 = b0)) as [->|]; [|by rewrite byte_store_ne].
    rewrite byte_store_eq. apply (wrap_range 8). lia. }
  by repeat apply S.
Qed.
Lemma bytes_put c x y s : bytes_ok s → bytes_ok (putPixel c x y s).
Proof. intros H. unfold putPixel. destruct (negb _); [done|]. unfold bytes_ok. cbn [v_mem set_mem]. by apply bytes_put3. Qed.

(** A loop state: the screen is the same and the pixel at [(x, y)] is [f x y]. *)
Definition shows (s : vst) (f : Z → Z → Z) (s' : vst) : Prop :=
  same_screen s s' ∧ bytes_ok s' ∧ ∀ x y, 0 ≤ x → 0 ≤ y → withinScreenBounds x y s = true → readPixel x y s' = f x y.

Lemma shows_ext s f g s' : shows s f s' →
  (∀ x y, 0 ≤ x → 0 ≤ y → withinScreenBounds x y s = true → f x y = g x y) → shows s g s'.
Proof. intros (H1 & H2 & H3) E. split; [done|]. split; [done|]. intros. rewrite H3 by done. auto. Qed.

Lemma shows_put s f s' c x y : geometry s → shows s f s' → opaque c → 0 ≤ x → 0 ≤ y → withinScreenBounds x y s = true →
  shows s (λ x' y', if (x' =? x) && (y' =? y) then Z.land c 0xFFFFFF else f x' y') (putPixel c x y s').
Proof.
  intros H (S1 & B1 & E1) Hc Hx Hy Hb. split; [eapply screen_trans; [exact S1|apply same_put]|]. split; [by apply bytes_put|].
  intros x' y' Hx' Hy' Hb'. rewrite putPixel_opaque by (done || by eapply same_geometry).
  rewrite (same_within _ _ _ _ S1), Hb, E1 by done. done.
Qed.

(** Scrolling the auxiliary buffer: every pixel shows what was [pixelRows] rows below it,
    and the bottom rows the fill colour. *)
Theorem scrollUp_shifts pixelRows fillColor s x y : geometry s → bytes_ok s → auxFramebuffer s ≠ 0 → opaque fillColor →
  0 < pixelRows < getScreenHeight s → 0 ≤ x < getScreenWidth s → 0 ≤ y < getScreenHeight s →
  readPixel x y (scrollUp pixelRows fillColor s) =
    if y <? getScreenHeight s - pixelRows then readPixel x (y + pixelRows) s else Z.land fillColor 0xFFFFFF.
Proof.
  intros H Hb Ha Hc Hr Hx Hy. unfold scrollUp. set (w := getScreenWidth s) in *. set (h := getScreenHeight s) in *.
  rewrite (proj2 (Z.eqb_neq pixelRows 0)), (proj2 (Z.leb_gt h pixelRows)), (proj2 (Z.eqb_neq (auxFramebuffer s) 0)) by lia.
  cbn [orb negb].
  assert (Hin : ∀ a b, 0 ≤ a → 0 ≤ b → withinScreenBounds a b s = true ↔ a < w ∧ b < h) by (intros; apply within_spec).
  set (s1 := for_range 0 (h - pixelRows) _ s).
  assert (H1 : shows s (λ a b, if b <? h - pixelRows then readPixel a (b + pixelRows) s else readPixel a b s) s1).
  { pose (P := λ k, shows s (λ a b, if b <? k then readPixel a (b + pixelRows) s else readPixel a b s)).
    change (P (h - pixelRows) s1). replace (h - pixelRows) with (0 + (h - pixelRows)) by lia. apply for_range_ind; [lia| |].
    - split; [apply screen_refl|]. split; [done|]. intros a b Ha0 Hb0 _. by rewrite (proj2 (Z.ltb_ge b 0)) by lia.
    - intros k s2 Hk H2.
      pose (Q := λ j, shows s (λ a b, if (b <? k) || ((b =? k) && (a <? j)) then readPixel a (b + pixelRows) s else readPixel a b s)).
      assert (HQ : Q (0 + w) (for_range 0 w (λ j s, putPixel (readPixel j (k + pixelRows) s) j k s) s2)).
      { apply for_range_ind; [lia| |].
        - apply (shows_ext _ _ _ _ H2). intros a b Ha0 Hb0 _. rewrite (proj2 (Z.ltb_ge a 0)) by lia.
          by rewrite andb_false_r, orb_false_r.
        - intros j s3 Hj H3. pose proof H3 as (S3 & B3 & E3).
          assert (Hread : readPixel j (k + pixelRows) s3 = readPixel j (k + pixelRows) s).
          { rewrite E3 by (lia || (apply Hin; lia)). rewrite (proj2 (Z.ltb_ge _ _)), (proj2 (Z.eqb_neq _ _)) by lia. done. }
          destruct (readPixel_24 j (k + pixelRows) s3 B3) as [R1 R2].
          eapply shows_ext; [apply (shows_put _ _ _ _ _ _ H H3 R2); [lia|lia|apply Hin; lia]|].
          intros a b Ha0 Hb0 _. cbn beta. rewrite R1, Hread.
          destruct (Z.eqb_spec a j) as [->|Na], (Z.eqb_spec b k) as [->|Nb]; cbn [andb]; rewrite ?andb_false_r, ?andb_true_r, ?orb_false_r; try done.
          + by rewrite (proj2 (Z.ltb_lt j (j + 1))), orb_true_r by lia.
          + replace (a <? j + 1) with (a <? j); [done|]. destruct (Z.ltb_spec a j), (Z.ltb_spec a (j + 1)); lia || done. }
      apply (shows_ext _ _ _ _ HQ). intros a b Ha0 Hb0 [Hw _]%Hin; [|done|done].
      rewrite (proj2 (Z.ltb_lt a (0 + w))), andb_true_r by lia.
      replace (b <? k + 1) with ((b <? k) || (b =? k)); [done|].
      destruct (Z.ltb_spec b k), (Z.eqb_spec b k), (Z.ltb_spec b (k + 1)); lia || done. }
  pose (P := λ k, shows s (λ a b, if b <? h - pixelRows then readPixel a (b + pixelRows) s
    else if b <? k then Z.land fillColor 0xFFFFFF else readPixel a b s)).
  assert (HP : P (h - pixelRows + pixelRows) (for_range (h - pixelRows) pixelRows (λ y, for_range 0 w (λ x, putPixel fillColor x y)) s1)).
  { apply for_range_ind; [lia| |].
    - apply (shows_ext _ _ _ _ H1). intros a b Ha0 Hb0 _. by destruct (b <? h - pixelRows).
    - intros k s2 Hk H2.
      pose (Q := λ j, shows s (λ a b, if b <? h - pixelRows then readPixel a (b + pixelRows) s
        else if (b <? k) || ((b =? k) && (a <? j)) then Z.land fillColor 0xFFFFFF else readPixel a b s)).
      assert (HQ : Q (0 + w) (for_range 0 w (λ j, putPixel fillColor j k) s2)).
      { apply for_range_ind; [lia| |].
        - apply (shows_ext _ _ _ _ H2). intros a b Ha0 Hb0 _. rewrite (proj2 (Z.ltb_ge a 0)) by lia.
          by rewrite andb_false_r, orb_false_r.
        - intros j s3 Hj H3.
          eapply shows_ext; [apply (shows_put _ _ _ _ _ _ H H3 Hc); [lia|lia|apply Hin; lia]|].
          intros a b Ha0 Hb0 _. cbn beta.
          destruct (Z.eqb_spec a j) as [->|Na], (Z.eqb_spec b k) as [->|Nb]; cbn [andb]; rewrite ?andb_false_r, ?andb_true_r, ?orb_false_r; try done.
          + by rewrite (proj2 (Z.ltb_ge k (h - pixelRows))), (proj2 (Z.ltb_lt j (j + 1))), orb_true_r by lia.
          + replace (a <? j + 1) with (a <? j); [done|]. destruct (Z.ltb_spec a j), (Z.ltb_spec a (j + 1)); lia || done. }
      apply (shows_ext _ _ _ _ HQ). intros a b Ha0 Hb0 [Hw _]%Hin; [|done|done].
      rewrite (proj2 (Z.ltb_lt a (0 + w))), andb_true_r by lia. destruct (b <? h - pixelRows); [done|].
      replace (b <? k + 1) with ((b <? k) || (b =? k)); [done|].
      destruct (Z.ltb_spec b k), (Z.eqb_spec b k), (Z.ltb_spec b (k + 1)); lia || done. }
  destruct HP as (_ & _ & E). rewrite E; [|lia|lia|apply Hin; lia].
  destruct (y <? h - pixelRows); [done|]. by rewrite (proj2 (Z.ltb_lt y _)) by lia.
Qed.

(** The loop of the midpoint circle ends: [y] grows and [x] never does. *)
Lemma circumference_ends n : ∀ hexColor cx cy x y e s, x - y < Z.of_nat n →
  is_Some (circumference_loop (S n) hexColor cx cy x y e s).
Proof.
  induction n as [|n IH]; intros c cx cy x y e s H; cbn [circumference_loop].
  - rewrite (proj2 (Z.leb_gt y x)) by lia. by eexists.
  - destruct (y <=? x); [|by eexists]. destruct (e <? 0); apply IH; lia.
Qed.

Lemma drawCircumference_ends n hexColor cx cy radius s : i64 radius < Z.of_nat n →
  is_Some (drawCircumference (S n) hexColor cx cy radius s).
Proof. intros H. apply circumference_ends. lia. Qed.

(** Writing a pixel: it takes its new colour, blended with the old one by its alpha, and no
    other pixel and no byte outside the buffer changes; off the screen nothing happens. *)
Theorem putPixel_exact c x y s : geometry s → 0 ≤ x → 0 ≤ y →
  (∀ x' y', 0 ≤ x' → 0 ≤ y' → readPixel x' y' (putPixel c x y s) =
    if withinScreenBounds x y s && (x' =? x) && (y' =? y) then Z.land (blendPixel c x y s) 0xFFFFFF else readPixel x' y' s) ∧
  (∀ a, ¬ getFrameBuffer s ≤ a < getFrameBuffer s + getScreenHeight s * stride s →
    byte (v_mem (putPixel c x y s)) a = byte (v_mem s) a) ∧
  geometry (putPixel c x y s).
Proof.
  intros H Hx Hy. split; [intros; by apply putPixel_read|]. split; [|destruct (putPixel_frame c x y s) as [m ->]; exact H].
  intros a Ha. rewrite putPixel_eq by done. destruct (withinScreenBounds x y s) eqn:E; [|done].
  destruct (pixel_inside x y s H Hx Hy E) as [P1 P2]. cbn [v_mem set_mem]. apply byte_put3. unfold pixel. lia.
Qed.

End Driver.

(** ** A small screen: 4 by 3 pixels, and an auxiliary buffer of 3 by 3 *)

Definition small_mode : vbe_mode_info_structure := mkVBE 12 4 3 24 1000.
Definition small_screen : vst := mkV ∅ 0 0 0.
Definition small_aux : vst := mkV (put3 (5000 + 9) 0x112233 ∅) 5000 3 3.

Lemma small_screen_geometry : geometry small_mode small_screen.
Proof. unfold geometry. cbn. lia. Qed.
Lemma small_aux_geometry : geometry small_mode small_aux.
Proof. unfold geometry. cbn. change (u16 3) with 3. lia. Qed.

Lemma putPixel_exact_witness :
  readPixel small_mode 1 2 (putPixel small_mode 0x00ABCDEF 1 2 small_screen) = 0xABCDEF.
Proof.
  destruct (putPixel_exact small_mode 0x00ABCDEF 1 2 small_screen small_screen_geometry) as (E & _ & _); [lia|lia|].
  rewrite E by lia. reflexivity.
Defined.

Lemma drawRectangle_fills_witness :
  readPixel small_mode 3 1 (drawRectangle small_mode 0x00ABCDEF 2 1 5 1 small_screen) = 0xABCDEF.
Proof.
  rewrite (drawRectangle_fills small_mode 0x00ABCDEF 2 1 5 1 small_screen 3 1 small_screen_geometry); try lia; [reflexivity|].
  left. reflexivity.
Defined.

Lemma scrollUp_shifts_witness : readPixel small_mode 0 0 (scrollUp small_mode 1 0 small_aux) = 0x112233.
Proof.
  rewrite (scrollUp_shifts small_mode 1 0 small_aux 0 0 small_aux_geometry); [reflexivity| |vm_compute; congruence|left; reflexivity|..].
  - intros a. unfold bytes_ok, small_aux. cbn [v_mem]. apply bytes_put3. intros b. unfold byte. rewrite lookup_empty. cbn. lia.
  - vm_compute. split; congruence.
  - vm_compute. split; congruence.
  - vm_compute. split; congruence.
Defined.

End Video.
