(* ===== verification/Devices.v ===== *)
(** * The timer, the speaker, the interrupt table and the exceptions
    ([Kernel/interruptions/], [Kernel/Drivers/soundDriver.c])

    What the hardware answers is an argument: the counter of ticks at each reading, the value
    an I/O port reads back, the addresses of the assembly handlers. *)

From S2P Require Import Prelude KState Scheduler LibC Video.
From stdpp Require Import strings.
#[local] Open Scope Z_scope.

(** ** [timer.c] *)

Module Timer.

Definition PERIOD_MILLIS : Z := 55.
Definition FREQUENCY : Z := 1000 / PERIOD_MILLIS.

(** [ticks] is an [unsigned long]; the answers are [int]s. *)
Definition ticks_elapsed (ticks : Z) : Z := i32 ticks.
Definition seconds_elapsed (ticks : Z) : Z := i32 (ticks / FREQUENCY).
Definition milliseconds_elapsed (ticks : Z) : Z := i32 (u64 (ticks * PERIOD_MILLIS)).

(** [reads i] is the counter at the [i]-th reading: the timer interrupts between them. *)
Fixpoint sleep_loop (fuel : nat) (reads : nat → Z) (i : nat) (start elapsed millis : Z) : option Z :=
  if elapsed <? millis then
    match fuel with
    | O => None
    | S fuel => sleep_loop fuel reads (S i) start (u64 (u64 (milliseconds_elapsed (reads i)) - start)) millis
    end
  else Some elapsed.
Definition sleep (fuel : nat) (reads : nat → Z) (millis : Z) : option Z :=
  sleep_loop fuel reads 1 (u64 (milliseconds_elapsed (reads 0%nat))) 0 millis.

Lemma millis_small t : 0 ≤ t → 55 * t < 2 ^ 31 → milliseconds_elapsed t = 55 * t.
Proof. intros. unfold milliseconds_elapsed, PERIOD_MILLIS. rewrite u64_small, i32_small; lia. Qed.

Lemma sleep_loop_ok reads millis k : ∀ n fuel i e, (k = i + n)%nat → (n < fuel)%nat →
  (∀ j, (j <= k)%nat → 0 ≤ reads 0%nat ≤ reads j ∧ 55 * reads j < 2 ^ 31) →
  (∀ j, (i <= j < k)%nat → 55 * (reads j - reads 0%nat) < millis) → millis ≤ 55 * (reads k - reads 0%nat) →
  e < millis → sleep_loop fuel reads i (55 * reads 0%nat) e millis = Some (55 * (reads k - reads 0%nat)).
Proof.
  induction n as [|n IH]; intros [|fuel] i e Hk Hf Hr Hlt Hge He; try lia; cbn [sleep_loop];
    rewrite (proj2 (Z.ltb_lt e millis)) by done; destruct (Hr i ltac:(lia)) as [R1 R2];
    rewrite millis_small, (u64_small (55 * reads i)), u64_small by lia.
  - assert (i = k) as -> by lia. destruct fuel; cbn [sleep_loop]; rewrite (proj2 (Z.ltb_ge _ _)) by lia; f_equal; lia.
  - apply IH; try lia; try done; [intros j Hj; apply Hlt; lia|]. specialize (Hlt i ltac:(lia)). lia.
Qed.

(** C24. [sleep] waits: as long as the milliseconds fit in an [int] (the first 24 days), it
    answers the time passed at the first reading of the clock at which at least [millis]
    milliseconds have passed, and it reads the clock no further. *)
Theorem sleep_waits reads millis k fuel : 0 < millis → (k < fuel)%nat → (0 < k)%nat →
  (∀ j, (j <= k)%nat → 0 ≤ reads 0%nat ≤ reads j ∧ 55 * reads j < 2 ^ 31) →
  (∀ j, (0 < j < k)%nat → 55 * (reads j - reads 0%nat) < millis) → millis ≤ 55 * (reads k - reads 0%nat) →
  sleep fuel reads millis = Some (55 * (reads k - reads 0%nat)).
Proof.
  intros Hm Hf Hk Hr Hlt Hge. unfold sleep. destruct (Hr 0%nat ltac:(lia)).
  rewrite millis_small, (u64_small (55 * reads 0%nat)) by lia.
  apply (sleep_loop_ok reads millis k (k - 1)); try lia; try done.
Qed.

Lemma sleep_waits_witness : sleep 10 (λ i, 1000 + Z.of_nat i) 100 = Some 110.
Proof. rewrite (sleep_waits (λ i, 1000 + Z.of_nat i) 100 2); [reflexivity|lia|lia|lia|intros j Hj; lia|intros j Hj; lia|lia]. Defined.

End Timer.

(** ** [soundDriver.c] *)

Module Sound.

Definition SPEAKER_PORT : Z := 0x61.
Definition PIT_CONTROL_PORT : Z := 0x43.
Definition PIT_CHANNEL2_PORT : Z := 0x42.
Definition PIT_FREQUENCY : Z := 1193182.

(** The driver's statics, and the bytes written to the ports so far. *)
Record sound := mkSound { sound_playing : bool; sound_start_time : Z; sound_duration : Z; written : list (Z * Z) }.

Section Ports.
(** What a port answers after those writes. *)
Context (readPort : list (Z * Z) → Z → Z).

Definition writePort (port v : Z) (s : sound) : sound :=
  mkSound (sound_playing s) (sound_start_time s) (sound_duration s) (written s ++ [(port, u8 v)]).

Definition setSpeakerFrequency (frequency : Z) (s : sound) : sound :=
  if frequency =? 0 then
    let speaker_status := u8 (readPort (written s) SPEAKER_PORT) in
    writePort SPEAKER_PORT (Z.land speaker_status 0xFC) s
  else
    let divisor := PIT_FREQUENCY / frequency in
    let s := writePort PIT_CONTROL_PORT 0xB6 s in
    let s := writePort PIT_CHANNEL2_PORT (Z.land divisor 0xFF) s in
    let s := writePort PIT_CHANNEL2_PORT (Z.land (Z.shiftr divisor 8) 0xFF) s in
    let speaker_status := u8 (readPort (written s) SPEAKER_PORT) in
    writePort SPEAKER_PORT (Z.lor speaker_status 0x03) s.

Definition stopSound (s : sound) : sound := setSpeakerFrequency 0 (mkSound false 0 0 (written s)).

(** [now] is [milliseconds_elapsed]. *)
Definition playSound (now frequency duration_ms : Z) (s : sound) : sound :=
  if (frequency =? 0) || (duration_ms =? 0) then stopSound s
  else setSpeakerFrequency frequency (mkSound true (u32 now) duration_ms (written s)).

Definition isSoundPlaying (now : Z) (s : sound) : Z * sound :=
  if negb (sound_playing s) then (0, s)
  else
    let elapsed := u32 (u32 now - sound_start_time s) in
    if sound_duration s <=? elapsed then (0, stopSound s) else (1, s).

(** [timer_handler], on its counter and the sound: a sound whose time is over stops. *)
Definition timer_tick (ticks : Z) (s : sound) : Z * sound :=
  let ticks := u64 (ticks + 1) in
  (ticks, snd (isSoundPlaying (Timer.milliseconds_elapsed ticks) s)).

(** The gate and the data bit of the speaker. *)
Definition speaker_on (s : sound) : Prop := Z.land (readPort (written s) SPEAKER_PORT) 3 = 3.
Definition speaker_off (s : sound) : Prop := Z.land (readPort (written s) SPEAKER_PORT) 3 = 0.

(** The two bits read back what was last written to them, whatever else is written. *)
Definition speaker_reads_back : Prop :=
  (∀ l v, Z.land (readPort (l ++ [(SPEAKER_PORT, v)]) SPEAKER_PORT) 3 = Z.land v 3) ∧
  (∀ l p v, p ≠ SPEAKER_PORT → readPort (l ++ [(p, v)]) SPEAKER_PORT = readPort l SPEAKER_PORT).

Definition speaker_follows (s : sound) : Prop := if sound_playing s then speaker_on s else speaker_off s.

Lemma land_u8_3 x : Z.land (u8 x) 3 = Z.land x 3.
Proof.
  unfold u8, wrap. rewrite <- Z.land_ones by lia. rewrite <- Z.land_assoc. f_equal.
Qed.

Lemma frequency_off s : speaker_reads_back → speaker_off (setSpeakerFrequency 0 s).
Proof.
  intros [B _]. unfold speaker_off, setSpeakerFrequency, writePort. cbn [Z.eqb written]. rewrite B, land_u8_3, <- Z.land_assoc.
  apply Z.land_0_r.
Qed.
Lemma frequency_on f s : speaker_reads_back → f ≠ 0 → speaker_on (setSpeakerFrequency f s).
Proof.
  intros [B _] Hf. unfold speaker_on, setSpeakerFrequency, writePort. rewrite (proj2 (Z.eqb_neq f 0)) by done. cbn [written].
  rewrite B, land_u8_3, Z.land_lor_distr_l. apply Z.bits_inj'. intros i Hi. rewrite Z.lor_spec, !Z.land_spec.
  by destruct (Z.testbit 3 i); rewrite ?andb_false_r, ?orb_true_r.
Qed.

(** The speaker sounds exactly while a sound is playing: every operation of the driver
    keeps it so; a sound that was started is still playing at a time before its end, and the
    first tick at or after its end silences it. *)
Theorem speaker_follows_sound s now frequency duration_ms : speaker_reads_back → speaker_follows s →
  speaker_follows (playSound now frequency duration_ms s) ∧ speaker_follows (stopSound s) ∧
  speaker_follows (snd (isSoundPlaying now s)) ∧
  (0 < frequency → 0 < duration_ms →
    ∀ later, 0 ≤ now ≤ later → later < 2 ^ 31 →
    let s' := playSound now frequency duration_ms s in
    if later - now <? duration_ms then isSoundPlaying later s' = (1, s') ∧ speaker_on s'
    else fst (isSoundPlaying later s') = 0 ∧ speaker_off (snd (isSoundPlaying later s'))).
Proof.
  intros B Hs. assert (Hstop : ∀ s, speaker_follows (stopSound s)).
  { intros s0. unfold speaker_follows, stopSound. replace (sound_playing _) with false by done. by apply frequency_off. }
  split; [|split; [apply Hstop|split]].
  - unfold playSound. destruct (Z.eqb_spec frequency 0); [apply Hstop|]. destruct (Z.eqb_spec duration_ms 0); [apply Hstop|].
    cbn [orb]. unfold speaker_follows. replace (sound_playing _) with true; [by apply frequency_on|].
    unfold setSpeakerFrequency. by rewrite (proj2 (Z.eqb_neq frequency 0)).
  - unfold isSoundPlaying. destruct (sound_playing s) eqn:E; cbn [negb]; [|done]. case_match; [apply Hstop|done].
  - intros Hf Hd later Hn Hl s'. assert (Es : s' = setSpeakerFrequency frequency (mkSound true (u32 now) duration_ms (written s))).
    { unfold s', playSound. rewrite (proj2 (Z.eqb_neq frequency 0)), (proj2 (Z.eqb_neq duration_ms 0)) by lia. done. }
    assert (Hon : speaker_on s') by (rewrite Es; apply frequency_on; [done|lia]).
    assert (Hp : sound_playing s' = true ∧ sound_start_time s' = u32 now ∧ sound_duration s' = duration_ms).
    { rewrite Es. unfold setSpeakerFrequency. by rewrite (proj2 (Z.eqb_neq frequency 0)) by lia. }
    destruct Hp as (P1 & P2 & P3). unfold isSoundPlaying. rewrite P1, P2, P3. cbn [negb].
    rewrite (u32_small later), (u32_small now), u32_small by lia.
    destruct (Z.ltb_spec (later - now) duration_ms).
    + rewrite (proj2 (Z.leb_gt duration_ms _)) by lia. done.
    + rewrite (proj2 (Z.leb_le duration_ms _)) by lia. split; [done|]. by apply frequency_off.
Qed.

End Ports.

(** A port that reads back its last byte. *)
Definition latch (l : list (Z * Z)) (port : Z) : Z :=
  foldl (λ v pv, if fst pv =? port then snd pv else v) 0 l.

Lemma speaker_follows_sound_witness :
  speaker_reads_back latch ∧ speaker_off latch (snd (isSoundPlaying latch 1500 (playSound latch 1000 440 500 (mkSound false 0 0 [])))).
Proof.
  assert (B : speaker_reads_back latch).
  { split; intros; unfold latch; rewrite foldl_app; cbn; [done|]. by rewrite (proj2 (Z.eqb_neq p SPEAKER_PORT)). }
  split; [exact B|].
  destruct (speaker_follows_sound latch (mkSound false 0 0 []) 1000 440 500 B eq_refl) as (_ & _ & _ & H).
  destruct (H ltac:(lia) ltac:(lia) 1500 ltac:(lia) ltac:(lia)) as [_ H']. exact H'.
Defined.

End Sound.

(** ** [idtLoader.c] *)

Module Idt.

Definition ACS_PRESENT : Z := 0x80.
Definition ACS_INT_386 : Z := 0x0E.
Definition ACS_INT : Z := Z.lor ACS_PRESENT ACS_INT_386.

Record DESCR_INT := mkGate {
  offset_l : Z; selector : Z; cero : Z; access : Z; offset_m : Z; offset_h : Z; other_cero : Z;
}.

Definition setup_IDT_entry (index offset : Z) (idt : gmap Z DESCR_INT) : gmap Z DESCR_INT :=
  <[index := mkGate (u16 (Z.land offset 0xFFFF)) 0x08 0 ACS_INT (u16 (Z.land (Z.shiftr offset 16) 0xFFFF))
               (u32 (Z.land (Z.shiftr offset 32) 0xFFFFFFFF)) 0]> idt.

(** The table, the masks of the two interrupt controllers, and whether interrupts are on. *)
Record cpu := mkCpu { idt : gmap Z DESCR_INT; masterMask : Z; slaveMask : Z; interrupts : bool }.

(** The addresses of the assembly handlers. *)
Record handlers := mkHandlers {
  _irq00Handler : Z; _irq01Handler : Z; _syscall : Z; _exception0Handler : Z; _exception6Handler : Z;
}.

Definition load_idt (h : handlers) (c : cpu) : cpu :=
  let t := setup_IDT_entry 0x20 (_irq00Handler h) (idt c) in
  let t := setup_IDT_entry 0x21 (_irq01Handler h) t in
  let t := setup_IDT_entry 0x80 (_syscall h) t in
  let t := setup_IDT_entry 0x00 (_exception0Handler h) t in
  let t := setup_IDT_entry 0x06 (_exception6Handler h) t in
  mkCpu t 0xFC 0xFF true.

(** The processor's reading of a gate: present interrupt gates lead to their offset. *)
Definition target (g : DESCR_INT) : option Z :=
  if Z.testbit (access g) 7 && (Z.land (access g) 0x1F =? 0x0E)
  then Some (Z.lor (Z.lor (offset_l g) (Z.shiftl (offset_m g) 16)) (Z.shiftl (offset_h g) 32)) else None.
(** The vectors of the interrupt lines that are not masked. *)
Definition enabled_irq (c : cpu) (irq : Z) : bool :=
  interrupts c && if irq <? 8 then negb (Z.testbit (masterMask c) irq) else negb (Z.testbit (slaveMask c) (irq - 8)).

Lemma low_bits x w k : 0 ≤ k → 0 ≤ w → Z.land (Z.shiftr x k) (Z.ones w) = (x / 2 ^ k) mod 2 ^ w.
Proof. intros. by rewrite Z.land_ones, Z.shiftr_div_pow2. Qed.

Lemma gate_target i x t : 0 ≤ x < 2 ^ 64 → (setup_IDT_entry i x t !! i) ≫= target = Some x.
Proof.
  intros Hx. unfold setup_IDT_entry. rewrite lookup_insert_eq. cbn [mbind option_bind]. unfold target.
  cbn [access offset_l offset_m offset_h]. change (Z.testbit ACS_INT 7 && (Z.land ACS_INT 0x1F =? 0x0E)) with true. cbv iota.
  change 0xFFFFFFFF with (Z.ones 32). change 0xFFFF with (Z.ones 16). rewrite !low_bits, Z.land_ones by lia.
  unfold u16, u32, wrap. rewrite !Zmod_mod. f_equal. apply Z.bits_inj'. intros n Hn.
  rewrite !Z.lor_spec, !Z.shiftl_spec by lia.
  assert (Hhigh : ∀ m, 64 ≤ m → Z.testbit x m = false).
  { intros m Hm. apply Z.bits_above_log2; [lia|]. destruct (Z.eq_dec x 0) as [->|]; [cbn; lia|]. apply Z.log2_lt_pow2; [lia|].
    apply (Z.lt_le_trans _ (2 ^ 64)); [lia|]. apply Z.pow_le_mono_r; lia. }
  assert (Hb : ∀ k w m, 0 ≤ k → 0 ≤ w → 0 ≤ m → Z.testbit ((x / 2 ^ k) mod 2 ^ w) m = (m <? w) && Z.testbit x (m + k)).
  { intros k w m Hk Hw Hm. rewrite <- low_bits, Z.land_spec, Z.shiftr_spec, Z.testbit_ones_nonneg by lia. apply andb_comm. }
  replace (x mod 2 ^ 16) with ((x / 2 ^ 0) mod 2 ^ 16) by (by rewrite Z.pow_0_r, Z.div_1_r).
  rewrite Hb, Z.add_0_r by lia.
  destruct (Z.ltb_spec n 16) as [H16|H16]; [rewrite !(Z.testbit_neg_r _ (n - _)) by lia; by rewrite !orb_false_r|].
  cbn [andb orb]. rewrite Hb by lia. replace (n - 16 + 16) with n by lia.
  destruct (Z.ltb_spec (n - 16) 16); [rewrite (Z.testbit_neg_r _ (n - 32)) by lia; by rewrite orb_false_r|].
  cbn [andb orb]. rewrite Hb by lia. replace (n - 32 + 32) with n by lia.
  destruct (Z.ltb_spec (n - 32) 32); [done|]. cbn [andb]. by rewrite Hhigh by lia.
Qed.

(** After [load_idt] the processor reads back, from the split fields of the gates, exactly
    the five handlers' addresses at their vectors; every other vector is as before, and only
    the lines of the timer and of the keyboard are enabled. *)
Theorem load_idt_decodes h c : (∀ x, x ∈ [_irq00Handler h; _irq01Handler h; _syscall h; _exception0Handler h; _exception6Handler h] → 0 ≤ x < 2 ^ 64) →
  let t := idt (load_idt h c) in
  (t !! 0x20) ≫= target = Some (_irq00Handler h) ∧ (t !! 0x21) ≫= target = Some (_irq01Handler h) ∧
  (t !! 0x80) ≫= target = Some (_syscall h) ∧
  (t !! 0x00) ≫= target = Some (_exception0Handler h) ∧ (t !! 0x06) ≫= target = Some (_exception6Handler h) ∧
  (∀ i, i ∉ [0x20; 0x21; 0x80; 0x00; 0x06] → t !! i = idt c !! i) ∧
  ∀ irq, 0 ≤ irq < 16 → enabled_irq (load_idt h c) irq = (irq <? 2).
Proof.
  intros H t. assert (Hne : ∀ i j x (t : gmap Z DESCR_INT), i ≠ j → setup_IDT_entry i x t !! j = t !! j) by
    (intros i j x t0 Hij; unfold setup_IDT_entry; by rewrite lookup_insert_ne).
  unfold t, load_idt. cbn [idt]. split_and!.
  1-5: repeat (rewrite Hne by done); apply gate_target, H; rewrite !elem_of_cons; tauto.
  - intros i Hi. rewrite !elem_of_cons in Hi. rewrite !Hne by (intros <-; tauto). done.
  - intros irq Hr. assert (E : forallb (λ i, Bool.eqb (enabled_irq (load_idt h c) i) (i <? 2)) (seqZ 0 16) = true) by reflexivity.
    rewrite forallb_forall in E. apply Bool.eqb_prop, E, list_elem_of_In, elem_of_seqZ. lia.
Qed.

Lemma load_idt_decodes_witness :
  (idt (load_idt (mkHandlers 0x100123 0x100456 0x100789 0x1fedcba98 0x100000) (mkCpu ∅ 0 0 false)) !! 0x00) ≫= target = Some 0x1fedcba98.
Proof.
  apply (load_idt_decodes (mkHandlers 0x100123 0x100456 0x100789 0x1fedcba98 0x100000) (mkCpu ∅ 0 0 false)).
  intros x Hx. cbn in Hx. rewrite !elem_of_cons, elem_of_nil in Hx. lia.
Defined.

End Idt.

(** ** [irqDispatcher.c] *)

Module Irq.
Import Idt.

Definition IRQ_COUNT : Z := 16.
Inductive irq_handler_t := timer_handler | keyboardInterrupt.
(** The initialiser leaves NULL in the other fourteen. *)
Definition irqHandlers : list (option irq_handler_t) :=
  [Some timer_handler; Some keyboardInterrupt] ++ replicate 14 None.

(** The handler that is called, [None] being a call through NULL or past the table. *)
Definition irqDispatcher (irq : Z) : option irq_handler_t := mjoin (irqHandlers !! Z.to_nat irq).

(** Every interrupt line that [load_idt] leaves enabled has a handler: the dispatcher never
    calls through the empty entries of its table. *)
Theorem irq_handled h c irq : 0 ≤ irq < IRQ_COUNT → enabled_irq (load_idt h c) irq = true →
  ∃ f, irqDispatcher irq = Some f.
Proof.
  intros Hr He. assert (E : forallb (λ i, negb (enabled_irq (load_idt h c) i) || bool_decide (is_Some (irqDispatcher i))) (seqZ 0 16) = true)
    by reflexivity.
  rewrite forallb_forall in E.
  specialize (E irq ltac:(apply list_elem_of_In, elem_of_seqZ; unfold IRQ_COUNT in Hr; lia)). rewrite He in E.
  destruct (bool_decide_eq_true_1 _ E) as [f ->]. by exists f.
Qed.

Lemma irq_handled_witness : ∃ f, irqDispatcher 1 = Some f.
Proof. apply (irq_handled (mkHandlers 1 2 3 4 5) (mkCpu ∅ 0 0 false)); [unfold IRQ_COUNT; lia|reflexivity]. Defined.

End Irq.

(** The bytes of a string literal. *)
Fixpoint bytes (s : string) : list Z :=
  match s with EmptyString => [] | String c s => Z.of_nat (Ascii.nat_of_ascii c) :: bytes s end.
Definition line_end : list Z := [10].

(** ** [registers.c] *)

Module Registers.
Import Scheduler.

Record StackFrame := mkFrame {
  r15 : Z; r14 : Z; r13 : Z; r12 : Z; r11 : Z; r10 : Z; r9 : Z; r8 : Z;
  rsi : Z; rdi : Z; rbp : Z; rdx : Z; rcx : Z; rbx : Z; rax : Z;
  rip : Z; cs : Z; rflags : Z; rsp : Z; ss : Z;
}.

(** What a line adds to the buffer. *)
Definition add_register_to_buffer (reg_name : string) (value : Z) : list Z :=
  bytes reg_name ++ LibC.uint64ToHex value ++ line_end.

(** The buffer that [print_registers] fills. *)
Definition register_dump (f : StackFrame) : list Z :=
  line_end ++ bytes "=== REGISTER DUMP ===" ++ line_end ++
  add_register_to_buffer "RAX: " (rax f) ++ add_register_to_buffer "RBX: " (rbx f) ++
  add_register_to_buffer "RCX: " (rcx f) ++ add_register_to_buffer "RDX: " (rdx f) ++
  add_register_to_buffer "RSI: " (rsi f) ++ add_register_to_buffer "RDI: " (rdi f) ++
  add_register_to_buffer "RBP: " (rbp f) ++ add_register_to_buffer "RSP: " (rsp f) ++
  add_register_to_buffer "R8:  " (r8 f) ++ add_register_to_buffer "R9:  " (r9 f) ++
  add_register_to_buffer "R10: " (r10 f) ++ add_register_to_buffer "R11: " (r11 f) ++
  add_register_to_buffer "R12: " (r12 f) ++ add_register_to_buffer "R13: " (r13 f) ++
  add_register_to_buffer "R14: " (r14 f) ++ add_register_to_buffer "R15: " (r15 f) ++
  add_register_to_buffer "RIP: " (rip f) ++ add_register_to_buffer "RFLAGS: " (rflags f) ++
  add_register_to_buffer "CS:  " (cs f) ++ add_register_to_buffer "SS:  " (ss f) ++
  bytes "==================" ++ line_end ++ line_end.

Definition BUFFER_SIZE : Z := 600.
Definition STDOUT : Z := 1.

Definition print_registers (fuel : nat) (f : StackFrame) : K unit := _ ← write fuel STDOUT (register_dump f); mret ().

Record snapshots := mkSnapshots { snapshot : StackFrame; savedSnapshot : StackFrame; snapshotTaken : bool }.
Definition createRegisterSnapshot (f : StackFrame) (r : snapshots) : snapshots :=
  mkSnapshots f (savedSnapshot r) (snapshotTaken r).
Definition saveRegisterSnapshot (r : snapshots) : snapshots := mkSnapshots (snapshot r) (snapshot r) true.
Definition printSnapshot (fuel : nat) (r : snapshots) : K Z :=
  if negb (snapshotTaken r) then mret 0 else _ ← print_registers fuel (savedSnapshot r); mret 1.

Lemma line_length n v : length (add_register_to_buffer n v) = (length (bytes n) + 19)%nat.
Proof. unfold add_register_to_buffer, LibC.uint64ToHex. rewrite !length_app, length_map. vm_compute (length line_end). change (length (rev _)) with 16%nat. cbn [length]. lia. Qed.

(** The nibble the digit stands for. *)
Definition nibble (c : Z) : Z := if c <? 65 then c - 48 else c - 55.

Lemma hex_digits_value v : 0 ≤ v → ∀ n : nat, (n <= 16)%nat →
  foldl (λ a c, a * 16 + nibble c) 0
    (map (λ i, default 0 (LibC.hexChars !! Z.to_nat (Z.land (Z.shiftr v (i * 4)) 0xF))) (rev (seqZ (16 - Z.of_nat n) (Z.of_nat n))))
  = (v / 16 ^ (16 - Z.of_nat n)) mod 16 ^ Z.of_nat n.
Proof.
  intros Hv. induction n as [|n IH]; intros Hn; [cbn; by rewrite Z.mod_1_r|].
  rewrite seqZ_cons by lia. cbn [rev]. rewrite map_app, foldl_app. cbn [map foldl].
  replace (Z.succ (16 - Z.of_nat (S n))) with (16 - Z.of_nat n) by lia.
  replace (Z.pred (Z.of_nat (S n))) with (Z.of_nat n) by lia. rewrite IH by lia.
  set (k := 16 - Z.of_nat (S n)). replace (16 - Z.of_nat n) with (k + 1) by lia.
  change 0xF with (Z.ones 4). rewrite Z.land_ones, Z.shiftr_div_pow2 by lia. change (2 ^ 4) with 16.
  replace (2 ^ (k * 4)) with (16 ^ k) by (rewrite Z.mul_comm, Z.pow_mul_r by lia; done).
  assert (Hd : ∀ d, 0 ≤ d < 16 → nibble (default 0 (LibC.hexChars !! Z.to_nat d)) = d).
  { intros d Hr. assert (E : forallb (λ d, nibble (default 0 (LibC.hexChars !! Z.to_nat d)) =? d) (seqZ 0 16) = true) by reflexivity.
    rewrite forallb_forall in E. apply Z.eqb_eq, E, list_elem_of_In, elem_of_seqZ. lia. }
  assert (0 < 16 ^ k) by (apply Z.pow_pos_nonneg; lia). assert (0 < 16 ^ Z.of_nat n) by (apply Z.pow_pos_nonneg; lia).
  rewrite Hd by (apply Z.mod_pos_bound; lia). rewrite Z.pow_add_r, <- Z.div_div, Nat2Z.inj_succ, Z.pow_succ_r by lia.
  change (16 ^ 1) with 16. rewrite (Z.rem_mul_r (v / 16 ^ k) 16) by lia. lia.
Qed.

(** The dump of the registers fits its buffer with its terminator, and every register can
    be read back from the sixteen digits of its line. *)
Theorem register_dump_fits f :
  Z.of_nat (length (register_dump f)) + 1 ≤ BUFFER_SIZE ∧
  ∀ n v, 0 ≤ v < 2 ^ 64 → ∃ digits, add_register_to_buffer n v = bytes n ++ bytes "0x" ++ digits ++ line_end ∧
    length digits = 16%nat ∧ foldl (λ a c, a * 16 + nibble c) 0 digits = v.
Proof.
  split.
  - unfold register_dump, BUFFER_SIZE. rewrite !length_app, !line_length. cbn. lia.
  - intros n v Hv. unfold add_register_to_buffer, LibC.uint64ToHex. eexists. split; [by rewrite <- app_assoc|].
    split; [done|]. pose proof (hex_digits_value v ltac:(lia) 16 ltac:(lia)) as E. cbn [Z.of_nat Z.sub Pos.of_succ_nat Pos.succ] in E.
    etrans; [exact E|]. rewrite Z.pow_0_r, Z.div_1_r. apply Z.mod_small. exact Hv.
Qed.

End Registers.

(** ** [exceptions.c] *)

Module Exceptions.
Import Registers.

Definition ZERO_EXCEPTION_ID : Z := 0.
Definition INVALID_OPCODE_EXCEPTION_ID : Z := 6.

Definition messages : list string :=
  ["Error: Zero division."; ""; ""; ""; ""; ""; "Error: Invalid opcode."]%string.
Definition message (exception : Z) : list Z := bytes (default ""%string (messages !! Z.to_nat exception)).

Definition MESSAGE_BUFFER : Z := 150.

(** The message while the countdown is at [counter]. *)
Definition countdown (exception counter : Z) : list Z :=
  let number_index := Z.of_nat (length (message exception)) + 15 in
  <[Z.to_nat number_index := counter + 48]> (LibC.concat_strings (message exception) (bytes " Restarting in 3...")).

(** What the handler does, in order. *)
Inductive action :=
  | PrintRegisters (frame : StackFrame)
  | SetAuxFramebuffer (buffer width height : Z)
  | SetBackground (color : Z)
  | DrawString (text : list Z) (x y fgcolor bgcolor scale : Z)
  | Sleep (millis : Z).

Definition bgColor : Z := 0x000082.
Definition handle_exception (screenHeight exception : Z) (frame : StackFrame) : list action :=
  [SetAuxFramebuffer 0 0 0; PrintRegisters frame; SetBackground bgColor] ++
  concat (map (λ counter, [DrawString (countdown exception counter) (2 * 8) (screenHeight / 2) 0xFFFFFF bgColor 2; Sleep 1000]) [3; 2; 1]).
Definition exceptionDispatcher (screenHeight exception : Z) (frame : StackFrame) : list action :=
  handle_exception screenHeight exception frame.

(** Both exceptions count down from 3: the digit replaced in the message is the one of the
    countdown, the text is complete and fits its buffer, and three seconds pass. *)
Lemma countdown_texts h frame e : e = ZERO_EXCEPTION_ID ∨ e = INVALID_OPCODE_EXCEPTION_ID →
  let text k := message e ++ bytes " Restarting in " ++ [k + 48] ++ bytes "..." in
  exceptionDispatcher h e frame =
    [SetAuxFramebuffer 0 0 0; PrintRegisters frame; SetBackground bgColor;
     DrawString (text 3) 16 (h / 2) 0xFFFFFF bgColor 2; Sleep 1000;
     DrawString (text 2) 16 (h / 2) 0xFFFFFF bgColor 2; Sleep 1000;
     DrawString (text 1) 16 (h / 2) 0xFFFFFF bgColor 2; Sleep 1000] ∧
  ∀ k, Z.of_nat (length (text k)) < MESSAGE_BUFFER.
Proof. by intros [-> | ->]. Qed.

End Exceptions.
