(* ===== verification/Kernel.v ===== *)
(** * The start of the kernel ([Kernel/kernel.c])

    [main] and the entry of the init process, over the components they start: from the zeroed
    statics of the kernel to the shell waiting for its first turn. *)

From S2P Require Import Prelude MemoryManager FreeList CircularBuffer KState ProcTable Semaphore Pipe Process.
From S2P Require Import KernelInv KernelCheck Scheduler LifeCycle Keyboard LibC Video Devices.
Import ProcTable Semaphore SharedSemaphores Pipe FileAccess Process KernelInv KernelCheck Scheduler LifeCycle Keyboard.

Module Kernel.

Definition PageSize : Z := 0x1000.
Definition sampleCodeModuleAddress : Z := 0x400000.
Definition sampleDataModuleAddress : Z := 0x500000.

(** ** The binary

    The linker's symbols are arguments. *)

Definition clearBSS (bssAddress bssSize : Z) (m : LibC.memory) : LibC.memory := LibC.memset bssAddress 0 bssSize m.

Definition getStackBase (endOfKernel : Z) : Z := u64 (endOfKernel + PageSize * 8 - 8).

Definition initializeKernelBinary (bss endOfKernelBinary endOfKernel : Z) (m : LibC.memory) : option (Z * LibC.memory) :=
  let moduleAddresses := [sampleCodeModuleAddress; sampleDataModuleAddress] in
  m1 ← LibC.loadModules m endOfKernelBinary moduleAddresses;
  Some (getStackBase endOfKernel, clearBSS bss (u64 (endOfKernel - bss)) m1).

(** ** The init process *)

Definition init_setup (k : kbd) : K kbd :=
  kbdPipe ← newPipe;
  kbdRead ← newFileAccess kbdPipe FILE_READ;
  kbdWrite ← newFileAccess kbdPipe FILE_WRITE;
  _ ← addCurrentFd kbdRead;
  k ← initializeKeyboardDriver kbdWrite k;
  _ ← startNewProcess sampleCodeModuleAddress (Some (Devices.bytes "shell")) 1 0 None;
  mret k.

(** [while (1) wait_any();], for that many rounds. *)
Fixpoint reap_forever (rounds : nat) : K unit :=
  match rounds with O => kfuel | S rounds => _ ← wait_any; reap_forever rounds end.

Definition initProcessEntry (rounds : nat) (k : kbd) : K unit := _ ← init_setup k; reap_forever rounds.

(** ** [main]

    The heap (the free list; the buddy manager is the other build), the processor's tables and
    the process layer, which [main] initialises in this order; afterwards it halts until the
    first interrupt. *)
Record machine := mkMachine { heap : FreeList.state; cpu : Devices.Idt.cpu; kernel : kst }.

Definition main (h : Devices.Idt.handlers) (idleEntry initEntry : Z) (m : machine) : option machine :=
  let heap' := FreeList.mem_init (heap m) MEM_HEAP_START MEM_HEAP_SIZE in
  match initializeScheduler idleEntry initEntry (Devices.bytes "idle") (Devices.bytes "init") (kernel m) with
  | KDone k1 _ =>
    let cpu' := Devices.Idt.load_idt h (cpu m) in
    match enableScheduler k1 with
    | KDone k2 _ => Some (mkMachine heap' cpu' k2)
    | _ => None
    end
  | _ => None
  end.

(** ** The boot

    The statics of the kernel are zero; the heap hands out addresses from its start. *)
Definition bss_kernel : kst :=
  mkK [] (MEM_HEAP_START + 40) ∅ ∅ ∅ ∅ ∅ ∅ ∅ 0 None false empty_table false 0.

Definition boot (idleEntry initEntry : Z) : K unit :=
  _ ← initializeScheduler idleEntry initEntry (Devices.bytes "idle") (Devices.bytes "init"); enableScheduler.

Lemma main_boots h idleEntry initEntry m m' : kernel m = bss_kernel → main h idleEntry initEntry m = Some m' →
  boot idleEntry initEntry bss_kernel = KDone (kernel m') ().
Proof.
  intros E. unfold main, boot. rewrite E, kbind_eq. destruct (initializeScheduler _ _ _ _ _) as [k []| | | |]; try done.
  kred. unfold enableScheduler, kmod. by intros [= <-].
Qed.

(** The driver that refers to one file access. *)
Definition one_driver (fa : Z) : Pinned := ({[fa]} : gset Z).

(** The outcome of a call, for evaluation. *)
Definition ends {A} (r : kres A) : bool := match r with KDone _ _ => true | _ => false end.
Definition sleeps {A} (r : kres A) : bool := match r with KSwitch _ _ => true | _ => false end.
Definition after {A} (r : kres A) : kst := match r with KDone s _ | KSwitch s _ => s | _ => bss_kernel end.
Definition value {A} (d : A) (r : kres A) : A := match r with KDone _ a => a | _ => d end.

Lemma ends_eq {A} (d : A) r : ends r = true → r = KDone (after r) (value d r).
Proof. by destruct r. Qed.
Lemma ends_unit r : ends r = true → r = KDone (after r) ().
Proof. destruct r as [s []| | | |]; done. Qed.
Lemma sleeps_eq {A} (r : kres A) : sleeps r = true → ∃ rest, r = KSwitch (after r) rest.
Proof. destruct r; try done. intros _. by eexists. Qed.

Lemma sound_check {pin : Pinned} N s : kinv_check N s && tight_check s = true → family_check s = true → sound N s.
Proof. split; [by apply held_check|by apply family_check_sound]. Qed.

(** C15. The kernel starts: from zeroed statics, the scheduler is initialised with idle and init
    ready and the invariants hold; the first two ticks run idle and then init; init makes the
    keyboard's pipe, gives its writing end to the driver and starts the shell, whose standard
    input is the reading end of that pipe; init then sleeps until a child ends, and the
    invariants hold with the driver's reference counted. *)
Theorem kernel_boots idleEntry initEntry rsp : ∃ s0 s1 s2 s3 s4 r1 r2 k rest fa f g,
  boot idleEntry initEntry bss_kernel = KDone s0 () ∧ sound 0 s0 ∧ readyQueue s0 = Some [IDLE_PID; INIT_PID] ∧
  schedule 0 s0 = KDone s1 r1 ∧ state_of s1 IDLE_PID = Some RUNNING ∧
  schedule rsp s1 = KDone s2 r2 ∧ state_of s2 INIT_PID = Some RUNNING ∧
  init_setup kbd0 s2 = KDone s3 k ∧ sound (pin := one_driver (keyboardBuffer k)) 1024 s3 ∧
  (λ c, (p_state c, p_ppid c, p_rip c, fd_slot c 0)) <$> proc_of s3 2 = Some (READY, INIT_PID, sampleCodeModuleAddress, fa) ∧
  k_files s3 !! fa = Some f ∧ has_flag (fa_flags f) FILE_READ = true ∧
  k_files s3 !! keyboardBuffer k = Some g ∧ has_flag (fa_flags g) FILE_WRITE = true ∧
  fa_pipe f = fa_pipe g ∧ is_Some (k_pipes s3 !! fa_pipe f) ∧
  wait_any s3 = KSwitch s4 rest ∧ state_of s4 INIT_PID = Some BLOCKED ∧ sound (pin := one_driver (keyboardBuffer k)) 1024 s4.
Proof.
  assert (E0 : ends (boot idleEntry initEntry bss_kernel) = true) by (vm_compute; reflexivity).
  assert (S0 : sound 0 (after (boot idleEntry initEntry bss_kernel))) by (apply sound_check; vm_compute; reflexivity).
  assert (Q0 : readyQueue (after (boot idleEntry initEntry bss_kernel)) = Some [IDLE_PID; INIT_PID]) by (vm_compute; reflexivity).
  pose (s0 := after (boot idleEntry initEntry bss_kernel)).
  assert (E1 : ends (schedule 0 s0) = true) by (vm_compute; reflexivity).
  assert (R1 : state_of (after (schedule 0 s0)) IDLE_PID = Some RUNNING) by (vm_compute; reflexivity).
  pose (s1 := after (schedule 0 s0)).
  assert (E2 : ends (schedule rsp s1) = true) by (vm_compute; reflexivity).
  assert (R2 : state_of (after (schedule rsp s1)) INIT_PID = Some RUNNING) by (vm_compute; reflexivity).
  pose (s2 := after (schedule rsp s1)).
  assert (E3 : ends (init_setup kbd0 s2) = true) by (vm_compute; reflexivity).
  pose (k := value kbd0 (init_setup kbd0 s2)). pose (s3 := after (init_setup kbd0 s2)).
  assert (S3 : sound (pin := one_driver (keyboardBuffer k)) 1024 s3) by (apply sound_check; vm_compute; reflexivity).
  assert (P3 : (λ c, (p_state c, p_ppid c, p_rip c, fd_slot c 0)) <$> proc_of s3 2 =
    Some (READY, INIT_PID, sampleCodeModuleAddress, 16845096)) by (vm_compute; reflexivity).
  assert (F3 : k_files s3 !! 16845096 = Some (mkFile 16843792 FILE_READ 2)) by (vm_compute; reflexivity).
  assert (G3 : k_files s3 !! keyboardBuffer k = Some (mkFile 16843792 FILE_WRITE 1)) by (vm_compute; reflexivity).
  assert (L3 : bool_decide (is_Some (k_pipes s3 !! 16843792)) = true) by (vm_compute; reflexivity). apply bool_decide_eq_true_1 in L3.
  assert (E4 : sleeps (wait_any s3) = true) by (vm_compute; reflexivity).
  assert (R4 : state_of (after (wait_any s3)) INIT_PID = Some BLOCKED) by (vm_compute; reflexivity).
  assert (S4 : sound (pin := one_driver (keyboardBuffer k)) 1024 (after (wait_any s3))) by (apply sound_check; vm_compute; reflexivity).
  destruct (sleeps_eq _ E4) as [rest X4].
  exists s0, s1, s2, s3, (after (wait_any s3)), (value 0 (schedule 0 s0)), (value 0 (schedule rsp s1)), k, rest, 16845096,
    (mkFile 16843792 FILE_READ 2), (mkFile 16843792 FILE_WRITE 1).
  split; [exact (ends_unit _ E0)|]. split; [exact S0|]. split; [exact Q0|]. split; [exact (ends_eq 0 _ E1)|]. split; [exact R1|].
  split; [exact (ends_eq 0 _ E2)|]. split; [exact R2|]. split; [exact (ends_eq kbd0 _ E3)|]. split; [exact S3|]. split; [exact P3|].
  split; [exact F3|]. split; [reflexivity|]. split; [exact G3|]. split; [reflexivity|]. split; [reflexivity|]. split; [exact L3|].
  split; [exact X4|]. split; [exact R4|exact S4].
Qed.

End Kernel.
