(* ===== verification/DeviceCalls.v ===== *)
(** * The system calls on the devices and the heap ([Kernel/interruptions/syscallDispatcher.c])

    The wrappers that [Syscall.v] leaves to an argument: they narrow the registers to the types of
    the drivers' parameters and call the drivers. *)

From S2P Require Import Prelude MemoryManager FreeList KState Process Keyboard LibC Font Video Devices Syscall.
Import Video Devices.

Module DeviceCalls.

(** What the drivers keep. *)
Record devices := mkDevices {
  screen : vst; speaker : Sound.sound; heap : FreeList.state; keyboard : Keyboard.kbd; registers : Registers.snapshots;
}.
Definition set_screen (v : vst) (d : devices) : devices := mkDevices v (speaker d) (heap d) (keyboard d) (registers d).
Definition set_speaker (s : Sound.sound) (d : devices) : devices := mkDevices (screen d) s (heap d) (keyboard d) (registers d).
Definition set_heap (h : FreeList.state) (d : devices) : devices := mkDevices (screen d) (speaker d) h (keyboard d) (registers d).

Section Machine.
(** The mode of the screen, the memory after the font, the ports, the readings of the clocks, and
    the caller's strings. *)
Context (mode : vbe_mode_info_structure) (after_font : Z → Z) (readPort : list (Z * Z) → Z → Z)
  (ticks : nat → Z) (date : Z * Z * Z * Z) (time : Z * Z * Z) (user_text : Z → list Z).

(** The answer and the bytes stored through the caller's pointers. *)
Definition quietly (d : devices) : option (Z * list Z * devices) := Some (0, [], d).

Definition sysDrawRect (arg1 arg2 arg3 arg4 arg5 : Z) (d : devices) :=
  quietly (set_screen (drawRectangle mode (u32 arg1) arg2 arg3 arg4 arg5 (screen d)) d).
Definition sysDrawCircle (fuel : nat) (arg1 arg2 arg3 arg4 arg5 : Z) (d : devices) :=
  if negb (arg5 =? 0) then quietly (set_screen (drawCircle mode (u32 arg1) (i64 arg2) (i64 arg3) arg4 (screen d)) d)
  else v ← drawCircumference mode fuel (u32 arg1) (i64 arg2) (i64 arg3) arg4 (screen d); quietly (set_screen v d).
Definition sysDrawChar (arg1 arg2 arg3 arg4 arg5 arg6 : Z) (d : devices) :=
  quietly (set_screen (drawSymbol mode after_font (u8 arg1) arg2 arg3 (u32 arg4) (u32 arg5) (i32 arg6) (screen d)) d).
Definition sysScrWidth (d : devices) : option (Z * list Z * devices) := Some (getScreenWidth mode (screen d), [], d).
Definition sysScrHeight (d : devices) : option (Z * list Z * devices) := Some (getScreenHeight mode (screen d), [], d).
Definition sysBg (arg1 : Z) (d : devices) := quietly (set_screen (setBackground mode (u32 arg1) (screen d)) d).
Definition sysVideoAux (arg1 arg2 arg3 : Z) (d : devices) :=
  quietly (set_screen (setAuxFramebuffer arg1 (u32 arg2) (u32 arg3) (screen d)) d).
Definition sysRender (d : devices) := quietly (set_screen (renderAux mode (screen d)) d).
Definition sysSleep (fuel : nat) (arg1 : Z) (d : devices) : option (Z * list Z * devices) :=
  r ← Timer.sleep fuel ticks arg1; Some (r, [], d).
Definition sysDrawStr (arg1 arg2 arg3 arg4 arg5 arg6 : Z) (d : devices) :=
  quietly (set_screen (drawString mode after_font (user_text arg1) (i32 arg2) (i32 arg3) (u32 arg4) (u32 arg5) (i32 arg6) (screen d)) d).
Definition sysGetKey (arg1 : Z) (d : devices) : option (Z * list Z * devices) :=
  Some (if Keyboard.isPressed (u8 arg1) (keyboard d) then 1 else 0, [], d).
Definition sysPlaySound (arg1 arg2 : Z) (d : devices) :=
  quietly (set_speaker (Sound.playSound readPort (Timer.milliseconds_elapsed (ticks 0)) (u32 arg1) (u32 arg2) (speaker d)) d).
Definition sysDate (d : devices) : option (Z * list Z * devices) :=
  let '(weekday, day, month, year) := LibC.getCurrentDate date in Some (0, [weekday; day; month; year], d).
Definition sysTime (d : devices) : option (Z * list Z * devices) :=
  let '(hours, minutes, seconds) := LibC.getCurrentTime time in Some (0, [hours; minutes; seconds], d).
Definition sysKernelTime (d : devices) : option (Z * list Z * devices) :=
  Some (u64 (Timer.milliseconds_elapsed (ticks 0)), [], d).
Definition sysMalloc (arg1 : Z) (d : devices) : option (Z * list Z * devices) :=
  '(p, h) ← FreeList.mem_alloc arg1 (heap d); Some (p, [], set_heap h d).
Definition sysFree (arg1 : Z) (d : devices) := h ← FreeList.mem_free arg1 (heap d); quietly (set_heap h d).
Definition sysMemStatus (d : devices) : option (Z * list Z * devices) :=
  i ← FreeList.mem_status (heap d);
  Some (0, [FreeList.i_total i; FreeList.i_occupied i; FreeList.i_free i; FreeList.i_fragments i], d).
Definition sysScrollUp (arg1 arg2 : Z) (d : devices) := quietly (set_screen (scrollUp mode arg1 (u32 arg2) (screen d)) d).
(** The snapshot is written to the standard output of the caller. *)
Definition sysRegisters (fuel : nat) (d : devices) : K Z := Registers.printSnapshot fuel (registers d).

(** The wrappers in the table, on the registers that carry the arguments; [None] when a loop does
    not end within [fuel] or the heap is broken. *)
Definition device_call (fuel : nat) (f : Syscall.syscallFunction) (arg1 arg2 arg3 arg4 arg5 arg6 : Z) (d : devices) :
    option (Z * list Z * devices) :=
  match f with
  | Syscall.F_sysDrawRect => sysDrawRect arg1 arg2 arg3 arg4 arg5 d
  | Syscall.F_sysDrawCircle => sysDrawCircle fuel arg1 arg2 arg3 arg4 arg5 d
  | Syscall.F_sysDrawChar => sysDrawChar arg1 arg2 arg3 arg4 arg5 arg6 d
  | Syscall.F_sysScrWidth => sysScrWidth d
  | Syscall.F_sysScrHeight => sysScrHeight d
  | Syscall.F_sysBg => sysBg arg1 d
  | Syscall.F_sysVideoAux => sysVideoAux arg1 arg2 arg3 d
  | Syscall.F_sysRender => sysRender d
  | Syscall.F_sysSleep => sysSleep fuel arg1 d
  | Syscall.F_sysDrawStr => sysDrawStr arg1 arg2 arg3 arg4 arg5 arg6 d
  | Syscall.F_sysGetKey => sysGetKey arg1 d
  | Syscall.F_sysPlaySound => sysPlaySound arg1 arg2 d
  | Syscall.F_sysDate => sysDate d
  | Syscall.F_sysTime => sysTime d
  | Syscall.F_sysKernelTime => sysKernelTime d
  | Syscall.F_sysMalloc => sysMalloc arg1 d
  | Syscall.F_sysFree => sysFree arg1 d
  | Syscall.F_sysMemStatus => sysMemStatus d
  | Syscall.F_sysScrollUp => sysScrollUp arg1 arg2 d
  | _ => None
  end.

(** The argument that [Syscall.run_syscall] takes, for devices in the state [d]. *)
Definition device (fuel : nat) (d : devices) (f : Syscall.syscallFunction) (args : list Z) : K Z :=
  match f, args with
  | Syscall.F_sysRegisters, _ => sysRegisters fuel d
  | _, [a1; a2; a3; a4; a5; a6] =>
    match device_call fuel f a1 a2 a3 a4 a5 a6 d with Some (r, _, _) => mret r | None => kfuel end
  | _, _ => kfuel
  end.

(** ** The calls answer *)

(** On a sound heap every call on a device ends and answers: one that sleeps when the clock has
    gone on that long within [fuel] readings, a circle within two steps more than its radius, and
    a release when what is released is a block in use. *)
Lemma device_call_answers fuel f a1 a2 a3 a4 a5 a6 d : FreeList.wf (heap d) (FreeList.segs_of (heap d)) →
  device_call fuel f a1 a2 a3 a4 a5 a6 d = None →
  match f with
  | Syscall.F_sysDrawCircle => Z.of_nat fuel ≤ Z.max 0 (i64 a4 + 1)
  | Syscall.F_sysSleep => Timer.sleep fuel ticks a1 = None
  | Syscall.F_sysMalloc => ¬ 0 < a1 ≤ FreeList.max_request
  | Syscall.F_sysFree => mm_live (heap d) !! a1 = None
  | Syscall.F_sysMemStatus => False
  | Syscall.F_sysDrawRect | Syscall.F_sysDrawChar | Syscall.F_sysScrWidth | Syscall.F_sysScrHeight | Syscall.F_sysBg
  | Syscall.F_sysVideoAux | Syscall.F_sysRender | Syscall.F_sysDrawStr | Syscall.F_sysGetKey | Syscall.F_sysPlaySound
  | Syscall.F_sysDate | Syscall.F_sysTime | Syscall.F_sysKernelTime | Syscall.F_sysScrollUp => False
  | _ => True
  end.
Proof.
  intros Hwf H. assert (Hinv : mm_inv (heap d)) by exact Hwf. destruct f; try done; cbn [device_call] in H.
  - unfold sysDrawCircle in H. destruct (negb (a5 =? 0)); [done|]. destruct (Z.le_gt_cases (Z.of_nat fuel) (Z.max 0 (i64 a4 + 1))); [done|].
    destruct fuel as [|n]; [lia|]. destruct (drawCircumference_ends mode n (u32 a1) (i64 a2) (i64 a3) a4 (screen d)) as [v E]; [lia|].
    rewrite E in H. done.
  - unfold sysSleep in H. by destruct (Timer.sleep fuel ticks a1).
  - unfold sysDate in H. by destruct (LibC.getCurrentDate date) as [[[? ?] ?] ?].
  - unfold sysTime in H. by destruct (LibC.getCurrentTime time) as [[? ?] ?].
  - intros Ha. destruct (mm_alloc_ok (heap d) a1 Hinv Ha) as (p & h & E & _). unfold sysMalloc in H.
    change (FreeList.mem_alloc a1 (heap d)) with (mm_alloc a1 (heap d)) in H. by rewrite E in H.
  - destruct (mm_live (heap d) !! a1) as [s|] eqn:El; [|done]. destruct (mm_free_ok (heap d) a1 s Hinv El) as (h & E & _).
    unfold sysFree in H. change (FreeList.mem_free a1 (heap d)) with (mm_free a1 (heap d)) in H. by rewrite E in H.
  - unfold sysMemStatus in H. by rewrite (FreeList.mem_status_spec _ _ Hwf) in H.
Qed.

End Machine.
End DeviceCalls.
