(* ===== verification/Packer.v ===== *)
(** * The module packer ([Toolchain/ModulePacker/main.c])

    The host tool that appends the userland modules to the kernel's binary.  The files of the
    host are arguments.  [argp_parse], of the C library, calls [parse_opt] for every option and
    argument and once at the end; the calls are an argument of [main]. *)

From S2P Require Import Prelude MemoryManager FreeList KState Keyboard LibC Devices Kernel.
Import LibC.

Module Packer.

Definition BUFFER_SIZE : nat := 128.
Definition MAX_FILES : nat := 128.
Notation filename := (list Z).
Definition OUTPUT_FILE : filename := Devices.bytes "packedKernel.bin".

(** ** The command line *)

Record arguments := mkArguments { args : list filename; output_file : filename; count : nat }.

(** A call of [parse_opt]; a file comes with its position. *)
Inductive event := Option_o (arg : filename) | Arg (arg_num : nat) (arg : filename) | End_of_args (arg_num : nat) | Other_key.

(** [None]: the usage is printed and the program ends, or the array is overrun.  An unknown key
    is an answer that stops nothing. *)
Definition parse_opt (e : event) (a : arguments) : option arguments :=
  match e with
  | Option_o f => Some (mkArguments (args a) f (count a))
  | Arg n f => if (n <? MAX_FILES)%nat then Some (mkArguments (take n (args a) ++ [f]) (output_file a) (count a)) else None
  | End_of_args n => if (n <? 1)%nat then None else Some (mkArguments (args a) (output_file a) n)
  | Other_key => Some a
  end.
Fixpoint argp_parse (es : list event) (a : arguments) : option arguments :=
  match es with [] => Some a | e :: es => a' ← parse_opt e a; argp_parse es a' end.

(** ** The image *)

Section Host.
(** Whether a file can be read, what it holds, and whether one can be created. *)
Context (R_OK : filename → bool) (contents : filename → list Z) (creatable : filename → bool).

Fixpoint checkFiles (files : list filename) : bool :=
  match files with [] => true | f :: files => if R_OK f then checkFiles files else false end.

(** [while (!feof(source))]: the end is seen by the read that comes short. *)
Fixpoint block_loop (fuel : nat) (target source : list Z) : list Z :=
  match fuel with
  | O => target
  | S fuel =>
    let read := take BUFFER_SIZE source in
    let target := target ++ read in
    if (length read <? BUFFER_SIZE)%nat then target else block_loop fuel target (drop BUFFER_SIZE source)
  end.
Definition write_file (target source : list Z) : list Z := block_loop (S (length source)) target source.

(** [st_size] is cut to 32 bits. *)
Definition write_size (target : list Z) (f : filename) : list Z := target ++ le32 (u32 (len (contents f))).

Fixpoint modules_loop (target : list Z) (files : list filename) : list Z :=
  match files with [] => target | f :: files => modules_loop (write_file (write_size target f) (contents f)) files end.

Definition buildImage (files : list filename) (output : filename) : option (list Z) :=
  if creatable output then
    match files with
    | [] => None
    | kernel :: modules =>
      let target := write_file [] (contents kernel) in
      let extraBinaries := i32 (len files - 1) in
      Some (modules_loop (target ++ le32 extraBinaries) modules)
    end
  else None.

(** The answer of [main], and the file it wrote. *)
Definition main (es : list event) : option (Z * option (filename * list Z)) :=
  a ← argp_parse es (mkArguments [] OUTPUT_FILE 0);
  let fileArray := take (count a) (args a) in
  if checkFiles fileArray then
    match buildImage fileArray (output_file a) with
    | Some image => Some (0, Some (output_file a, image))
    | None => Some (1, None)
    end
  else Some (1, None).

(** ** What is written *)

Lemma block_loop_all fuel : ∀ target source, (length source < fuel)%nat → block_loop fuel target source = target ++ source.
Proof.
  induction fuel as [|fuel IH]; intros target source Hf; [lia|]. cbn [block_loop].
  destruct (Nat.ltb_spec (length (take BUFFER_SIZE source)) BUFFER_SIZE) as [H|H]; rewrite length_take in H.
  - by rewrite take_ge by lia.
  - rewrite IH; [|rewrite length_drop; unfold BUFFER_SIZE in *; lia]. by rewrite <- app_assoc, take_drop.
Qed.
Lemma write_file_all target source : write_file target source = target ++ source.
Proof. apply block_loop_all. lia. Qed.

Lemma modules_loop_payload files : ∀ target, Forall (λ f, len (contents f) < 2 ^ 32) files →
  modules_loop target files = target ++ payload (map contents files).
Proof.
  induction files as [|f files IH]; intros target H; cbn [modules_loop map]; [by rewrite app_nil_r|].
  apply list.Forall_cons in H as [Hf H]. rewrite IH, write_file_all by done. unfold write_size, payload. cbn [map concat].
  rewrite u32_small by lia. by rewrite <- !app_assoc.
Qed.

Lemma checkFiles_all files : Forall (λ f, R_OK f = true) files → checkFiles files = true.
Proof. induction 1 as [|f files Hf _ IH]; cbn; [done|]. by rewrite Hf. Qed.

(** The calls of [argp_parse] for a list of files and no option. *)
Definition files_given (files : list filename) : list event := imap Arg files ++ [End_of_args (length files)].

Lemma argp_parse_files files : ∀ done_ out c, (length done_ + length files <= MAX_FILES)%nat →
  argp_parse (imap (λ i f, Arg (length done_ + i) f) files) (mkArguments done_ out c) = Some (mkArguments (done_ ++ files) out c).
Proof.
  induction files as [|f files IH]; intros done_ out c H; cbn [imap argp_parse]; [by rewrite app_nil_r|]. cbn [length] in H.
  cbn [parse_opt]. rewrite (proj2 (Nat.ltb_lt _ _)) by lia. cbn [args output_file count mbind option_bind].
  rewrite take_ge by lia. specialize (IH (done_ ++ [f]) out c). rewrite length_app in IH. cbn [length] in IH.
  rewrite <- app_assoc in IH. cbn [app] in IH. rewrite <- IH by lia. f_equal. apply imap_ext. intros i x _. unfold compose. f_equal. lia.
Qed.
Lemma argp_parse_app es es' a : argp_parse (es ++ es') a = a' ← argp_parse es a; argp_parse es' a'.
Proof. revert a. induction es as [|e es IH]; intros a; cbn; [done|]. destruct (parse_opt e a); cbn; [apply IH|done]. Qed.

Lemma main_packs kernel modules : (length modules < MAX_FILES)%nat → Forall (λ f, R_OK f = true) (kernel :: modules) →
  creatable OUTPUT_FILE = true → Forall (λ f, len (contents f) < 2 ^ 32) modules →
  main (files_given (kernel :: modules)) =
    Some (0, Some (OUTPUT_FILE, contents kernel ++ le32 (len modules) ++ payload (map contents modules))).
Proof.
  intros Hn Hr Hc Hs. unfold main, files_given. rewrite argp_parse_app.
  pose proof (argp_parse_files (kernel :: modules) [] OUTPUT_FILE 0) as E. cbn [length Nat.add app] in E.
  change (imap (λ i f, Arg i f) (kernel :: modules)) with (imap Arg (kernel :: modules)) in E. rewrite E by lia. clear E.
  cbn [mbind option_bind argp_parse parse_opt length]. cbn [Nat.ltb Nat.leb]. cbn [mbind option_bind args output_file count].
  change (S (length modules)) with (length (kernel :: modules)). rewrite firstn_all, (checkFiles_all _ Hr).
  unfold buildImage. rewrite Hc. rewrite write_file_all. cbn [app]. rewrite modules_loop_payload by done.
  unfold MAX_FILES in Hn. cbn [length]. rewrite i32_small by lia. replace (Z.of_nat (S (length modules)) - 1) with (len modules) by lia.
  by rewrite <- app_assoc.
Qed.

(** C29. What the packer packs, the kernel unpacks: if the image that the tool makes of a kernel
    and two modules is in memory at [base], then the start of the kernel puts each module at its
    address, byte by byte, although it clears its own zeroed data, which lie over the packed
    modules, afterwards. *)
Theorem packed_modules_load kernel code data m base bss endOfKernel :
  Forall (λ f, R_OK f = true) [kernel; code; data] → creatable OUTPUT_FILE = true →
  len (contents code) ≤ Kernel.sampleDataModuleAddress - Kernel.sampleCodeModuleAddress → len (contents data) < 2 ^ 31 →
  bytes_ok m → 0 ≤ bss ≤ endOfKernel → endOfKernel ≤ Kernel.sampleCodeModuleAddress →
  ∃ image, main (files_given [kernel; code; data]) = Some (0, Some (OUTPUT_FILE, image)) ∧
    (holds m base image → base + len image ≤ Kernel.sampleCodeModuleAddress →
     ∃ m', Kernel.initializeKernelBinary bss (base + len (contents kernel)) endOfKernel m = Some (Kernel.getStackBase endOfKernel, m') ∧
       holds m' Kernel.sampleCodeModuleAddress (contents code) ∧ holds m' Kernel.sampleDataModuleAddress (contents data)).
Proof.
  intros Hr Hc Hcode Hdata Hm Hb Hk. unfold Kernel.sampleCodeModuleAddress, Kernel.sampleDataModuleAddress in *.
  assert (Hsz : Forall (λ f, len (contents f) < 2 ^ 32) [code; data]) by (repeat constructor; lia).
  eexists. split; [apply main_packs; [cbn; unfold MAX_FILES; lia|done|done|done]|]. cbn [map length]. intros Him Hend.
  rewrite !length_app in Hend. cbn [le32 length] in Hend.
  apply holds_app in Him as [_ Him]. apply holds_app in Him as [Hcount Hpay]. cbn [le32 length] in Hpay.
  destruct (load_loop_loads [contents code; contents data] m (base + len (contents kernel) + 4) [0x400000; 0x500000]
    (base + len (contents kernel) + 4 + len (payload [contents code; contents data])) Hm) as (m1 & El & Hh & _).
  - repeat constructor; lia.
  - exact Hpay.
  - done.
  - cbn [apart take length]. split; [lia|]. split; [repeat constructor; lia|]. split; [lia|]. split; [constructor|done].
  - cbn [take length] in Hh, El. inversion Hh as [|? ? ? ? H1 Hh']; subst. inversion Hh' as [|? ? ? ? H2 _]; subst.
    exists (Kernel.clearBSS bss (u64 (endOfKernel - bss)) m1). unfold Kernel.initializeKernelBinary, loadModules, readUint32.
    rewrite (load_le32 _ _ _ Hcount) by lia.
    unfold Kernel.sampleCodeModuleAddress, Kernel.sampleDataModuleAddress.
    rewrite Nat2Z.id, El. cbn [mbind option_bind]. split; [done|].
    assert (Hclear : ∀ a, 0x400000 ≤ a → byte (Kernel.clearBSS bss (u64 (endOfKernel - bss)) m1) a = byte m1 a).
    { intros a Ha. unfold Kernel.clearBSS, memset. rewrite u64_small by lia. rewrite memset_loop_spec by (change (u8 0) with 0; lia).
      rewrite decide_False by lia. done. }
    split; (eapply holds_same; [eassumption|]); intros b Hb'; apply Hclear; lia.
Qed.
End Host.

(** A host with three small files, and the memory of the machine with their image. *)
Definition files3 (f : filename) : list Z :=
  if bool_decide (f = [107]) then [1; 2; 3] else if bool_decide (f = [99]) then [65; 66; 67; 68; 69] else [90].
Definition image3 : list Z := [1; 2; 3] ++ le32 2 ++ payload [[65; 66; 67; 68; 69]; [90]].
Definition memory3 : memory := list_to_map (imap (λ i v, (0x100000 + Z.of_nat i, v)) image3).

Lemma packed_modules_load_witness : ∃ m', Kernel.initializeKernelBinary 0x100003 0x100003 0x100040 memory3 = Some (Kernel.getStackBase 0x100040, m') ∧
  holds m' 0x400000 [65; 66; 67; 68; 69].
Proof.
  assert (Hok : bytes_ok memory3).
  { assert (H : forallb (λ '(_, v), (0 <=? v) && (v <? 256)) (map_to_list memory3) = true) by (vm_compute; reflexivity).
    intros a v Hv. apply elem_of_map_to_list, list_elem_of_In in Hv. rewrite forallb_forall in H. specialize (H _ Hv). cbn in H.
    apply andb_true_iff in H as [H1%Z.leb_le H2%Z.ltb_lt]. lia. }
  assert (Hh : holds memory3 0x100000 image3).
  { assert (H : forallb (λ '(i, v), byte memory3 (0x100000 + Z.of_nat i) =? v) (imap pair image3) = true) by (vm_compute; reflexivity).
    intros i v Hv. rewrite forallb_forall in H. specialize (H (i, v)). apply Z.eqb_eq, H, list_elem_of_In, elem_of_lookup_imap. by eexists i, v. }
  destruct (packed_modules_load (λ _, true) files3 (λ _, true) [107] [99] [100] memory3 0x100000 0x100003 0x100040) as (image & Ei & H).
  - repeat constructor.
  - done.
  - done.
  - done.
  - exact Hok.
  - lia.
  - done.
  - assert (E : image = image3) by (cbv in Ei; injection Ei as <-; reflexivity). rewrite E in H.
    destruct H as (m' & E' & Hc & _); [exact Hh|done|]. exists m'. split; [exact E'|exact Hc].
Defined.

End Packer.
