(* ===== verification/Reach.v ===== *)
(** * The reachable states of the kernel

    From the state that the boot leaves, any sequence of timer interrupts, of keyboard interrupts
    that type nothing and of the system calls on processes, descriptors and named semaphores that
    wait neither for the end of a process nor for the contents of a pipe keeps the invariants of
    the development, and none of them fails. *)

From S2P Require Import Prelude KState ProcTable Semaphore Pipe Process KernelInv KernelCheck Descriptors.
From S2P Require Import Scheduler LifeCycle Steady Creation Channels Syscall NamedSems Keyboard Devices Kernel.
Import ProcTable Semaphore SharedSemaphores Pipe FileAccess Process KernelInv KernelCheck Descriptors Scheduler LifeCycle Steady Creation Channels Syscall NamedSems Keyboard Kernel.

Module Reach.

Section Pinned.
Context {pin : Pinned}.

(** ** The timer *)

(** Somebody is always ready when nobody runs. *)
Lemma next_ready N s : sound N s → (∀ q, state_of s q ≠ Some RUNNING) →
  ∃ pid rest p c, readyQueue s = Some (pid :: rest) ∧ 0 ≤ pid < 64 ∧ processTable s !! pid = Some p ∧
    k_procs s !! p = Some c ∧ p_state c = READY.
Proof.
  intros Hsd Hno. destruct (sound_parts _ _ Hsd) as [Hs _]. destruct (si_ready _ Hs) as (l & Hl & _ & Hm).
  assert (IDLE_PID ∈ l) by (apply Hm; destruct (si_idle _ Hs) as [?|E]; [done|by destruct (Hno IDLE_PID)]).
  destruct l as [|pid rest]; [set_solver|]. assert (E : state_of s pid = Some READY) by (apply Hm; set_solver).
  destruct (state_of_some _ _ _ E) as (p & c & Ht & Hc & Hr). exists pid, rest, p, c. split; [done|].
  split; [by apply (si_table _ Hs _ _ Ht)|done].
Qed.

Lemma dispatch_steady N s : sound N s → (∀ q, state_of s q ≠ Some RUNNING) →
  ∃ s' r, dispatch s = KDone s' r ∧ steady N s s'.
Proof.
  intros Hsd Hno. destruct (next_ready N s Hsd Hno) as (pid & rest & p & c & Hl & Hr & Ht & Hc & Hst).
  destruct (sound_parts _ _ Hsd) as [Hs _]. eexists _, _. split; [by apply (dispatch_eq s pid p c rest)|].
  apply (proc_steady N s _ p c (picked c)); try done.
  by eapply (sched_inv_switch s _ pid p c (picked c) rest).
Qed.

(** A tick from a sound state. *)
Lemma schedule_steady N s prev : sound N s → ∃ s' r, schedule prev s = KDone s' r ∧ steady N s s'.
Proof.
  intros Hsd. destruct (sound_parts _ _ Hsd) as [Hs [Hm Hn]].
  assert (Hsd0 : steady N s (tick_state s)).
  { apply (vars_steady N s); try done. eapply sched_inv_frame; [..|exact Hs]; done. }
  destruct (schedulerEnabled s) eqn:Hon.
  2: { exists (tick_state s), prev. split; [|done]. unfold schedule. ksimp. by rewrite Hon. }
  destruct (Z.eq_dec (currentProcess s) 0) as [H0|H0].
  { destruct (dispatch_steady N (tick_state s) (proj1 Hsd0)) as (s' & r & E & H').
    - intros q Hq. pose proof (si_run _ Hs q Hq) as E. rewrite H0 in E. by destruct (si_table _ Hs _ _ E) as (_ & ? & _).
    - exists s', r. split; [|exact (steady_trans _ _ _ _ Hsd0 H')]. unfold schedule. ksimp. rewrite Hon. cbn [negb]. by rewrite H0. }
  destruct (si_cur _ Hs H0) as (cp & Hcp). destruct (si_table _ Hs _ _ Hcp) as (Hr & Hp & c & Hc & Hpc).
  rewrite (schedule_start _ _ _ Hon H0 Hc). cbv zeta. set (cur := currentProcess s) in *.
  assert (Hsd1 : ∀ c1, rescheduled c c1 → p_state c1 = p_state c → steady N s (set_procs (<[cur := c1]> (k_procs s)) (tick_state s))).
  { intros c1 Hre Hst. apply (proc_steady N s _ cur c c1); try done.
    eapply sched_inv_frame; [..|apply (sched_inv_procs s cur c c1 Hs Hc Hst)]; try done. apply Hre. }
  case_bool_decide as Hrun.
  - destruct (0 <? remainingQuantums c).
    + eexists _, _. split; [done|]. by apply Hsd1.
    + destruct (si_ready _ Hs) as (l & Hl & Hnd & Hm'). unfold setState. rewrite kbind_eq.
      erewrite kstore_proc_eq by (kred; apply lookup_insert_eq). kred.
      rewrite kbind_eq, (enqueue_ready_eq _ _ l) by (kred; first [done|by split]). kred. rewrite insert_insert_eq, Hpc.
      match goal with |- context [dispatch ?t] => set (s2 := t) end.
      assert (Hcur : state_of s cp = Some RUNNING) by (rewrite (state_of_eq _ _ _ _ Hcp Hc); by f_equal).
      assert (Hi2 : sched_inv s2).
      { eapply (sched_inv_move s s2 cp cur c (with_state READY (with_rsp prev c)) l (l ++ [cp])); try done.
        - apply list.NoDup_app. split; [done|]. split; [|apply NoDup_singleton]. intros x Hx ->%list_elem_of_singleton.
          apply Hm' in Hx. congruence.
        - intros q Hq. set_solver.
        - split; [done|]. intros _. set_solver.
        - intros _. by left. }
      assert (Hsd2 : steady N s s2).
      { apply (proc_steady N s s2 cur c (with_state READY (with_rsp prev c))); try done. split; try done. unfold s2, tick_state. kred. lia. }
      destruct (dispatch_steady N s2 (proj1 Hsd2)) as (s' & r & E & H'); [|exists s', r; split; [done|exact (steady_trans _ _ _ _ Hsd2 H')]].
      intros q Hq. destruct (state_of_some _ _ _ Hq) as (x & d & Hx & Hd & Hdr). unfold s2, tick_state in Hx, Hd. revert Hx Hd. kred.
      intros Hx Hd. apply lookup_insert_Some in Hd as [[<- <-]|[Hne Hd]]; [done|]. apply Hne.
      assert (Hrq : state_of s q = Some RUNNING) by (rewrite (state_of_eq _ _ _ _ Hx Hd); by f_equal).
      pose proof (si_run _ Hs q Hrq) as Hcq. fold cur in Hcq. congruence.
  - pose proof (Hsd1 (with_rsp prev c) ltac:(done) eq_refl) as H1.
    destruct (dispatch_steady N _ (proj1 H1)) as (s' & r & E & H'); [|exists s', r; split; [done|exact (steady_trans _ _ _ _ H1 H')]].
    intros q Hq. destruct (state_of_some _ _ _ Hq) as (x & d & Hx & Hd & Hdr). unfold tick_state in Hx, Hd. revert Hx Hd. kred.
    intros Hx Hd. apply lookup_insert_Some in Hd as [[<- <-]|[Hne Hd]]; [done|]. apply Hne.
    assert (Hrq : state_of s q = Some RUNNING) by (rewrite (state_of_eq _ _ _ _ Hx Hd); by f_equal).
    pose proof (si_run _ Hs q Hrq) as Hcq. fold cur in Hcq. congruence.
Qed.

(** ** The calls *)
Lemma setBlocked_well N s pid : sound N s → lineage s → goes_well N (setBlocked pid s).
Proof.
  intros Hsd I. destruct (sound_parts _ _ Hsd) as [Hs [Hm Hn]]. unfold setBlocked.
  destruct (bad_pid pid); [by eapply well_same|]. rewrite kbind_eq, slot_eq. kred.
  destruct (processTable s !! pid) as [p|] eqn:Ht; kred; [|by eapply well_same].
  destruct (si_table _ Hs _ _ Ht) as (Hr & Hp & c & Hc & Hpc). rewrite (proj2 (Z.eqb_neq p 0)) by done.
  destruct (isUnkillable pid) eqn:Hk; [by eapply well_same|]. rewrite kbind_eq, (getState_eq _ _ _ Hc). kred.
  assert (Hidle : pid ≠ IDLE_PID) by (intros ->; done).
  destruct (si_ready _ Hs) as (l & Hl & Hnd & Hmem). pose proof (state_of_eq _ _ _ _ Ht Hc) as Hst.
  assert (Hrange : ∀ x, x ∈ l → 0 ≤ x < 64) by (intros x Hx; eapply state_of_range; [done|by apply Hmem]).
  pose proof (λ q, q_remove_elem l pid q Hrange Hr) as Hrem. pose proof (q_remove_NoDup l pid Hnd) as Hnd'.
  case_bool_decide as Hrun; cbn [negb andb].
  - rewrite bool_decide_false by congruence. unfold setState. rewrite kbind_eq. kred.
    rewrite kbind_eq, (kstore_proc_eq _ _ _ _ Hc). kred. eapply well_done; [exact I|done|].
    apply (proc_steady N s _ p c (with_state BLOCKED c)); try done.
    eapply (sched_inv_move s _ pid p c (with_state BLOCKED c) l l); try done. rewrite Hmem, Hst, Hrun. done.
  - case_bool_decide as Hrd; cbn [negb]; [|by eapply well_same]. rewrite kbind_eq. kred. rewrite Hl.
    unfold setState. rewrite kbind_eq, (kstore_proc_eq _ _ _ c) by done. kred. eapply well_done; [exact I|done|].
    apply (proc_steady N s _ p c (with_state BLOCKED c)); try done.
    cbn [q_remove default from_option id] in Hrem, Hnd' |- *.
    eapply (sched_inv_move s _ pid p c (with_state BLOCKED c) l); kred; try done.
    + intros q Hq. rewrite Hrem. tauto.
    + rewrite Hrem. split; [tauto|]. done.
Qed.

Lemma setReady_well N s pid : sound N s → lineage s → goes_well N (setReady pid s).
Proof.
  intros Hsd I. destruct (sound_parts _ _ Hsd) as [Hs Hm].
  destruct (decide (state_of s pid = Some BLOCKED)) as [Hb|Hb].
  - destruct (setReady_inv s pid Hm Hs Hb) as (s' & p & c & l & E & _ & Hi & Ht & Hc & Hl & ->).
    eapply well_done; [exact I|exact E|]. apply (proc_steady N s _ p c (with_state READY c)); try done.
    split; try done. kred. lia.
  - by eapply well_same; [..|apply setReady_other].
Qed.

Lemma setPriority_well N s pid prio : sound N s → lineage s → goes_well N (setPriorityOnPID pid prio s).
Proof.
  intros Hsd I. destruct (sound_parts _ _ Hsd) as [Hs Hm]. unfold setPriorityOnPID.
  destruct (bad_pid pid); [by eapply well_same|]. rewrite kbind_eq, slot_eq. kred.
  destruct (processTable s !! pid) as [p|] eqn:Ht; kred; [|by eapply well_same].
  destruct (si_table _ Hs _ _ Ht) as (Hr & Hp & c & Hc & Hpc). rewrite (proj2 (Z.eqb_neq p 0)) by done. cbn [orb].
  destruct (prio =? 0); [by eapply well_same|]. unfold setPriority. rewrite kbind_eq, (kstore_proc_eq _ _ _ _ Hc). kred.
  eapply well_done; [exact I|done|]. apply (proc_steady N s _ p c (with_quantums prio prio c)); try done.
  by apply (sched_inv_procs s p c (with_quantums prio prio c)).
Qed.

Lemma addToFG_well N s pid : sound N s → lineage s → goes_well N (addToFG pid s).
Proof.
  intros Hsd I. destruct (sound_parts _ _ Hsd) as [Hs Hm]. unfold addToFG.
  destruct (bad_pid pid); [by eapply well_same|]. rewrite kbind_eq, slot_eq. kred. rewrite kbind_eq. kred.
  destruct (processTable s !! pid) as [p|] eqn:Ht; kred; [|by eapply well_same].
  destruct (_ || _); [by eapply well_same|]. rewrite kbind_eq. kred.
  eapply well_done; [exact I|done|]. apply (vars_steady N s); try done.
  destruct Hs as [H1 H2 H3 H4 H5 H6]. split; try done. kred. intros q [->%elem_of_singleton|Hq]%elem_of_union; [by exists p|by apply H6].
Qed.

(** *** Descriptors *)

(** The slots of one process change. *)
Lemma becomes_steady N s s' p c c' : family s → held N s' → k_procs s !! p = Some c → p_state c ≠ ZOMBIE →
  only_fds c c' → becomes p c' s s' → steady N s s'.
Proof.
  intros Fam H Hc Hnz Sf B. pose proof (becomes_kin p (λ _, c') s s' c Hc B) as K.
  assert (Hf : ∀ q d, k_procs s !! q = Some d → only_fds d (at_addr p (λ _, c') q d)).
  { intros q d Hd. unfold at_addr. destruct (Z.eqb_spec q p) as [->|]; [|done]. assert (d = c) as -> by congruence. done. }
  split; [split; [done|]|split; [apply B|]].
  2: { intros q d' Hd'. destruct (kin_back _ _ _ _ _ K Hd') as (d & Hd & L). exists d. split; [done|].
    rewrite (like_ppid _ _ L). apply (Hf q d Hd). }
  apply (family_kin (at_addr p (λ _, c')) s s' Fam K); [apply B| |].
  - intros q d Hd. destruct (Hf q d Hd) as [(-> & _ & _ & _ & _ & _ & _ & X1 & X2) _]. split; [done|].
    destruct (fm_queues _ Fam q d Hd) as (cs & ts & Q). exists cs, ts. by rewrite X1, X2.
  - intros q d' Hd' Hz. destruct (kin_back _ _ _ _ _ K Hd') as (d & Hd & L). destruct (Hf q d Hd) as (_ & _ & Hsd).
    pose proof (fm_listed _ Fam _ _ Hd) as Hx. set (mid := set_procs (<[p := c']> (k_procs s)) s) in *.
    assert (Hmid : k_procs mid !! q = Some (at_addr p (λ _, c') q d)).
    { unfold mid, at_addr. kred. destruct (Z.eqb_spec q p) as [->|]; [apply lookup_insert_eq|by rewrite lookup_insert_ne]. }
    pose proof (wakes_zombie mid s' (p_pid d) (of_wakes _ _ B)) as W.
    rewrite (state_of_eq mid _ q _ Hx Hmid), (state_of_eq s' _ q d') in W by (rewrite ?(of_table _ _ B); done).
    destruct W as [W _]. rewrite Hz in W. specialize (W eq_refl). injection W as W. rewrite Hsd in W.
    rewrite (like_fds _ _ L). unfold at_addr. destruct (Z.eqb_spec q p) as [->|]; [congruence|]. by apply (fm_zombie _ Fam q).
Qed.

Lemma becomes_alive s s' p c c' : family s → k_procs s !! p = Some c → p_state c' ≠ ZOMBIE → becomes p c' s s' →
  ∃ d, k_procs s' !! p = Some d ∧ p_state d ≠ ZOMBIE.
Proof.
  intros Fam Hc Hz B. destruct (becomes_proc _ _ _ _ B) as (d & Hd & _). exists d. split; [done|].
  pose proof (fm_listed _ Fam _ _ Hc) as Hx. pose proof (wakes_zombie _ _ (p_pid c) (of_wakes _ _ B)) as W.
  rewrite (state_of_eq (set_procs (<[p := c']> (k_procs s)) s) _ p c'), (state_of_eq s' _ p d) in W;
    [|rewrite ?(of_table _ _ B); done|done|done|kred; apply lookup_insert_eq].
  intros Ez. destruct W as [W _]. rewrite Ez in W. specialize (W eq_refl). congruence.
Qed.

(** A run that ends with the process [p] alive. *)
Definition proceeds {A} (N p : Z) (m : kres A) (s : kst) : Prop :=
  ∃ s' r d, m = KDone s' r ∧ steady N s s' ∧ k_procs s' !! p = Some d ∧ p_state d ≠ ZOMBIE.

Lemma proceeds_well {A} N p (m : kres A) s : proceeds N p m s → lineage s → goes_well N m.
Proof. intros (s' & r & d & E & H & _) I. by eapply well_done. Qed.

Lemma becomes_proceeds {A} N s s' p c c' (m : kres A) r : family s → held N s' → k_procs s !! p = Some c → p_state c ≠ ZOMBIE →
  only_fds c c' → becomes p c' s s' → m = KDone s' r → proceeds N p m s.
Proof.
  intros Fam H Hc Hz Sf B E. destruct (becomes_alive s s' p c c' Fam Hc) as (d & Hd & Hdz); [by rewrite (proj2 (proj2 Sf))|done|].
  exists s', r, d. split; [done|]. split; [by apply (becomes_steady N s s' p c c')|done].
Qed.

Lemma closeFd_proceeds N s p c fd : sound N s → k_procs s !! p = Some c → p_state c ≠ ZOMBIE → N + 64 ≤ 2 ^ 30 →
  proceeds (N + 64) p (closeFd p fd s) s.
Proof.
  intros Hsd Hc Hz HN. pose proof Hsd as [H Fam]. pose proof (kinv_ne _ _ _ _ _ (proj1 H) Hc) as Hp.
  assert (Hno : isOpenFd p fd s = KDone s false → proceeds (N + 64) p (closeFd p fd s) s).
  { intros E. exists s, (-1), c. split; [unfold closeFd; rewrite (proj2 (Z.eqb_neq p 0)) by done; by rewrite kbind_eq, E|].
    split; [|done]. apply steady_refl, (sound_mono N); [done|lia]. }
  destruct (isValidFd fd) eqn:Hv; [|apply Hno; unfold isOpenFd; by rewrite Hv].
  destruct (Z.eqb_spec (fd_slot c fd) 0) as [E0|E0]; [apply Hno; by rewrite (isOpenFd_eq _ _ _ _ Hv Hc), E0|].
  destruct (closeFd_held N s p c fd H Hc Hv E0 HN) as (s' & E & H' & B).
  by apply (becomes_proceeds _ s s' p c (set_fd fd 0 c) _ 0).
Qed.

Lemma dupFd_proceeds N s p c oldFd newFd : sound N s → k_procs s !! p = Some c → p_state c ≠ ZOMBIE → N + 64 ≤ 2 ^ 30 →
  proceeds (N + 64) p (dupFd p oldFd newFd s) s.
Proof.
  intros Hsd Hc Hz HN. destruct (dupFd_ok N s p c oldFd newFd (proj1 Hsd) Hc HN) as (s' & r & E & H' & D).
  assert (Hsame : s' = s → proceeds (N + 64) p (dupFd p oldFd newFd s) s).
  { intros ->. exists s, r, c. split; [done|]. split; [|done]. apply steady_refl, (sound_mono N); [done|lia]. }
  destruct (negb _); [apply Hsame, D|]. destruct (oldFd =? newFd); [apply Hsame, D|].
  destruct D as (_ & c' & B & Sf & _). by apply (becomes_proceeds _ s s' p c c' _ r); [apply Hsd|..].
Qed.

(** The overrides of a start close or copy descriptors of the child. *)
Lemma overrides_proceed p : ∀ os N s c, sound N s → k_procs s !! p = Some c → p_state c ≠ ZOMBIE → N + 64 * len os ≤ 2 ^ 30 →
  proceeds (N + 64 * len os) p (override_loop os p s) s.
Proof.
  induction os as [|o os IH]; intros N s c Hsd Hc Hz HN.
  { exists s, (), c. split; [done|]. split; [|done]. rewrite Z.add_0_r. by apply steady_refl. }
  cbn [length] in HN. rewrite Nat2Z.inj_succ in HN.
  assert (P : proceeds (N + 64) p ((if targetFd o =? -1 then closeFd p (affectedFd o) else dupFd p (targetFd o) (affectedFd o)) s) s).
  { destruct (targetFd o =? -1); [eapply closeFd_proceeds|eapply dupFd_proceeds]; try done; lia. }
  destruct P as (s1 & r & d & E & St1 & Hd & Hdz).
  destruct (IH (N + 64) s1 d (proj1 St1) Hd Hdz) as (s2 & u & d2 & E2 & St2 & Hd2 & Hz2); [lia|].
  exists s2, u, d2. split; [cbn [override_loop]; by rewrite kbind_eq, E|]. split; [|done].
  cbn [length]. rewrite Nat2Z.inj_succ. replace (N + 64 * Z.succ (len os)) with (N + 64 + 64 * len os) by lia.
  destruct St1 as (H1 & T1 & P1). eapply steady_trans; [|exact St2]. split; [|done]. apply (sound_mono _ _ _ H1). lia.
Qed.

(** *** Calls of a process *)

Lemma started_lineage s s' c pid p c' : lineage s → k_procs s !! currentProcess s = Some c → processTable s !! p_pid c = Some (currentProcess s) →
  processTable s' = <[pid := p]> (processTable s) → k_procs s' !! p = Some c' → p_ppid c' = p_pid c →
  (∀ q d', q ≠ p → k_procs s' !! q = Some d' → ∃ d, k_procs s !! q = Some d ∧ p_ppid d' = p_ppid d) → lineage s'.
Proof.
  intros [L1 L2] Hc Hl T Hc' Hpp Ho. split; rewrite T; [apply lookup_insert_is_Some'; by right|].
  intros q d Hd. apply lookup_insert_is_Some'. right. destruct (Z.eq_dec q p) as [->|Hq].
  - assert (d = c') as -> by congruence. rewrite Hpp, Hl. by eexists.
  - destruct (Ho q d Hq Hd) as (d0 & Hd0 & ->). by apply (L2 q).
Qed.

Lemma caller_listed N s c : sound N s → k_procs s !! currentProcess s = Some c → processTable s !! p_pid c = Some (currentProcess s).
Proof. intros [_ F] Hc. by apply (fm_listed _ F). Qed.

Lemma startWithFds_well N s c entry name prio argc argv os : sound N s → lineage s → caller s c →
  N + 1024 + 64 * len (default [] os) ≤ 2 ^ 30 →
  goes_well (N + 1024 + 64 * len (default [] os)) (startNewProcessWithFds entry name prio argc argv os s).
Proof.
  intros Hsd I Hca HN. pose proof Hca as (Hc & _ & Hid). unfold startNewProcessWithFds. rewrite kbind_eq.
  assert (Hni : p_pid c ≠ IDLE_PID) by (unfold INIT_PID, IDLE_PID in *; lia).
  destruct (startNewProcess_ok N s entry name prio argc argv c Hsd ltac:(lia) Hc Hni)
    as [[E _]|(s' & pid & p & c' & cc' & E & Hsd' & Hr & _ & Hf & _ & T & _ & _ & Hc' & Hst & _ & Hpp & _ & _ & _ & _ & Ho & _)]; rewrite E; kred.
  - apply (well_mono N); [|lia]. by destruct os; eapply well_same.
  - assert (I' : lineage s') by (apply (started_lineage s s' c pid p c'); try done; by apply (caller_listed N)).
    destruct os as [os|]; cbn [default from_option id] in *; [|apply (well_mono (N + 1024)); [by eapply well_same|cbn [length]; lia]].
    rewrite (proj2 (Z.ltb_ge pid 0)) by lia. rewrite kbind_eq, slot_eq, T, lookup_insert_eq. kred.
    assert (p ≠ 0) by (destruct (sound_parts _ _ Hsd') as [Hs' _]; apply (si_table _ Hs' pid p); rewrite T; apply lookup_insert_eq).
    rewrite (proj2 (Z.eqb_neq p 0)) by done.
    apply (well_bind _ (override_loop os p) _ (λ _, pid)); [|done].
    eapply proceeds_well; [|exact I']. apply (overrides_proceed p os (N + 1024) s' c'); try done. by rewrite Hst.
Qed.

(** A start without overrides. *)
Lemma start_well N s c entry name prio argc argv : sound N s → lineage s → caller s c → N + 1024 ≤ 2 ^ 30 →
  goes_well (N + 1024) (startNewProcess entry name prio argc argv s).
Proof.
  intros Hsd I Hca HN. destruct (startWithFds_well N s c entry name prio argc argv None Hsd I Hca) as (s' & E & H); [cbn; lia|].
  exists s'. split; [|by rewrite Z.add_0_r in H]. revert E. unfold startNewProcessWithFds. rewrite kbind_eq.
  intros E. destruct (startNewProcess _ _ _ _ _ s); cbn [kbind] in E; destruct E as [[v E]|[g E]]; try discriminate E;
    injection E as <- _; [left|right]; by eexists.
Qed.

Lemma caller_current s : sched_inv s → ∃ x, getCurrentPID s = KDone s x.
Proof.
  intros Hs. unfold getCurrentPID. rewrite kbind_eq. kred. destruct (Z.eqb_spec (currentProcess s) 0) as [|H0]; [by eexists|].
  destruct (si_cur _ Hs H0) as (cp & Hcp). destruct (si_table _ Hs _ _ Hcp) as (_ & _ & c & Hc & _).
  exists (p_pid c). by apply getPID_eq.
Qed.

(** The children of a process, which init adopts when it ends. *)
Definition brood (s : kst) (pid : Z) : Z :=
  match proc_of s pid with Some c => len (default [] (children c)) | None => 0 end.

Lemma shut_ppid c : p_ppid (shut c) = p_ppid c.
Proof. apply shut_keeps. Qed.

Lemma bereaved_ppid pid p par q d : p_ppid (bereaved pid p par q d) = p_ppid d.
Proof.
  unfold bereaved. transitivity (p_ppid (at_addr p shut q d)).
  - generalize (at_addr p shut q d). intros c. unfold at_addr. by destruct (q =? par).
  - unfold at_addr. destruct (q =? p); [apply shut_ppid|done].
Qed.

Lemma orphans_lineage s s' s6 cs p ip pid par : lineage s → processTable s' = processTable s →
  kin (λ q c, orphaned s6 cs p ip q (bereaved pid p par q c)) s s' → lineage s'.
Proof.
  intros [L1 L2] T F. split; rewrite T; [done|]. intros q d' Hd'. destruct (kin_back _ _ _ _ _ F Hd') as (d & Hd & L).
  rewrite (like_ppid _ _ L). unfold orphaned. cbn [p_ppid with_ppid]. case_match; [done|].
  rewrite (bereaved_ppid pid p par q d). by apply (L2 q).
Qed.

Lemma finish_well N s pid p c : sound N s → lineage s → processTable s !! pid = Some p → k_procs s !! p = Some c →
  INIT_PID < pid → N + 1026 + brood s pid ≤ 2 ^ 30 →
  ∃ s', finish_process pid s = KDone s' 0 ∧ sound (N + 1026 + brood s pid) s' ∧ lineage s' ∧
    currentProcess s' = currentProcess s ∧ processTable s' = processTable s.
Proof.
  intros Hsd I Ht Hc Hpid HN. destruct (sound_parts _ _ Hsd) as [Hs _].
  destruct (ln_parent _ I p c Hc) as [par Hpar]. destruct (si_table _ Hs _ _ Hpar) as (_ & _ & pc & Hpc & _).
  destruct (ln_init _ I) as [ip Hip]. destruct (fm_queues _ (proj2 Hsd) p c Hc) as (cs & ts & Hcs & _).
  assert (Hbr : brood s pid = len cs) by (unfold brood; rewrite (proc_of_eq _ _ _ _ Ht Hc), Hcs; done). rewrite Hbr in *.
  destruct (finish_ok N s pid p c par pc ip cs Hsd Ht Hc) as (s' & E & Hsd' & T & Cu & _ & _ & _ & s6 & _ & _ & F); try done.
  exists s'. split; [done|]. split; [done|]. split; [by apply (orphans_lineage s s' s6 cs p ip pid par)|done].
Qed.

(** Whatever the pid, and whoever it is. *)
Lemma finish_any N s pid : sound N s → lineage s → N + 1026 + brood s pid ≤ 2 ^ 30 →
  ∃ s' r, finish_process pid s = KDone s' r ∧ sound (N + 1026 + brood s pid) s' ∧ lineage s'.
Proof.
  intros Hsd I HN. destruct (sound_parts _ _ Hsd) as [Hs _].
  assert (0 ≤ brood s pid) by (unfold brood; case_match; lia).
  assert (Hno : finish_process pid s = KDone s (-1) → ∃ s' r, finish_process pid s = KDone s' r ∧ sound (N + 1026 + brood s pid) s' ∧ lineage s').
  { intros E. exists s, (-1). split; [done|]. split; [apply (sound_mono N); [done|lia]|done]. }
  destruct (bad_pid pid) eqn:Hb; [apply Hno; unfold finish_process; by rewrite Hb|].
  destruct (isUnkillable pid) eqn:Hk; [apply Hno; unfold finish_process; by rewrite Hb, Hk|].
  destruct (processTable s !! pid) as [p|] eqn:Ht; [|apply Hno; unfold finish_process; rewrite Hb, Hk, kbind_eq, slot_eq, Ht; done].
  destruct (si_table _ Hs _ _ Ht) as (Hr & Hp & c & Hc & Hpc).
  destruct (finish_well N s pid p c Hsd I Ht Hc) as (s' & E & Hsd' & I' & _); [|done|by exists s', 0].
  unfold isUnkillable, IDLE_PID, INIT_PID in *. apply orb_false_iff in Hk as [K1%Z.eqb_neq K2%Z.eqb_neq]. lia.
Qed.

Lemma terminate_well N s pid : sound N s → lineage s → N + 1026 + brood s pid ≤ 2 ^ 30 →
  goes_well (N + 1026 + brood s pid) (terminateProcess pid s).
Proof.
  intros Hsd I HN. destruct (finish_any N s pid Hsd I HN) as (s' & r & E & Hsd' & I').
  destruct (sound_parts _ _ Hsd') as [Hs' _]. destruct (caller_current s' Hs') as [x Ex].
  exists s'. split; [|done]. unfold terminateProcess. rewrite kbind_eq, E. kred. destruct (r <? 0); [left; by eexists|].
  rewrite kbind_eq, Ex. kred. rewrite kbind_eq. kred. rewrite kbind_eq. destruct (_ && _); [right|left]; by eexists.
Qed.

(** A process that ends itself never comes back. *)
Lemma exit_well N s c : sound N s → lineage s → caller s c → N + 1026 + brood s (p_pid c) ≤ 2 ^ 30 →
  goes_well (N + 1026 + brood s (p_pid c)) (sysExit s).
Proof.
  intros Hsd I (Hc & _ & Hpid) HN. pose proof (caller_listed N s c Hsd Hc) as Ht. destruct (sound_parts _ _ Hsd) as [Hs _].
  destruct (si_table _ Hs _ _ Ht) as (Hr & Hp & _).
  destruct (finish_well N s (p_pid c) _ c Hsd I Ht Hc Hpid HN) as (s' & E & Hsd' & I' & Cu & T). exists s'. split; [|done]. right.
  destruct (sound_parts _ _ Hsd') as [Hs' _]. rewrite <- T, <- Cu in Ht. destruct (si_table _ Hs' _ _ Ht) as (_ & Hp' & d & Hd & Hdp).
  unfold sysExit. rewrite kbind_eq, (getCurrentPID_eq s c Hp Hc). kred. rewrite kbind_eq. unfold terminateProcess.
  rewrite kbind_eq, E. kred. change (0 <? 0) with false. cbv iota. rewrite kbind_eq, (getCurrentPID_eq s' d Hp' Hd). kred.
  rewrite kbind_eq. kred. rewrite kbind_eq, (proj2 (Z.eqb_neq _ 0) Hp'), Hdp, Z.eqb_refl. cbn [negb andb]. by eexists.
Qed.

(** *** The file accesses are few *)

Lemma list_set_size (l : list Z) : (size (list_to_set l : gset Z) <= length l)%nat.
Proof.
  induction l as [|x l IH]; [done|]. cbn [list_to_set length]. rewrite size_union_alt, size_singleton.
  pose proof (subseteq_size ((list_to_set l : gset Z) ∖ {[x]}) (list_to_set l) ltac:(set_solver)). lia.
Qed.

Lemma files_few N s : held N s → Z.of_nat (size (k_files s)) ≤ 1024 + Z.of_nat (size pins).
Proof.
  intros [H T]. set (L := concat (map fdTable (map snd (map_to_list (k_procs s))))).
  assert (Hlen : (length L <= 16 * size (k_procs s))%nat).
  { rewrite <- length_map_to_list. unfold L. assert (Hall : ∀ x, x ∈ map_to_list (k_procs s) → length (fdTable (snd x)) = 16%nat).
    { intros [p c] Hx%elem_of_map_to_list. apply (ki_proc _ _ _ H p c Hx). }
    induction (map_to_list (k_procs s)) as [|x l IH]; [done|]. cbn [map concat length]. rewrite length_app, Hall by set_solver.
    specialize (IH ltac:(set_solver)). lia. }
  assert (Hsub : dom (k_files s) ⊆ (list_to_set L : gset Z) ∪ pins).
  { intros fa Hfa. rewrite elem_of_union. pose proof (t_file _ T fa (proj1 (elem_of_dom _ _) Hfa)) as Hpos.
    destruct (decide (fa ∈ pins)) as [|Hn]; [by right|left]. unfold driver_refs in Hpos. rewrite bool_decide_false in Hpos by done.
    destruct (slots_pos_ex fa (k_procs s)) as (q & d & Hq & Hd); [lia|]. apply elem_of_list_to_set, list_elem_of_In, in_concat.
    exists (fdTable d). split; [|by apply list_elem_of_In]. apply in_map. apply (in_map snd _ (q, d)). by apply list_elem_of_In, elem_of_map_to_list. }
  pose proof (subseteq_size _ _ Hsub) as H1. rewrite size_dom, size_union_alt in H1. pose proof (list_set_size L).
  pose proof (subseteq_size (pins ∖ list_to_set L) pins ltac:(set_solver)). destruct (ki_size _ _ _ H) as [Hsz _]. lia.
Qed.

Lemma pipe_well N s c userFds : sound N s → lineage s → caller s c → (size pins <= 1000)%nat → N + 2048 ≤ 2 ^ 30 →
  goes_well (N + 2048) (sysPipe userFds s).
Proof.
  intros Hsd I (Hc & Hz & _) Hpin HN. destruct (Z.eq_dec userFds 0) as [->|Hu].
  { apply (well_mono N); [|lia]. by eapply well_same. }
  pose proof (files_few N s (proj1 Hsd)).
  destruct (sysPipe_ok N s userFds c (proj1 Hsd) Hc Hu) as (s' & H' & D); [lia|lia|]. apply (proceeds_well _ (currentProcess s) _ s); [|done].
  destruct D as [(i & j & p & re & we & pc & E & _ & _ & _ & _ & _ & _ & _ & _ & _ & _ & B)|(E & _ & _ & _ & d' & B & Sf & _)].
  - by apply (becomes_proceeds _ s s' _ c (set_fd j we (set_fd i re c)) _ (0, Some (i, j))); [apply Hsd|..].
  - by apply (becomes_proceeds _ s s' _ c d' _ (u64 (-1), None)); [apply Hsd|..].
Qed.

Lemma reopen_well N s c fd : sound N s → lineage s → caller s c → (size pins <= 1000)%nat → N + 64 ≤ 2 ^ 30 →
  goes_well (N + 64) (reopenCurrentFd fd s).
Proof.
  intros Hsd I (Hc & Hz & _) Hpin HN. pose proof (files_few N s (proj1 Hsd)).
  destruct (reopenFd_ok N s (currentProcess s) c fd (proj1 Hsd) Hc) as (s' & r & E & H' & D); [lia|done|].
  assert (Er : reopenCurrentFd fd s = KDone s' r).
  { unfold reopenCurrentFd. rewrite kbind_eq. kred. by rewrite (proj2 (Z.eqb_neq _ 0)) by exact (kinv_ne _ _ _ _ _ (proj1 (proj1 Hsd)) Hc). }
  destruct (_ && _).
  - apply (proceeds_well _ (currentProcess s) _ s); [|done].
    destruct D as [(_ & _ & _ & B)|(_ & fa & f & _ & _ & _ & B)].
    + by apply (becomes_proceeds _ s s' _ c c _ r); [apply Hsd|..].
    + by apply (becomes_proceeds _ s s' _ c (set_fd r fa c) _ r); [apply Hsd|..].
  - destruct D as [-> ->]. apply (well_mono N); [|lia]. by eapply well_same.
Qed.

Lemma info_ok s : sched_inv s → ∀ ids room, ∃ l, info_loop ids room s = KDone s l.
Proof.
  intros Hs. induction ids as [|i ids IH]; intros room; [by eexists|]. cbn [info_loop].
  destruct (room <=? 0); [by eexists|]. rewrite kbind_eq, slot_eq. kred.
  destruct (processTable s !! i) as [p|] eqn:Ht; kred; [|apply IH].
  destruct (si_table _ Hs _ _ Ht) as (_ & Hp & c & Hc & _). rewrite (proj2 (Z.eqb_neq p 0)) by done.
  rewrite kbind_eq, (proc_eq _ _ _ Hc). kred. rewrite kbind_eq. kred. destruct (IH (room - 1)) as [l E].
  rewrite kbind_eq, E. by eexists.
Qed.

(** ** Every call *)

Section Calls.
(** The memory of the callers, and what the rest of the kernel does. *)
Context (user_str : Z → option cstring) (user_bytes : Z → Z → list Z)
  (user_argv : Z → option (list (option cstring))) (user_overrides : Z → Z → option (list fd_override_t))
  (device : syscallFunction → list Z → K Z) (fuel : nat).

(** The calls on processes and descriptors that wait for nobody. *)
Definition quiet (f : syscallFunction) : bool :=
  match f with
  | F_sysGetpid | F_sysCreateProcess | F_sysKill | F_sysNice | F_sysBlock | F_sysYield | F_sysPs | F_sysExit | F_sysUnblock
  | F_sysPipe | F_sysClose | F_sysDup | F_sysCreateProcessFds | F_sysForeground | F_sysReopen | F_sysGetMaxProcesses
  | F_sysGetProcessesCount => true
  | _ => false
  end.

(** The calls of a process [c] that the rest of this file is about: those, and the calls on named
    semaphores when the name fits in its field, the value to start with is not negative, and the
    process that waits is running. *)
Definition permitted (f : syscallFunction) (arg1 arg2 : Z) (c : processCDT) : bool :=
  match f with
  | F_sysSemOpen => match user_str arg1 with Some n => (len n <? SEM_NAME_MAX) && (0 <=? i32 arg2) | None => true end
  | F_sysSemWait => bool_decide (p_state c = RUNNING)
  | F_sysSemClose | F_sysSemPost => true
  | _ => quiet f
  end.

(** How much a call may raise the values of the semaphores and the references to them. *)
Definition cost (f : syscallFunction) (arg1 arg2 arg5 arg6 : Z) (s : kst) (c : processCDT) : Z :=
  match f with
  | F_sysCreateProcess => 1024
  | F_sysCreateProcessFds => 1024 + 64 * len (default [] (user_overrides arg5 (i32 arg6)))
  | F_sysKill => 1026 + brood s (i16 arg1)
  | F_sysExit => 1026 + brood s (p_pid c)
  | F_sysPipe => 2048
  | F_sysClose | F_sysDup | F_sysReopen => 64
  | F_sysSemOpen => 1 + Z.max 0 (i32 arg2)
  | F_sysSemWait | F_sysSemPost => 1
  | _ => 0
  end.

Definition perform := run_syscall user_str user_bytes user_argv user_overrides device fuel.

Lemma cost_nonneg f a1 a2 a5 a6 s c : 0 ≤ cost f a1 a2 a5 a6 s c.
Proof. unfold cost, brood. destruct f; repeat case_match; lia. Qed.

Lemma call_well N s c f a1 a2 a3 a4 a5 a6 : sound N s → lineage s → caller s c → (size pins <= 1000)%nat →
  quiet f = true → N + cost f a1 a2 a5 a6 s c ≤ 2 ^ 30 → goes_well (N + cost f a1 a2 a5 a6 s c) (perform f a1 a2 a3 a4 a5 a6 s).
Proof.
  intros Hsd I Hca Hpin Hq HN. pose proof Hca as (Hc & Hz & _). destruct (sound_parts _ _ Hsd) as [Hs _].
  pose proof (kinv_ne _ _ _ _ _ (proj1 (proj1 Hsd)) Hc) as Hcu.
  destruct f; try discriminate Hq; cbn [perform run_syscall cost] in *; rewrite ?Z.add_assoc, ?Z.add_0_r in *.
  - destruct (caller_current s Hs) as [x E]. eapply well_same; [done|done|]. unfold sysGetpid, ret64. by rewrite kbind_eq, E.
  - by apply (well_bind _ _ _ u64); [apply (start_well N s c)|].
  - by apply (well_bind _ _ _ u64); [apply terminate_well|].
  - by apply (well_bind _ _ _ u64); [apply setPriority_well|].
  - by apply (well_bind _ _ _ u64); [apply setBlocked_well|].
  - exists s. split; [right; by eexists|done].
  - destruct (info_ok s Hs (seqZ 0 MAX_PROCESSES) (i32 a2)) as [l E]. eapply well_same; [done|done|].
    unfold sysPs, getProcessInfo. by rewrite !kbind_eq, E.
  - by apply exit_well.
  - unfold sysUnblock. destruct (_ || _); [by eapply well_same|]. by apply (well_bind _ _ _ u64); [apply setReady_well|].
  - by apply (well_bind _ _ _ fst); [apply (pipe_well N s c)|].
  - apply (well_bind _ _ _ u64); [|done]. unfold closeCurrentFd. rewrite kbind_eq. kred. rewrite (proj2 (Z.eqb_neq _ 0)) by done.
    by eapply proceeds_well; [apply (closeFd_proceeds N s _ c)|].
  - apply (well_bind _ _ _ u64); [|done]. unfold dupCurrentFd. rewrite kbind_eq. kred. rewrite (proj2 (Z.eqb_neq _ 0)) by done.
    by eapply proceeds_well; [apply (dupFd_proceeds N s _ c)|].
  - by apply (well_bind _ _ _ u64); [apply (startWithFds_well N s c)|].
  - by apply (well_bind _ _ _ u64); [apply addToFG_well|].
  - by apply (well_bind _ _ _ u64); [apply (reopen_well N s c)|].
  - by eapply well_same.
  - by eapply well_same.
Qed.

(** A quiet call leaves the named semaphores alone. *)
Lemma perform_spares f a1 a2 a3 a4 a5 a6 : quiet f = true → spares (perform f a1 a2 a3 a4 a5 a6).
Proof. destruct f; intros H; try discriminate H; cbn [perform run_syscall]; spare. Qed.

Definition goes_on {A} (N : Z) (m : kres A) : Prop := ∃ s', ends_in m s' ∧ shares N s'.

Lemma on_done {A B} N (m : K A) (f : A → K B) (g : A → B) s s' a : m s = KDone s' a → (∀ a s', f a s' = KDone s' (g a)) →
  shares N s' → goes_on N ((m ≫= f) s).
Proof. intros E Hf S. exists s'. split; [|done]. left. exists (g a). by rewrite kbind_eq, E, <- Hf. Qed.
Lemma on_same {A B} N N' (m : K A) (f : A → K B) (g : A → B) s a : m s = KDone s a → (∀ a s', f a s' = KDone s' (g a)) →
  shares N s → N ≤ N' → goes_on N' ((m ≫= f) s).
Proof.
  intros E Hf (H & L & Hn) HN. apply (on_done N' m f g s s a); [done|done|]. split; [by apply (sound_mono N)|].
  split; [done|by apply (named_mono N)].
Qed.

Lemma quiet_on N s c f a1 a2 a3 a4 a5 a6 : shares N s → caller s c → (size pins <= 1000)%nat → quiet f = true →
  N + cost f a1 a2 a5 a6 s c ≤ 2 ^ 30 → goes_on (N + cost f a1 a2 a5 a6 s c) (perform f a1 a2 a3 a4 a5 a6 s).
Proof.
  intros (Hsd & L & Hn) Hc Hpin Hq HN. pose proof (cost_nonneg f a1 a2 a5 a6 s c).
  destruct (call_well N s c f a1 a2 a3 a4 a5 a6 Hsd L Hc Hpin Hq HN) as (s' & E & H' & L'). exists s'. split; [done|].
  split; [done|]. split; [done|]. apply (named_same N _ s); [done|lia|].
  pose proof (perform_spares f a1 a2 a3 a4 a5 a6 Hq s) as Hsp. by destruct E as [[a E]|[k E]]; rewrite E in Hsp.
Qed.

(** The calls on named semaphores. *)
Lemma named_on N s c f a1 a2 a3 a4 a5 a6 : shares N s → caller s c → quiet f = false → permitted f a1 a2 c = true →
  N + cost f a1 a2 a5 a6 s c ≤ 2 ^ 30 → goes_on (N + cost f a1 a2 a5 a6 s c) (perform f a1 a2 a3 a4 a5 a6 s).
Proof.
  intros S Hca Hq Hp HN. pose proof Hca as (Hc & Hz & Hpid). pose proof S as (Hsd & _). pose proof (caller_listed N s c Hsd Hc) as Ht.
  destruct f; try discriminate Hq; try discriminate Hp; cbn [perform run_syscall cost permitted] in *; rewrite ?Z.add_0_r in *.
  - unfold sysSemOpen, ret64. destruct (user_str a1) as [[|x l]|] eqn:En;
      [by apply (on_same N _ _ _ u64 s (-1)); try done; lia| |by apply (on_same N _ _ _ u64 s (-1)); try done; lia].
    apply andb_true_iff in Hp as [Hl%Z.ltb_lt Hv%Z.leb_le]. rewrite Z.max_r in * by done. rewrite Z.add_assoc in *.
    destruct (open_spec N s (x :: l) (i32 a2) S) as (s' & r & E & S' & _); try done. by apply (on_done _ _ _ u64 s s' r).
  - unfold sysSemClose, ret64. destruct (user_str a1) as [[|x l]|] eqn:En;
      [by apply (on_same N _ _ _ u64 s (-1))| |by apply (on_same N _ _ _ u64 s (-1))].
    destruct (close_spec N s (x :: l) S) as (s' & r & E & S' & _); [done|lia|]. by apply (on_done _ _ _ u64 s s' r).
  - apply bool_decide_eq_true in Hp. unfold sysSemWait, ret64. destruct (user_str a1) as [[|x l]|] eqn:En;
      [by apply (on_same N _ _ _ u64 s (-1)); try done; lia| |by apply (on_same N _ _ _ u64 s (-1)); try done; lia].
    destruct (wait_spec N s (x :: l) (p_pid c) S) as [[_ E]|[(w & k & s' & _ & _ & E & S' & _)|(k & s' & _ & E & S' & _)]]; try done.
    + by rewrite (state_of_eq _ _ _ _ Ht Hc), Hp.
    + unfold INIT_PID, IDLE_PID in *. lia.
    + by apply (on_same N _ _ _ u64 s (-1)); try done; lia.
    + by apply (on_done _ _ _ u64 s s' 0).
    + exists s'. split; [|done]. right. rewrite kbind_eq, E. by eexists.
  - unfold sysSemPost, ret64. destruct (user_str a1) as [[|x l]|] eqn:En;
      [by apply (on_same N _ _ _ u64 s (-1)); try done; lia| |by apply (on_same N _ _ _ u64 s (-1)); try done; lia].
    destruct (post_spec N s (x :: l) S) as [[_ E]|(w & k & s' & _ & E & S' & _)]; try done.
    + by apply (on_same N _ _ _ u64 s (-1)); try done; lia.
    + by apply (on_done _ _ _ u64 s s' 0).
Qed.

Lemma call_on N s c f a1 a2 a3 a4 a5 a6 : shares N s → caller s c → (size pins <= 1000)%nat → permitted f a1 a2 c = true →
  N + cost f a1 a2 a5 a6 s c ≤ 2 ^ 30 → goes_on (N + cost f a1 a2 a5 a6 s c) (perform f a1 a2 a3 a4 a5 a6 s).
Proof.
  intros S Hc Hpin Hp HN. destruct (quiet f) eqn:Hq; [by apply quiet_on|by apply named_on].
Qed.

End Calls.

(** *** The keyboard *)

(** Ctrl+C kills the processes of the foreground one by one; what that costs. *)
Fixpoint kill_cost (ids : list Z) (s : kst) : Z :=
  match ids with
  | [] => 0
  | i :: ids =>
    (if bool_decide (i ∈ foregroundSet s) then 1026 + brood s i else 0) + kill_cost ids (after (fg_step killFromIsr i s))
  end.

Lemma kill_cost_nonneg : ∀ ids s, 0 ≤ kill_cost ids s.
Proof.
  induction ids as [|i ids IH]; intros s; cbn [kill_cost]; [lia|]. specialize (IH (after (fg_step killFromIsr i s))).
  unfold brood. repeat case_match; lia.
Qed.

Lemma kill_on N s i : shares N s → let cost := if bool_decide (i ∈ foregroundSet s) then 1026 + brood s i else 0 in
  N + cost ≤ 2 ^ 30 → ∃ s', fg_step killFromIsr i s = KDone s' () ∧ shares (N + cost) s'.
Proof.
  intros (Hsd & L & Hn). unfold fg_step. rewrite kbind_eq. kred. case_bool_decide as Hi; cbn zeta; intros HN.
  - rewrite Z.add_assoc in *. destruct (finish_any N s i Hsd L HN) as (s' & r & E & Hsd' & L'). exists s'.
    split; [unfold killFromIsr; by rewrite kbind_eq, E|]. split; [done|]. split; [done|].
    assert (0 ≤ brood s i) by (unfold brood; case_match; lia).
    apply (named_same N _ s); [done|lia|]. pose proof (spares_finish i s) as Hsp. by rewrite E in Hsp.
  - exists s. by rewrite Z.add_0_r.
Qed.

Lemma kills_on : ∀ ids N s, shares N s → N + kill_cost ids s ≤ 2 ^ 30 →
  ∃ s', foldr (λ i (rest : K unit), _ ← fg_step killFromIsr i; rest) (mret ()) ids s = KDone s' () ∧ shares (N + kill_cost ids s) s'.
Proof.
  induction ids as [|i ids IH]; intros N s S HN; cbn [kill_cost foldr] in *.
  - exists s. by rewrite Z.add_0_r.
  - pose proof (kill_cost_nonneg ids (after (fg_step killFromIsr i s))).
    destruct (kill_on N s i S) as (s1 & E & S1); [cbn zeta; lia|]. rewrite E in *. cbn [after] in *. rewrite Z.add_assoc in *.
    destruct (IH _ s1 S1) as (s' & E' & S'); [done|]. exists s'. split; [|done]. rewrite kbind_eq, E. cbn [kbind]. exact E'.
Qed.

(** The interrupts of keys that type nothing: those that are released, the modifiers, and Ctrl+C. *)
Definition typed_key (scancode : Z) (k : kbd) : Z :=
  if negb (processControl scancode k =? 0) then processControl scancode k else fst (getKeyPress scancode k).
Definition types_nothing (has_data : bool) (scancode : Z) (k : kbd) : bool :=
  negb has_data || (scancode =? MULTI_BYTE_SCANCODE) || (typed_key scancode k =? 0) || (typed_key scancode k =? END_OF_TEXT).
Definition kills (has_data : bool) (scancode : Z) (k : kbd) : bool :=
  has_data && negb (scancode =? MULTI_BYTE_SCANCODE) && (typed_key scancode k =? END_OF_TEXT).
Definition key_cost (has_data : bool) (scancode : Z) (k : kbd) (s : kst) : Z :=
  if kills has_data scancode k then kill_cost (seqZ 0 MAX_PROCESSES) s else 0.

Lemma key_cost_nonneg b c k s : 0 ≤ key_cost b c k s.
Proof. unfold key_cost. case_match; [apply kill_cost_nonneg|lia]. Qed.

(** Whether a snapshot was taken does not matter to what a key types. *)
Definition snap (c : Z) (k : kbd) : kbd :=
  mkKbd (keyboardStatus k) (multiByteFlag k) (capsLockActive k) (keyboardBuffer k) ((c =? SNAPSHOT_SCANCODE) || snapshotTaken k).
Lemma typed_key_snap c k : typed_key c (snap c k) = typed_key c k.
Proof.
  unfold typed_key. change (processControl c (snap c k)) with (processControl c k). destruct (negb _); [done|].
  unfold getKeyPress, shouldShift, isPressed. cbn [multiByteFlag keyboardStatus capsLockActive keyboardBuffer snap]. by repeat case_match.
Qed.

Lemma key_eq fuel b c k : types_nothing b c k = true → ∃ k',
  keyboardInterrupt fuel b c k = if kills b c k then _ ← forEachInFG killFromIsr; mret k' else mret k'.
Proof.
  unfold types_nothing, kills, keyboardInterrupt. destruct b; cbn [negb orb andb]; [|by exists k].
  destruct (c =? MULTI_BYTE_SCANCODE); cbn [negb orb andb]; [by eexists|].
  change (mkKbd (keyboardStatus k) (multiByteFlag k) (capsLockActive k) (keyboardBuffer k) _) with (snap c k).
  rewrite <- (typed_key_snap c k). unfold typed_key. generalize (snap c k). intros k1.
  destruct (getKeyPress c k1) as [key k2]. cbn [fst]. generalize (processControl c k1). intros ctrl.
  destruct (Z.eqb_spec ctrl 0) as [E0|E0]; cbn [negb]; intros H.
  - destruct (Z.eqb_spec key 0) as [->|]; [by exists k2|]. cbn [orb] in H. rewrite H. by exists k2.
  - destruct (Z.eqb_spec ctrl 0) as [->|]; [done|]. cbn [orb] in H. rewrite H. by exists k1.
Qed.

Lemma key_on fuel b c k N s : shares N s → types_nothing b c k = true → N + key_cost b c k s ≤ 2 ^ 30 →
  ∃ s' k', keyboardInterrupt fuel b c k s = KDone s' k' ∧ shares (N + key_cost b c k s) s'.
Proof.
  intros S Hq HN. destruct (key_eq fuel b c k Hq) as [k' ->]. unfold key_cost in *. destruct (kills b c k).
  - destruct (kills_on (seqZ 0 MAX_PROCESSES) N s S HN) as (s' & E & S'). exists s', k'. split; [|exact S'].
    unfold forEachInFG. rewrite kbind_eq, E. reflexivity.
  - exists s, k'. split; [reflexivity|]. by rewrite Z.add_0_r.
Qed.

(** A tick. *)
Lemma schedule_on N s prev : shares N s → ∃ s' r, schedule prev s = KDone s' r ∧ shares N s'.
Proof.
  intros (Hsd & L & Hn). destruct (schedule_steady N s prev Hsd) as (s' & r & E & (H' & T & P)). exists s', r.
  split; [done|]. split; [done|]. split; [by apply (lineage_keep s)|]. apply (named_same N N s); [done|lia|].
  pose proof (spares_schedule prev s) as Hsp. by rewrite E in Hsp.
Qed.

End Pinned.

(** ** The reachable states *)

(** [N] adds up the costs of the calls made; every call may find other memory at its caller's
    pointers. *)
Inductive reach (s0 : kst) : Z → kst → Prop :=
  | reach_start : reach s0 1024 s0
  | reach_tick N s prev s' r : reach s0 N s → schedule prev s = KDone s' r → reach s0 N s'
  | reach_key N s fuel has_data scancode k s' k' : reach s0 N s → types_nothing has_data scancode k = true →
      keyboardInterrupt fuel has_data scancode k s = KDone s' k' → reach s0 (N + key_cost has_data scancode k s) s'
  | reach_call N s c f a1 a2 a3 a4 a5 a6 user_str user_bytes user_argv user_overrides device fuel s' :
      reach s0 N s → caller s c → permitted user_str f a1 a2 c = true →
      ends_in (perform user_str user_bytes user_argv user_overrides device fuel f a1 a2 a3 a4 a5 a6 s) s' →
      reach s0 (N + cost user_overrides f a1 a2 a5 a6 s c) s'.

Lemma reach_nonneg s0 N s : reach s0 N s → 0 ≤ N.
Proof.
  induction 1; [lia|done|pose proof (key_cost_nonneg has_data scancode k s); lia|].
  pose proof (cost_nonneg user_overrides f a1 a2 a5 a6 s c). lia.
Qed.

Lemma reach_shares {pin : Pinned} s0 N s : (size pins <= 1000)%nat → shares 1024 s0 →
  reach s0 N s → N ≤ 2 ^ 30 → shares N s.
Proof.
  intros Hpin H0. induction 1 as [|N s prev s' r _ IH E|N s fu b sc k s' k' _ IH Hq E|N s c f a1 a2 a3 a4 a5 a6 us ub ua uo dv fu s' _ IH Hc Hq E];
    intros HN; [done|..].
  - destruct (schedule_on N s prev (IH HN)) as (s1 & r1 & E1 & H1). rewrite E in E1. by injection E1 as <- _.
  - pose proof (key_cost_nonneg b sc k s) as Hn.
    destruct (key_on fu b sc k N s ltac:(apply IH; lia) Hq HN) as (s1 & k1 & E1 & H1). rewrite E in E1. by injection E1 as <- _.
  - pose proof (cost_nonneg uo f a1 a2 a5 a6 s c) as Hn.
    destruct (call_on us ub ua uo dv fu N s c f a1 a2 a3 a4 a5 a6 ltac:(apply IH; lia) Hc Hpin Hq HN) as (s1 & E1 & H1).
    by rewrite (ends_in_det _ _ _ E E1).
Qed.

(** The state in which init, having started the shell, waits for its first child to end, and
    the file access that the keyboard driver keeps. *)
Definition started (idleEntry initEntry rsp : Z) : kst * Z :=
  let s1 := after (schedule 0 (after (boot idleEntry initEntry bss_kernel))) in
  let r := init_setup kbd0 (after (schedule rsp s1)) in
  (after (wait_any (after r)), keyboardBuffer (value kbd0 r)).

Definition lineage_check (s : kst) : bool :=
  bool_decide (is_Some (processTable s !! INIT_PID)) &&
  forallb (λ qc, bool_decide (is_Some (processTable s !! p_ppid (snd qc)))) (map_to_list (k_procs s)).

Lemma lineage_check_ok s : lineage_check s = true → lineage s.
Proof.
  unfold lineage_check. intros [H1%bool_decide_eq_true H2]%andb_true_iff. split; [done|]. intros q c Hc.
  rewrite forallb_forall in H2. specialize (H2 (q, c)). apply bool_decide_eq_true in H2; [done|].
  by apply list_elem_of_In, elem_of_map_to_list.
Qed.

(** The table of named semaphores is empty, and its lock free. *)
Definition unnamed (s : kst) : bool := negb (tableLock s) && forallb (λ e, negb (ss_used e)) (sharedTable s).

Lemma unnamed_ok N s : unnamed s = true → named N s.
Proof.
  unfold unnamed. intros [H1%negb_true_iff H2]%andb_true_iff. rewrite forallb_forall in H2.
  assert (Hu : ∀ i e, sharedTable s !! i = Some e → ss_used e = true → False).
  { intros i e Hi%list_elem_of_lookup_2%list_elem_of_In Hu. specialize (H2 e Hi). by rewrite Hu in H2. }
  split; [done|..].
  - intros i j e e' Hi Hj U. by destruct (Hu i e Hi U).
  - intros i e Hi U. by destruct (Hu i e Hi U).
Qed.

Lemma started_shares idleEntry initEntry rsp :
  shares (pin := one_driver (snd (started idleEntry initEntry rsp))) 1024 (fst (started idleEntry initEntry rsp)).
Proof.
  split; [|split]; [apply sound_check|apply lineage_check_ok|apply unnamed_ok]; vm_compute; reflexivity.
Qed.

(** From the end of the boot, the invariants hold in every state reached. *)
Lemma reach_started idleEntry initEntry rsp N s : reach (fst (started idleEntry initEntry rsp)) N s → N ≤ 2 ^ 30 →
  let pin := one_driver (snd (started idleEntry initEntry rsp)) in (size (pins (pin := pin)) <= 1000)%nat ∧ shares (pin := pin) N s.
Proof.
  intros R HN. pose proof (started_shares idleEntry initEntry rsp) as H0. set (pin := one_driver _) in *. cbn zeta.
  assert (Hpin : (size (pins (pin := pin)) <= 1000)%nat) by (unfold pins, pin, one_driver; rewrite size_singleton; lia).
  split; [done|]. exact (reach_shares (pin := pin) _ N s Hpin H0 R HN).
Qed.



(** The shell gets the processor and opens a pipe. *)
Definition shell_pipe (s : kst) : kres Z :=
  perform (λ _, None) (λ _ _, []) (λ _, None) (λ _ _, None) (λ _ _, mret 0) 0 F_sysPipe 9000 0 0 0 0 0 s.

Lemma reach_ticks s0 N s prev : reach s0 N s → ends (schedule prev s) = true → reach s0 N (after (schedule prev s)).
Proof. intros R E. eapply reach_tick; [exact R|exact (ends_eq 0 _ E)]. Qed.
Lemma reach_pipe s0 N s c : reach s0 N s → caller s c → ends (shell_pipe s) = true → reach s0 (N + 2048) (after (shell_pipe s)).
Proof.
  intros R Hc E. apply (reach_call s0 N s c F_sysPipe 9000 0 0 0 0 0 (λ _, None) (λ _ _, []) (λ _, None) (λ _ _, None) (λ _ _, mret 0) 0 _ R Hc eq_refl).
  left. eexists. exact (ends_eq 0 _ E).
Qed.
Definition may_call (s : kst) : bool :=
  match k_procs s !! currentProcess s with
  | Some c => bool_decide (p_state c ≠ ZOMBIE) && (INIT_PID <? p_pid c) | None => false end.
Lemma may_call_ok s : may_call s = true → ∃ c, caller s c.
Proof.
  unfold may_call, caller. destruct (k_procs s !! currentProcess s) as [c|]; [|done].
  intros [Hz%bool_decide_eq_true Hp%Z.ltb_lt]%andb_true_iff. by exists c.
Qed.

Lemma reach_path s0 : ends (schedule 0 s0) = true → ends (schedule 0 (after (schedule 0 s0))) = true →
  may_call (after (schedule 0 (after (schedule 0 s0)))) = true →
  ends (shell_pipe (after (schedule 0 (after (schedule 0 s0))))) = true →
  reach s0 3072 (after (shell_pipe (after (schedule 0 (after (schedule 0 s0)))))).
Proof.
  intros E1 E2 [c Hc]%may_call_ok E3. change 3072 with (1024 + 2048). eapply reach_pipe; [|exact Hc|exact E3].
  apply reach_ticks; [|done]. apply reach_ticks; [|done]. apply reach_start.
Qed.



End Reach.
