(* ===== verification/CStandard.v ===== *)
(** * The userland C library ([Userland/SampleCodeModule/cstandard.c])

    A string is the list of its characters before the terminator; a [char] is its code. *)

From S2P Require Import Prelude LibC.

Module CStandard.

(** ** Characters *)

Definition isNumber (c : Z) : bool := (48 <=? c) && (c <=? 57).
Definition isLower (c : Z) : bool := (97 <=? c) && (c <=? 122).
Definition isUpper (c : Z) : bool := (65 <=? c) && (c <=? 90).
Definition isLetter (c : Z) : bool := isLower c || isUpper c.
Definition toLower (c : Z) : Z := if isUpper c then c + (97 - 65) else c.
Definition toUpper (c : Z) : Z := if isLower c then c + (65 - 97) else c.
Definition isAlnum (c : Z) : bool := isLetter c || isNumber c.
Definition isPrintableAscii (c : Z) : bool :=
  let symbol := (32 <=? c) && (c <=? 126) in
  let validSpecial := (c =? 10) || (c =? 8) || (c =? 9) in
  symbol || validSpecial.

Definition clamp (num lo hi : Z) : Z := if num <=? lo then lo else if hi <=? num then hi else num.

Definition strlen (str : list Z) : Z := Z.of_nat (length str).

Fixpoint strcmp (s1 s2 : list Z) : Z :=
  match s1, s2 with
  | [], [] => 0
  | [], c2 :: _ => 0 - u8 c2
  | c1 :: _, [] => u8 c1 - 0
  | c1 :: s1, c2 :: s2 => if u8 c1 =? u8 c2 then strcmp s1 s2 else u8 c1 - u8 c2
  end.

(** ** Numbers *)

(** The digits of a non-negative [long], last one first, as the loop pushes them; 20 rounds
    are enough for 64 bits.  Division truncates as in C. *)
Fixpoint digits_loop (fuel : nat) (number : Z) : list Z :=
  match fuel with
  | O => []
  | S fuel =>
    let digit := Z.rem number 10 in
    let number := Z.quot number 10 in
    (digit + 48) :: (if 0 <? number then digits_loop fuel number else [])
  end.

Definition numToString (number : Z) : list Z :=
  let negative := number <? 0 in
  let number := if negative then i64 (number * -1) else number in
  (if negative then [45] else []) ++ rev (digits_loop 20 number).

Fixpoint sti_loop (str : list Z) (out : Z) : option Z :=
  match str with
  | [] => Some out
  | c :: str => if negb (isNumber c) then None else sti_loop str (i64 (i64 (out * 10) + (c - 48)))
  end.

Definition stringToInt (str : list Z) : Z :=
  let '(negative, digits) := match str with 45 :: s => (true, s) | _ => (false, str) end in
  match sti_loop digits 0 with
  | None => -1
  | Some out => if negative then i64 (out * -1) else out
  end.

(** A character that is no hexadecimal digit is itself the answer. *)
Fixpoint hex_loop (str : list Z) (out : Z) : Z :=
  match str with
  | [] => i32 out
  | c :: str =>
    let c := toLower c in
    let isNum := isNumber c in
    if negb isNum && ((c <? 97) || (102 <? c)) then i32 c
    else hex_loop str (u64 (u64 (out * 16) + (if isNum then c - 48 else c - 97 + 10)))
  end.

Definition hexStringToInt (str : list Z) : Z :=
  match str with
  | 45 :: _ => -1
  | 48 :: x :: s => if toLower x =? 120 then hex_loop s 0 else hex_loop str 0
  | _ => hex_loop str 0
  end.

Definition isNumericalString (str : list Z) : bool :=
  match str with [] => false | _ => forallb isNumber str end.

(** ** Formatted output *)

(** The arguments of a call, as the format reads them. *)
Inductive arg := AInt (n : Z) | AChar (c : Z) | AStr (s : option (list Z)).

Definition null_text : list Z := [40; 110; 117; 108; 108; 41].   (* "(null)" *)

(** The characters written; [None] when the format reads an argument that is not there or has
    another type. *)
Fixpoint vprintf (format : list Z) (args : list arg) : option (list Z) :=
  match format with
  | [] => Some []
  | 37 :: f :: format =>
    if (f =? 100) || (f =? 105) then
      match args with
      | AInt n :: args => rest ← vprintf format args; Some (numToString (i32 n) ++ rest)
      | _ => None
      end
    else if f =? 99 then
      match args with AChar c :: args => rest ← vprintf format args; Some (c :: rest) | _ => None end
    else if f =? 115 then
      match args with
      | AStr s :: args => rest ← vprintf format args; Some (default null_text s ++ rest)
      | _ => None
      end
    else if f =? 37 then rest ← vprintf format args; Some (37 :: rest)
    else rest ← vprintf format args; Some (37 :: f :: rest)
  | c :: format => rest ← vprintf format args; Some (c :: rest)
  end.

(** ** Formatted input

    [input] are the characters that the reads of [STDIN] bring; past them every read answers
    [eof], the value of [sys_read], 0 at the end of the file and negative for an error. *)

Section Scanf.
Context (eof : Z).

Definition getChar (input : list Z) : Z * list Z :=
  match input with [] => (i8 eof, []) | c :: input => (c, input) end.

Definition white (c : Z) : bool := (c =? 32) || (c =? 9) || (c =? 10) || (c =? 13).

(** [do c = getChar(); while (white(c))] *)
Fixpoint skip_white (input : list Z) : Z * list Z :=
  match input with
  | [] => (i8 eof, [])
  | c :: input => if white c then skip_white input else (c, input)
  end.

(** [while ((c = getChar()) && p(c))]: the characters stored; the first other one is lost. *)
Fixpoint take_while (p : Z → bool) (input : list Z) : list Z * list Z :=
  match input with
  | [] => ([], [])
  | c :: input =>
    if negb (c =? 0) && p c then let '(t, rest) := take_while p input in (c :: t, rest) else ([], input)
  end.

Definition ends_word (c : Z) : bool := (c =? 9) || (c =? 10) || (c =? 13) || (c =? 0).

(** What is stored through the pointers, in order. *)
Inductive stored := SInt (n : Z) | SChar (c : Z) | SStr (s : list Z).

(** The count returned, what was stored and the input left; [None] when a buffer overflows:
    256 digits, or a string that goes on for ever after a read error. *)
Fixpoint vscanf (format : list Z) (input : list Z) (count : Z) : option (Z * list stored * list Z) :=
  match format with
  | [] => Some (count, [], input)
  | 37 :: f :: format =>
    if (f =? 100) || (f =? 105) then
      let '(c, input) := skip_white input in
      if (c =? 45) || isNumber c then
        let '(digits, input) := take_while isNumber input in
        if 255 <? len (c :: digits) then None
        else
          '(n, out, rest) ← vscanf format input (count + 1);
          Some (n, SInt (i32 (stringToInt (c :: digits))) :: out, rest)
      else vscanf format input count
    else if f =? 99 then
      let '(c, input) := getChar input in
      '(n, out, rest) ← vscanf format input (count + 1);
      Some (n, SChar c :: out, rest)
    else if f =? 115 then
      let '(c, input) := skip_white input in
      if ends_word c then
        '(n, out, rest) ← vscanf format input (count + 1);
        Some (n, SStr [] :: out, rest)
      else
        let '(word, rest) := take_while (λ c, negb (ends_word c)) input in
        if (len word =? len input) && negb (ends_word (i8 eof)) then None
        else
          '(n, out, rest) ← vscanf format rest (count + 1);
          Some (n, SStr (c :: word) :: out, rest)
    else if f =? 37 then
      let '(c, input) := getChar input in
      if c =? 37 then vscanf format input count else Some (count, [], input)
    else vscanf format input count
  | f :: format =>
    let '(c, input) := getChar input in
    if c =? f then vscanf format input count else Some (count, [], input)
  end.

Definition scanf (format input : list Z) : option (Z * list stored * list Z) := vscanf format input 0.

End Scanf.

(** ** Random numbers *)

Definition RANDOM_MAX : Z := 65535.

(** [S1] is a [short]: the comparison with 0xAA55 is made on its sign-extended value. *)
Definition rng (input : Z) : Z :=
  let input := if input =? 0x560A then 0 else input in
  let S0 := u16 (Z.shiftl (u8 input) 8) in
  let S0 := Z.lxor S0 input in
  let input := u16 (Z.lor (Z.shiftl (Z.land S0 0xFF) 8) (Z.shiftr (Z.land S0 0xFF00) 8)) in
  let S0 := u16 (Z.lxor (Z.shiftl (u8 S0) 1) input) in
  let S1 := i16 (Z.lxor (Z.shiftr S0 1) 0xFF00) in
  if Z.land S0 1 =? 0 then
    if S1 =? 0xAA55 then 0 else u16 (Z.lxor S1 0x1FF4)
  else u16 (Z.lxor S1 0x8180).

(** The generator's state is [rngCurrent]. *)
Definition setRngSeed (seed : Z) : Z := u16 seed.
Definition randomNext (rngCurrent : Z) : Z * Z := (rngCurrent, rng rngCurrent).

Definition randomRange (lo hi rngCurrent : Z) : Z * Z :=
  let range := u64 (u64 (hi - lo) + 1) in
  let '(next, st) := randomNext rngCurrent in
  let scaled := u64 (next * range) / RANDOM_MAX in
  (u64 (lo + i32 scaled), st).

(** Whole words when everything is aligned, bytes otherwise, as the kernel's. *)
Definition memcpy (destination source length : Z) (m : LibC.memory) : LibC.memory :=
  if (destination mod 4 =? 0) && (source mod 4 =? 0) && (length mod 4 =? 0)
  then LibC.copy_words (Z.to_nat (length / 4)) 0 destination source m
  else LibC.copy_bytes (Z.to_nat length) 0 destination source m.

(** ** Properties *)

Lemma digits_value fuel : ∀ n, 0 ≤ n < 10 ^ Z.of_nat fuel → (0 < fuel)%nat →
  Forall (λ c, isNumber c = true) (digits_loop fuel n) ∧
  foldr (λ c acc, (c - 48) + 10 * acc) 0 (digits_loop fuel n) = n.
Proof.
  induction fuel as [|fuel IH]; intros n Hn Hf; [lia|]. cbn [digits_loop foldr].
  rewrite Z.rem_mod_nonneg, Z.quot_div_nonneg by lia.
  rewrite Nat2Z.inj_succ, Z.pow_succ_r in Hn by lia.
  assert (Hd : isNumber (n mod 10 + 48) = true).
  { unfold isNumber. destruct (Z.leb_spec 48 (n mod 10 + 48)), (Z.leb_spec (n mod 10 + 48) 57); try done; divlia. }
  destruct (Z.ltb_spec 0 (n / 10)).
  - destruct (IH (n / 10)) as [I1 I2]; [divlia|destruct fuel; [simpl in Hn; divlia|lia]|].
    split; [by apply Forall_cons|]. rewrite I2. divlia.
  - split; [by apply Forall_cons|]. cbn [foldr]. divlia.
Qed.

(** Reading the digits from the first on. *)
Lemma sti_loop_digits ds : ∀ k, Forall (λ c, isNumber c = true) ds → 0 ≤ k →
  k * 10 ^ Z.of_nat (length ds) + foldr (λ c acc, (c - 48) + 10 * acc) 0 (rev ds) < 2 ^ 63 →
  sti_loop ds k = Some (k * 10 ^ Z.of_nat (length ds) + foldr (λ c acc, (c - 48) + 10 * acc) 0 (rev ds)).
Proof.
  assert (Hrev : ∀ l c a, foldr (λ c acc, (c - 48) + 10 * acc) a (l ++ [c]) =
    foldr (λ c acc, (c - 48) + 10 * acc) 0 l + 10 ^ Z.of_nat (length l) * (c - 48 + 10 * a)).
  { induction l as [|x l IH]; intros c a; cbn [app foldr length]; [rewrite Z.pow_0_r; lia|].
    rewrite IH, Nat2Z.inj_succ, Z.pow_succ_r by lia. lia. }
  assert (Hpos : ∀ l, Forall (λ c, isNumber c = true) l → 0 ≤ foldr (λ c acc, (c - 48) + 10 * acc) 0 l).
  { induction 1 as [|c l Hc _ IH]; cbn [foldr]; [lia|]. unfold isNumber in Hc.
    apply andb_true_iff in Hc as [?%Z.leb_le ?%Z.leb_le]. lia. }
  induction ds as [|c ds IH]; intros k Hds Hk Hlt; cbn [sti_loop rev length foldr] in *.
  - f_equal. rewrite Z.pow_0_r. lia.
  - apply Forall_cons_1 in Hds as [Hc Hds]. rewrite Hc. cbn [negb].
    rewrite Hrev, length_rev in Hlt |- *. rewrite Nat2Z.inj_succ, Z.pow_succ_r in Hlt |- * by lia.
    assert (Hcr : 48 ≤ c ≤ 57) by (unfold isNumber in Hc; apply andb_true_iff in Hc as [?%Z.leb_le ?%Z.leb_le]; lia).
    pose proof (Hpos (rev ds) ltac:(by apply Forall_rev)) as Hp.
    assert (1 ≤ 10 ^ Z.of_nat (length ds)) by (pose proof (Z.pow_pos_nonneg 10 (Z.of_nat (length ds))); lia).
    assert (k * 10 + (c - 48) < 2 ^ 63) by nia. assert (k * 10 < 2 ^ 63) by lia.
    unfold i64. rewrite (swrap_small 64 (k * 10)), swrap_small by lia.
    rewrite IH; [f_equal; lia|done|lia|nia].
Qed.

(** The digits of a number are read back. *)
Lemma sti_nts n : - 2 ^ 63 < n < 2 ^ 63 → stringToInt (numToString n) = n.
Proof.
  intros Hn. unfold numToString.
  assert (Hmain : ∀ m, 0 ≤ m < 2 ^ 63 → sti_loop (rev (digits_loop 20 m)) 0 = Some m).
  { intros m Hm. destruct (digits_value 20 m) as [D1 D2]; [lia|lia|].
    rewrite sti_loop_digits; rewrite ?rev_involutive, ?D2; try lia; [|by apply Forall_rev]. done. }
  unfold stringToInt. destruct (Z.ltb_spec n 0).
  - cbn [app]. unfold i64 at 1. rewrite swrap_small by lia. rewrite Hmain by lia.
    unfold i64. rewrite swrap_small by lia. lia.
  - cbn [app]. pose proof (Hmain n ltac:(lia)) as Hs.
    destruct (digits_value 20 n) as [D1 _]; [lia|lia|]. apply Forall_rev in D1.
    destruct (rev (digits_loop 20 n)) as [|c r]; [by rewrite Hs|].
    apply Forall_cons_1 in D1 as [Hc _].
    assert (Hne : c ≠ 45) by (intros ->; done).
    assert (E : match c :: r with 45 :: s => (true, s) | _ => (false, c :: r) end = (false, c :: r)).
    { destruct c as [|p|p]; try done. repeat (destruct p as [p|p|]; try done). }
    rewrite E. by rewrite Hs.
Qed.

(** [stringToInt] inverts [numToString] on every [long] that has an opposite. *)
Theorem num_roundtrip n : - 2 ^ 63 < n < 2 ^ 63 → stringToInt (numToString n) = n.
Proof. apply sti_nts. Qed.

Lemma num_roundtrip_witness : stringToInt (numToString (-1234567890123)) = -1234567890123.
Proof. apply (num_roundtrip (-1234567890123)). lia. Defined.

(** The characters of a number: a sign or a digit, then digits. *)
Lemma num_chars n : - 2 ^ 31 ≤ n < 2 ^ 31 → ∃ c ds, numToString n = c :: ds ∧ ((c =? 45) || isNumber c) = true ∧ white c = false ∧
  Forall (λ d, isNumber d = true) ds ∧ (length ds <= 20)%nat.
Proof.
  intros Hn. unfold numToString. set (m := if n <? 0 then i64 (n * -1) else n).
  assert (Hm : 0 ≤ m < 2 ^ 63).
  { unfold m. destruct (Z.ltb_spec n 0); [unfold i64; rewrite swrap_small by lia; lia|lia]. }
  destruct (digits_value 20 m) as [D _]; [lia|lia|]. apply Forall_rev in D.
  assert (Hl : ∀ fuel k, (length (digits_loop fuel k) <= fuel)%nat).
  { induction fuel as [|fuel IH]; intros k; cbn [digits_loop length]; [lia|]. specialize (IH (Z.quot k 10)). destruct (0 <? _); cbn [length]; lia. }
  pose proof (Hl 20%nat m) as Hlen. rewrite <- length_rev in Hlen.
  destruct (n <? 0); cbn [app]; [exists 45, (rev (digits_loop 20 m)); by split_and!|].
  destruct (rev (digits_loop 20 m)) as [|c ds] eqn:E.
  { exfalso. apply (f_equal length) in E. rewrite length_rev in E. done. }
  apply Forall_cons_1 in D as [Hc D]. exists c, ds. split_and!; [done|by rewrite Hc, orb_true_r| |done|cbn [length] in Hlen; lia].
  unfold isNumber in Hc. apply andb_true_iff in Hc as [?%Z.leb_le ?%Z.leb_le]. unfold white.
  rewrite (proj2 (Z.eqb_neq c 32)), (proj2 (Z.eqb_neq c 9)), (proj2 (Z.eqb_neq c 10)), (proj2 (Z.eqb_neq c 13)) by lia. done.
Qed.

Lemma take_digits ds c rest : Forall (λ d, isNumber d = true) ds → isNumber c = false →
  take_while isNumber (ds ++ c :: rest) = (ds, rest).
Proof.
  intros Hds Hc. induction Hds as [|d ds Hd _ IH]; cbn [app take_while]; [by rewrite Hc, andb_false_r|].
  rewrite Hd, IH. unfold isNumber in Hd. apply andb_true_iff in Hd as [?%Z.leb_le ?%Z.leb_le].
  by rewrite (proj2 (Z.eqb_neq d 0)) by lia.
Qed.

Lemma skip_white_app eof ws c rest : Forall (λ d, white d = true) ws → white c = false →
  skip_white eof (ws ++ c :: rest) = (c, rest).
Proof. intros Hws Hc. induction Hws as [|d ws Hd _ IH]; cbn [app skip_white]; [by rewrite Hc|by rewrite Hd]. Qed.

(** C32. [scanf] reads back what [printf] writes: a number printed with %d, after any white space
    and before a character that is no digit, is read with %d as the same number, and the
    input goes on after that character. *)
Theorem scanf_printf eof n ws c rest text : - 2 ^ 31 ≤ n < 2 ^ 31 → Forall (λ d, white d = true) ws → isNumber c = false →
  vprintf [37; 100] [AInt n] = Some text →
  scanf eof [37; 100] (ws ++ text ++ c :: rest) = Some (1, [SInt n], rest).
Proof.
  intros Hn Hws Hc Ht. cbn in Ht. rewrite app_nil_r in Ht. injection Ht as <-.
  assert (Hi : i32 n = n) by (unfold i32; rewrite swrap_small; lia). rewrite Hi.
  destruct (num_chars n Hn) as (d & ds & E & Hd & Hw & Hds & Hlen). pose proof (sti_nts n ltac:(lia)) as Hr. rewrite E in Hr |- *.
  unfold scanf. cbn [vscanf app]. change (skip_white eof (ws ++ d :: ds ++ c :: rest)) with (skip_white eof (ws ++ d :: (ds ++ c :: rest))).
  cbn [Z.eqb Pos.eqb orb]. rewrite skip_white_app, Hd, take_digits by done.
  rewrite (proj2 (Z.ltb_ge 255 _)) by (cbn [length]; lia). cbn. by rewrite Hr, Hi.
Qed.

Lemma scanf_printf_witness : scanf 0 [37; 100] ([32; 10] ++ [45; 52; 50] ++ [10; 33]) = Some (1, [SInt (-42)], [33]).
Proof.
  apply (scanf_printf 0 (-42) [32; 10] 10 [33] [45; 52; 50]); [lia|repeat (apply Forall_cons; [done|]); apply Forall_nil|done|reflexivity].
Defined.

(** [randomRange] answers a number of the closed range, except when the generator's value
    is 65535: it then answers one more than the maximum. *)
Theorem randomRange_bounds lo hi st :
  0 ≤ lo ≤ hi → hi < 2 ^ 31 - 1 → 0 ≤ st ≤ RANDOM_MAX →
  let r := (randomRange lo hi st).1 in
  lo ≤ r ≤ hi + 1 ∧ (r = hi + 1 ↔ st = RANDOM_MAX).
Proof.
  unfold RANDOM_MAX. intros Hlo Hhi Hst. unfold randomRange, randomNext, RANDOM_MAX. cbn [fst].
  unfold u64. rewrite (wrap_small 64 (hi - lo)), (wrap_small 64 (hi - lo + 1)) by lia.
  assert (0 ≤ st * (hi - lo + 1) ≤ 65535 * 2 ^ 31) by nia.
  rewrite (wrap_small 64 (st * (hi - lo + 1))) by lia.
  set (w := hi - lo + 1) in *.
  assert (Hq : 0 ≤ st * w / 65535 ≤ w) by (split; [divlia|apply Z.div_le_upper_bound; nia]).
  unfold i32. rewrite swrap_small by lia. rewrite wrap_small by lia. split; [lia|]. split.
  - intros E. assert (Hw : st * w / 65535 = w) by lia.
    destruct (Z.eq_dec st 65535) as [|Hne]; [done|].
    assert (st * w / 65535 < w); [apply Z.div_lt_upper_bound; nia|lia].
  - intros ->. rewrite (Z.mul_comm 65535 w), Z.div_mul by lia. lia.
Qed.

Lemma randomRange_bounds_witness : (randomRange 1 10 65535).1 = 11.
Proof. apply (randomRange_bounds 1 10 65535); unfold RANDOM_MAX; lia. Defined.

(** The value of a list of hexadecimal digits, the first the most significant. *)
Definition hex_digit (upper : bool) (d : Z) : Z := if d <? 10 then 48 + d else (if upper then 65 else 97) + (d - 10).

Lemma hex_value upper ds (prefix : bool) :
  Forall (λ d, 0 ≤ d < 16) ds → (length ds <= 7)%nat →
  hexStringToInt ((if prefix then [48; 120] else []) ++ map (hex_digit upper) ds) =
    foldl (λ acc d, acc * 16 + d) 0 ds.
Proof.
  intros Hds Hlen.
  assert (Hdig : ∀ d, 0 ≤ d < 16 →
    let c := toLower (hex_digit upper d) in
    negb (isNumber c) && ((c <? 97) || (102 <? c)) = false ∧
    (if isNumber c then c - 48 else c - 97 + 10) = d ∧ hex_digit upper d ≠ 45 ∧ c ≠ 120).
  { intros d Hd.
    assert (H : forallb (λ d, let c := toLower (hex_digit upper d) in
      negb (negb (isNumber c) && ((c <? 97) || (102 <? c))) && ((if isNumber c then c - 48 else c - 97 + 10) =? d) &&
      negb (hex_digit upper d =? 45) && negb (toLower (hex_digit upper d) =? 120)) (seqZ 0 16) = true)
      by (destruct upper; vm_compute; reflexivity).
    rewrite forallb_forall in H. specialize (H d ltac:(apply list_elem_of_In, elem_of_seqZ; lia)).
    cbn zeta in *. rewrite !andb_true_iff, !negb_true_iff, !Z.eqb_eq, !Z.eqb_neq in H. intuition lia. }
  assert (Hloop : ∀ l acc, Forall (λ d, 0 ≤ d < 16) l → 0 ≤ acc → acc * 16 ^ Z.of_nat (length l) + 16 ^ Z.of_nat (length l) ≤ 2 ^ 31 →
    hex_loop (map (hex_digit upper) l) acc = foldl (λ acc d, acc * 16 + d) acc l).
  { induction l as [|d l IH]; intros acc Hl Ha Hb; cbn [map hex_loop foldl length] in *.
    - rewrite Z.pow_0_r in Hb. unfold i32. apply swrap_small; lia.
    - apply Forall_cons_1 in Hl as [Hd Hl]. destruct (Hdig d Hd) as (E1 & E2 & _).
      cbn zeta in E1, E2. rewrite E1, E2. rewrite Nat2Z.inj_succ, Z.pow_succ_r in Hb by lia.
      assert (1 ≤ 16 ^ Z.of_nat (length l)) by (pose proof (Z.pow_pos_nonneg 16 (Z.of_nat (length l))); lia).
      assert (acc * 16 + 16 ≤ 2 ^ 31) by nia.
      unfold u64. rewrite (wrap_small 64 (acc * 16)), wrap_small by lia. apply IH; [done|lia|nia]. }
  assert (Hmain : hex_loop (map (hex_digit upper) ds) 0 = foldl (λ acc d, acc * 16 + d) 0 ds).
  { apply Hloop; [done|lia|]. assert (16 ^ Z.of_nat (length ds) ≤ 16 ^ 7) by (apply Z.pow_le_mono_r; lia). lia. }
  destruct prefix; cbn [app]; [exact Hmain|]. unfold hexStringToInt.
  destruct ds as [|d ds]; [done|]. apply Forall_cons_1 in Hds as [Hd Hds].
  destruct (Hdig d Hd) as (_ & _ & N & _). rewrite <- Hmain. cbn [map] in *.
  assert (Hx : match map (hex_digit upper) ds with x :: _ => (toLower x =? 120) = false | [] => True end).
  { destruct ds as [|d2 ds]; [done|]. apply Forall_cons_1 in Hds as [Hd2 _].
    destruct (Hdig d2 Hd2) as (_ & _ & _ & N2). by apply Z.eqb_neq. }
  set (c := hex_digit upper d) in *. set (rest := map (hex_digit upper) ds) in *. clearbody c rest.
  destruct c as [|p|p]; try done. repeat (destruct p as [p|p|]; try done).
  destruct rest as [|x rest]; [done|]. by rewrite Hx.
Qed.

(** [hexStringToInt] reads colours: any string of at most seven hexadecimal digits, in
    capitals or not, with or without the prefix 0x, gives their value. *)
Theorem hex_reads upper ds (prefix : bool) :
  Forall (λ d, 0 ≤ d < 16) ds → (length ds <= 7)%nat →
  hexStringToInt ((if prefix then [48; 120] else []) ++ map (hex_digit upper) ds) =
    foldl (λ acc d, acc * 16 + d) 0 ds.
Proof. exact (hex_value upper ds prefix). Qed.

Lemma hex_reads_witness : hexStringToInt [70; 70; 56; 48; 48; 48] = 16744448.
Proof.
  apply (hex_reads true [15; 15; 8; 0; 0; 0] false);
    [repeat (apply Forall_cons; [lia|]); apply Forall_nil|cbn; lia].
Defined.

End CStandard.
