(* ===== verification/Terminal.v ===== *)
(** * The terminal process ([Userland/SampleCodeModule/terminal.c])

    The process reads bytes from its standard input and draws them.  Its statics are the
    record [term]; the system calls that touch the screen are the events it emits. *)

From S2P Require Import Prelude CStandard.
Import CStandard.

Module Terminal.

Definition CHAR_W : Z := 8.
Definition CHAR_H : Z := 16.
Definition BASELINE_Y : Z := 12.
Definition TAB_WIDTH : nat := 4.
Definition WHITE : Z := 0xFFFFFF.
Definition BLACK : Z := 0.
Definition DEFAULT_FG : Z := WHITE.
Definition DEFAULT_BG : Z := BLACK.
Definition ESC : Z := 0x1B.
Definition ESC_PAYLOAD_MAX : Z := 16.

Inductive EscState := ST_NORMAL | ST_ESC_CMD | ST_ESC_PAYLOAD.

(** The drawing system calls, with their arguments in the order of the call. *)
Inductive draw :=
  | sys_background (color : Z)
  | sys_scroll_up (pixels color : Z)
  | sys_draw_rect (color x y w h : Z)
  | sys_draw_char (ch x y fg bg size : Z).

(** [escPayload] keeps the [escPayloadLen] characters stored so far. *)
Record term := mkTerm {
  cursorCol : Z;
  cursorRow : Z;
  cols : Z;
  rows : Z;
  fgColor : Z;
  bgColor : Z;
  escState : EscState;
  escCmd : Z;
  escPayload : list Z;
}.

Definition set_cursor (c r : Z) (t : term) : term :=
  mkTerm c r (cols t) (rows t) (fgColor t) (bgColor t) (escState t) (escCmd t) (escPayload t).
Definition set_colors (fg bg : Z) (t : term) : term :=
  mkTerm (cursorCol t) (cursorRow t) (cols t) (rows t) fg bg (escState t) (escCmd t) (escPayload t).
Definition set_esc (st : EscState) (cmd : Z) (payload : list Z) (t : term) : term :=
  mkTerm (cursorCol t) (cursorRow t) (cols t) (rows t) (fgColor t) (bgColor t) st cmd payload.

(** A terminal action answers the next state and what it drew. *)
Definition T : Type := term → term * list draw.
Definition andThen (m n : T) : T := λ t,
  let '(t1, d1) := m t in let '(t2, d2) := n t1 in (t2, d1 ++ d2).
Definition skip : T := λ t, (t, []).
Definition upd (f : term → term) : T := λ t, (f t, []).

(** The statics as the program starts. *)
Definition term0 : term := mkTerm 0 0 0 0 DEFAULT_FG DEFAULT_BG ST_NORMAL 0 [].

Definition initLayout (screenW screenH : Z) (t : term) : term :=
  mkTerm (cursorCol t) (cursorRow t) (Z.quot (i32 screenW) CHAR_W) (Z.quot (i32 screenH) CHAR_H)
    (fgColor t) (bgColor t) (escState t) (escCmd t) (escPayload t).

Definition clearScreen : T := λ t, (set_cursor 0 0 t, [sys_background (bgColor t)]).

Definition newline : T := λ t,
  let r := cursorRow t + 1 in
  if rows t <=? r then (set_cursor 0 (rows t - 1) t, [sys_scroll_up CHAR_H (bgColor t)])
  else (set_cursor 0 r t, []).

Definition erase : T := λ t,
  let x := cursorCol t * CHAR_W in
  let y := cursorRow t * CHAR_H + BASELINE_Y in
  (t, [sys_draw_rect (bgColor t) x (y - BASELINE_Y) CHAR_W CHAR_H]).

Definition backspace : T := λ t,
  if cursorCol t =? 0 then
    if cursorRow t =? 0 then (t, [])
    else erase (set_cursor (cols t - 1) (cursorRow t - 1) t)
  else erase (set_cursor (cursorCol t - 1) (cursorRow t) t).

Definition applyEscape (cmd : Z) (payload : list Z) : T :=
  if cmd =? 99 then clearScreen
  else if cmd =? 102 then λ t, (set_colors (u32 (hexStringToInt payload)) (bgColor t) t, [])
  else if cmd =? 98 then
    andThen (λ t, (set_colors (fgColor t) (u32 (hexStringToInt payload)) t, [])) clearScreen
  else if cmd =? 114 then upd (set_colors DEFAULT_FG DEFAULT_BG)
  else skip.

Definition drawNormalChar (c : Z) : T :=
  andThen (λ t, if cols t <=? cursorCol t then newline t else (t, []))
    (λ t, let x := cursorCol t * CHAR_W in
          let y := cursorRow t * CHAR_H + BASELINE_Y in
          (set_cursor (cursorCol t + 1) (cursorRow t) t,
           [sys_draw_char (u8 c) x y (fgColor t) (bgColor t) 1])).

Fixpoint repeatT (n : nat) (m : T) : T := match n with O => skip | S n => andThen m (repeatT n m) end.

Definition termPutChar (c : Z) : T := λ t,
  match escState t with
  | ST_ESC_CMD => (set_esc ST_ESC_PAYLOAD c [] t, [])
  | ST_ESC_PAYLOAD =>
    if c =? 59 then
      let '(t', d) := applyEscape (escCmd t) (c_str (escPayload t)) t in
      (set_esc ST_NORMAL (escCmd t') (escPayload t') t', d)
    else if len (escPayload t) <? ESC_PAYLOAD_MAX - 1 then
      (set_esc ST_ESC_PAYLOAD (escCmd t) (escPayload t ++ [c]) t, [])
    else (t, [])
  | ST_NORMAL =>
    if c =? ESC then (set_esc ST_ESC_CMD (escCmd t) (escPayload t) t, [])
    else if c =? 0 then (t, [])
    else if c =? 10 then newline t
    else if c =? 13 then (set_cursor 0 (cursorRow t) t, [])
    else if c =? 8 then backspace t
    else if c =? 12 then clearScreen t
    else if c =? 9 then repeatT TAB_WIDTH (drawNormalChar 32) t
    else drawNormalChar c t
  end.

(** [for (i = 0; i < n; i++) termPutChar(buf[i])] *)
Fixpoint putAll (buf : list Z) : T :=
  match buf with [] => skip | c :: buf => andThen (termPutChar c) (putAll buf) end.

(** What the successive reads bring, until one brings nothing. *)
Fixpoint term_loop (reads : list (list Z)) : T :=
  match reads with
  | [] | [] :: _ => skip
  | buf :: reads => andThen (putAll buf) (term_loop reads)
  end.

Definition terminalProcess (screenW screenH : Z) (reads : list (list Z)) : term * list draw :=
  andThen clearScreen (term_loop reads) (initLayout screenW screenH term0).

(** ** The cursor stays on the screen *)

Record ok (t : term) : Prop := {
  ok_cols : 1 ≤ cols t;
  ok_rows : 1 ≤ rows t;
  ok_col : 0 ≤ cursorCol t ≤ cols t;
  ok_row : 0 ≤ cursorRow t < rows t;
  ok_payload : len (escPayload t) < ESC_PAYLOAD_MAX;
}.

(** An event draws only inside a screen of [w] by [h] cells. *)
Definition inside (w h : Z) (d : draw) : Prop :=
  match d with
  | sys_draw_char _ x y _ _ _ => 0 ≤ x ∧ x + CHAR_W ≤ w * CHAR_W ∧ BASELINE_Y ≤ y ∧ y - BASELINE_Y + CHAR_H ≤ h * CHAR_H
  | sys_draw_rect _ x y cw ch => 0 ≤ x ∧ x + cw ≤ w * CHAR_W ∧ 0 ≤ y ∧ y + ch ≤ h * CHAR_H
  | _ => True
  end.

Definition safe (m : T) : Prop := ∀ t, ok t →
  let '(t', d) := m t in ok t' ∧ cols t' = cols t ∧ rows t' = rows t ∧ Forall (inside (cols t) (rows t)) d.

Lemma safe_andThen m n : safe m → safe n → safe (andThen m n).
Proof.
  intros Hm Hn t Hok. unfold andThen. specialize (Hm t Hok). destruct (m t) as [t1 d1].
  destruct Hm as (H1 & C1 & R1 & D1). specialize (Hn t1 H1). destruct (n t1) as [t2 d2].
  destruct Hn as (H2 & C2 & R2 & D2). rewrite C1, R1 in *. split_and!; [done|congruence..|by apply Forall_app_2].
Qed.
Lemma safe_skip : safe skip.
Proof. by intros t Hok. Qed.
#[local] Hint Resolve safe_andThen safe_skip : kernel.

Ltac screen := unfold CHAR_W, CHAR_H, BASELINE_Y, ESC_PAYLOAD_MAX in *; simpl in *; lia.
Ltac solve_safe :=
  split_and!; try done; try (constructor; screen);
  repeat (apply Forall_cons; [simpl; try done; split_and?; screen|]); try apply Forall_nil.

Lemma safe_clearScreen : safe clearScreen.
Proof. intros t []. unfold clearScreen. solve_safe. Qed.

Lemma safe_newline : safe newline.
Proof. intros t []. unfold newline. destruct (Z.leb_spec (rows t) (cursorRow t + 1)); solve_safe. Qed.

Lemma safe_backspace : safe backspace.
Proof.
  intros t []. unfold backspace, erase.
  destruct (Z.eqb_spec (cursorCol t) 0), (Z.eqb_spec (cursorRow t) 0); solve_safe.
Qed.

Lemma safe_colors f : safe (λ t, (set_colors (f t).1 (f t).2 t, [])).
Proof. intros t []. solve_safe. Qed.

Lemma safe_applyEscape cmd payload : safe (applyEscape cmd payload).
Proof.
  unfold applyEscape. repeat case_match; auto using safe_clearScreen with kernel.
  - apply (safe_colors (λ t, (u32 (hexStringToInt payload), bgColor t))).
  - apply safe_andThen; [|apply safe_clearScreen].
    apply (safe_colors (λ t, (fgColor t, u32 (hexStringToInt payload)))).
  - apply (safe_colors (λ _, (DEFAULT_FG, DEFAULT_BG))).
Qed.

Lemma safe_drawNormalChar c : safe (drawNormalChar c).
Proof.
  intros t Hok. unfold drawNormalChar, andThen.
  assert (∃ t1 d1, (if cols t <=? cursorCol t then newline t else (t, [])) = (t1, d1) ∧
    ok t1 ∧ cols t1 = cols t ∧ rows t1 = rows t ∧ Forall (inside (cols t) (rows t)) d1 ∧ cursorCol t1 < cols t)
    as (t1 & d1 & -> & [] & C & R & D & ?).
  { destruct (Z.leb_spec (cols t) (cursorCol t)); [|eexists _, _; by split_and!].
    pose proof (safe_newline t Hok) as Hn. pose proof (ok_cols t Hok). destruct (newline t) as [t1 d1] eqn:E.
    destruct Hn as (? & ? & ? & ?). eexists _, _. split_and!; try done.
    unfold newline in E. destruct (rows t <=? cursorRow t + 1); injection E as <- <-; simpl; lia. }
  split_and!; [constructor; screen|done|done|]. apply Forall_app_2; [done|].
  apply Forall_cons; [|apply Forall_nil]. simpl. split_and!; screen.
Qed.

Lemma safe_repeatT n m : safe m → safe (repeatT n m).
Proof. induction n; simpl; auto with kernel. Qed.

Lemma safe_termPutChar c : safe (termPutChar c).
Proof.
  intros t Hok. unfold termPutChar. destruct (escState t).
  - repeat match goal with |- context [if ?b then _ else _] => destruct b end;
      try (by apply safe_newline); try (by apply safe_backspace); try (by apply safe_clearScreen);
      try (apply safe_repeatT; [apply safe_drawNormalChar|done]); try (by apply safe_drawNormalChar);
      destruct Hok; solve_safe.
  - destruct Hok; solve_safe.
  - destruct (c =? 59).
    + pose proof (safe_applyEscape (escCmd t) (c_str (escPayload t)) t Hok) as H.
      destruct (applyEscape _ _ t) as [t' d]. destruct H as ([] & C & R & D). by split_and!.
    + destruct (Z.ltb_spec (len (escPayload t)) (ESC_PAYLOAD_MAX - 1)); destruct Hok; [|solve_safe].
      split_and!; try done. constructor; simpl; rewrite ?length_app; screen.
Qed.

Lemma safe_putAll buf : safe (putAll buf).
Proof. induction buf; simpl; auto using safe_termPutChar with kernel. Qed.

Lemma safe_term_loop reads : safe (term_loop reads).
Proof. induction reads as [|[|c buf] reads IH]; simpl; auto using safe_putAll with kernel. apply safe_andThen; [|done]. apply (safe_putAll (c :: buf)). Qed.

(** C40. Whatever bytes the terminal is fed, its cursor stays on the screen, its escape buffer
    never overflows, and every glyph and every erased cell it draws lies inside the screen. *)
Theorem terminal_inside screenW screenH reads :
  CHAR_W ≤ screenW < 2 ^ 31 → CHAR_H ≤ screenH < 2 ^ 31 →
  let r := terminalProcess screenW screenH reads in
  ok r.1 ∧ Forall (inside (screenW / CHAR_W) (screenH / CHAR_H)) r.2.
Proof.
  unfold CHAR_W, CHAR_H. intros HW HH. unfold terminalProcess.
  assert (Hok : ok (initLayout screenW screenH term0)).
  { unfold initLayout, term0, i32, CHAR_W, CHAR_H. rewrite !swrap_small, !Z.quot_div_nonneg by lia.
    constructor; simpl; unfold ESC_PAYLOAD_MAX; divlia. }
  pose proof (safe_andThen _ _ safe_clearScreen (safe_term_loop reads) _ Hok) as H. cbn zeta.
  destruct (andThen _ _ _) as [t d]. destruct H as (H & _ & _ & D). split; [done|].
  unfold initLayout, i32, CHAR_W, CHAR_H in D. simpl in D. by rewrite !swrap_small, !Z.quot_div_nonneg in D by lia.
Qed.

Lemma terminal_inside_witness :
  cursorRow (terminalProcess 16 32 [[65; 66; 67]; [8; 10; 10]]).1 = 1 ∧ ok (terminalProcess 16 32 [[65; 66; 67]; [8; 10; 10]]).1.
Proof.
  split; [reflexivity|].
  refine (proj1 (terminal_inside 16 32 [[65; 66; 67]; [8; 10; 10]] _ _)); unfold CHAR_W, CHAR_H; lia.
Defined.

(** ** What text and colours do *)

(** The place of the cursor after [k] characters from the top left corner: it stays past the
    last column until the next character. *)
Definition at_char (k : Z) (t : term) : Prop :=
  if k =? 0 then cursorCol t = 0 ∧ cursorRow t = 0
  else cursorCol t = (k - 1) mod cols t + 1 ∧ cursorRow t = (k - 1) / cols t.

(** The glyphs of a text whose first character is the [k]-th, in rows of [w] cells. *)
Fixpoint glyphs (w fg bg k : Z) (text : list Z) : list draw :=
  match text with
  | [] => []
  | c :: text => sys_draw_char c (k mod w * CHAR_W) (k / w * CHAR_H + BASELINE_Y) fg bg 1 :: glyphs w fg bg (k + 1) text
  end.

Definition plain (c : Z) : Prop := 32 ≤ c ≤ 126.

(** One printable character, from place [k]. *)
Lemma put_plain c k t :
  plain c → escState t = ST_NORMAL → 1 ≤ cols t → 0 ≤ k < cols t * rows t → at_char k t →
  ∃ t', termPutChar c t = (t', [sys_draw_char c (k mod cols t * CHAR_W) (k / cols t * CHAR_H + BASELINE_Y) (fgColor t) (bgColor t) 1]) ∧
    escState t' = ST_NORMAL ∧ cols t' = cols t ∧ rows t' = rows t ∧ fgColor t' = fgColor t ∧ bgColor t' = bgColor t ∧ at_char (k + 1) t'.
Proof.
  intros Hc Hst Hw Hk Hat. unfold plain in Hc. unfold termPutChar. rewrite Hst.
  unfold ESC. repeat (rewrite (proj2 (Z.eqb_neq c _)) by lia).
  set (w := cols t) in *.
  assert (Hcell : ∃ t1, (if cols t <=? cursorCol t then newline t else (t, [])) = (t1, []) ∧
    cursorCol t1 = k mod w ∧ cursorRow t1 = k / w ∧ escState t1 = ST_NORMAL ∧ cols t1 = w ∧ rows t1 = rows t ∧
    fgColor t1 = fgColor t ∧ bgColor t1 = bgColor t).
  { unfold at_char in Hat. fold w in Hat |- *. destruct (Z.eqb_spec k 0) as [->|Hk0].
    - destruct Hat as [E1 E2]. rewrite E1. destruct (Z.leb_spec w 0); [lia|]. exists t.
      rewrite Z.mod_0_l, Z.div_0_l by lia. by split_and!.
    - destruct Hat as [E1 E2]. pose proof (Z.div_mod (k - 1) w ltac:(lia)) as Hdm.
      pose proof (Z.mod_pos_bound (k - 1) w ltac:(lia)) as Hmb.
      destruct (Z.leb_spec w (cursorCol t)).
      + assert (Hk' : k = w * ((k - 1) / w + 1) + 0) by lia.
        pose proof (Z.div_unique k w ((k - 1) / w + 1) 0 ltac:(lia) Hk') as Hq.
        pose proof (Z.mod_unique k w ((k - 1) / w + 1) 0 ltac:(lia) Hk') as Hr.
        unfold newline. rewrite E2. destruct (Z.leb_spec (rows t) ((k - 1) / w + 1)); [nia|].
        eexists. split; [reflexivity|]. simpl. rewrite <- Hq, <- Hr. by split_and!.
      + assert (Hk' : k = w * ((k - 1) / w) + ((k - 1) mod w + 1)) by lia.
        rewrite <- (Z.div_unique k w ((k - 1) / w) ((k - 1) mod w + 1) ltac:(lia) Hk'),
          <- (Z.mod_unique k w ((k - 1) / w) ((k - 1) mod w + 1) ltac:(lia) Hk').
        exists t. by split_and!. }
  destruct Hcell as (t1 & E & C & R & S & W & H & F & B).
  unfold drawNormalChar, andThen. rewrite E. simpl. rewrite C, R, F, B, u8_small by lia.
  eexists. split; [reflexivity|]. simpl. split_and!; try done.
  unfold at_char. simpl. rewrite (proj2 (Z.eqb_neq (k + 1) 0)) by lia. rewrite W, Z.add_simpl_r. lia.
Qed.

Lemma put_text text : Forall plain text → ∀ t k, escState t = ST_NORMAL → 1 ≤ cols t → 0 ≤ k →
  at_char k t → k + len text ≤ cols t * rows t →
  (putAll text t).2 = glyphs (cols t) (fgColor t) (bgColor t) k text.
Proof.
  induction 1 as [|c text Hc _ IH]; intros t k Hst Hw Hk Hat Hlen; [done|]. simpl in Hlen.
  destruct (put_plain c k t Hc Hst Hw ltac:(lia) Hat) as (t' & E & S & W & H & F & B & Hat').
  simpl. unfold andThen. rewrite E. specialize (IH t' (k + 1) S ltac:(lia) ltac:(lia) Hat' ltac:(rewrite W, H; lia)).
  rewrite W, F, B in IH. destruct (putAll text t') as [t2 d2]. simpl in *. by rewrite IH.
Qed.

(** Printable text, put on a cleared screen with room for it, appears in reading order: the
    [k]-th character in column [k mod cols] of row [k / cols], in the current colours, and
    nothing else is drawn; in particular no line is lost to scrolling. *)
Theorem terminal_text text t :
  Forall plain text → escState t = ST_NORMAL → 1 ≤ cols t → cursorCol t = 0 → cursorRow t = 0 →
  len text ≤ cols t * rows t →
  (putAll text t).2 = glyphs (cols t) (fgColor t) (bgColor t) 0 text.
Proof. intros Htext Hst Hw HC HR Hlen. apply put_text; done || lia. Qed.

Lemma terminal_text_witness :
  (putAll [72; 105; 33] (mkTerm 0 0 2 2 7 1 ST_NORMAL 0 [])).2 =
    [sys_draw_char 72 0 12 7 1 1; sys_draw_char 105 8 12 7 1 1; sys_draw_char 33 0 28 7 1 1].
Proof.
  apply (terminal_text [72; 105; 33] (mkTerm 0 0 2 2 7 1 ST_NORMAL 0 []));
    [repeat (apply Forall_cons; [unfold plain; lia|]); apply Forall_nil|reflexivity|simpl; lia|reflexivity|reflexivity|simpl; lia].
Defined.

Lemma put_payload l : ∀ t, escState t = ST_ESC_PAYLOAD → Forall (λ c, c ≠ 59) l →
  len (escPayload t) + len l < ESC_PAYLOAD_MAX →
  ∀ rest, putAll (l ++ rest) t = putAll rest (set_esc ST_ESC_PAYLOAD (escCmd t) (escPayload t ++ l) t).
Proof.
  induction l as [|c l IH]; intros t Hst Hl Hlen rest.
  - rewrite app_nil_r. destruct t. simpl in *. by rewrite Hst.
  - apply Forall_cons_1 in Hl as [Hc Hl]. simpl in Hlen |- *. unfold andThen at 1, termPutChar. rewrite Hst.
    destruct (Z.eqb_spec c 59); [done|]. destruct (Z.ltb_spec (len (escPayload t)) (ESC_PAYLOAD_MAX - 1)); [|lia].
    rewrite IH; [|done|done|simpl; rewrite length_app; simpl; lia].
    simpl. rewrite <- app_assoc. by destruct (putAll rest _).
Qed.

(** The colour sequence [ESC f rrggbb ;] that [COLOR_FG] spells, in capitals or not, sets the
    text colour to the value of its digits, draws nothing and leaves the cursor, the background
    and the parser as they were. *)
Theorem terminal_color upper ds t :
  escState t = ST_NORMAL → length ds = 6%nat → Forall (λ d, 0 ≤ d < 16) ds →
  let r := putAll ([27; 102] ++ map (hex_digit upper) ds ++ [59]) t in
  r.2 = [] ∧ fgColor r.1 = foldl (λ acc d, acc * 16 + d) 0 ds ∧ bgColor r.1 = bgColor t ∧
  cursorCol r.1 = cursorCol t ∧ cursorRow r.1 = cursorRow t ∧ escState r.1 = ST_NORMAL.
Proof.
  intros Hst Hlen Hds.
  assert (Hch : Forall (λ c, c ≠ 0 ∧ c ≠ 59) (map (hex_digit upper) ds)).
  { apply list.Forall_fmap. eapply list.Forall_impl; [exact Hds|]. intros d Hd. simpl. unfold hex_digit. destruct upper; zcase. }
  assert (Hb : 0 ≤ foldl (λ acc d, acc * 16 + d) 0 ds < 2 ^ 32).
  { do 6 (destruct ds as [|? ds]; [done|]; apply Forall_cons_1 in Hds as [? Hds]). destruct ds; [|done]. simpl. lia. }
  set (v := foldl (λ acc d, acc * 16 + d) 0 ds) in *.
  assert (E : putAll ([27; 102] ++ map (hex_digit upper) ds ++ [59]) t =
    (set_esc ST_NORMAL 102 (map (hex_digit upper) ds) (set_colors v (bgColor t) t), [])).
  { cbn [app putAll]. unfold andThen at 1, termPutChar at 1. rewrite Hst. cbn [Z.eqb ESC Pos.eqb].
    unfold andThen at 1, termPutChar at 1. cbn [escState set_esc].
    rewrite put_payload; [|done|by eapply list.Forall_impl; [exact Hch|intros c [_ H]]|
      cbn [escPayload set_esc]; rewrite length_map, Hlen; unfold ESC_PAYLOAD_MAX; simpl; lia].
    cbn [app escPayload escCmd set_esc putAll]. unfold andThen, termPutChar. cbn [escState set_esc Z.eqb Pos.eqb escCmd escPayload].
    rewrite c_str_all by (by eapply list.Forall_impl; [exact Hch|intros c [H _]]).
    unfold applyEscape. cbn [Z.eqb Pos.eqb].
    pose proof (hex_value upper ds false Hds ltac:(lia)) as Hv. cbn [app] in Hv. rewrite Hv.
    fold v. rewrite u32_small by done. reflexivity. }
  cbn zeta. rewrite E. by split_and!.
Qed.

Lemma terminal_color_witness :
  fgColor (putAll ([27; 102] ++ map (hex_digit true) [0; 0; 15; 15; 15; 15] ++ [59])
    (mkTerm 3 1 80 25 0 0 ST_NORMAL 0 [])).1 = 0x00FFFF.
Proof.
  transitivity (foldl (λ acc d, acc * 16 + d) 0 [0; 0; 15; 15; 15; 15]); [|reflexivity].
  apply (terminal_color true [0; 0; 15; 15; 15; 15] (mkTerm 3 1 80 25 0 0 ST_NORMAL 0 []) eq_refl eq_refl).
  repeat (apply Forall_cons; [lia|]); apply Forall_nil.
Defined.

End Terminal.
