(* ===== verification/Shell.v ===== *)
(** * The shell ([Userland/SampleCodeModule/shell.c])

    Line editing, the splitting of a line in stages and words, and what the shell asks of the
    system to run a line.  A string is the list of its characters; the functions that cut a
    string in place answer the pieces. *)

From stdpp Require Import strings.
From S2P Require Import Prelude CStandard.
Import CStandard.

Module Shell.

Definition STDIN : Z := 0.
Definition STDOUT : Z := 1.
Definition STDERR : Z := 2.
Definition MAX_TOKENS : Z := 16.
Definition MAX_PIPELINE : Z := 2.
Definition MAX_COMMAND_LENGTH : Z := 128.

(** ** Reading a line *)

(** [input] are the characters the reads of [STDIN] bring; a read past them answers end of
    file.  The result is the value returned, the line ([idx] characters), what was echoed and
    the input left. *)
Fixpoint readLine_loop (input line : list Z) (maxLen : Z) : Z * list Z * list Z * list Z :=
  match input with
  | [] => (-1, line, [], [])
  | c :: input =>
    if c =? 0 then readLine_loop input line maxLen
    else if c =? 10 then (len line, line, [10], input)
    else if c =? 8 then
      if 0 <? len line then
        let '(n, l, echo, rest) := readLine_loop input (removelast line) maxLen in
        (n, l, 8 :: echo, rest)
      else readLine_loop input line maxLen
    else if (len line <? maxLen - 1) && isPrintableAscii c then
      let '(n, l, echo, rest) := readLine_loop input (line ++ [c]) maxLen in
      (n, l, c :: echo, rest)
    else readLine_loop input line maxLen
  end.
Definition readLine (input : list Z) (maxLen : Z) := readLine_loop input [] maxLen.

(** ** Cutting a line *)

Definition blank (c : Z) : bool := (c =? 32) || (c =? 9).

Fixpoint skip_blanks (s : list Z) : list Z :=
  match s with c :: s' => if blank c then skip_blanks s' else s | [] => [] end.

(** The characters of a token, and what follows it. *)
Fixpoint span_token (s : list Z) : list Z * list Z :=
  match s with
  | [] => ([], [])
  | c :: s' => if blank c then ([], s) else let '(t, r) := span_token s' in (c :: t, r)
  end.

(** One round per token: at most [length str] of them. *)
Fixpoint tokenize_loop (fuel : nat) (str : list Z) (n maxTokens : Z) : list (list Z) :=
  match fuel with
  | O => []
  | S fuel =>
    match str with
    | [] => []
    | _ =>
      if n <? maxTokens then
        let str := skip_blanks str in
        match str with
        | [] => []
        | _ =>
          let '(tok, str) := span_token str in
          tok :: tokenize_loop fuel (match str with [] => [] | _ :: s => s end) (n + 1) maxTokens
        end
      else []
    end
  end.
Definition tokenize (str : list Z) (maxTokens : Z) : list (list Z) :=
  tokenize_loop (S (length str)) str 0 maxTokens.

Fixpoint skip_spaces (s : list Z) : list Z :=
  match s with c :: s' => if c =? 32 then skip_spaces s' else s | [] => [] end.

(** [cur] is the stage being read and [n] the number of stages begun; [None] is the answer -1. *)
Fixpoint split_loop (fuel : nat) (p cur : list Z) (n maxStages : Z) : option (list (list Z)) :=
  match fuel with
  | O => None
  | S fuel =>
    match p with
    | [] => Some [cur]
    | c :: p =>
      if c =? 124 then
        if maxStages <=? n then None
        else
          stages ← split_loop fuel (skip_spaces p) [] (n + 1) maxStages;
          Some (cur :: stages)
      else split_loop fuel p (cur ++ [c]) n maxStages
    end
  end.
Definition splitPipeline (line : list Z) (maxStages : Z) : option (list (list Z)) :=
  split_loop (S (length line)) line [] 1 maxStages.

(** [while (len > 0 && blank(line[len-1])) line[--len] = '\0'] *)
Definition trim_end (line : list Z) : list Z := rev (skip_blanks (rev line)).

Definition hasBackground (line : list Z) : bool * list Z :=
  let line := trim_end line in
  match rev line with
  | 38 :: r => (true, trim_end (rev r))
  | _ => (false, line)
  end.

(** ** Running a line *)

Record fd_override_t := mkOverride { affectedFd : Z; targetFd : Z }.

(** The system calls of the shell.  [sys_pipe] fills two descriptors; [sys_create_terminal] creates
    the process of the terminal. *)
Inductive call :=
  | sys_reopen (fd : Z)
  | sys_pipe
  | sys_dup (oldFd newFd : Z)
  | sys_close (fd : Z)
  | sys_create_terminal (overrides : list fd_override_t)
  | sys_yield
  | sys_reap_zombies
  | sys_create (cmd : Z) (argv : list (list Z)) (overrides : list fd_override_t)
  | sys_foreground (pid : Z)
  | sys_waitpid (pid : Z)
  | sys_kill (pid : Z)
  | sys_write (fd : Z) (text : list Z).

Record reply := mkReply { ret : Z; fd0 : Z; fd1 : Z }.

(** A program of the shell: an answer, or a call and what to do with the reply. *)
Inductive prog (A : Type) :=
  | Ret (a : A)
  | Call (c : call) (k : reply → prog A).
Arguments Ret {A} a.
Arguments Call {A} c k.

Fixpoint pbind {A B} (m : prog A) (f : A → prog B) : prog B :=
  match m with Ret a => f a | Call c k => Call c (λ r, pbind (k r) f) end.
#[global] Instance prog_ret : MRet prog := λ A a, Ret a.
#[global] Instance prog_bind : MBind prog := λ A B f m, pbind m f.

Definition call1 (c : call) : prog Z := Call c (λ r, Ret (i32 (ret r))).
Definition do_ (c : call) : prog unit := Call c (λ _, Ret ()).
(** [putChar] is a write of one byte. *)
Definition putChar (c : Z) : prog unit := do_ (sys_write STDOUT [c]).

(** A message of the source. *)
Definition msg (s : string) : list Z := map (λ a, Z.of_N (Ascii.N_of_ascii a)) (String.list_ascii_of_string s).

#[global] Arguments msg : simpl never.

Section RunLine.
(** The table of commands ([Commands.v]). *)
Context (getCommandIndex : list Z → Z).

Definition not_found (tok : list Z) : prog unit :=
  _ ← do_ (sys_write STDERR ([27; 102] ++ msg "FF4040" ++ [59] ++ msg "Command not found: "));
  _ ← do_ (sys_write STDERR tok);
  do_ (sys_write STDERR ([27; 114; 59] ++ [10])).

Definition stage_overrides (stdinFd stdoutFd : Z) (closeFds : list Z) : list fd_override_t :=
  (if stdinFd =? -1 then [mkOverride STDIN (-1)]
   else if negb (stdinFd =? STDIN) then [mkOverride STDIN stdinFd] else []) ++
  (if negb (stdoutFd =? STDOUT) then [mkOverride STDOUT stdoutFd] else []) ++
  map (λ fd, mkOverride fd (-1)) closeFds.

Definition runStage (stageStr : list Z) (stdinFd stdoutFd : Z) (background : bool) (closeFds : list Z) : prog Z :=
  match tokenize stageStr MAX_TOKENS with
  | [] => mret (-1)
  | t0 :: tokens =>
    let cmdIdx := getCommandIndex t0 in
    if cmdIdx <? 0 then _ ← not_found t0; mret (-1)
    else
      pid ← call1 (sys_create cmdIdx (t0 :: tokens) (stage_overrides stdinFd stdoutFd closeFds));
      if pid <? 0 then
        _ ← do_ (sys_write STDERR (msg "shell: cannot spawn" ++ [10])); mret (-1)
      else
        _ ← (if background then mret () else do_ (sys_foreground (i16 pid)));
        mret pid
  end.

Definition when (b : bool) (m : prog unit) : prog unit := if b then m else mret ().

Definition run_single (stage : list Z) (childStdin firstStdin : Z) (background : bool) : prog unit :=
  let closeOnChild := if 0 <=? childStdin then [childStdin] else [] in
  pid ← runStage stage firstStdin STDOUT background closeOnChild;
  _ ← when ((0 <=? pid) && negb background) (_ ← do_ (sys_waitpid (i16 pid)); putChar 10);
  when (0 <=? childStdin) (do_ (sys_close childStdin)).

Definition run_pipeline (s1 s2 : list Z) (childStdin firstStdin : Z) (background : bool) : prog unit :=
  Call sys_pipe (λ r,
  if i64 (ret r) <? 0 then
    _ ← do_ (sys_write STDERR (msg "shell: cannot create pipe" ++ [10]));
    when (0 <=? childStdin) (do_ (sys_close childStdin))
  else
    let closeOnFirst := fd0 r ::
      (if (0 <=? childStdin) && negb (childStdin =? firstStdin) then [childStdin] else []) in
    pid1 ← runStage s1 firstStdin (fd1 r) background closeOnFirst;
    if pid1 <? 0 then
      _ ← do_ (sys_close (fd0 r));
      _ ← do_ (sys_close (fd1 r));
      when (0 <=? childStdin) (do_ (sys_close childStdin))
    else
      let closeOnSecond := fd1 r :: (if 0 <=? childStdin then [childStdin] else []) in
      pid2 ← runStage s2 (fd0 r) STDOUT background closeOnSecond;
      _ ← do_ (sys_close (fd0 r));
      _ ← do_ (sys_close (fd1 r));
      if pid2 <? 0 then
        _ ← do_ (sys_kill (i16 pid1));
        _ ← when (negb background) (do_ (sys_waitpid (i16 pid1)));
        when (0 <=? childStdin) (do_ (sys_close childStdin))
      else
        _ ← when (negb background)
              (_ ← do_ (sys_waitpid (i16 pid1)); _ ← do_ (sys_waitpid (i16 pid2)); putChar 10);
        when (0 <=? childStdin) (do_ (sys_close childStdin))).

Definition too_many_stages : list Z := msg "shell: solo se admite un `|` por linea" ++ [10].

Definition runLine (line : list Z) : prog unit :=
  let '(background, line) := hasBackground line in
  match splitPipeline line MAX_PIPELINE with
  | None => do_ (sys_write STDERR too_many_stages)
  | Some stages =>
    childStdin ← call1 (sys_reopen STDIN);
    let firstStdin :=
      if childStdin <? 0 then (if background then -1 else STDIN)
      else (if background then -1 else childStdin) in
    match stages with
    | [s] => run_single s childStdin firstStdin background
    | [s1; s2] => run_pipeline s1 s2 childStdin firstStdin background
    | _ => mret ()
    end
  end.

End RunLine.

(** ** The line editor *)

(** What one typed character does to the line. *)
Definition edit (maxLen : Z) (line : list Z) (c : Z) : list Z :=
  if c =? 0 then line
  else if c =? 8 then removelast line
  else if (len line <? maxLen - 1) && isPrintableAscii c then line ++ [c] else line.

(** What an echoed character does to a row of the screen. *)
Definition screen (row : list Z) (c : Z) : list Z := if c =? 8 then removelast row else row ++ [c].

Lemma edit_len maxLen line c : len line < maxLen → len (edit maxLen line c) < maxLen.
Proof.
  intros H. unfold edit. destruct (c =? 0); [done|]. destruct (c =? 8).
  - destruct line as [|x l] using rev_ind; [done|]. rewrite removelast_last. rewrite length_app in H. simpl in H. lia.
  - destruct (Z.ltb_spec (len line) (maxLen - 1)); simpl; [|lia].
    destruct (isPrintableAscii c); [rewrite length_app; simpl; lia|lia].
Qed.

(** The echo does not depend on what follows the line. *)
Lemma readLine_go text maxLen : ¬ In 10 text → ∀ line, len line < maxLen →
  ∃ e, (∀ rest, readLine_loop (text ++ 10 :: rest) line maxLen =
    (let l := foldl (edit maxLen) line text in (len l, l, e ++ [10], rest))) ∧
  foldl screen line e = foldl (edit maxLen) line text ∧ len (foldl (edit maxLen) line text) < maxLen.
Proof.
  induction text as [|c text IH]; intros Hnl line Hlen; [by exists []|].
  assert (Hc : c ≠ 10) by (intros ->; apply Hnl; by left).
  destruct (IH (λ H, Hnl (or_intror H)) (edit maxLen line c) (edit_len maxLen line c Hlen)) as (e & E & R & L).
  simpl. remember (edit maxLen line c) as line' eqn:Hl. unfold edit in Hl.
  destruct (Z.eqb_spec c 0); [subst line'; by exists e|]. destruct (Z.eqb_spec c 10); [done|].
  destruct (Z.eqb_spec c 8) as [->|H8].
  - destruct (Z.ltb_spec 0 (len line)).
    + subst line'. exists (8 :: e). split_and!; [|done|done]. intros rest. by rewrite E.
    + destruct line; [|simpl in *; lia]. subst line'. by exists e.
  - destruct ((len line <? maxLen - 1) && isPrintableAscii c); subst line'; [|by exists e].
    exists (c :: e). split_and!; [intros rest; by rewrite E| |done].
    simpl. unfold screen at 2. by rewrite (proj2 (Z.eqb_neq c 8)).
Qed.



(** ** Words and stages *)

(** The pieces of a string between the characters that satisfy [sep]. *)
Fixpoint pieces (sep : Z → bool) (s : list Z) : list (list Z) :=
  match s with
  | [] => [[]]
  | c :: s =>
    if sep c then [] :: pieces sep s
    else match pieces sep s with t :: ts => (c :: t) :: ts | [] => [[c]] end
  end.

Definition nonempty (t : list Z) : bool := match t with [] => false | _ => true end.
Definition words (s : list Z) : list (list Z) := List.filter nonempty (pieces blank s).

Lemma pieces_cons sep s : ∃ t ts, pieces sep s = t :: ts.
Proof. destruct s as [|c s]; simpl; [eauto|]. destruct (sep c); [eauto|]. destruct (pieces sep s); eauto. Qed.

Lemma words_skip s : words (skip_blanks s) = words s.
Proof. unfold words. induction s as [|c s IH]; [done|]. simpl. destruct (blank c) eqn:E; [by rewrite IH|]. simpl. by rewrite E. Qed.

Lemma skip_blanks_head s : match skip_blanks s with c :: _ => blank c = false | [] => True end.
Proof. induction s as [|c s IH]; [done|]. simpl. destruct (blank c) eqn:E; [done|]. by rewrite E. Qed.

Lemma skip_blanks_len s : (length (skip_blanks s) <= length s)%nat.
Proof. induction s as [|c s IH]; simpl; [lia|]. destruct (blank c); simpl; lia. Qed.

(** The first piece is the token. *)
Lemma span_token_pieces s :
  let '(t, r) := span_token s in
  pieces blank s = t :: match r with [] => [] | _ :: r => pieces blank r end ∧ (length t + length r = length s)%nat.
Proof.
  induction s as [|c s IH]; [done|]. simpl. destruct (blank c); [done|].
  destruct (span_token s) as [t r]. destruct IH as [-> IH]. simpl. split; [done|lia].
Qed.

Lemma take_words_nil k : take k (words []) = [].
Proof. apply take_nil. Qed.

Lemma tokenize_loop_words fuel : ∀ s n m, (length s < fuel)%nat →
  tokenize_loop fuel s n m = take (Z.to_nat (m - n)) (words s).
Proof.
  induction fuel as [|fuel IH]; intros s n m Hf; [lia|]. simpl.
  destruct s as [|c0 s0]; [by rewrite take_words_nil|]. set (s := c0 :: s0) in *. clearbody s.
  destruct (Z.ltb_spec n m); [|by replace (Z.to_nat (m - n)) with O by lia].
  rewrite <- (words_skip s). pose proof (skip_blanks_head s) as Hh. pose proof (skip_blanks_len s) as Hl.
  destruct (skip_blanks s) as [|c r]; [by rewrite take_words_nil|].
  pose proof (span_token_pieces (c :: r)) as Hsp. simpl in Hsp |- *. rewrite Hh in Hsp |- *.
  destruct (span_token r) as [t r']. destruct Hsp as [Hsp Hlen].
  unfold words. simpl. rewrite Hh. simpl in Hsp. rewrite Hsp. simpl.
  replace (Z.to_nat (m - n)) with (S (Z.to_nat (m - (n + 1)))) by lia. simpl. f_equal.
  destruct r' as [|x r']; rewrite IH by (simpl in *; lia); [|done].
  rewrite take_words_nil. simpl. by rewrite take_nil.
Qed.

(** C37. [tokenize] answers the words of the line, the maximal runs without blanks, in order,
    up to the number of tokens it is given room for. *)
Theorem tokenize_words s maxTokens : tokenize s maxTokens = take (Z.to_nat maxTokens) (words s).
Proof. unfold tokenize. rewrite tokenize_loop_words by lia. by rewrite Z.sub_0_r. Qed.

(** The stages of a line: what lies between the bars, without the spaces that follow a bar. *)
Definition stages (line : list Z) : list (list Z) :=
  match pieces (Z.eqb 124) line with t :: ts => t :: map skip_spaces ts | [] => [] end.

Lemma skip_spaces_len s : (length (skip_spaces s) <= length s)%nat.
Proof. induction s as [|c s IH]; simpl; [lia|]. destruct (c =? 32); simpl; lia. Qed.

Lemma stages_skip p : stages (skip_spaces p) =
  match pieces (Z.eqb 124) p with t :: ts => skip_spaces t :: map skip_spaces ts | [] => [] end.
Proof.
  unfold stages. induction p as [|c p IH]; [done|]. cbn [skip_spaces].
  destruct (Z.eqb_spec c 32) as [->|Hc].
  - rewrite IH. cbn [pieces Z.eqb Pos.eqb]. by destruct (pieces_cons (Z.eqb 124) p) as (t & ts & ->).
  - cbn [pieces]. destruct (124 =? c); [done|]. destruct (pieces_cons (Z.eqb 124) p) as (t & ts & ->). simpl.
    by rewrite (proj2 (Z.eqb_neq c 32)).
Qed.

Lemma split_loop_stages fuel : ∀ p cur n m, (length p < fuel)%nat → n ≤ m →
  split_loop fuel p cur n m =
    match stages p with
    | t :: ts => if n + len ts <=? m then Some ((cur ++ t) :: ts) else None
    | [] => None
    end.
Proof.
  induction fuel as [|fuel IH]; intros p cur n m Hf Hn; [lia|]. cbn [split_loop].
  destruct p as [|c p].
  { unfold stages. cbn [pieces map length]. rewrite app_nil_r. destruct (Z.leb_spec (n + Z.of_nat 0) m); [done|lia]. }
  simpl in Hf. unfold stages. cbn [pieces]. rewrite (Z.eqb_sym 124 c).
  destruct (pieces_cons (Z.eqb 124) p) as (t & ts & E). rewrite E.
  destruct (Z.eqb_spec c 124).
  - cbn [map length]. destruct (Z.leb_spec m n).
    + match goal with |- context [?a <=? ?b] => destruct (Z.leb_spec a b); [lia|done] end.
    + pose proof (skip_spaces_len p). rewrite IH by lia. rewrite stages_skip, E. cbn [length].
      replace (n + 1 + len (map skip_spaces ts)) with (n + Z.of_nat (S (length (map skip_spaces ts)))) by lia.
      rewrite app_nil_r. by destruct (_ <=? m).
  - rewrite IH by lia. unfold stages. rewrite E. by rewrite <- app_assoc.
Qed.

Lemma splitPipeline_eq line maxStages :
  1 ≤ maxStages →
  splitPipeline line maxStages = (if len (stages line) <=? maxStages then Some (stages line) else None).
Proof.
  intros Hm. unfold splitPipeline. rewrite split_loop_stages by lia. unfold stages.
  destruct (pieces_cons (Z.eqb 124) line) as (t & ts & ->). cbn [length app].
  by replace (1 + len (map skip_spaces ts)) with (Z.of_nat (S (length (map skip_spaces ts)))) by lia.
Qed.

(** C38. [splitPipeline] answers the stages of the line, one more than it has bars, or refuses
    it when there are more than [maxStages]. *)
Theorem splitPipeline_stages line maxStages :
  1 ≤ maxStages →
  splitPipeline line maxStages = (if len (stages line) <=? maxStages then Some (stages line) else None).
Proof. apply splitPipeline_eq. Qed.

Lemma splitPipeline_stages_witness :
  splitPipeline (msg "ps | wc") MAX_PIPELINE = Some [msg "ps "; msg "wc"] ∧
  splitPipeline (msg "ps|wc|wc") MAX_PIPELINE = None.
Proof.
  split; rewrite splitPipeline_stages by (unfold MAX_PIPELINE; lia); reflexivity.
Defined.

Lemma skip_blanks_split s : ∃ u, s = u ++ skip_blanks s ∧ Forall (λ c, blank c = true) u.
Proof.
  induction s as [|c s (u & E & Hu)]; simpl; [by exists []|]. destruct (blank c) eqn:Ec.
  - exists (c :: u). split; [simpl; by rewrite <- E|by apply Forall_cons].
  - by exists [].
Qed.

Lemma trim_end_split s : ∃ u, s = trim_end s ++ u ∧ Forall (λ c, blank c = true) u.
Proof.
  destruct (skip_blanks_split (rev s)) as (u & E & Hu). exists (rev u). unfold trim_end. split.
  - by rewrite <- rev_app_distr, <- E, rev_involutive.
  - by apply Forall_rev.
Qed.

Lemma trim_end_last s l c : trim_end s = l ++ [c] → blank c = false.
Proof.
  unfold trim_end. intros E. apply (f_equal (@rev Z)) in E. rewrite rev_involutive, rev_app_distr in E.
  pose proof (skip_blanks_head (rev s)) as H. by rewrite E in H.
Qed.

(** [hasBackground] answers true exactly when the line, without its trailing blanks, ends
    in an ampersand, and leaves the line without it and without blanks at its end. *)
Theorem hasBackground_spec line :
  let '(bg, l) := hasBackground line in
  ∃ u v, Forall (λ c, blank c = true) (u ++ v) ∧ line = l ++ u ++ (if bg then [38] else []) ++ v ∧
    (∀ l' c, l = l' ++ [c] → blank c = false ∧ (bg = false → c ≠ 38)).
Proof.
  unfold hasBackground. destruct (trim_end_split line) as (v & E & Hv). pose proof (trim_end_last line) as Hlast.
  remember (rev (trim_end line)) as r eqn:Hr. apply (f_equal (@rev Z)) in Hr. rewrite rev_involutive in Hr.
  assert (Hno : match r with 38 :: _ => True | _ => ∃ u v, Forall (λ c, blank c = true) (u ++ v) ∧
    line = trim_end line ++ u ++ [] ++ v ∧ (∀ l' c, trim_end line = l' ++ [c] → blank c = false ∧ (false = false → c ≠ 38)) end).
  { assert (H : head r ≠ Some 38 → ∃ u v, Forall (λ c, blank c = true) (u ++ v) ∧
      line = trim_end line ++ u ++ [] ++ v ∧ (∀ l' c, trim_end line = l' ++ [c] → blank c = false ∧ (false = false → c ≠ 38))).
    { intros Hh. exists [], v. split_and!; [done|done|]. intros l' c El. split; [by eapply Hlast|].
      intros _ ->. apply Hh. replace r with (rev (trim_end line)) by (by rewrite <- Hr, rev_involutive).
      by rewrite El, rev_app_distr. }
    destruct r as [|c r]; [by apply H|]. destruct c as [|p|p]; try by apply H.
    repeat (destruct p as [p|p|]; try done; try by apply H). }
  destruct r as [|c r]; [exact Hno|]. destruct c as [|p|p]; try exact Hno.
  repeat (destruct p as [p|p|]; try exact Hno).
  clear Hno. simpl in Hr. destruct (trim_end_split (rev r)) as (u & Eu & Hu). exists u, v. split_and!.
  - by apply Forall_app_2.
  - rewrite E, <- Hr at 1. rewrite Eu at 1. by rewrite <- !app_assoc.
  - intros l' c El. split; [by eapply trim_end_last|done].
Qed.

(** ** What running a line does to the system

    [h] is the system: it answers a call knowing the calls made before it and their replies.
    [run] gives the calls of a program, in order, with the replies. *)

Section Runs.
Context (getCommandIndex : list Z → Z) (h : list (call * reply) → call → reply).

Fixpoint run {A} (past : list (call * reply)) (m : prog A) : list (call * reply) * A :=
  match m with
  | Ret a => (past, a)
  | Call c k => let r := h past c in run (past ++ [(c, r)]) (k r)
  end.

Lemma run_bind {A B} (m : prog A) (f : A → prog B) : ∀ past,
  run past (m ≫= f) = let '(p, a) := run past m in run p (f a).
Proof. induction m as [a|c k IH]; intros past; [done|]. apply IH. Qed.

(** The descriptors a call opens and closes, and the processes it starts, shows in the
    foreground, waits for and kills. *)
Definition opened (x : call * reply) : list Z :=
  match x.1 with
  | sys_reopen _ => if 0 <=? i32 (ret x.2) then [i32 (ret x.2)] else []
  | sys_pipe => if i64 (ret x.2) <? 0 then [] else [fd0 x.2; fd1 x.2]
  | _ => []
  end.
Definition closed (x : call * reply) : list Z := match x.1 with sys_close fd => [fd] | _ => [] end.
Definition spawned (x : call * reply) : list Z :=
  match x.1 with sys_create _ _ _ => if i32 (ret x.2) <? 0 then [] else [i16 (i32 (ret x.2))] | _ => [] end.
Definition foreground (x : call * reply) : list Z := match x.1 with sys_foreground p => [p] | _ => [] end.
Definition waited (x : call * reply) : list Z := match x.1 with sys_waitpid p => [p] | _ => [] end.
Definition killed (x : call * reply) : list Z := match x.1 with sys_kill p => [p] | _ => [] end.
Definition all {B} (f : call * reply → list B) (tr : list (call * reply)) : list B := concat (map f tr).

Lemma all_app {B} (f : call * reply → list B) t u : all f (t ++ u) = all f t ++ all f u.
Proof. unfold all. by rewrite map_app, concat_app. Qed.

(** The ledger of a trace. *)
Record ledger := mkLedger { L_opened : list Z; L_closed : list Z; L_spawned : list Z; L_fg : list Z; L_waited : list Z; L_killed : list Z }.
Definition book (tr : list (call * reply)) : ledger :=
  mkLedger (all opened tr) (all closed tr) (all spawned tr) (all foreground tr) (all waited tr) (all killed tr).
Definition add (a b : ledger) : ledger :=
  mkLedger (L_opened a ++ L_opened b) (L_closed a ++ L_closed b) (L_spawned a ++ L_spawned b)
    (L_fg a ++ L_fg b) (L_waited a ++ L_waited b) (L_killed a ++ L_killed b).

Lemma book_app t u : book (t ++ u) = add (book t) (book u).
Proof. unfold book, add. simpl. by rewrite !all_app. Qed.

(** A stage opens and closes nothing in the shell; the process it starts is its answer, and it
    goes to the foreground exactly when the line is not in the background. *)
Lemma runStage_run stage i o bg cl past :
  ∃ tr pid, run past (runStage getCommandIndex stage i o bg cl) = (past ++ tr, pid) ∧
    book tr = mkLedger [] [] (if pid <? 0 then [] else [i16 pid])
                (if bg || (pid <? 0) then [] else [i16 pid]) [] [].
Proof.
  unfold runStage. destruct (tokenize stage MAX_TOKENS) as [|t0 ts].
  { exists [], (-1). rewrite app_nil_r, orb_true_r. by split. }
  destruct (getCommandIndex t0 <? 0).
  { eexists [_; _; _], (-1). rewrite orb_true_r. cbn. rewrite <- !app_assoc. by split. }
  set (c := sys_create _ _ _). set (r := h past c).
  assert (E : run past (call1 c) = (past ++ [(c, r)], i32 (ret r))) by done.
  rewrite run_bind, E. destruct (i32 (ret r) <? 0) eqn:Hn.
  { eexists [_; _], (-1). rewrite orb_true_r. cbn. rewrite <- app_assoc. split; [done|]. unfold book, all. cbn.
    by rewrite Hn. }
  destruct bg.
  - eexists [_], (i32 (ret r)). split; [done|]. unfold book, all. cbn. by rewrite Hn.
  - eexists [_; _], (i32 (ret r)). cbn. rewrite <- app_assoc. split; [done|]. unfold book, all. cbn. by rewrite Hn.
Qed.

(** Weakest preconditions over the ledger. *)
Definition does {A} (m : prog A) (P : ledger → A → Prop) : Prop :=
  ∀ past, ∃ tr a, run past m = (past ++ tr, a) ∧ P (book tr) a.

Lemma does_ret {A} (a : A) (P : ledger → A → Prop) : P (book []) a → does (Ret a) P.
Proof. intros H past. exists [], a. by rewrite app_nil_r. Qed.

Lemma does_call {A} c (k : reply → prog A) P :
  (∀ r, does (k r) (λ L a, P (add (book [(c, r)]) L) a)) → does (Call c k) P.
Proof.
  intros H past. destruct (H (h past c) (past ++ [(c, h past c)])) as (tr & a & E & Ha).
  exists ((c, h past c) :: tr), a. split; [simpl; by rewrite E, <- app_assoc|].
  change ((c, h past c) :: tr) with ([(c, h past c)] ++ tr). by rewrite book_app.
Qed.

Lemma does_do {A} c (f : unit → prog A) P :
  (∀ r, does (f ()) (λ L a, P (add (book [(c, r)]) L) a)) → does (do_ c ≫= f) P.
Proof. exact (does_call c (λ _, f ()) P). Qed.

Lemma does_do_last c P : (∀ r, P (book [(c, r)]) ()) → does (do_ c) P.
Proof. intros H past. eexists [_], (). split; [reflexivity|apply H]. Qed.

Lemma does_assoc {A B C} (m : prog A) (g : A → prog B) (f : B → prog C) P :
  does (m ≫= λ a, g a ≫= f) P → does ((m ≫= g) ≫= f) P.
Proof.
  intros H past. destruct (H past) as (tr & a & E & Ha). exists tr, a. split; [|done]. rewrite <- E.
  rewrite !run_bind. destruct (run past m) as [p x]. by rewrite run_bind.
Qed.

Lemma does_when {A} (b : bool) m (f : unit → prog A) P :
  (if b then does (m ≫= f) P else does (f ()) P) → does (when b m ≫= f) P.
Proof. by destruct b. Qed.

Lemma does_when_last (b : bool) m P : (if b then does m P else P (book []) ()) → does (when b m) P.
Proof. destruct b; [done|]. apply does_ret. Qed.

Lemma does_stage {A} stage i o bg cl (f : Z → prog A) P :
  (∀ pid, does (f pid) (λ L a, P (add (mkLedger [] [] (if pid <? 0 then [] else [i16 pid])
               (if bg || (pid <? 0) then [] else [i16 pid]) [] []) L) a)) →
  does (runStage getCommandIndex stage i o bg cl ≫= f) P.
Proof.
  intros H past. destruct (runStage_run stage i o bg cl past) as (t1 & pid & E1 & B).
  destruct (H pid (past ++ t1)) as (t2 & a & E2 & Ha). exists (t1 ++ t2), a.
  rewrite run_bind, E1, E2, app_assoc, book_app, B. by split.
Qed.

(** What a line leaves behind. *)
Definition settled (bg : bool) (L : ledger) : Prop :=
  L_opened L ≡ₚ L_closed L ∧
  L_fg L = (if bg then [] else L_spawned L) ∧
  L_waited L = (if bg then [] else L_spawned L) ∧
  (L_killed L = [] ∨ L_killed L = L_spawned L).

Ltac walk1 := (cbv beta zeta; lazymatch goal with
  | |- does (do_ _ ≫= _) _ => apply does_do; intros ?
  | |- does (do_ _) _ => apply does_do_last; intros ?
  | |- does (runStage _ _ _ _ _ _ ≫= _) _ => apply does_stage; intros ?
  | |- does (when _ _ ≫= _) _ => apply does_when
  | |- does (when _ _) _ => apply does_when_last
  | |- does ((_ ≫= _) ≫= _) _ => apply does_assoc
  | |- does (if ?b then _ else _) _ => destruct b eqn:?; try discriminate
  | |- if ?b then _ else _ => destruct b eqn:?; try discriminate
  | |- does (Ret _) _ => apply does_ret
  | |- does (mret _) _ => apply does_ret
  end).
Ltac walk := repeat walk1.
(** The entry of each call, and sums of entries. *)
Notation entry o c s f w k := (mkLedger o c s f w k).
Lemma book_nil : book [] = entry [] [] [] [] [] []. Proof. done. Qed.
Lemma book_write fd t r : book [(sys_write fd t, r)] = entry [] [] [] [] [] []. Proof. done. Qed.
Lemma book_close fd r : book [(sys_close fd, r)] = entry [] [fd] [] [] [] []. Proof. done. Qed.
Lemma book_wait p r : book [(sys_waitpid p, r)] = entry [] [] [] [] [p] []. Proof. done. Qed.
Lemma book_kill p r : book [(sys_kill p, r)] = entry [] [] [] [] [] [p]. Proof. done. Qed.
Lemma book_reopen fd r : book [(sys_reopen fd, r)] = entry (if 0 <=? i32 (ret r) then [i32 (ret r)] else []) [] [] [] [] [].
Proof. unfold book, all. cbn. by rewrite app_nil_r. Qed.
Lemma book_pipe r : book [(sys_pipe, r)] = entry (if i64 (ret r) <? 0 then [] else [fd0 r; fd1 r]) [] [] [] [] [].
Proof. unfold book, all. cbn. by rewrite app_nil_r. Qed.
Lemma add_entry o c s f w k o' c' s' f' w' k' :
  add (entry o c s f w k) (entry o' c' s' f' w' k') = entry (o ++ o') (c ++ c') (s ++ s') (f ++ f') (w ++ w') (k ++ k').
Proof. done. Qed.
#[local] Hint Rewrite book_nil book_write book_close book_wait book_kill book_reopen book_pipe add_entry : ledger.

Ltac settle :=
  cbn [negb] in *; rewrite ?bool_neg_ltb, ?andb_true_r, ?andb_false_r in *; try discriminate;
  repeat match goal with
  | H : ?b = true |- context [?b] => rewrite H
  | H : ?b = false |- context [?b] => rewrite H
  end; cbn [orb negb andb] in *; try discriminate;
  autorewrite with ledger; rewrite ?bool_neg_ltb;
  repeat match goal with
  | H : ?b = true |- context [?b] => rewrite H
  | H : ?b = false |- context [?b] => rewrite H
  end;
  unfold settled; cbn [app negb L_opened L_closed L_spawned L_fg L_waited L_killed];
  split_and!;
  lazymatch goal with
  | |- _ ≡ₚ _ => first [reflexivity | apply (Permutation_cons_append [_; _])]
  | |- _ ∨ _ => first [left; reflexivity | right; reflexivity]
  | |- _ => first [reflexivity | idtac]
  end.

Lemma settled_single s cs fs bg :
  does (run_single getCommandIndex s cs fs bg)
    (λ L _, settled bg (add (mkLedger (if 0 <=? cs then [cs] else []) [] [] [] [] []) L)).
Proof. unfold run_single, putChar. destruct bg; walk; settle. Qed.

Lemma settled_pipeline s1 s2 cs fs bg :
  does (run_pipeline getCommandIndex s1 s2 cs fs bg)
    (λ L _, settled bg (add (mkLedger (if 0 <=? cs then [cs] else []) [] [] [] [] []) L)).
Proof.
  unfold run_pipeline, putChar. apply does_call. intros r. destruct (i64 (ret r) <? 0) eqn:Hp; destruct bg.
  all: walk; settle.
Qed.

Lemma settled_runLine line : does (runLine getCommandIndex line) (λ L _, settled (hasBackground line).1 L).
Proof.
  unfold runLine. destruct (hasBackground line) as [bg l]. cbn [fst].
  rewrite splitPipeline_eq by (unfold MAX_PIPELINE; lia). unfold MAX_PIPELINE.
  destruct (Z.leb_spec (len (stages l)) 2) as [Hn|_].
  2: { apply does_do_last. intros r. rewrite book_write. destruct bg; by repeat split; try left. }
  apply does_call. intros r. cbv zeta. set (cs := i32 (ret r)). rewrite book_reopen. fold cs. cbn [ret].
  assert (Hpos : stages l ≠ []).
  { unfold stages. by destruct (pieces_cons (Z.eqb 124) l) as (t & ts & ->). }
  destruct (stages l) as [|s1 [|s2 [|s3 st]]]; [done|apply settled_single|apply settled_pipeline|].
  cbn [length] in Hn. lia.
Qed.


End Runs.

End Shell.
