(* ===== verification/Userland.v ===== *)
(** * Userland programs ([Userland/SampleCodeModule/])

    The commands of the shell are processes that talk to the system by system calls.  A program
    is a tree: an answer, or a call and what to do with the reply.  Whatever the system is, it
    answers a call from a state of its own; a run is the list of the calls. *)

From stdpp Require Import strings.
From S2P Require Import Prelude ProcTable CStandard Shell.
Import CStandard.
#[local] Open Scope Z_scope.

Module Userland.

Notation STDIN := Shell.STDIN.
Notation STDOUT := Shell.STDOUT.
Notation STDERR := Shell.STDERR.
Notation msg := Shell.msg.
(** A text and the end of the line. *)
Definition line (s : string) : list Z := msg s ++ [10].

(** The functions that start a process: those the programs pass to [sys_create_process] and
    those of the table of commands. *)
Inductive ProcessEntry :=
  | producerEntry | consumerEntry | my_process_inc | zero_to_max | endless_loop
  | helpCommand | clearCommand | echoCommand | datetimeCommand | registersCommand | lsCommand | musicCommand
  | zeroCommand | invalidCommand | psCommand | memCommand | loopCommand | killCommand | niceCommand | blockCommand
  | catCommand | wcCommand | filterCommand | mvarCommand
  | test_mm_command | test_proc_command | test_prio_command | test_sync_command.

(** The variables that the processes share: a read or a write of one is a step of its own. *)
Inductive variable := slotValue | rngCurrent | global | max_value.
#[global] Instance variable_eq_dec : EqDecision variable.
Proof. solve_decision. Defined.

(** [sys_exit] does not return and is no call of the list.  [peek] and [poke] are the accesses to
    the memory that [sys_malloc] gives. *)
Inductive call :=
  | sys_read (fd count : Z)
  | sys_write (fd : Z) (text : list Z)
  | sys_sleep (millis : Z)
  | sys_play_sound (frequency duration_ms : Z)
  | sys_date
  | sys_time
  | sys_kernel_time
  | sys_print_registers
  | sys_malloc (size : Z)
  | sys_free (ptr : Z)
  | sys_mem_status
  | sys_getpid
  | sys_create_process (entry : ProcessEntry) (argv : list (list Z)) (name : list Z)
  | sys_kill (pid : Z)
  | sys_nice (pid prio : Z)
  | sys_block (pid : Z)
  | sys_unblock (pid : Z)
  | sys_yield
  | sys_waitpid (pid : Z)
  | sys_ps (max : Z)
  | sys_get_max_processes
  | sys_get_processes_count
  | sys_sem_open (name : list Z) (initialValue : Z)
  | sys_sem_close (name : list Z)
  | sys_sem_wait (name : list Z)
  | sys_sem_post (name : list Z)
  | sys_foreground (pid : Z)
  | peek (address : Z)
  | poke (address v : Z)
  | load (x : variable)
  | store (x : variable) (v : Z).

(** What comes back: the value returned, the numbers or bytes stored through the pointers,
    and the entries of [sys_ps]. *)
Record reply := mkReply { ret : Z; data : list Z; infos : list ProcTable.ProcessInfo }.

(** [Exit] is [sys_exit]; [Later] is a loop that goes on; [Trap n] is the exception [n] of the
    processor, [Undefined] a read past the end of an array. *)
Inductive prog (A : Type) :=
  | Ret (a : A)
  | Call (c : call) (k : reply → prog A)
  | Exit
  | Later
  | Trap (exception : Z)
  | Undefined.
Arguments Ret {A} a.
Arguments Call {A} c k.
Arguments Exit {A}.
Arguments Later {A}.
Arguments Trap {A} exception.
Arguments Undefined {A}.

Fixpoint pbind {A B} (m : prog A) (f : A → prog B) : prog B :=
  match m with
  | Ret a => f a
  | Call c k => Call c (λ r, pbind (k r) f)
  | Exit => Exit
  | Later => Later
  | Trap n => Trap n
  | Undefined => Undefined
  end.
#[global] Instance prog_ret : MRet prog := λ A a, Ret a.
#[global] Instance prog_bind : MBind prog := λ A B f m, pbind m f.

Definition ask (c : call) : prog Z := Call c (λ r, Ret (ret r)).
Definition do_ (c : call) : prog unit := Call c (λ _, Ret ()).

(** ** Input and output *)

(** The character, or the answer of the read when there is none. *)
Definition getc (fd : Z) : prog Z :=
  Call (sys_read fd 1) (λ r,
    let bytesRead := i32 (ret r) in
    if bytesRead <=? 0 then Ret bytesRead else Ret (i8 (default 0 (head (data r))))).

Definition writeStr (fd : Z) (s : list Z) : prog unit := do_ (sys_write fd s).
Definition putc (c fd : Z) : prog unit := do_ (sys_write fd [c]).
Definition putChar (c : Z) : prog unit := putc c STDOUT.
Definition puts (string : list Z) : prog unit := _ ← writeStr STDOUT string; writeStr STDOUT [10].

(** [vprintf] writes its characters one by one. *)
Fixpoint putAll (s : list Z) : prog unit :=
  match s with [] => mret () | c :: s => _ ← putChar c; putAll s end.
Definition printf (format : list Z) (args : list arg) : prog unit :=
  match vprintf format args with Some s => putAll s | None => Undefined end.

(** ** Random numbers *)

Definition setRngSeed (seed : Z) : prog unit := do_ (store rngCurrent (CStandard.setRngSeed seed)).
Definition randomNext : prog Z :=
  cur ← ask (load rngCurrent);
  let '(out, next) := CStandard.randomNext cur in
  _ ← do_ (store rngCurrent next);
  mret out.
(** [randomRange] calls [randomNext] once. *)
Definition randomRange (min max : Z) : prog Z :=
  cur ← ask (load rngCurrent);
  let '(out, next) := CStandard.randomRange min max cur in
  _ ← do_ (store rngCurrent next);
  mret out.

(** ** Runs *)

Inductive outcome (A : Type) := Returned (a : A) | Exited | Ongoing | Trapped (exception : Z) | Undef.
Arguments Returned {A} a.
Arguments Exited {A}.
Arguments Ongoing {A}.
Arguments Trapped {A} exception.
Arguments Undef {A}.

Section Runs.
Context {W : Type} (answer : W → call → reply * W).

Fixpoint run {A} (w : W) (m : prog A) : list call * outcome A * W :=
  match m with
  | Ret a => ([], Returned a, w)
  | Call c k =>
    let '(r, w) := answer w c in
    let '(tr, o, w) := run w (k r) in (c :: tr, o, w)
  | Exit => ([], Exited, w)
  | Later => ([], Ongoing, w)
  | Trap n => ([], Trapped n, w)
  | Undefined => ([], Undef, w)
  end.

Lemma runs_bind {A B} (m : prog A) (f : A → prog B) : ∀ w,
  run w (m ≫= f) =
    match run w m with
    | (tr, Returned a, w') => let '(tr', o, w'') := run w' (f a) in (tr ++ tr', o, w'')
    | (tr, Exited, w') => (tr, Exited, w')
    | (tr, Ongoing, w') => (tr, Ongoing, w')
    | (tr, Trapped n, w') => (tr, Trapped n, w')
    | (tr, Undef, w') => (tr, Undef, w')
    end.
Proof.
  unfold mbind, prog_bind. induction m as [a|c k IH| | | |]; intros w; cbn [pbind run].
  - by destruct (run w (f a)) as [[tr o] w'].
  - destruct (answer w c) as [r w1]. rewrite IH. destruct (run w1 (k r)) as [[tr [a| | | |]] w2]; try done.
    by destruct (run w2 (f a)) as [[tr' o] w'].
  - done.
  - done.
  - done.
  - done.
Qed.

(** The bytes written to a descriptor. *)
Definition written (fd : Z) (tr : list call) : list Z :=
  concat (omap (λ c, match c with sys_write fd' s => if fd' =? fd then Some s else None | _ => None end) tr).

Lemma written_app fd tr1 tr2 : written fd (tr1 ++ tr2) = written fd tr1 ++ written fd tr2.
Proof. unfold written. by rewrite omap_app, concat_app. Qed.
Lemma written_cons fd c tr : written fd (c :: tr) = written fd [c] ++ written fd tr.
Proof. apply (written_app fd [c]). Qed.
Lemma written_here fd s : written fd [sys_write fd s] = s.
Proof. unfold written. cbn [omap list_omap]. rewrite Z.eqb_refl. cbn [concat]. by rewrite app_nil_r. Qed.
Lemma written_other fd fd' s : fd' ≠ fd → written fd [sys_write fd' s] = [].
Proof. intros H. unfold written. cbn [omap list_omap]. by rewrite (proj2 (Z.eqb_neq fd' fd)). Qed.

(** Writes leave the state of the rest of the system alone. *)
Definition writes_pass : Prop := ∀ w fd s, snd (answer w (sys_write fd s)) = w.

Lemma run_do w c : run w (do_ c) = ([c], Returned (), snd (answer w c)).
Proof. cbn. by destruct (answer w c). Qed.

Lemma run_putAll s : writes_pass → ∀ w,
  ∃ tr, run w (putAll s) = (tr, Returned (), w) ∧ written STDOUT tr = s.
Proof.
  intros Hw. induction s as [|c s IH]; intros w; cbn [putAll]; [by exists []|].
  rewrite runs_bind. unfold putChar, putc. rewrite run_do, Hw. destruct (IH w) as (tr & -> & E).
  exists (sys_write STDOUT [c] :: tr). split; [done|]. by rewrite written_cons, written_here, E.
Qed.

Lemma run_printf format args s : writes_pass → vprintf format args = Some s → ∀ w,
  ∃ tr, run w (printf format args) = (tr, Returned (), w) ∧ written STDOUT tr = s.
Proof. intros Hw E w. unfold printf. rewrite E. by apply run_putAll. Qed.

(** ** Programs that print nothing and do not stop

    [m] comes to an answer and a state that satisfy [Q], or goes on for ever, in a state that
    satisfies [I]; it writes nothing to the standard output. *)
Definition goes {A} (I : W → Prop) (Q : A → W → Prop) (m : prog A) (w : W) : Prop :=
  ∃ tr o w', run w m = (tr, o, w') ∧ written STDOUT tr = [] ∧ ((o = Ongoing ∧ I w') ∨ ∃ a, o = Returned a ∧ Q a w').
(** It comes to an answer. *)
Definition returns {A} (Q : A → W → Prop) : prog A → W → Prop := goes (λ _, False) Q.

Lemma goes_ret {A} I (Q : A → W → Prop) a w : Q a w → goes I Q (mret a) w.
Proof. intros H. exists [], (Returned a), w. split; [done|]. split; [done|]. right. by exists a. Qed.
Lemma goes_later {A} (I : W → Prop) (Q : A → W → Prop) w : I w → goes I Q Later w.
Proof. intros H. exists [], Ongoing, w. split; [done|]. split; [done|]. by left. Qed.
Lemma goes_call {A} I (Q : A → W → Prop) c k w : written STDOUT [c] = [] →
  goes I Q (k (answer w c).1) (answer w c).2 → goes I Q (Call c k) w.
Proof.
  intros Hc (tr & o & w' & E & Ew & H). unfold goes. cbn [run]. destruct (answer w c) as [r w1]. cbn [fst snd] in E. rewrite E.
  exists (c :: tr), o, w'. split; [done|]. split; [|done]. by rewrite written_cons, Hc, Ew.
Qed.
Lemma goes_bind {A B} I (R : A → W → Prop) (Q : B → W → Prop) m f w : goes I R m w → (∀ a w', R a w' → goes I Q (f a) w') →
  goes I Q (m ≫= f) w.
Proof.
  intros (tr & o & w' & E & Ew & [[-> Hi]|(a & -> & Ha)]) Hf; unfold goes; rewrite runs_bind, E.
  - exists tr, Ongoing, w'. split; [done|]. split; [done|]. by left.
  - destruct (Hf a w' Ha) as (tr2 & o2 & w2 & -> & Ew2 & H). exists (tr ++ tr2), o2, w2. split; [done|]. by rewrite written_app, Ew, Ew2.
Qed.
Lemma goes_mono {A} (I I' : W → Prop) (Q Q' : A → W → Prop) m w : (∀ w, I w → I' w) → (∀ a w, Q a w → Q' a w) → goes I Q m w → goes I' Q' m w.
Proof.
  intros HI HQ (tr & o & w' & E & Ew & H). exists tr, o, w'. split; [done|]. split; [done|].
  destruct H as [[-> H]|(a & -> & H)]; [left; by auto|right; exists a; by auto].
Qed.
Lemma goes_after {A B} I (R : A → W → Prop) (Q : B → W → Prop) m f w : returns R m w → (∀ a w', R a w' → goes I Q (f a) w') →
  goes I Q (m ≫= f) w.
Proof. intros Hm. apply goes_bind. by apply (goes_mono (λ _, False) I R R). Qed.

End Runs.

(** A system whose standard input brings these blocks, one per read, and then the end of the
    file; other calls answer 0. *)
Definition console (w : list (list Z)) (c : call) : reply * list (list Z) :=
  match c, w with
  | sys_read _ _, b :: w => (mkReply (len b) b [], w)
  | _, _ => (mkReply 0 [] [], w)
  end.

Lemma console_passes : writes_pass console.
Proof. by intros [|b w] fd s. Qed.

End Userland.
