(* ===== verification/Music.v ===== *)
(** * Songs for the speaker and points ([Userland/SampleCodeModule/music.c], [point.c])

    A duration is a [float], a number of quarter notes.  All those of the songs are eighths, so
    the products with the length of a quarter note are exact; the model counts eighths. *)

From Stdlib Require Import SpecFloat.
From S2P Require Import Prelude CStandard Userland Devices.
Import Userland.

Module Music.

(** ** Notes *)

Inductive Notes := C | C_SHARP | D | D_SHARP | E | F | F_SHARP | G | G_SHARP | A | A_SHARP | B.

Definition note_index (n : Notes) : nat :=
  match n with
  | C => 0 | C_SHARP => 1 | D => 2 | D_SHARP => 3 | E => 4 | F => 5 | F_SHARP => 6 | G => 7 | G_SHARP => 8 | A => 9
  | A_SHARP => 10 | B => 11
  end.

Definition noteFrequencies : list (list Z) := [
  [16; 17; 18; 19; 21; 22; 23; 25; 26; 28; 29; 31];
  [33; 35; 37; 39; 41; 44; 46; 49; 52; 55; 58; 62];
  [65; 69; 73; 78; 82; 87; 93; 98; 104; 110; 117; 123];
  [131; 139; 147; 156; 165; 175; 185; 196; 208; 220; 233; 247];
  [262; 277; 294; 311; 330; 349; 370; 392; 415; 440; 466; 494];
  [523; 554; 587; 622; 659; 698; 740; 784; 831; 880; 932; 988];
  [1047; 1109; 1175; 1245; 1319; 1397; 1480; 1568; 1661; 1760; 1865; 1976]].

Definition frequency_of (octave : nat) (n : Notes) : Z := default 0 (row ← noteFrequencies !! octave; row !! note_index n).

Record Note := mkNote { frequency : Z; eighths : Z }.
Definition MAX_SONG_LENGTH : Z := 512.
Record Song := mkSong { length_ : Z; bpm : Z; quarter_note : Z; notes : list Note }.

(** The notes that are set; the rest of the array is as before. *)
Definition init_song (ns : list Note) (length bpm : Z) : Song :=
  mkSong length bpm (Z.quot 60000 bpm) (take (Z.to_nat length) ns).

Definition note (octave : nat) (n : Notes) (eighths : Z) : Note := mkNote (frequency_of octave n) eighths.

Definition rickroll_notes : list Note := [
   note 4 C 12; note 4 D 12; note 3 G 8; note 4 D 12; note 4 E 12; note 4 G 1;
   note 4 F 1; note 4 E 4; note 4 C 12; note 4 D 12; note 3 G 24].

Definition coffin_intro_notes : list Note := [
   note 4 C 4; note 4 C 4; note 4 C 4; note 4 C 4; note 4 E 4; note 4 E 4;
   note 4 E 4; note 4 E 4; note 4 D 4; note 4 D 4; note 4 D 4; note 4 D 4;
   note 4 G 4; note 4 G 4; note 4 G 4; note 4 G 4; note 4 A 4; note 4 A 4;
   note 4 A 4; note 4 A 4; note 4 A 4; note 4 A 4; note 4 A 4; note 4 A 4;
   note 4 A 4; note 4 A 4; note 4 A 4; note 4 A 4; note 4 D 4; note 4 C 4;
   note 3 B 4; note 3 G 4].

Definition coffin_chorus_notes : list Note := [
   note 3 A 8; note 3 A 4; note 4 E 4; note 4 D 8; note 4 C 8; note 3 B 8;
   note 3 B 4; note 3 B 4; note 4 D 8; note 4 C 4; note 3 B 4; note 3 A 8;
   note 3 A 4; note 5 C 4; note 4 B 4; note 5 C 4; note 4 B 4; note 5 C 4;
   note 3 A 8; note 3 A 4; note 5 C 4; note 4 B 4; note 5 C 4; note 4 B 4;
   note 5 C 4].

(** The statics: zero until [init_music] sets them. *)
Record Songs := mkSongs { rickroll_song : Song; coffin_intro : Song; coffin_chorus : Song }.
Definition zero_song : Song := mkSong 0 0 0 [].
Definition bss_songs : Songs := mkSongs zero_song zero_song zero_song.
Definition init_music : Songs :=
  mkSongs (init_song rickroll_notes (len rickroll_notes) 130) (init_song coffin_intro_notes (len coffin_intro_notes) 100)
    (init_song coffin_chorus_notes (len coffin_chorus_notes) 100).

Definition get_rickroll_song (s : Songs) : Song := rickroll_song s.
Definition get_coffin_intro (s : Songs) : Song := coffin_intro s.
Definition get_coffin_chorus (s : Songs) : Song := coffin_chorus s.

(** [quarter_note * duration], as an integer argument. *)
Definition millis (q : Z) (n : Note) : Z := q * eighths n / 8.

Fixpoint play_notes (ns : list Note) (q finger_delay : Z) : prog unit :=
  match ns with
  | [] => mret ()
  | n :: ns =>
    _ ← do_ (sys_play_sound (frequency n) (millis q n));
    _ ← do_ (sys_sleep ((q * eighths n + 8 * finger_delay) / 8));
    play_notes ns q finger_delay
  end.
Definition play_song (song : Song) : prog unit :=
  play_notes (take (Z.to_nat (length_ song)) (notes song)) (quarter_note song) (Z.quot (quarter_note song) 32).

(** *** [coffin_dance], the same tune note by note *)

Definition times (n : nat) (p : prog unit) : prog unit := Nat.iter n (λ rest, _ ← p; rest) (mret ()).
Definition beat (frequency duration finger_delay : Z) : prog unit :=
  _ ← do_ (sys_play_sound frequency duration); _ ← do_ (sys_sleep duration); do_ (sys_sleep finger_delay).

Definition coffin_dance : prog unit :=
  let bpm := 100 in
  let quarter_note := Z.quot 60000 bpm in
  let eighth_note := Z.quot quarter_note 2 in
  let finger_delay := Z.quot quarter_note 32 in
  let eighth o n := beat (frequency_of o n) eighth_note finger_delay in
  let quarter o n := beat (frequency_of o n) quarter_note finger_delay in
  _ ← times 4 (eighth 4%nat C);
  _ ← times 4 (eighth 4%nat E);
  _ ← times 4 (eighth 4%nat D);
  _ ← times 4 (eighth 4%nat G);
  _ ← times 8 (eighth 4%nat A);
  _ ← times 4 (eighth 4%nat A);
  _ ← eighth 4%nat D; _ ← eighth 4%nat C; _ ← eighth 3%nat B; _ ← eighth 3%nat G;
  _ ← quarter 3%nat A; _ ← eighth 3%nat A; _ ← eighth 4%nat E; _ ← quarter 4%nat D; _ ← quarter 4%nat C;
  _ ← quarter 3%nat B; _ ← eighth 3%nat B; _ ← eighth 3%nat B; _ ← quarter 4%nat D; _ ← eighth 4%nat C; _ ← eighth 3%nat B;
  times 2 (_ ← quarter 3%nat A; _ ← eighth 3%nat A; _ ← eighth 5%nat C; _ ← eighth 4%nat B; _ ← eighth 5%nat C;
           _ ← eighth 4%nat B; eighth 5%nat C).

(** ** What is played *)

(** The calls for a list of notes: each sounds for its duration, and the process sleeps a
    little longer. *)
Definition score (ns : list Note) (q finger_delay : Z) : list call :=
  concat (map (λ n, [sys_play_sound (frequency n) (millis q n); sys_sleep (millis q n + finger_delay)]) ns).

Lemma play_notes_score {W} (answer : W → call → reply * W) q fd : ∀ ns w,
  ∃ w', run answer w (play_notes ns q fd) = (score ns q fd, Returned (), w').
Proof.
  induction ns as [|n ns IH]; intros w; [by exists w|]. cbn [play_notes]. rewrite runs_bind, run_do. cbn iota.
  rewrite runs_bind, run_do. cbn iota. destruct (IH (snd (answer (snd (answer w (sys_play_sound (frequency n) (millis q n))))
    (sys_sleep ((q * eighths n + 8 * fd) / 8))))) as [w' E]. rewrite E. exists w'. cbn [score map concat app].
  unfold millis at 3. replace (q * eighths n + 8 * fd) with (q * eighths n + fd * 8) by lia. by rewrite Z.div_add.
Qed.

(** A note that the speaker can play: its divisor fits in the two bytes of the timer, and the
    sound is over when the process wakes up. *)
Definition playable (q fd : Z) (n : Note) : bool :=
  (0 <? frequency n) && (Devices.Sound.PIT_FREQUENCY / frequency n <? 2 ^ 16) && (0 <? millis q n) && (millis q n <=? millis q n + fd).

(** [play_song] plays every note of the song, once and in order, each for its duration and
    followed by a sleep of the duration and the delay of the finger; of the three songs that
    [init_music] sets every note is one the speaker can play, and fits the array; before
    [init_music], nothing is played. *)
Theorem songs_play {W} (answer : W → call → reply * W) w s :
  (∃ w', run answer w (play_song s) =
    (score (take (Z.to_nat (length_ s)) (notes s)) (quarter_note s) (Z.quot (quarter_note s) 32), Returned (), w')) ∧
  (s ∈ [rickroll_song init_music; coffin_intro init_music; coffin_chorus init_music] →
    len (notes s) = length_ s ∧ length_ s ≤ MAX_SONG_LENGTH ∧
    Forall (λ n, playable (quarter_note s) (Z.quot (quarter_note s) 32) n = true) (notes s)) ∧
  run answer w (play_song zero_song) = ([], Returned (), w).
Proof.
  split; [apply play_notes_score|]. split; [|done].
  intros Hs. assert (H : (len (notes s) =? length_ s) && (length_ s <=? MAX_SONG_LENGTH) &&
    forallb (playable (quarter_note s) (Z.quot (quarter_note s) 32)) (notes s) = true).
  { rewrite !elem_of_cons in Hs. destruct Hs as [->|[->|[->|Hs]]]; [reflexivity..|]. by apply elem_of_nil in Hs. }
  rewrite !andb_true_iff in H. destruct H as [[H1%Z.eqb_eq H2%Z.leb_le] H3]. split; [done|]. split; [done|].
  rewrite forallb_forall in H3. apply Forall_forall. intros n Hn. by apply H3.
Qed.

Lemma songs_play_witness : len (notes (rickroll_song init_music)) = 11.
Proof.
  destruct (songs_play (W := unit) (λ w c, (mkReply 0 [] [], w)) () (rickroll_song init_music)) as (_ & H & _).
  destruct H as (E & _); [set_solver|]. rewrite E. reflexivity.
Defined.

End Music.

(** ** [point.c]

    The coordinates are [int64_t]; [pointScale], on floating-point numbers, is left out. *)

Module Point.

Record point2D := mkPoint { x : Z; y : Z }.
Definition point (x y : Z) : point2D := mkPoint x y.
Definition pointAdd (p1 p2 : point2D) : point2D := point (i64 (x p1 + x p2)) (i64 (y p1 + y p2)).
Definition pointSub (p1 p2 : point2D) : point2D := point (i64 (x p1 - x p2)) (i64 (y p1 - y p2)).

(** A [double] is a [spec_float] of 53 bits and exponents up to 1024, rounded to the nearest.  The
    conversion back drops the fraction; it is undefined for a number that no [int64_t] is. *)
Definition to_double (n : Z) : spec_float := binary_normalize 53 1024 n 0 false.
Definition to_int64 (f : spec_float) : option Z :=
  match f with
  | S754_zero _ => Some 0
  | S754_finite s m e =>
    let a := if 0 <=? e then Z.pos m * 2 ^ e else Z.pos m / 2 ^ (- e) in
    let z := if s then - a else a in
    if (- 2 ^ 63 <=? z) && (z <? 2 ^ 63) then Some z else None
  | _ => None
  end.
Definition pointScale (p : point2D) (scalar : spec_float) : option point2D :=
  x' ← to_int64 (SFmul 53 1024 (to_double (x p)) scalar);
  y' ← to_int64 (SFmul 53 1024 (to_double (y p)) scalar);
  Some (point x' y').

(** Halving drops the fraction on both sides of zero; large coordinates lose their low bits. *)
Lemma pointScale_examples :
  let half := S754_finite false 1 (-1) in
  pointScale (point 7 (-7)) half = Some (point 3 (-3)) ∧
  pointScale (point (2 ^ 53 + 1) 5) (to_double 1) = Some (point (2 ^ 53) 5) ∧
  pointScale (point (2 ^ 62) 0) (to_double 2) = None.
Proof. vm_compute. done. Qed.

Definition squareMagnitude (p : point2D) : Z := i64 (i64 (x p * x p) + i64 (y p * y p)).
Definition squareDistance (p1 p2 : point2D) : Z :=
  let dx := i64 (x p1 - x p2) in
  let dy := i64 (y p1 - y p2) in
  i64 (i64 (dx * dx) + i64 (dy * dy)).
Definition pointEquals (p1 p2 : point2D) : bool := (x p1 =? x p2) && (y p1 =? y p2).
Definition pointClose (p1 p2 : point2D) (sqrThreshold : Z) : bool := squareDistance p1 p2 <? sqrThreshold.

(** The distance is the magnitude of the difference, and is zero only from a point to itself,
    as long as the products fit. *)
Lemma squareDistance_zero p1 p2 : 0 ≤ x p1 < 2 ^ 31 → 0 ≤ y p1 < 2 ^ 31 → 0 ≤ x p2 < 2 ^ 31 → 0 ≤ y p2 < 2 ^ 31 →
  squareDistance p1 p2 = squareMagnitude (pointSub p1 p2) ∧ (squareDistance p1 p2 = 0 ↔ pointEquals p1 p2 = true).
Proof.
  intros H1 H2 H3 H4. split; [done|]. unfold squareDistance, pointEquals. set (dx := x p1 - x p2). set (dy := y p1 - y p2).
  assert (- 2 ^ 31 < dx < 2 ^ 31 ∧ - 2 ^ 31 < dy < 2 ^ 31) as [Dx Dy] by lia.
  assert (Hs : ∀ z, - 2 ^ 63 ≤ z < 2 ^ 63 → i64 z = z) by (intros z Hz; unfold i64; apply swrap_small; lia).
  rewrite (Hs dx), (Hs dy) by lia. assert (0 ≤ dx * dx ≤ 2 ^ 31 * 2 ^ 31 - 2 ^ 31 ∧ 0 ≤ dy * dy ≤ 2 ^ 31 * 2 ^ 31 - 2 ^ 31) as [Qx Qy].
  { split; nia. }
  rewrite (Hs (dx * dx)), (Hs (dy * dy)), Hs by lia. rewrite andb_true_iff, !Z.eqb_eq. split; [|intros [? ?]; assert (dx = 0) by lia; assert (dy = 0) by lia; nia].
  intros E. assert (dx = 0) by nia. assert (dy = 0) by nia. lia.
Qed.

End Point.
