(* ===== verification/Threads.v ===== *)
(** * Processes that share semaphores and variables

    The programs of several processes run interleaved: one call at a time, in any order.  A
    named semaphore has a value and a count of the processes that opened it
    ([Semaphore.SharedSemaphores] is the kernel's side of it): a wait goes through only when
    the value is positive. *)

From stdpp Require Import relations.
From S2P Require Import Prelude CStandard Shell Userland.
Import Userland.
#[local] Open Scope Z_scope.

Module Threads.

(** ** The shared state *)

(** The value and the references of a name that is open. *)
Record shared := mkShared { sems : list Z → option (Z * Z); vars : variable → Z }.

Definition set_sem (n : list Z) (v : option (Z * Z)) (sh : shared) : shared :=
  mkShared (λ x, if bool_decide (x = n) then v else sems sh x) (vars sh).
Definition set_var (x : variable) (v : Z) (sh : shared) : shared :=
  mkShared (sems sh) (λ y, if bool_decide (y = x) then v else vars sh y).

(** The calls that touch it. *)
Definition touches (c : call) : bool :=
  match c with
  | sys_sem_open _ _ | sys_sem_close _ | sys_sem_wait _ | sys_sem_post _ | load _ | store _ _ => true
  | _ => false
  end.

(** A call that may go through, with its reply; the calls that touch nothing answer anything. *)
Inductive exec : call → shared → reply → shared → Prop :=
  | exec_wait n v refs sh q : sems sh n = Some (v, refs) → 0 < v → ret q = 0 →
      exec (sys_sem_wait n) sh q (set_sem n (Some (v - 1, refs)) sh)
  | exec_wait_closed n sh q : sems sh n = None → ret q = -1 → exec (sys_sem_wait n) sh q sh
  | exec_post n v refs sh q : sems sh n = Some (v, refs) → ret q = 0 →
      exec (sys_sem_post n) sh q (set_sem n (Some (v + 1, refs)) sh)
  | exec_post_closed n sh q : sems sh n = None → ret q = -1 → exec (sys_sem_post n) sh q sh
  | exec_open n i sh q : sems sh n = None → ret q = 0 → exec (sys_sem_open n i) sh q (set_sem n (Some (i, 1)) sh)
  | exec_open_again n i v refs sh q : sems sh n = Some (v, refs) → ret q = 0 →
      exec (sys_sem_open n i) sh q (set_sem n (Some (v, refs + 1)) sh)
  | exec_open_full n i sh q : sems sh n = None → ret q = -1 → exec (sys_sem_open n i) sh q sh
  | exec_close n v refs sh q : sems sh n = Some (v, refs) → ret q = 0 →
      exec (sys_sem_close n) sh q (set_sem n (if refs - 1 <=? 0 then None else Some (v, refs - 1)) sh)
  | exec_close_closed n sh q : sems sh n = None → ret q = -1 → exec (sys_sem_close n) sh q sh
  | exec_load x sh q : ret q = vars sh x → exec (load x) sh q sh
  | exec_store x v sh q : exec (store x v) sh q (set_var x v sh)
  | exec_other c sh q : touches c = false → exec c sh q sh.

(** ** Interleaving *)

(** The processes, and the calls made so far with their answers. *)
Record sys := mkSys { sh : shared; threads : list (prog unit); trace : list (call * Z) }.

Inductive step : sys → sys → Prop :=
  | step_thread s i c k q sh' : threads s !! i = Some (Call c k) → exec c (sh s) q sh' →
      step s (mkSys sh' (<[i := k q]> (threads s)) (trace s ++ [(c, ret q)])).

Definition ended (p : prog unit) : bool := match p with Call _ _ => false | _ => true end.

(** ** Programs that make only some calls *)

(** [m] makes only calls that satisfy [ok], and answers what satisfies [Q]. *)
Inductive only {A} (ok : call → bool) (Q : A → Prop) : prog A → Prop :=
  | only_ret a : Q a → only ok Q (Ret a)
  | only_call c k : ok c = true → (∀ r, only ok Q (k r)) → only ok Q (Call c k)
  | only_exit : only ok Q Exit
  | only_later : only ok Q Later
  | only_trap n : only ok Q (Trap n)
  | only_undefined : only ok Q Undefined.

(** A program on its way to one that satisfies [T], by such calls. *)
Inductive toward (ok : call → bool) (T : prog unit → Prop) : prog unit → Prop :=
  | toward_here p : T p → toward ok T p
  | toward_call c k : ok c = true → (∀ r, toward ok T (k r)) → toward ok T (Call c k)
  | toward_end p : ended p = true → toward ok T p.

Lemma toward_bind {A} ok T Q (m : prog A) (f : A → prog unit) : only ok Q m → (∀ a, Q a → toward ok T (f a)) →
  toward ok T (m ≫= f).
Proof.
  unfold mbind, prog_bind. intros H Hf. induction H; cbn [pbind]; [auto|by constructor|by apply toward_end..].
Qed.

Lemma only_bind {A B} ok Q R (m : prog A) (f : A → prog B) : only ok Q m → (∀ a, Q a → only ok R (f a)) → only ok R (m ≫= f).
Proof. unfold mbind, prog_bind. intros H Hf. induction H; cbn [pbind]; [auto|by constructor..]. Qed.

Lemma only_do ok c : ok c = true → only ok (λ _, True) (do_ c).
Proof. intros H. constructor; [done|]. intros r. by constructor. Qed.
Lemma only_ask ok c : ok c = true → only ok (λ _, True) (ask c).
Proof. intros H. constructor; [done|]. intros r. by constructor. Qed.

(** The calls that touch no semaphore and no variable but the state of the random numbers. *)
Definition idle (c : call) : bool :=
  negb (touches c) || match c with load rngCurrent | store rngCurrent _ => true | _ => false end.

Lemma idle_exec c sh q sh' : idle c = true → exec c sh q sh' →
  sems sh' = sems sh ∧ vars sh' slotValue = vars sh slotValue ∧ vars sh' global = vars sh global.
Proof. intros Hi X. destruct X; try done. destruct x; try done. Qed.

(** A program that comes to one that satisfies [T], by idle calls. *)
Inductive surely (T : prog unit → Prop) : prog unit → Prop :=
  | surely_here p : T p → surely T p
  | surely_call c k : idle c = true → (∀ r, surely T (k r)) → surely T (Call c k).

(** An idle call can always go through. *)
Lemma idle_can c sh : idle c = true → ∃ q sh', exec c sh q sh'.
Proof.
  intros Hi. destruct (touches c) eqn:Ht; [|exists (mkReply 0 [] []), sh; by apply exec_other].
  unfold idle in Hi. rewrite Ht in Hi. destruct c; try done; destruct x; try done.
  - exists (mkReply (vars sh rngCurrent) [] []), sh. by apply exec_load.
  - exists (mkReply 0 [] []). eexists. by apply exec_store.
Qed.

Lemma only_randomNext : only idle (λ _, True) randomNext.
Proof.
  eapply only_bind; [by apply only_ask|]. intros c _. unfold CStandard.randomNext.
  eapply only_bind; [by apply only_do|]. intros _ _. by constructor.
Qed.
Lemma only_putAll str : only idle (λ _, True) (putAll str).
Proof. induction str as [|c str IH]; cbn [putAll]; [by constructor|]. eapply only_bind; [by apply only_do|]. by intros _ _. Qed.

(** ** What a call did, when its answer is forced *)

Lemma exec_open_inv n i sh q sh' : exec (sys_sem_open n i) sh q sh' →
  (sems sh n = None ∧ ret q = 0 ∧ sh' = set_sem n (Some (i, 1)) sh) ∨
  (∃ v refs, sems sh n = Some (v, refs) ∧ ret q = 0 ∧ sh' = set_sem n (Some (v, refs + 1)) sh) ∨
  (ret q = -1 ∧ sh' = sh).
Proof. intros X. inversion X; subst; try done; [by left|right; left; by eauto|by right; right]. Qed.
Lemma exec_close_inv n sh q sh' v refs : sems sh n = Some (v, refs) → exec (sys_sem_close n) sh q sh' →
  sh' = set_sem n (if refs - 1 <=? 0 then None else Some (v, refs - 1)) sh.
Proof. intros E X. inversion X; subst; try done; rewrite E in *; by simplify_eq. Qed.
Lemma exec_wait_token n sh q sh' v refs : sems sh n = Some (v, refs) → exec (sys_sem_wait n) sh q sh' →
  0 < v ∧ sh' = set_sem n (Some (v - 1, refs)) sh.
Proof. intros E X. inversion X; subst; try done; rewrite E in *; by simplify_eq. Qed.
Lemma exec_post_token n sh q sh' v refs : sems sh n = Some (v, refs) → exec (sys_sem_post n) sh q sh' →
  sh' = set_sem n (Some (v + 1, refs)) sh.
Proof. intros E X. inversion X; subst; try done; rewrite E in *; by simplify_eq. Qed.

Lemma exec_load_inv x sh q sh' : exec (load x) sh q sh' → ret q = vars sh x ∧ sh' = sh.
Proof. intros X. by inversion X. Qed.
Lemma exec_store_inv x v sh q sh' : exec (store x v) sh q sh' → sh' = set_var x v sh.
Proof. intros X. by inversion X. Qed.

Lemma set_sem_here n o sh : sems (set_sem n o sh) n = o.
Proof. cbn. by rewrite bool_decide_true. Qed.
Lemma set_var_here x v sh : vars (set_var x v sh) x = v.
Proof. cbn. by rewrite bool_decide_true. Qed.

(** ** Sums over the processes *)

Fixpoint total {A} (w : A → Z) (l : list A) : Z := match l with [] => 0 | a :: l => w a + total w l end.

Lemma total_insert {A} (w : A → Z) l i a b : l !! i = Some a → total w (<[i := b]> l) = total w l - w a + w b.
Proof.
  revert i. induction l as [|x l IH]; intros [|i] H; cbn in *; try discriminate.
  - injection H as ->. lia.
  - change (w x + total w (<[i := b]> l) = w x + total w l - w a + w b). rewrite (IH i H). lia.
Qed.
Lemma total_nonneg {A} (w : A → Z) l : (∀ a, 0 ≤ w a) → 0 ≤ total w l.
Proof. intros H. induction l as [|x l IH]; cbn; [lia|]. specialize (H x). lia. Qed.
Lemma total_elem {A} (w : A → Z) l i a : (∀ a, 0 ≤ w a) → l !! i = Some a → w a ≤ total w l.
Proof.
  intros H. revert i. induction l as [|x l IH]; intros [|i] E; cbn in *; try discriminate.
  - injection E as ->. pose proof (total_nonneg w l H). lia.
  - specialize (IH i E). specialize (H x). lia.
Qed.
Lemma total_two {A} (w : A → Z) l i j a b : (∀ a, 0 ≤ w a) → i ≠ j → l !! i = Some a → l !! j = Some b → w a + w b ≤ total w l.
Proof.
  intros H. revert i j. induction l as [|x l IH]; intros [|i] [|j] Hij E1 E2; cbn in *; try discriminate; try done.
  - injection E1 as ->. pose proof (total_elem w l j b H E2). lia.
  - injection E2 as ->. pose proof (total_elem w l i a H E1). lia.
  - specialize (IH i j ltac:(congruence) E1 E2). specialize (H x). lia.
Qed.
Lemma total_pos {A} (w : A → Z) l : (∀ a, 0 ≤ w a) → 0 < total w l → ∃ i a, l !! i = Some a ∧ 0 < w a.
Proof.
  intros H. induction l as [|x l IH]; cbn; [lia|]. intros Hp. destruct (Z_lt_le_dec 0 (w x)).
  - by exists 0%nat, x.
  - destruct IH as (i & a & E & Ha); [lia|]. by exists (S i), a.
Qed.
Lemma total_zero {A} (w : A → Z) l : (∀ a, 0 ≤ w a) → total w l = 0 → ∀ i a, l !! i = Some a → w a = 0.
Proof. intros H E i a Ha. pose proof (total_elem w l i a H Ha). specialize (H a). lia. Qed.
Lemma total_same {A} (w : A → Z) l : (∀ a, a ∈ l → w a = 0) → total w l = 0.
Proof. induction l as [|x l IH]; intros H; cbn; [done|]. rewrite (H x) by set_solver. rewrite IH; [lia|]. set_solver. Qed.

Lemma total_map {A B} (w : A * B → Z) (g : A → Z) ws : (∀ i inc a, ws !! i = Some (inc, a) → w (inc, a) = g inc) →
  total w ws = total g (fst <$> ws).
Proof.
  intros H. induction ws as [|[inc a] ws IH]; [done|]. cbn. rewrite (H 0%nat inc a) by done. rewrite IH; [done|].
  intros i. apply (H (S i)).
Qed.

Lemma total_le {A} (w v : A → Z) l : (∀ a, w a ≤ v a) → total w l ≤ total v l.
Proof. intros H. induction l as [|x l IH]; cbn; [lia|]. specialize (H x). lia. Qed.

(** ** Every interleaving ends *)

(** One process of the list makes a call. *)
Definition moved (l' l : list (prog unit)) : Prop := ∃ i c k q, l !! i = Some (Call c k) ∧ l' = <[i := k q]> l.

Lemma moved_cons p : ∀ l, Acc moved l → Acc moved (p :: l).
Proof.
  induction p as [a|c k IH| | | |]; intros l Hl; induction Hl as [l Hl IHl]; constructor; intros l' ([|i] & c' & k' & q & E & ->); try discriminate; cbn in E |- *.
  all: try (apply IHl; by exists i, c', k', q).
  injection E as -> ->. apply IH. by constructor.
Qed.
Lemma moved_acc l : Acc moved l.
Proof. induction l as [|p l IH]; [constructor; by intros l' (i & c & k & q & E & _)|by apply moved_cons]. Qed.
Lemma step_acc s : Acc (flip step) s.
Proof.
  remember (threads s) as l eqn:E. revert s E. induction (moved_acc l) as [l _ IH]. intros s ->. constructor. intros s' X.
  destruct X as [s i c k q sh' E X]. eapply IH; [|reflexivity]. by exists i, c, k, q.
Qed.

End Threads.
