(* ===== verification/SemRefine.v ===== *)
(** * The kernel's named semaphores are those the programs rely on

    The proofs about programs that share semaphores ([Threads.v] and the files that use it) are
    over abstract semaphores, a value and a count of references per name.  The table of the
    kernel, with its entries, locks, queues of waiters and process states, implements them: each
    call of the kernel is the abstract call, except that a caller without a unit is put to sleep
    before it makes its call, and makes it when a post hands the unit over to it. *)

From S2P Require Import Prelude KState ProcTable Semaphore KernelInv KernelCheck Scheduler LifeCycle Steady NamedSems Kernel Reach.
From S2P Require Import CStandard Shell Userland Threads.
Import ProcTable Semaphore SharedSemaphores KernelInv KernelCheck LifeCycle Steady NamedSems Kernel Reach.
#[local] Open Scope Z_scope.

Module SemRefine.

(** The kernel's side of a call on the name [n]. *)
Inductive named_call (n : cstring) : Userland.call → K Z → Prop :=
  | call_open v : 0 ≤ v → named_call n (Userland.sys_sem_open n v) (sharedSemOpen (Some n) v)
  | call_close : named_call n (Userland.sys_sem_close n) (sharedSemClose (Some n))
  | call_wait : named_call n (Userland.sys_sem_wait n) (sharedSemWait (Some n))
  | call_post : named_call n (Userland.sys_sem_post n) (sharedSemPost (Some n)).

Definition abstracts (s : kst) (sh : Threads.shared) : Prop := ∀ x, Threads.sems sh x = view s x.

Definition answer (r : Z) : Userland.reply := Userland.mkReply r [] [].

(** How much a call may raise the bound on the values. *)
Definition raises (c : Userland.call) : Z := match c with Userland.sys_sem_open _ v => 1 + v | _ => 1 end.

Lemma abstracts_rebind s s' n o sh : abstracts s sh → rebinds n o s s' → abstracts s' (Threads.set_sem n o sh).
Proof. intros A R x. rewrite R. cbn [Threads.sems Threads.set_sem]. destruct (bool_decide _); [done|apply A]. Qed.

Section Pinned.
Context {pin : Pinned}.

(** The call has been made, in the kernel and by the abstract system. *)
Definition made (N : Z) (c : Userland.call) (m : kres Z) (sh : Threads.shared) : Prop := ∃ s' r sh',
  m = KDone s' r ∧ shares N s' ∧ abstracts s' sh' ∧ Threads.exec c sh (answer r) sh'.

(** The caller sleeps behind the waiters there are; abstractly nothing has happened yet. *)
Definition sleeps (N : Z) (n : cstring) (pid : Z) (m : kres Z) (s : kst) (sh : Threads.shared) : Prop := ∃ s',
  m = KSwitch s' (λ s'', KDone s'' 0) ∧ shares N s' ∧ abstracts s' sh ∧
  state_of s' pid = Some BLOCKED ∧ waiters s' n = waiters s n ++ [pid].

(** The unit goes to the first waiter that is still blocked, whose call is made with it. *)
Definition hands_over (N : Z) (n : cstring) (m : kres Z) (s : kst) (sh : Threads.shared) : Prop := ∃ s' dead pid sh1 sh',
  m = KDone s' 0 ∧ shares N s' ∧ Threads.exec (Userland.sys_sem_post n) sh (answer 0) sh1 ∧
  Threads.exec (Userland.sys_sem_wait n) sh1 (answer 0) sh' ∧ abstracts s' sh' ∧
  waiters s n = dead ++ pid :: waiters s' n ∧ Forall (stale s) dead ∧
  state_of s pid = Some BLOCKED ∧ state_of s' pid = Some READY.

Lemma shares_mono N N' s : shares N s → N ≤ N' → shares N' s.
Proof. intros (H & L & Hn) HN. split; [by apply (sound_mono N)|]. split; [done|by apply (named_mono N)]. Qed.

Lemma refines_ok N s (n : cstring) pid c m sh : shares N s → abstracts s sh → n ≠ [] → len n < 32 → named_call n c m →
  N + raises c ≤ 2 ^ 30 → processTable s !! pid = Some (currentProcess s) → state_of s pid = Some RUNNING → pid ≠ IDLE_PID →
  made (N + raises c) c (m s) sh ∨
  (c = Userland.sys_sem_wait n ∧ (∃ k, Threads.sems sh n = Some (0, k)) ∧ sleeps (N + raises c) n pid (m s) s sh) ∨
  (c = Userland.sys_sem_post n ∧ hands_over (N + raises c) n (m s) s sh).
Proof.
  intros S A Hne Hlen Hc HN Ht Hr Hid. pose proof (shares_mono _ (N + raises c) _ S) as Hmono.
  assert (HN0 : 0 ≤ N) by (apply (ki_bound _ _ _ (proj1 (proj1 (proj1 S))))).
  destruct Hc as [v Hv| | |]; cbn [raises] in *.
  - left. destruct (open_spec N s n v S Hne Hlen Hv ltac:(lia)) as (s' & r & E & S' & _ & D). rewrite Z.add_assoc in *.
    destruct D as [(Hw & -> & R)|[(w & k & Hw & -> & R)|(Hw & _ & -> & ->)]]; rewrite <- A in Hw; eexists _, _, _; (split; [exact E|]); (split; [exact S'|]).
    + split; [by apply (abstracts_rebind s)|]. by apply Threads.exec_open.
    + split; [by apply (abstracts_rebind s)|]. by apply Threads.exec_open_again.
    + split; [exact A|]. by apply Threads.exec_open_full.
  - left. destruct (close_spec N s n S Hne ltac:(lia)) as (s' & r & E & S' & _ & D).
    apply (shares_mono _ (N + 1)) in S'; [|lia].
    destruct D as [(Hw & -> & ->)|(w & k & Hw & -> & R)]; rewrite <- A in Hw; eexists _, _, _; (split; [exact E|]); (split; [exact S'|]).
    + split; [exact A|]. by apply Threads.exec_close_closed.
    + split; [by apply (abstracts_rebind s)|]. by apply Threads.exec_close.
  - destruct (wait_spec N s n pid S Hne HN Ht Hr Hid) as [[Hw E]|[(w & k & s' & Hw & Hp & E & S' & _ & R)|(k & s' & Hw & E & S' & R & W & B)]];
      rewrite <- A in Hw.
    + left. eexists _, _, _. split; [exact E|]. split; [apply Hmono; lia|]. split; [exact A|]. by apply Threads.exec_wait_closed.
    + left. eexists _, _, _. split; [exact E|]. split; [exact S'|]. split; [by apply (abstracts_rebind s)|]. by apply Threads.exec_wait.
    + right; left. split; [done|]. split; [by exists k|]. exists s'. split; [exact E|]. split; [exact S'|]. split; [|done].
      intros x. rewrite R. case_bool_decide as Hx; [by rewrite Hx, Hw|apply A].
  - destruct (post_spec N s n S Hne HN) as [[Hw E]|(w & k & s' & Hw & E & S' & [(_ & _ & R)|(dead & p & -> & W & D & B1 & B2 & R)])];
      rewrite <- A in Hw.
    + left. eexists _, _, _. split; [exact E|]. split; [apply Hmono; lia|]. split; [exact A|]. by apply Threads.exec_post_closed.
    + left. eexists _, _, _. split; [exact E|]. split; [exact S'|]. split; [by apply (abstracts_rebind s)|]. by apply Threads.exec_post.
    + right; right. split; [done|]. eexists s', dead, p, _, _. split; [exact E|]. split; [exact S'|].
      split; [by eapply Threads.exec_post|]. split; [apply (Threads.exec_wait n 1 k); [by rewrite Threads.set_sem_here|lia|done]|].
      split; [|done]. intros x. rewrite R. cbn [Threads.sems Threads.set_sem]. destruct (bool_decide _); [done|apply A].
Qed.

(** C10. The kernel's named semaphores implement those that the proofs about programs rely on: from
    any state where the kernel's invariants hold, each call on a name that fits, by a running
    process, ends, keeps the invariants and either is the abstract call, with its answer, or, for a
    wait without a unit, puts the caller to sleep behind the waiters there are and changes nothing
    else, or, for a post, is the abstract post followed by the abstract wait of the first waiter
    that is still blocked, which becomes ready. *)
Theorem named_semaphores_refine N s (n : cstring) pid c m sh : shares N s → abstracts s sh → n ≠ [] → len n < 32 → named_call n c m →
  N + raises c ≤ 2 ^ 30 → processTable s !! pid = Some (currentProcess s) → state_of s pid = Some RUNNING → pid ≠ IDLE_PID →
  made (N + raises c) c (m s) sh ∨
  (c = Userland.sys_sem_wait n ∧ (∃ k, Threads.sems sh n = Some (0, k)) ∧ sleeps (N + raises c) n pid (m s) s sh) ∨
  (c = Userland.sys_sem_post n ∧ hands_over (N + raises c) n (m s) s sh).
Proof. intros. by apply refines_ok. Qed.

End Pinned.

(** The small kernel with a semaphore "a" that has no unit. *)
Definition small_named : kst :=
  set_shared [mkShared true [97] 368 1; slot_empty] (set_sems (<[368 := mkSem 0 [] false]> (k_sems small)) small).

Lemma small_shares : shares 1024 small_named.
Proof.
  split; [|split]; [apply sound_check; vm_compute; reflexivity|apply lineage_check_ok; vm_compute; reflexivity|].
  split; [done|..].
  - intros [|[|i]] [|[|j]] e e' Hi Hj Hu Hu' _; cbn in Hi, Hj; by simplify_eq.
  - intros [|[|i]] e Hi Hu; cbn in Hi; simplify_eq; cbn; lia.
Qed.

(** Process 2 sleeps on it. *)
Lemma named_semaphores_refine_witness : shares 1024 small_named ∧
  ∃ s', sharedSemWait (Some [97]) small_named = KSwitch s' (λ s'', KDone s'' 0) ∧ state_of s' 2 = Some BLOCKED ∧ waiters s' [97] = [2].
Proof.
  split; [exact small_shares|]. set (sh := Threads.mkShared (view small_named) (λ _, 0)).
  destruct (named_semaphores_refine 1024 small_named [97] 2 (Userland.sys_sem_wait [97]) (sharedSemWait (Some [97])) sh small_shares)
    as [(s' & r & sh' & E & _)|[(_ & _ & s' & E & _ & _ & B & W)|(E & _)]];
    [done|done|cbn; lia|constructor|cbn; lia|reflexivity|reflexivity|unfold IDLE_PID; lia|discriminate E| |discriminate E].
  exists s'. split; [exact E|]. split; [exact B|exact W].
Defined.

End SemRefine.
