(* ===== verification/Departures.v ===== *)
(** * Where the kernel departs from what it promises

    Short runs, evaluated, of what the code does when calls are combined in ways that it does not
    foresee.  They are the reasons for the side conditions of the theorems about the kernel. *)

From S2P Require Import Prelude KState ProcTable Semaphore Pipe Process KernelInv KernelCheck Scheduler Syscall NamedSems Keyboard Kernel Reach SemRefine.
Import ProcTable Semaphore SharedSemaphores Pipe Process KernelCheck Scheduler Syscall NamedSems Keyboard Kernel Reach.
#[local] Open Scope Z_scope.

Module Departures.

(** A process that blocks itself keeps the processor until the next tick.  If it unblocks itself
    and waits on a semaphore within that time, it is blocked and in the ready queue: the next
    switch runs it although it has no unit. *)
Lemma wait_after_unblock :
  let s := after (sharedSemWait (Some [97]) (after (setReady 2 (after (setBlocked 2 SemRefine.small_named))))) in
  state_of s 2 = Some BLOCKED ∧ waiters s [97] = [2] ∧ readyQueue s = Some [0; 2] ∧
  (let s' := after (schedule 0 (after (schedule 0 s))) in
   state_of s' 2 = Some RUNNING ∧ waiters s' [97] = [2] ∧ view s' [97] = Some (0, 1)).
Proof. vm_compute. split_and!; reflexivity. Qed.

(** A killed waiter stays in the queue of the semaphore.  When its pid has been given to a new
    process, a post wakes that process, whatever it is blocked for, and the unit is lost. *)
Lemma post_to_a_new_process :
  let s1 := after (wait_pid 3 (after (terminateProcess 3 small))) in
  let r := startNewProcess 4096 None 1 0 None s1 in
  let s2 := after (setBlocked 3 (after r)) in
  let s3 := after (semPost 200 s2) in
  value 0 r = 3 ∧ k_sems s2 !! 200 = Some (mkSem (-1) [3] false) ∧ state_of s2 3 = Some BLOCKED ∧
  state_of s3 3 = Some READY ∧ k_sems s3 !! 200 = Some (mkSem 0 [] false).
Proof. vm_compute. split_and!; reflexivity. Qed.

(** A process that waits for its child can be made ready by anybody: it then goes on as if the
    child had ended, and reaps it alive. *)
Lemma unblock_reaps_alive : match wait_pid 3 small with
  | KSwitch s1 rest =>
    let s2 := after (setReady 2 s1) in
    state_of s2 3 = Some BLOCKED ∧ ends (rest s2) = true ∧ processTable (after (rest s2)) !! 3 = None
  | _ => False
  end.
Proof. vm_compute. split_and!; reflexivity. Qed.

(** Killing a process twice posts its parent's semaphore twice.  Waiting for it takes one unit and
    all its entries in the queue; the next search for zombies takes the other unit, finds the
    queue empty, reads that as the pid 0, and reaps the idle process. *)
Lemma double_kill_reaps_idle :
  let s1 := after (wait_pid 3 (after (terminateProcess 3 (after (terminateProcess 3 small))))) in
  let r := reap_zombies 2 s1 in
  is_Some (processTable s1 !! IDLE_PID) ∧ ends r = true ∧ processTable (after r) !! IDLE_PID = None.
Proof. vm_compute. split_and!; [by eexists|reflexivity..]. Qed.

(** The process that Ctrl+C kills goes on until the next tick: it can still open a pipe, whose
    descriptors nobody will close. *)
Lemma dead_process_opens_pipe :
  let k := mkKbd {[LCONTROL]} false false 0 false in
  let s1 := after (keyboardInterrupt 0 true PRESS_C k small) in
  let r := sysPipe 9000 s1 in
  state_of s1 2 = Some ZOMBIE ∧ currentProcess s1 = 16 ∧ value (0, None) r = (0, Some (0, 1)) ∧
  state_of (after r) 2 = Some ZOMBIE ∧ (λ c, take 2 (fdTable c)) <$> proc_of (after r) 2 <> Some [0; 0].
Proof. vm_compute. split_and!; (reflexivity || discriminate). Qed.

(** The writing end that the driver holds is a blocking one: when the pipe of the keyboard is
    full, the interrupt puts the process that it interrupted to sleep. *)
Fixpoint press (n : nat) (scancode : Z) (k : kbd) (s : kst) : kst :=
  match n with O => s | S n => press n scancode k (after (keyboardInterrupt 2 true scancode k s)) end.
Lemma full_keyboard_blocks :
  let s0 := after (schedule 0 (fst (started 4096 8192 65536))) in
  let k := mkKbd ∅ false false (snd (started 4096 8192 65536)) false in
  let s1 := press 1024 0x1E k s0 in
  let r := keyboardInterrupt 2 true 0x1E k s1 in
  state_of s1 IDLE_PID = Some RUNNING ∧ sleeps r = true ∧ state_of (after r) IDLE_PID = Some BLOCKED.
Proof. vm_compute. split_and!; reflexivity. Qed.

End Departures.
