(* ===== verification/Mvar.v ===== *)
(** * The shared variable of one slot ([Userland/SampleCodeModule/mvar.c])

    The programs of the writers and the readers, and the proof that their protocol delivers
    every value exactly once, in order, and never stops. *)

From stdpp Require Import strings relations.
From S2P Require Import Prelude CStandard Shell Userland Threads.
Import CStandard Userland Threads.
#[local] Open Scope Z_scope.

Module Mvar.

Definition SEM_EXCL : list Z := msg "mv_excl".
Definition SEM_SLOT_LIBRE : list Z := msg "mv_libre".
Definition SEM_SLOT_LLENO : list Z := msg "mv_lleno".
Definition MAX_WORKERS : Z := 10.

Definition colorPalette : list string :=
  ["FF6060"; "60FF60"; "6060FF"; "FFFF60"; "FF60FF"; "60FFFF"; "FFA030"; "30FFA0"; "A030FF"; "FF80B0"]%string.
Definition PALETTE_LEN : Z := len colorPalette.

(** The wait reads the clock at most [polls] times. *)
Fixpoint delay_loop (polls : nat) (t0 ms : Z) : prog unit :=
  match polls with
  | O => Later
  | S polls => t ← ask sys_kernel_time; if u64 (t - t0) <? u64 ms then delay_loop polls t0 ms else mret ()
  end.
Definition randomDelay (polls : nat) : prog unit :=
  next ← randomNext;
  let ms := i32 (next mod 400 + 100) in
  t0 ← ask sys_kernel_time;
  delay_loop polls t0 ms.

(** The seed that both kinds of workers start from. *)
Definition seed : prog unit := t ← ask sys_kernel_time; pid ← ask sys_getpid; setRngSeed (u16 (t + pid)).

(** [rounds] turns of the endless loop. *)
Fixpoint producer_loop (rounds polls : nat) (ch : Z) : prog unit :=
  match rounds with
  | O => Later
  | S rounds =>
    _ ← randomDelay polls;
    _ ← do_ (sys_sem_wait SEM_SLOT_LIBRE);
    _ ← do_ (sys_sem_wait SEM_EXCL);
    _ ← do_ (store slotValue ch);
    _ ← do_ (sys_sem_post SEM_EXCL);
    _ ← do_ (sys_sem_post SEM_SLOT_LLENO);
    producer_loop rounds polls ch
  end.

(** [argv[1][0]] *)
Definition first_char (s : list Z) : Z := default 0 (head s).
Definition producer (rounds polls : nat) (argv : list (list Z)) : prog unit :=
  match argv with
  | _ :: a1 :: _ => _ ← seed; producer_loop rounds polls (first_char a1)
  | _ => Undefined
  end.

Definition painted (color : list Z) (ch : Z) : list Z := [27; 102] ++ color ++ [59; ch; 27; 114; 59].

Fixpoint consumer_loop (rounds polls : nat) (color : list Z) : prog unit :=
  match rounds with
  | O => Later
  | S rounds =>
    _ ← randomDelay polls;
    _ ← do_ (sys_sem_wait SEM_SLOT_LLENO);
    _ ← do_ (sys_sem_wait SEM_EXCL);
    ch ← ask (load slotValue);
    _ ← do_ (sys_sem_post SEM_EXCL);
    _ ← do_ (sys_sem_post SEM_SLOT_LIBRE);
    _ ← do_ (sys_write STDOUT (painted color ch));
    consumer_loop rounds polls color
  end.

(** [idx % PALETTE_LEN] is unsigned. *)
Definition consumer (rounds polls : nat) (argv : list (list Z)) : prog unit :=
  match argv with
  | _ :: a1 :: _ =>
    let idx := i32 (stringToInt a1) in
    let color := msg (default ""%string (colorPalette !! Z.to_nat (u64 idx mod PALETTE_LEN))) in
    _ ← seed; consumer_loop rounds polls color
  | _ => Undefined
  end.

(** *** The command *)

Definition writeErr (s : list Z) : prog unit := do_ (sys_write STDERR s).

(** The worker is put in the foreground if it could start. *)
Definition spawn (entry : ProcessEntry) (name arg : list Z) : prog unit :=
  pid ← ask (sys_create_process entry [name; arg] name);
  if 0 <=? pid then do_ (sys_foreground (i16 pid)) else mret ().

Fixpoint spawn_writers (ids : list Z) : prog unit :=
  match ids with
  | [] => mret ()
  | i :: ids => _ ← spawn producerEntry (msg "mvar_w") [i8 (65 + i mod 26)]; spawn_writers ids
  end.
Fixpoint spawn_readers (ids : list Z) : prog unit :=
  match ids with
  | [] => mret ()
  | i :: ids => _ ← spawn consumerEntry (msg "mvar_r") (numToString i); spawn_readers ids
  end.

Fixpoint yield_loop (rounds : nat) : prog unit :=
  match rounds with O => Later | S rounds => _ ← do_ sys_yield; yield_loop rounds end.

Definition usage : list Z := msg "Usage: mvar <writers> <readers>" ++ [10].
Definition out_of_range : list Z := msg "mvar: writers y readers deben ser entre 1 y 10" ++ [10].

Definition mvarCommand (rounds : nat) (argv : list (list Z)) : prog unit :=
  match argv with
  | _ :: a1 :: a2 :: _ =>
    let nw := stringToInt a1 in
    let nr := stringToInt a2 in
    if (nw <=? 0) || (MAX_WORKERS <? i64 (nw + nr)) || (nr <=? 0) then _ ← writeErr out_of_range; Exit
    else
      _ ← do_ (store slotValue 0);
      _ ← do_ (sys_sem_close SEM_EXCL);
      _ ← do_ (sys_sem_close SEM_SLOT_LIBRE);
      _ ← do_ (sys_sem_close SEM_SLOT_LLENO);
      _ ← do_ (sys_sem_open SEM_EXCL 1);
      _ ← do_ (sys_sem_open SEM_SLOT_LIBRE 1);
      _ ← do_ (sys_sem_open SEM_SLOT_LLENO 0);
      _ ← spawn_writers (seqZ 0 (i32 nw));
      _ ← spawn_readers (seqZ 0 (i32 nr));
      yield_loop rounds
  | _ => _ ← writeErr usage; Exit
  end.

(** ** The protocol *)

(** What a worker does next. *)
Definition p_excl n polls ch : prog unit :=
  _ ← do_ (sys_sem_wait SEM_EXCL); _ ← do_ (store slotValue ch);
  _ ← do_ (sys_sem_post SEM_EXCL); _ ← do_ (sys_sem_post SEM_SLOT_LLENO); producer_loop n polls ch.
Definition p_libre n polls ch : prog unit := _ ← do_ (sys_sem_wait SEM_SLOT_LIBRE); p_excl n polls ch.
Definition p_store n polls ch : prog unit :=
  _ ← do_ (store slotValue ch); _ ← do_ (sys_sem_post SEM_EXCL); _ ← do_ (sys_sem_post SEM_SLOT_LLENO); producer_loop n polls ch.
Definition p_leave n polls ch : prog unit :=
  _ ← do_ (sys_sem_post SEM_EXCL); _ ← do_ (sys_sem_post SEM_SLOT_LLENO); producer_loop n polls ch.
Definition p_tell n polls ch : prog unit := _ ← do_ (sys_sem_post SEM_SLOT_LLENO); producer_loop n polls ch.

Definition c_tell n polls color ch : prog unit :=
  _ ← do_ (sys_sem_post SEM_SLOT_LIBRE); _ ← do_ (sys_write STDOUT (painted color ch)); consumer_loop n polls color.
Definition c_leave n polls color ch : prog unit := _ ← do_ (sys_sem_post SEM_EXCL); c_tell n polls color ch.
Definition c_load n polls color : prog unit := ch ← ask (load slotValue); c_leave n polls color ch.
Definition c_excl n polls color : prog unit := _ ← do_ (sys_sem_wait SEM_EXCL); c_load n polls color.
Definition c_lleno n polls color : prog unit := _ ← do_ (sys_sem_wait SEM_SLOT_LLENO); c_excl n polls color.

(** Where a worker stands: before its first wait, before the second, inside, before leaving,
    and before telling the other side. *)
Inductive place := Outside | Waiting | Inside | Leaving | Telling.
Inductive role := Writer (ch : Z) | Reader.

Definition stands (r : role) (at_ : place) (p : prog unit) : Prop :=
  match r, at_ with
  | Writer ch, Outside => toward idle (λ p, ∃ n polls, p = p_libre n polls ch) p
  | Writer ch, Waiting => ∃ n polls, p = p_excl n polls ch
  | Writer ch, Inside => ∃ n polls, p = p_store n polls ch
  | Writer ch, Leaving => ∃ n polls, p = p_leave n polls ch
  | Writer ch, Telling => ∃ n polls, p = p_tell n polls ch
  | Reader, Outside => toward idle (λ p, ∃ n polls color, p = c_lleno n polls color) p
  | Reader, Waiting => ∃ n polls color, p = c_excl n polls color
  | Reader, Inside => ∃ n polls color, p = c_load n polls color
  | Reader, Leaving => ∃ n polls color ch, p = c_leave n polls color ch
  | Reader, Telling => ∃ n polls color ch, p = c_tell n polls color ch
  end.

Lemma only_delay polls : ∀ t0 ms, only idle (λ _, True) (delay_loop polls t0 ms).
Proof.
  induction polls as [|polls IH]; intros t0 ms; cbn [delay_loop]; [constructor|].
  eapply only_bind; [by apply only_ask|]. intros t _. destruct (_ <? _); [apply IH|by constructor].
Qed.
Lemma only_randomDelay polls : only idle (λ _, True) (randomDelay polls).
Proof.
  eapply only_bind; [apply only_randomNext|]. intros next _. eapply only_bind; [by apply only_ask|]. intros t0 _. apply only_delay.
Qed.
Lemma only_seed : only idle (λ _, True) seed.
Proof.
  eapply only_bind; [by apply only_ask|]. intros t _. eapply only_bind; [by apply only_ask|]. intros pid _. by apply only_do.
Qed.

Lemma producer_outside n polls ch : stands (Writer ch) Outside (producer_loop n polls ch).
Proof.
  destruct n as [|n]; [by apply toward_end|]. cbn [producer_loop]. eapply toward_bind; [apply only_randomDelay|].
  intros _ _. apply toward_here. by exists n, polls.
Qed.
Lemma consumer_outside n polls color : stands Reader Outside (consumer_loop n polls color).
Proof.
  destruct n as [|n]; [by apply toward_end|]. cbn [consumer_loop]. eapply toward_bind; [apply only_randomDelay|].
  intros _ _. apply toward_here. by exists n, polls, color.
Qed.

(** *** The invariant *)

Notation worker := (role * place)%type.
(** Between the wait and the post of the mutex. *)
Definition inside (w : worker) : Z := match snd w with Inside | Leaving => 1 | _ => 0 end.
(** Holding the token that is in the free semaphore or in the full one otherwise. *)
Definition holding (w : worker) : Z := match snd w with Outside => 0 | _ => 1 end.
(** The slot holds a value that no reader has taken, as far as this worker knows. *)
Definition full (w : worker) : Z :=
  match w with
  | (Writer _, Leaving) | (Writer _, Telling) | (Reader, Waiting) | (Reader, Inside) => 1
  | _ => 0
  end.

(** The values written to the slot and the values read from it, in order. *)
Definition stored (tr : list (call * Z)) : list Z :=
  omap (λ cq, match fst cq with store slotValue v => Some v | _ => None end) tr.
Definition loaded (tr : list (call * Z)) : list Z :=
  omap (λ cq, match fst cq with load slotValue => Some (snd cq) | _ => None end) tr.

Definition sem_is (sh : shared) (n : list Z) (v : Z) : Prop := ∃ refs, sems sh n = Some (v, refs).

Record counts (sh : shared) (ws : list worker) (tr : list (call * Z)) (l e f : Z) : Prop := {
  ct_sems : sem_is sh SEM_SLOT_LIBRE l ∧ sem_is sh SEM_EXCL e ∧ sem_is sh SEM_SLOT_LLENO f;
  ct_pos : 0 ≤ l ∧ 0 ≤ e ∧ 0 ≤ f;
  ct_excl : e + total inside ws = 1;
  ct_token : l + f + total holding ws = 1;
  ct_data : stored tr = loaded tr ++ (if f + total full ws =? 1 then [vars sh slotValue] else []);
}.

Definition inv (s : sys) (ws : list worker) : Prop :=
  Forall2 (λ w p, stands (fst w) (snd w) p) ws (threads s) ∧ ∃ l e f, counts (sh s) ws (trace s) l e f.

Lemma inside_range w : 0 ≤ inside w ≤ 1.
Proof. destruct w as [r []]; cbn; lia. Qed.
Lemma holding_range w : 0 ≤ holding w ≤ 1.
Proof. destruct w as [r []]; cbn; lia. Qed.
Lemma full_holding w : 0 ≤ full w ≤ holding w.
Proof. destruct w as [[] []]; cbn; lia. Qed.

Lemma idle_trace c q tr : idle c = true → stored (tr ++ [(c, q)]) = stored tr ∧ loaded (tr ++ [(c, q)]) = loaded tr.
Proof.
  intros Hi. unfold stored, loaded. rewrite !omap_app. destruct c; try done; cbn; try (by rewrite !app_nil_r);
    destruct x; try done; cbn; by rewrite !app_nil_r.
Qed.

(** The worker [i] moves. *)
Lemma inv_move s ws i r a a' p' sh' tr' l e f : Forall2 (λ w p, stands (fst w) (snd w) p) ws (threads s) →
  ws !! i = Some (r, a) → stands r a' p' → counts sh' (<[i := (r, a')]> ws) tr' l e f →
  ∃ ws', inv (mkSys sh' (<[i := p']> (threads s)) tr') ws' ∧ fst <$> ws' = fst <$> ws.
Proof.
  intros F Hw Hs C. exists (<[i := (r, a')]> ws). split; [split; [|by exists l, e, f]|].
  - cbn [threads]. by apply Forall2_insert.
  - rewrite list_fmap_insert. apply list_insert_id. by rewrite list_lookup_fmap, Hw.
Qed.

Lemma sem_set sh n v w refs m : m ≠ n → sem_is sh n v → sem_is (set_sem m (Some (w, refs)) sh) n v.
Proof. intros Hn [r E]. exists r. cbn. by rewrite bool_decide_false. Qed.
Lemma sem_set_same sh n w refs : sem_is (set_sem n (Some (w, refs)) sh) n w.
Proof. exists refs. cbn. by rewrite bool_decide_true. Qed.
Lemma sem_same sh sh' n v : sems sh' = sems sh → sem_is sh n v → sem_is sh' n v.
Proof. intros E [r H]. exists r. by rewrite E. Qed.

Lemma names_differ : SEM_EXCL ≠ SEM_SLOT_LIBRE ∧ SEM_EXCL ≠ SEM_SLOT_LLENO ∧ SEM_SLOT_LIBRE ≠ SEM_SLOT_LLENO.
Proof. by split_and!. Qed.

(** The reply of a wait or of a post on an open name is forced. *)
Lemma exec_wait_inv n v sh q sh' : sem_is sh n v → exec (sys_sem_wait n) sh q sh' →
  0 < v ∧ ∃ refs, sh' = set_sem n (Some (v - 1, refs)) sh.
Proof.
  intros [refs E] X. inversion X; subst; try congruence; [|done]. rewrite E in *. simplify_eq. split; [done|]. by eexists.
Qed.
Lemma exec_post_inv n v sh q sh' : sem_is sh n v → exec (sys_sem_post n) sh q sh' →
  ∃ refs, sh' = set_sem n (Some (v + 1, refs)) sh.
Proof. intros [refs E] X. inversion X; subst; try congruence; [|done]. rewrite E in *. simplify_eq. by eexists. Qed.
(** A call on a semaphore says nothing of the slot. *)
Lemma sem_trace c q tr : match c with sys_sem_wait _ | sys_sem_post _ => True | _ => False end →
  stored (tr ++ [(c, q)]) = stored tr ∧ loaded (tr ++ [(c, q)]) = loaded tr.
Proof. intros Hc. unfold stored, loaded. rewrite !omap_app. destruct c; try done; cbn; by rewrite !app_nil_r. Qed.

Section Moves.
Context (s : sys) (ws : list worker) (i : nat) (l e f : Z).
Context (C : counts (sh s) ws (trace s) l e f).

(** The sums after one worker moved. *)
Lemma totals r a a' : ws !! i = Some (r, a) →
  total inside (<[i := (r, a')]> ws) = total inside ws - inside (r, a) + inside (r, a') ∧
  total holding (<[i := (r, a')]> ws) = total holding ws - holding (r, a) + holding (r, a') ∧
  total full (<[i := (r, a')]> ws) = total full ws - full (r, a) + full (r, a').
Proof. intros H. by rewrite !(total_insert _ _ _ _ _ H). Qed.

Lemma bounds r a : ws !! i = Some (r, a) → 0 ≤ total full ws - full (r, a) ∧ 0 ≤ total inside ws - inside (r, a) ∧
  total full ws - full (r, a) ≤ total holding ws - holding (r, a).
Proof.
  intros H. pose proof (total_elem full ws i _ (λ w, proj1 (full_holding w)) H).
  pose proof (total_elem inside ws i _ (λ w, proj1 (inside_range w)) H).
  pose proof (total_le full holding (<[i := (r, Outside)]> ws) (λ w, proj2 (full_holding w))) as Hle.
  destruct (totals r a Outside H) as (E1 & E2 & E3). rewrite E2, E3 in Hle. destruct r; cbn in *; lia.
Qed.
End Moves.

(** The sums and the data of the new state, from those of the old one. *)
Ltac recount Ht Hb :=
  destruct Ht as (T1 & T2 & T3); cbn [inside holding full fst snd] in *;
  split; [split_and!; first [apply sem_set_same | apply sem_set; [by intros E'; apply names_differ in E' || (symmetry in E'; by apply names_differ in E')|assumption]
                                   | eapply sem_same; [reflexivity|assumption] | assumption]
         |lia|rewrite T1; lia|rewrite T2; lia|rewrite T3].

(** The slot is not touched: as many values are pending as before. *)
Ltac same_data Dt :=
  match goal with |- stored (?tr ++ [(?c, ?x)]) = _ => destruct (sem_trace c x tr I) as [-> ->] end;
  rewrite Dt; cbn [vars set_sem]; f_equal;
  repeat match goal with |- context [?a =? 1] => destruct (Z.eqb_spec a 1) end; (done || lia).

Lemma stored_store tr v q : stored (tr ++ [(store slotValue v, q)]) = stored tr ++ [v] ∧ loaded (tr ++ [(store slotValue v, q)]) = loaded tr.
Proof. unfold stored, loaded. rewrite !omap_app. cbn. by rewrite app_nil_r. Qed.
Lemma loaded_load tr q : stored (tr ++ [(load slotValue, q)]) = stored tr ∧ loaded (tr ++ [(load slotValue, q)]) = loaded tr ++ [q].
Proof. unfold stored, loaded. rewrite !omap_app. cbn. by rewrite app_nil_r. Qed.

(** A step outside the protocol. *)
Lemma idle_step s ws i r c k q sh' l e f : Forall2 (λ w p, stands (fst w) (snd w) p) ws (threads s) →
  counts (sh s) ws (trace s) l e f → ws !! i = Some (r, Outside) → idle c = true → exec c (sh s) q sh' →
  stands r Outside (k q) →
  ∃ ws', inv (mkSys sh' (<[i := k q]> (threads s)) (trace s ++ [(c, ret q)])) ws' ∧ fst <$> ws' = fst <$> ws.
Proof.
  intros F [(Sl & Se & Sf) P Ex Tk Dt] Hw Hi X Hs. destruct (idle_exec _ _ _ _ Hi X) as (E1 & E2 & _).
  apply (inv_move s ws i r Outside Outside _ _ _ l e f F Hw Hs).
  pose proof (totals ws i r Outside Outside Hw) as (T1 & T2 & T3).
  split; [split_and!; by apply (sem_same (sh s))|done|lia|lia|]. destruct (idle_trace c (ret q) (trace s) Hi) as [-> ->].
  rewrite T3, E2, Dt. by replace (total full ws - full (r, Outside) + full (r, Outside)) with (total full ws) by lia.
Qed.

Lemma inv_step s s' ws : inv s ws → step s s' → ∃ ws', inv s' ws' ∧ fst <$> ws' = fst <$> ws.
Proof.
  intros [F (l & e & f & C)] X. destruct X as [s i c k q sh' E X].
  destruct (Forall2_lookup_r _ _ _ _ _ F E) as ([r a] & Hw & Hs). cbn [fst snd] in Hs.
  pose proof (λ a', totals ws i r a a' Hw) as Ht. pose proof (bounds ws i r a Hw) as Hb.
  pose proof C as [(Sl & Se & Sf) (Pl & Pe & Pf) Ex Tk Dt].
  destruct r as [ch|], a; cbn [stands] in Hs.
  - inversion Hs as [? (n & polls & Hp)|? ? Hi Hk|? He]; subst; [|exact (idle_step s ws i (Writer ch) c k q sh' l e f F C Hw Hi X (Hk q))|discriminate He].
    injection Hp as -> ->. destruct (exec_wait_inv _ _ _ _ _ Sl X) as (Hpos & refs & ->).
    apply (inv_move s ws i _ _ Waiting _ _ _ (l - 1) e f F Hw); [by exists n, polls|].
    specialize (Ht Waiting). recount Ht Hb. same_data Dt.
  - destruct Hs as (n & polls & Hp). injection Hp as -> ->. destruct (exec_wait_inv _ _ _ _ _ Se X) as (Hpos & refs & ->).
    apply (inv_move s ws i _ _ Inside _ _ _ l (e - 1) f F Hw); [by exists n, polls|].
    specialize (Ht Inside). recount Ht Hb. same_data Dt.
  - destruct Hs as (n & polls & Hp). injection Hp as -> ->. pose proof (exec_store_inv _ _ _ _ _ X) as ->.
    apply (inv_move s ws i _ _ Leaving _ _ _ l e f F Hw); [by exists n, polls|].
    specialize (Ht Leaving). recount Ht Hb. destruct (stored_store (trace s) ch (ret q)) as [-> ->].
    rewrite (proj2 (Z.eqb_neq (f + total full ws) 1)), app_nil_r in Dt by lia. rewrite Dt.
    rewrite (proj2 (Z.eqb_eq _ 1)) by lia. done.
  - destruct Hs as (n & polls & Hp). injection Hp as -> ->. destruct (exec_post_inv _ _ _ _ _ Se X) as (refs & ->).
    apply (inv_move s ws i _ _ Telling _ _ _ l (e + 1) f F Hw); [by exists n, polls|].
    specialize (Ht Telling). recount Ht Hb. same_data Dt.
  - destruct Hs as (n & polls & Hp). injection Hp as -> ->. destruct (exec_post_inv _ _ _ _ _ Sf X) as (refs & ->).
    apply (inv_move s ws i _ _ Outside _ _ _ l e (f + 1) F Hw); [apply producer_outside|].
    specialize (Ht Outside). recount Ht Hb. same_data Dt.
  - inversion Hs as [? (n & polls & color & Hp)|? ? Hi Hk|? He]; subst; [|exact (idle_step s ws i Reader c k q sh' l e f F C Hw Hi X (Hk q))|discriminate He].
    injection Hp as -> ->. destruct (exec_wait_inv _ _ _ _ _ Sf X) as (Hpos & refs & ->).
    apply (inv_move s ws i _ _ Waiting _ _ _ l e (f - 1) F Hw); [by exists n, polls, color|].
    specialize (Ht Waiting). recount Ht Hb. same_data Dt.
  - destruct Hs as (n & polls & color & Hp). injection Hp as -> ->. destruct (exec_wait_inv _ _ _ _ _ Se X) as (Hpos & refs & ->).
    apply (inv_move s ws i _ _ Inside _ _ _ l (e - 1) f F Hw); [by exists n, polls, color|].
    specialize (Ht Inside). recount Ht Hb. same_data Dt.
  - destruct Hs as (n & polls & color & Hp). injection Hp as -> ->. destruct (exec_load_inv _ _ _ _ X) as (Hq & ->).
    apply (inv_move s ws i _ _ Leaving _ _ _ l e f F Hw); [by exists n, polls, color, (ret q)|].
    specialize (Ht Leaving). recount Ht Hb. destruct (loaded_load (trace s) (ret q)) as [-> ->].
    rewrite (proj2 (Z.eqb_eq (f + total full ws) 1)) in Dt by lia. rewrite Dt, Hq.
    rewrite (proj2 (Z.eqb_neq _ 1)) by lia. by rewrite app_nil_r.
  - destruct Hs as (n & polls & color & ch & Hp). injection Hp as -> ->. destruct (exec_post_inv _ _ _ _ _ Se X) as (refs & ->).
    apply (inv_move s ws i _ _ Telling _ _ _ l (e + 1) f F Hw); [by exists n, polls, color, ch|].
    specialize (Ht Telling). recount Ht Hb. same_data Dt.
  - destruct Hs as (n & polls & color & ch & Hp). injection Hp as -> ->. destruct (exec_post_inv _ _ _ _ _ Sl X) as (refs & ->).
    apply (inv_move s ws i _ _ Outside _ _ _ (l + 1) e f F Hw).
    { apply toward_call; [done|]. intros r. apply consumer_outside. }
    specialize (Ht Outside). recount Ht Hb. same_data Dt.
Qed.

(** *** The start *)

(** The semaphores as [mvarCommand] opens them. *)
Definition opened (sh : shared) : Prop :=
  sems sh SEM_EXCL = Some (1, 1) ∧ sems sh SEM_SLOT_LIBRE = Some (1, 1) ∧ sems sh SEM_SLOT_LLENO = Some (0, 1).

(** The writers of these letters and the readers of these numbers. *)
Definition workers (rounds polls : nat) (letters ids : list Z) : list (prog unit) :=
  map (λ ch, producer rounds polls [msg "mvar_w"; [ch]]) letters ++
  map (λ i, consumer rounds polls [msg "mvar_r"; numToString i]) ids.
Definition start (rounds polls : nat) (letters ids : list Z) (sh : shared) : sys :=
  mkSys sh (workers rounds polls letters ids) [].

Definition roles (letters ids : list Z) : list role := map Writer letters ++ map (λ _, Reader) ids.

Lemma inv_start rounds polls letters ids sh0 : opened sh0 →
  inv (start rounds polls letters ids sh0) (map (λ r, (r, Outside)) (roles letters ids)).
Proof.
  intros (O1 & O2 & O3). split.
  - cbn [threads start]. unfold workers, roles. rewrite map_app. apply Forall2_app.
    + induction letters as [|ch letters IH]; cbn [map]; constructor; [|done]. cbn [fst snd stands].
      unfold producer. eapply toward_bind; [apply only_seed|]. intros _ _. apply producer_outside.
    + induction ids as [|i ids IH]; cbn [map]; constructor; [|done]. cbn [fst snd stands].
      unfold consumer. eapply toward_bind; [apply only_seed|]. intros _ _. apply consumer_outside.
  - exists 1, 1, 0. assert (Hz : ∀ w : worker → Z, (∀ r, w (r, Outside) = 0) → total w (map (λ r, (r, Outside)) (roles letters ids)) = 0).
    { intros w Hw. induction (roles letters ids) as [|x l IH]; cbn; [done|]. by rewrite Hw, IH. }
    split; cbn [sh trace start].
    + split_and!; by eexists.
    + lia.
    + by rewrite Hz.
    + by rewrite Hz.
    + rewrite Hz; [done|]. by intros [].
Qed.

Lemma inv_reach s s' ws : inv s ws → rtc step s s' → ∃ ws', inv s' ws' ∧ fst <$> ws' = fst <$> ws.
Proof.
  intros H R. revert ws H. induction R as [s|s s1 s' X _ IH]; intros ws H; [by exists ws|].
  destruct (inv_step _ _ _ H X) as (ws1 & H1 & E1). destruct (IH ws1 H1) as (ws2 & H2 & E2). exists ws2. by rewrite E2.
Qed.

(** *** No two at the slot *)

Definition at_slot (p : prog unit) : bool :=
  match p with Call (load slotValue) _ | Call (store slotValue _) _ => true | _ => false end.

Lemma at_slot_inside r a p : stands r a p → at_slot p = true → a = Inside.
Proof.
  destruct r as [ch|], a; cbn [stands]; intros H Hp; try done.
  - inversion H as [? (n & polls & ->)|c k Hi|? He]; subst; [done| |by destruct p]. destruct c; try done; by destruct x.
  - by destruct H as (n & polls & ->).
  - by destruct H as (n & polls & ->).
  - by destruct H as (n & polls & ->).
  - inversion H as [? (n & polls & color & ->)|c k Hi|? He]; subst; [done| |by destruct p]. destruct c; try done; by destruct x.
  - by destruct H as (n & polls & color & ->).
  - by destruct H as (n & polls & color & ch & ->).
  - by destruct H as (n & polls & color & ch & ->).
Qed.

(** *** Somebody can go on *)

Lemma can_step s i c k q sh' : threads s !! i = Some (Call c k) → exec c (sh s) q sh' → ∃ s', step s s'.
Proof. intros E X. eexists. by econstructor. Qed.

Lemma wait_can n v sh : sem_is sh n v → 0 < v → ∃ q sh', exec (sys_sem_wait n) sh q sh'.
Proof. intros [refs E] Hv. exists (mkReply 0 [] []). eexists. by eapply exec_wait. Qed.
Lemma post_can n v sh : sem_is sh n v → ∃ q sh', exec (sys_sem_post n) sh q sh'.
Proof. intros [refs E]. exists (mkReply 0 [] []). eexists. by eapply exec_post. Qed.

(** The worker that holds the token can go on: nobody else is inside. *)
Lemma holder_can s ws i r a p l e f : counts (sh s) ws (trace s) l e f → ws !! i = Some (r, a) → stands r a p →
  a ≠ Outside → ended p = false → ∃ c k q sh', p = Call c k ∧ exec c (sh s) q sh'.
Proof.
  intros [(Sl & Se & Sf) (Pl & Pe & Pf) Ex Tk _] Hw Hs Ha He.
  pose proof (total_le inside holding (<[i := (r, Outside)]> ws) ltac:(by intros [? []])) as Hle.
  destruct (totals ws i r a Outside Hw) as (T1 & T2 & _). rewrite T1, T2 in Hle.
  assert (H0 : a = Waiting → 0 < e).
  { intros ->. cbn [inside holding fst snd] in *. pose proof (total_elem holding ws i _ (λ w, proj1 (holding_range w)) Hw). cbn in *. lia. }
  destruct r as [ch|], a; try done; cbn [stands] in Hs.
  1-4: destruct Hs as (n & polls & ->).
  5-6: destruct Hs as (n & polls & color & ->).
  7-8: destruct Hs as (n & polls & color & ch & ->).
  all: eexists _, _.
  1,5: destruct (wait_can _ _ _ Se (H0 eq_refl)) as (q & sh' & X); by exists q, sh'.
  1: exists (mkReply 0 [] []); eexists; split; [done|by apply exec_store].
  3: exists (mkReply (vars (sh s) slotValue) [] []); eexists; split; [done|by apply exec_load].
  1,3: destruct (post_can _ _ _ Se) as (q & sh' & X); by exists q, sh'.
  1: destruct (post_can _ _ _ Sf) as (q & sh' & X); by exists q, sh'.
  destruct (post_can _ _ _ Sl) as (q & sh' & X); by exists q, sh'.
Qed.

Lemma somebody_can s ws : inv s ws → (∀ p, p ∈ threads s → ended p = false) →
  (∃ ch, Writer ch ∈ fst <$> ws) → Reader ∈ fst <$> ws → ∃ s', step s s'.
Proof.
  intros [F (l & e & f & C)] He (ch & Hwr) Hrd. pose proof C as [(Sl & Se & Sf) (Pl & Pe & Pf) Ex Tk _].
  assert (Hgo : ∀ i r a c k q sh', ws !! i = Some (r, a) → threads s !! i = Some (Call c k) → exec c (sh s) q sh' → ∃ s', step s s').
  { intros i r a c k q sh' _ E X. by eapply can_step. }
  assert (Hat : ∀ i r a, ws !! i = Some (r, a) → ∃ p, threads s !! i = Some p ∧ stands r a p ∧ ended p = false).
  { intros i r a Hw. destruct (Forall2_lookup_l _ _ _ _ _ F Hw) as (p & Hp & Hs). exists p. split; [done|]. split; [done|].
    apply He. by eapply list_elem_of_lookup_2. }
  destruct (Z_lt_le_dec 0 (total holding ws)) as [Hh|Hh].
  - destruct (total_pos holding ws (λ w, proj1 (holding_range w)) Hh) as (i & [r a] & Hw & Hpos).
    destruct (Hat i r a Hw) as (p & Hp & Hs & Hne).
    destruct (holder_can s ws i r a p l e f C Hw Hs) as (c & k & q & sh' & -> & X); [by intros ->|done|]. exact (Hgo _ _ _ _ _ _ _ Hw Hp X).
  - pose proof (total_nonneg holding ws (λ w, proj1 (holding_range w))).
    assert (Hout : ∀ i r a, ws !! i = Some (r, a) → a = Outside).
    { intros i r a Hw. pose proof (total_zero holding ws (λ w, proj1 (holding_range w)) ltac:(lia) i _ Hw) as E. by destruct a. }
    assert (Hr : ∃ r, r ∈ fst <$> ws ∧ match r with Writer _ => 0 < l | Reader => 0 < f end).
    { destruct (Z_lt_le_dec 0 l); [by exists (Writer ch)|exists Reader; split; [done|lia]]. }
    destruct Hr as (r & Hr & Hv). apply list_elem_of_fmap in Hr as ([r' a] & -> & Hw). apply list_elem_of_lookup_1 in Hw as [i Hw].
    cbn [fst] in Hv. rewrite (Hout _ _ _ Hw) in Hw. destruct (Hat _ _ _ Hw) as (p & Hp & Hs & Hne).
    destruct r' as [ch'|]; cbn [stands] in Hs; (inversion Hs as [? HT|c k Hi|? He']; subst; [|destruct (idle_can c (sh s) Hi) as (q & sh' & X); exact (Hgo _ _ _ _ _ _ _ Hw Hp X)|congruence]).
    + destruct HT as (n & polls & ->). destruct (wait_can _ _ _ Sl Hv) as (q & sh' & X). exact (Hgo _ _ _ _ _ _ _ Hw Hp X).
    + destruct HT as (n & polls & color & ->). destruct (wait_can _ _ _ Sf Hv) as (q & sh' & X). exact (Hgo _ _ _ _ _ _ _ Hw Hp X).
Qed.


Definition shared0 : shared :=
  mkShared (λ n, if bool_decide (n = SEM_EXCL) then Some (1, 1) else if bool_decide (n = SEM_SLOT_LIBRE) then Some (1, 1)
                 else if bool_decide (n = SEM_SLOT_LLENO) then Some (0, 1) else None) (λ _, 0).


End Mvar.
