(* ===== verification/TestSync.v ===== *)
(** * The test of the semaphores ([Userland/SampleCodeModule/test_sync.c])

    Pairs of processes add and subtract on a shared variable.  With the semaphore the final
    value is 0 in every interleaving. *)

From stdpp Require Import strings relations.
From S2P Require Import Prelude CStandard Shell Userland Threads.
Import CStandard Userland Threads.
#[local] Open Scope Z_scope.

Module TestSync.

Definition SEM_ID : list Z := msg "sem".

(** [aux] is unsigned, the variable is not. *)
Definition slowInc (inc : Z) : prog unit :=
  aux ← ask (load global);
  let aux := u64 aux in
  next ← randomNext;
  _ ← (if next mod 100 <? 30 then do_ sys_yield else mret ());
  let aux := u64 (aux + u64 inc) in
  do_ (store global (i64 aux)).

Definition when (b : bool) (p : prog unit) : prog unit := if b then p else mret ().

(** The [n] turns of the loop, and what follows it. *)
Fixpoint inc_loop (n : nat) (use_sem : bool) (inc : Z) (after : prog unit) : prog unit :=
  match n with
  | O => after
  | S n =>
    _ ← when use_sem (do_ (sys_sem_wait SEM_ID));
    _ ← slowInc inc;
    _ ← when use_sem (do_ (sys_sem_post SEM_ID));
    inc_loop n use_sem inc after
  end.

(** The early returns do not call [sys_exit]. *)
Definition my_process_inc (argv : list (list Z)) : prog unit :=
  match argv with
  | [_; a1; a2; a3] =>
    let n := u64 (stringToInt a1) in
    let inc := i8 (stringToInt a2) in
    let use_sem := i8 (stringToInt a3) in
    if n <=? 0 then mret ()
    else if inc =? 0 then mret ()
    else if use_sem <? 0 then mret ()
    else
      let use := negb (use_sem =? 0) in
      let rest := inc_loop (Z.to_nat n) use inc (_ ← when use (do_ (sys_sem_close SEM_ID)); Exit) in
      if use then
        r ← ask (sys_sem_open SEM_ID 1);
        if r <? 0 then _ ← printf (msg "test_sync: ERROR opening semaphore" ++ [10]) []; Exit
        else rest
      else rest
  | _ => mret ()
  end.

Definition usage : list Z := msg "Usage: test_sync <n_procesos> <n_iter> <use_sem>" ++ [10].

(** The pids of the decrementing and of the incrementing processes. *)
Fixpoint create_loop (n : nat) (argvDec argvInc : list (list Z)) (dec inc : list Z) : prog (list Z * list Z) :=
  match n with
  | O => mret (dec, inc)
  | S n =>
    p ← ask (sys_create_process Userland.my_process_inc argvDec (msg "my_process_inc"));
    q ← ask (sys_create_process Userland.my_process_inc argvInc (msg "my_process_inc"));
    create_loop n argvDec argvInc (dec ++ [u64 p]) (inc ++ [u64 q])
  end.
Fixpoint wait_loop (pids : list (Z * Z)) : prog unit :=
  match pids with
  | [] => mret ()
  | (p, q) :: pids => _ ← do_ (sys_waitpid (i16 p)); _ ← do_ (sys_waitpid (i16 q)); wait_loop pids
  end.

(** The message is written with its terminator: [sizeof] counts it. *)
Definition test_sync_command (argv : list (list Z)) : prog unit :=
  match argv with
  | [_; a1; a2; a3] =>
    if (stringToInt a1 <=? 0) || (stringToInt a2 <=? 0) ||
       (negb (stringToInt a3 =? 0) && negb (stringToInt a3 =? 1))
    then _ ← do_ (sys_write STDERR (usage ++ [0])); Exit
    else
      let n_procesos := stringToInt a1 in
      let argvDec := [msg "my_process_inc"; a2; msg "-1"; a3] in
      let argvInc := [msg "my_process_inc"; a2; msg "1"; a3] in
      _ ← do_ (store global 0);
      '(dec, inc) ← create_loop (Z.to_nat n_procesos) argvDec argvInc [] [];
      _ ← wait_loop (zip dec inc);
      v ← ask (load global);
      _ ← printf (msg "Final value: %d" ++ [10]) [AInt v];
      Exit
  | _ => _ ← do_ (sys_write STDERR (usage ++ [0])); Exit
  end.

(** ** Where a process stands *)

Definition finish : prog unit := _ ← do_ (sys_sem_close SEM_ID); Exit.
Definition s_post (k : nat) (inc : Z) : prog unit := _ ← do_ (sys_sem_post SEM_ID); inc_loop k true inc finish.
Definition s_store (k : nat) (inc aux : Z) : prog unit :=
  _ ← do_ (store global (i64 (u64 (u64 aux + u64 inc)))); s_post k inc.
Definition s_load (k : nat) (inc : Z) : prog unit := _ ← slowInc inc; s_post k inc.

Inductive place :=
  | Opening                     (* before the semaphore is open *)
  | Turn (left : nat)           (* at the head of the loop *)
  | Loading (left : nat)        (* inside, before the read *)
  | Adding (left : nat) (aux : Z)   (* inside, with the value read *)
  | Posting (left : nat)        (* inside, after the write *)
  | Gone                        (* the semaphore is closed *)
  | Failed.                     (* the semaphore could not be opened *)

Definition opening (N : nat) (inc : Z) : prog unit :=
  r ← ask (sys_sem_open SEM_ID 1);
  if r <? 0 then _ ← printf (msg "test_sync: ERROR opening semaphore" ++ [10]) []; Exit
  else inc_loop N true inc finish.

Definition stands (N : nat) (inc : Z) (a : place) (p : prog unit) : Prop :=
  match a with
  | Opening => p = opening N inc
  | Turn k => p = inc_loop k true inc finish ∧ (k <= N)%nat
  | Loading k => p = s_load k inc ∧ (k < N)%nat
  | Adding k aux => surely (λ p, p = s_store k inc aux) p ∧ (k < N)%nat
  | Posting k => p = s_post k inc ∧ (k < N)%nat
  | Gone => p = Exit
  | Failed => toward idle (λ _, False) p
  end.

Notation worker := (Z * place)%type.
(** Having the semaphore open, being inside, and the iterations left. *)
Definition has_open (w : worker) : Z := match snd w with Opening | Gone | Failed => 0 | _ => 1 end.
Definition inside (w : worker) : Z := match snd w with Loading _ | Adding _ _ | Posting _ => 1 | _ => 0 end.
Definition left (N : nat) (a : place) : Z :=
  match a with
  | Opening | Failed => Z.of_nat N
  | Turn k | Posting k => Z.of_nat k
  | Loading k | Adding k _ => Z.of_nat k + 1
  | Gone => 0
  end.
(** What the process has added so far. *)
Definition added (N : nat) (w : worker) : Z := fst w * (Z.of_nat N - left N (snd w)).

(** ** The invariant *)

(** The semaphore exists while somebody has it open, and has its token unless somebody is
    inside. *)
Definition sem_ok (o : option (Z * Z)) (opens insides : Z) : Prop :=
  match o with
  | None => opens = 0 ∧ insides = 0
  | Some (v, refs) => refs = opens ∧ 0 < refs ∧ 0 ≤ v ∧ v + insides = 1
  end.

Definition failure : call * Z := (sys_sem_open SEM_ID 1, -1).

Record inv (N : nat) (s : sys) (ws : list worker) : Prop := {
  iv_stands : Forall2 (λ w p, stands N (fst w) (snd w) p) ws (threads s);
  iv_sem : sem_ok (sems (sh s) SEM_ID) (total has_open ws) (total inside ws);
  iv_global : vars (sh s) global = i64 (total (added N) ws);
  iv_read : ∀ i inc k aux, ws !! i = Some (inc, Adding k aux) → aux = vars (sh s) global;
  iv_failed : ∀ i inc, ws !! i = Some (inc, Failed) → failure ∈ trace s;
}.

Lemma sync_inside_range w : 0 ≤ inside w ≤ has_open w ∧ has_open w ≤ 1.
Proof. by destruct w as [inc []]. Qed.
Lemma sync_inside_nonneg w : 0 ≤ inside w.
Proof. apply sync_inside_range. Qed.
Lemma sem_ok_inside o opens insides : sem_ok o opens insides → insides ≤ 1.
Proof. destruct o as [[v refs]|]; cbn; lia. Qed.

Lemma i64_add a b : i64 (u64 (u64 (i64 a) + u64 b)) = i64 (a + b).
Proof.
  assert (E : wrap 64 (i64 a) = wrap 64 a).
  { unfold i64, swrap, wrap. destruct (_ <? _); [by rewrite Z.mod_mod|].
    rewrite <- (Z_mod_plus_full (_ - _) 1), Z.mul_1_l, Z.sub_add. by rewrite Z.mod_mod. }
  unfold u64. rewrite E. unfold i64, swrap, wrap. by rewrite Z.mod_mod, <- Zplus_mod.
Qed.

Section Moves.
Context (N : nat) (s : sys) (ws : list worker) (I : inv N s ws).

(** One process moves from [a] to [a'], the semaphore and the variable change as it says. *)
Lemma sync_inv_move i inc a a' p' sh' tr' : ws !! i = Some (inc, a) → stands N inc a' p' →
  sem_ok (sems sh' SEM_ID) (total has_open ws - has_open (inc, a) + has_open (inc, a'))
    (total inside ws - inside (inc, a) + inside (inc, a')) →
  vars sh' global = i64 (total (added N) ws - added N (inc, a) + added N (inc, a')) →
  vars sh' global = vars (sh s) global ∨ inside (inc, a) = 1 →
  (∀ k aux, a' = Adding k aux → aux = vars sh' global) →
  (a' = Failed → a = Failed ∨ failure ∈ tr') → trace s ⊆ tr' →
  inv N (mkSys sh' (<[i := p']> (threads s)) tr') (<[i := (inc, a')]> ws).
Proof.
  destruct I as [F S G R Fl]. intros Hw Hs Hsem Hg Hv Ha Hf Htr. split; cbn [threads sh trace].
  - by apply Forall2_insert.
  - by rewrite !(total_insert _ _ _ _ _ Hw).
  - by rewrite (total_insert _ _ _ _ _ Hw).
  - intros j inc' k aux Hj. destruct (decide (i = j)) as [<-|Hij].
    { rewrite list_lookup_insert_eq in Hj by (by eapply lookup_lt_Some). injection Hj as -> ->. by eapply Ha. }
    rewrite list_lookup_insert_ne in Hj by done. destruct Hv as [->|Hi]; [by eapply R|].
    pose proof (total_two inside ws i j _ _ sync_inside_nonneg Hij Hw Hj). pose proof (sem_ok_inside _ _ _ S). cbn in *. lia.
  - intros j inc' Hj. destruct (decide (i = j)) as [<-|Hij].
    { rewrite list_lookup_insert_eq in Hj by (by eapply lookup_lt_Some). injection Hj as -> ->.
      destruct (Hf eq_refl) as [->|]; [|done]. apply Htr. by eapply Fl. }
    rewrite list_lookup_insert_ne in Hj by done. apply Htr. by eapply Fl.
Qed.

End Moves.

Lemma loading_toward k inc aux : ∃ k', s_load k inc = Call (load global) k' ∧
  ∀ q, ret q = aux → surely (λ p, p = s_store k inc aux) (k' q).
Proof.
  eexists. split; [reflexivity|]. intros q <-. apply surely_call; [done|]. intros r. apply surely_call; [done|]. intros r'.
  cbn. destruct (_ <? 30); [apply surely_call; [done|]; intros r''|]; by apply surely_here.
Qed.

Lemma opening_call N inc : ∃ k, opening N inc = Call (sys_sem_open SEM_ID 1) k ∧
  ∀ q, (ret q < 0 → stands N inc Failed (k q)) ∧ (0 ≤ ret q → k q = inc_loop N true inc finish).
Proof.
  eexists. split; [reflexivity|]. intros q. cbn [pbind]. split; intros Hq.
  - rewrite (proj2 (Z.ltb_lt _ _) Hq). eapply toward_bind; [apply only_putAll|]. intros _ _. by apply toward_end.
  - by rewrite (proj2 (Z.ltb_ge _ _) Hq).
Qed.

(** Somebody who has the semaphore open finds it. *)
Lemma opened_sem N s ws i w : inv N s ws → ws !! i = Some w → has_open w = 1 →
  ∃ v refs, sems (sh s) SEM_ID = Some (v, refs) ∧ refs = total has_open ws ∧ 1 ≤ refs ∧ 0 ≤ v ∧ v + total inside ws = 1.
Proof.
  intros I Hw Ho. pose proof (iv_sem _ _ _ I) as S.
  pose proof (total_elem has_open ws i w (λ w, Z.le_trans _ _ _ (proj1 (proj1 (sync_inside_range w))) (proj2 (proj1 (sync_inside_range w)))) Hw).
  destruct (sems (sh s) SEM_ID) as [[v refs]|]; cbn in S; [|lia]. exists v, refs. split; [done|lia].
Qed.

Ltac moves I place H :=
  match type of H with
  | ?ws !! ?i = Some (?inc, ?a) => exists (<[i := (inc, place)]> ws); split; [apply (sync_inv_move _ _ _ I i inc a place)|rewrite list_fmap_insert; cbn; apply list_insert_id; by rewrite list_lookup_fmap, H]
  end.

Lemma sync_step N s s' ws : inv N s ws → step s s' → ∃ ws', inv N s' ws' ∧ fst <$> ws' = fst <$> ws.
Proof.
  intros I X. destruct X as [s i c k q sh' E X].
  destruct (Forall2_lookup_r _ _ _ _ _ (iv_stands _ _ _ I) E) as ([inc a] & Hw & Hs). cbn [fst snd] in Hs.
  pose proof (iv_sem _ _ _ I) as S. pose proof (iv_global _ _ _ I) as G.
  assert (Hopen : has_open (inc, a) = 1 → _) by exact (opened_sem N s ws i _ I Hw).
  destruct a as [|n|n|n aux|n| |]; cbn [stands] in Hs.
  - destruct (opening_call N inc) as (k' & Ek & Hk). rewrite Ek in Hs. injection Hs as -> ->.
    destruct (exec_open_inv _ _ _ _ _ X) as [(En & Hq & ->)|[(v & refs & En & Hq & ->)|[Hq ->]]]; rewrite ?En in S; cbn in S.
    + moves I (Turn N) Hw; [done|split; [by apply Hk; lia|lia]|rewrite set_sem_here; cbn; lia|cbn [vars set_sem]; rewrite G; f_equal; unfold added; cbn; lia|by left|done|done|set_solver].
    + moves I (Turn N) Hw; [done|split; [by apply Hk; lia|lia]|rewrite set_sem_here; cbn; lia|cbn [vars set_sem]; rewrite G; f_equal; unfold added; cbn; lia|by left|done|done|set_solver].
    + moves I Failed Hw; [done|apply Hk; lia|cbn; rewrite !Z.sub_0_r, !Z.add_0_r; done|rewrite G; f_equal; unfold added; cbn; lia|by left|done|right; rewrite Hq; set_solver|set_solver].
  - destruct Hs as [Hp Hn]. destruct Hopen as (v & refs & En & S1 & S2 & S3 & S4); [done|]. destruct n as [|n].
    + injection Hp as -> ->. pose proof (exec_close_inv _ _ _ _ _ _ En X) as ->.
      pose proof (total_le inside has_open (<[i := (inc, Gone)]> ws) (λ w, proj2 (proj1 (sync_inside_range w)))) as Hle.
      rewrite !(total_insert _ _ _ _ _ Hw) in Hle. cbn in Hle. pose proof (total_nonneg inside (<[i := (inc, Gone)]> ws) sync_inside_nonneg) as Hge.
      rewrite !(total_insert _ _ _ _ _ Hw) in Hge. cbn in Hge.
      moves I Gone Hw; [done|done|rewrite set_sem_here; destruct (Z.leb_spec (refs - 1) 0); cbn; lia|cbn [vars set_sem]; rewrite G; f_equal; unfold added; cbn; lia|by left|done|done|set_solver].
    + injection Hp as -> ->. destruct (exec_wait_token _ _ _ _ _ _ En X) as [Hv ->].
      moves I (Loading n) Hw; [done|split; [done|lia]|rewrite set_sem_here; cbn; lia|cbn [vars set_sem]; rewrite G; f_equal; unfold added; cbn; lia|by left|done|done|set_solver].
  - destruct Hs as [Hp Hn]. destruct (loading_toward n inc (ret q)) as (k' & Ek & Hk). rewrite Ek in Hp. injection Hp as -> ->.
    destruct (exec_load_inv _ _ _ _ X) as [Hret ->].
    moves I (Adding n (ret q)) Hw; [done|split; [by apply Hk|done]|cbn; rewrite !Z.sub_add; done|rewrite G; f_equal; unfold added; cbn; lia|by left|by intros ? ? [= _ <-]|done|set_solver].
  - destruct Hs as [Hp Hn]. destruct Hopen as (v & refs & En & S1 & S2 & S3 & S4); [done|].
    inversion Hp as [? Hst|? ? Hi Hk]; subst.
    + injection Hst as -> ->. pose proof (exec_store_inv _ _ _ _ _ X) as ->.
      pose proof (iv_read _ _ _ I _ _ _ _ Hw) as ->.
      moves I (Posting n) Hw; [done|split; [done|done]|cbn [sems set_var]; rewrite En; cbn; lia|rewrite set_var_here, G, i64_add; f_equal; unfold added; cbn; lia|by right|done|done|set_solver].
    + destruct (idle_exec _ _ _ _ Hi X) as (E1 & _ & E2).
      moves I (Adding n aux) Hw; [done|split; [apply Hk|done]|rewrite E1, En; cbn; lia|rewrite E2, G; f_equal; unfold added; cbn; lia|by left|intros ? ? [= _ <-]; rewrite E2; by eapply iv_read|done|set_solver].
  - destruct Hs as [Hp Hn]. destruct Hopen as (v & refs & En & S1 & S2 & S3 & S4); [done|].
    injection Hp as -> ->. pose proof (exec_post_token _ _ _ _ _ _ En X) as ->.
    moves I (Turn n) Hw; [done|split; [done|lia]|rewrite set_sem_here; cbn; lia|cbn [vars set_sem]; rewrite G; f_equal; unfold added; cbn; lia|by left|done|done|set_solver].
  - discriminate Hs.
  - inversion Hs as [? []|? ? Hi Hk|? He]; subst; [|discriminate He].
    destruct (idle_exec _ _ _ _ Hi X) as (E1 & _ & E2).
    moves I Failed Hw; [done|apply Hk|rewrite E1; cbn; rewrite !Z.sub_0_r, !Z.add_0_r; done|rewrite E2, G; f_equal; unfold added; cbn; lia|by left|done|by left|set_solver].
Qed.

(** ** The start and the end *)

(** The processes that [create_loop] creates. *)
Definition pair (n_iter : list Z) : list (prog unit) :=
  [my_process_inc [msg "my_process_inc"; n_iter; msg "-1"; msg "1"];
   my_process_inc [msg "my_process_inc"; n_iter; msg "1"; msg "1"]].
Definition start (n : nat) (n_iter : list Z) (sh : shared) : sys := mkSys sh (concat (replicate n (pair n_iter))) [].
Definition incs (n : nat) : list Z := concat (replicate n [-1; 1]).

Lemma pair_opening N n_iter : stringToInt n_iter = Z.of_nat N → (0 < N)%nat → Z.of_nat N < 2 ^ 63 →
  pair n_iter = [opening N (-1); opening N 1].
Proof.
  intros E HN Hb. unfold pair, my_process_inc. rewrite E, u64_small by lia. rewrite (proj2 (Z.leb_gt _ _)) by lia.
  rewrite Nat2Z.id.
  change (i8 (stringToInt (msg "1"))) with 1. change (i8 (stringToInt (msg "-1"))) with (-1). reflexivity.
Qed.

Lemma concat_replicate_map {A B} (f : A → B) n l : concat (replicate n (map f l)) = map f (concat (replicate n l)).
Proof. induction n as [|n IH]; cbn; [done|]. by rewrite map_app, IH. Qed.
Lemma sum_incs n : total id (incs n) = 0.
Proof. induction n as [|n IH]; [done|]. unfold incs in *. cbn. lia. Qed.

Definition opening_all (n : nat) : list worker := map (λ inc, (inc, Opening)) (incs n).

Lemma total_opening w n : (∀ inc, w (inc, Opening) = 0) → total w (opening_all n) = 0.
Proof. intros H. apply total_same. intros a Ha. apply list_elem_of_fmap in Ha as (inc & -> & _). apply H. Qed.

Lemma sync_start N n n_iter sh0 : stringToInt n_iter = Z.of_nat N → (0 < N)%nat → Z.of_nat N < 2 ^ 63 →
  sems sh0 SEM_ID = None → vars sh0 global = 0 → inv N (start n n_iter sh0) (opening_all n).
Proof.
  intros E HN Hb Hs Hv. split; cbn [threads sh trace start].
  - rewrite (pair_opening N) by done. change [opening N (-1); opening N 1] with (map (opening N) [-1; 1]).
    rewrite concat_replicate_map. fold (incs n). unfold opening_all. induction (incs n); constructor; done.
  - rewrite Hs. split; by apply total_opening.
  - rewrite Hv, total_opening; [done|]. intros inc. unfold added. cbn. lia.
  - intros i inc k aux H. apply list_elem_of_lookup_2, list_elem_of_fmap in H as (? & ? & _). done.
  - intros i inc H. apply list_elem_of_lookup_2, list_elem_of_fmap in H as (? & ? & _). done.
Qed.

Lemma sync_reach N s s' ws : inv N s ws → rtc step s s' → ∃ ws', inv N s' ws' ∧ fst <$> ws' = fst <$> ws.
Proof.
  intros H R. revert ws H. induction R as [s|s s1 s' X _ IH]; intros ws H; [by exists ws|].
  destruct (sync_step _ _ _ _ H X) as (ws1 & H1 & E1). destruct (IH ws1 H1) as (ws2 & H2 & E2). exists ws2. by rewrite E2.
Qed.

(** The processes that read or write the variable. *)
Definition at_global (p : prog unit) : bool :=
  match p with Call (load global) _ | Call (store global _) _ => true | _ => false end.

Lemma idle_at_global c k : idle c = true → at_global (Call c k) = false.
Proof. destruct c; try done; by destruct x. Qed.

Lemma at_global_inside N inc a p : stands N inc a p → at_global p = true → inside (inc, a) = 1.
Proof.
  destruct a as [|n|n|n aux|n| |]; cbn [stands]; intros Hs Hp; try done.
  - destruct (opening_call N inc) as (k & Ek & _). rewrite Hs, Ek in Hp. done.
  - destruct Hs as [-> _]. destruct n; done.
  - by rewrite Hs in Hp.
  - inversion Hs as [? []|? ? Hi Hk|? He]; subst; [by rewrite idle_at_global in Hp|]. by destruct p.
Qed.

Lemma sync_can N s ws i inc a p : inv N s ws → ws !! i = Some (inc, a) → stands N inc a p → ended p = false →
  inside (inc, a) = 1 ∨ total inside ws = 0 → ∃ c k q sh', p = Call c k ∧ exec c (sh s) q sh'.
Proof.
  intros I Hw Hs He Hi. pose proof (iv_sem _ _ _ I) as S.
  assert (Hopen : has_open (inc, a) = 1 → _) by exact (opened_sem N s ws i _ I Hw).
  destruct a as [|n|n|n aux|n| |]; cbn [stands] in Hs.
  - destruct (opening_call N inc) as (k & Ek & _). rewrite Hs, Ek.
    destruct (sems (sh s) SEM_ID) as [[v refs]|] eqn:En; exists (sys_sem_open SEM_ID 1), k, (mkReply 0 [] []); eexists;
      (split; [done|]); [by eapply exec_open_again|by apply exec_open].
  - destruct Hs as [-> _]. destruct Hopen as (v & refs & En & _ & _ & _ & Hv); [done|]. destruct Hi as [Hi|Hi]; [done|].
    destruct n as [|n]; eexists _, _, (mkReply 0 [] []); eexists; (split; [reflexivity|]); [by eapply exec_close|eapply exec_wait; [done|lia|done]].
  - destruct Hs as [-> _]. eexists _, _, (mkReply (vars (sh s) global) [] []), (sh s). split; [reflexivity|]. by apply exec_load.
  - destruct Hs as [Hp _]. inversion Hp as [? Hst|? ? Hc Hk]; subst.
    + eexists _, _, (mkReply 0 [] []). eexists. split; [reflexivity|]. by apply exec_store.
    + destruct (idle_can c (sh s) Hc) as (q & sh' & X). by eexists _, _, q, sh'.
  - destruct Hs as [-> _]. destruct Hopen as (v & refs & En & _); [done|]. eexists _, _, (mkReply 0 [] []). eexists. split; [reflexivity|]. by eapply exec_post.
  - by rewrite Hs in He.
  - inversion Hs as [? []|? ? Hc Hk|? He']; subst; [|congruence].
    destruct (idle_can c (sh s) Hc) as (q & sh' & X). by eexists _, _, q, sh'.
Qed.

Lemma sync_progress N s ws : inv N s ws → (∃ s', step s s') ∨ ∀ p, p ∈ threads s → ended p = true.
Proof.
  intros I. pose proof (iv_stands _ _ _ I) as F. pose proof (sem_ok_inside _ _ _ (iv_sem _ _ _ I)) as H1.
  assert (Hgo : ∀ i w p, ws !! i = Some w → threads s !! i = Some p → ended p = false → inside w = 1 ∨ total inside ws = 0 → ∃ s', step s s').
  { intros i [inc a] p Hw Hp He Hi. pose proof (Forall2_lookup_lr _ _ _ _ _ _ F Hw Hp) as Hs.
    destruct (sync_can _ _ _ _ _ _ _ I Hw Hs He Hi) as (c & k & q & sh' & -> & X). eexists. by econstructor. }
  destruct (Z.eq_dec (total inside ws) 0) as [H0|H0].
  - destruct (decide (Forall (λ p, ended p = true) (threads s))) as [Ha|Ha].
    + right. intros p Hp. rewrite Forall_forall in Ha. by apply Ha, list_elem_of_In.
    + left. apply not_Forall_Exists in Ha; [|apply _]. apply Exists_exists in Ha as (p & Hp & He).
      apply list_elem_of_In, list_elem_of_lookup_1 in Hp as [i Hp]. destruct (Forall2_lookup_r _ _ _ _ _ F Hp) as (w & Hw & _).
      apply (Hgo i w p Hw Hp); [unfold compose in He; by destruct (ended p)|by right].
  - left. pose proof (total_nonneg inside ws sync_inside_nonneg). destruct (total_pos inside ws sync_inside_nonneg) as (i & [inc a] & Hw & Hpos); [lia|].
    destruct (Forall2_lookup_l _ _ _ _ _ F Hw) as (p & Hp & Hs). cbn in Hs.
    destruct a as [|n|n|n aux|n| |]; cbn in Hpos; try lia.
    + apply (Hgo i _ p Hw Hp); [by destruct Hs as [-> _]|by left].
    + apply (Hgo i _ p Hw Hp); [|by left]. destruct Hs as [Hs _]. by inversion Hs; subst.
    + apply (Hgo i _ p Hw Hp); [by destruct Hs as [-> _]|by left].
Qed.

(** ** The property *)


Definition shared1 : shared := mkShared (λ _, None) (λ _, 0).

End TestSync.
