(* ===== verification/TestProc.v ===== *)
(** * The test of the scheduler ([Userland/SampleCodeModule/test_proc.c])

    The test creates processes and kills, blocks and unblocks them at random.  On a system that
    keeps its processes as it should, it never reports an error. *)

From stdpp Require Import strings.
From S2P Require Import Prelude CStandard Shell Userland Threads.
Import CStandard Userland Threads.
#[local] Open Scope Z_scope.

Module TestProc.

Inductive State := RUNNING | BLOCKED | KILLED.
Record p_rq := mkRq { pid : Z; state : State }.

Definition error (s : string) {A} : prog A := _ ← printf (line s) []; Exit.

(** The array and the count of the processes that live. *)
Notation table := (list p_rq * Z)%type.

(** The counter is a byte: a loop of more than 256 turns never ends. *)
Definition TURNS : nat := 257.

Fixpoint create_loop (turns : nat) (max_processes rq : Z) (t : table) : prog table :=
  match turns with
  | O => Later
  | S turns =>
    if rq <? max_processes then
      p ← ask (sys_create_process Userland.endless_loop [] (msg "endless_loop"));
      let p := i32 p in
      if p =? -1 then error "test_processes: ERROR creating process"
      else create_loop turns max_processes (u8 (rq + 1)) (<[Z.to_nat rq := mkRq p RUNNING]> t.1, u8 (t.2 + 1))
    else mret t
  end.

(** The two actions on the process [rq]. *)
Definition kill_one (rq : Z) (t : table) : prog table :=
  match t.1 !! Z.to_nat rq with
  | None => Undefined
  | Some e =>
    match state e with
    | RUNNING | BLOCKED =>
      r ← ask (sys_kill (i16 (pid e)));
      if r =? -1 then error "test_processes: ERROR killing process"
      else
        _ ← do_ (sys_waitpid (i16 (pid e)));
        mret (<[Z.to_nat rq := mkRq (pid e) KILLED]> t.1, u8 (t.2 - 1))
    | KILLED => mret t
    end
  end.
Definition block_one (rq : Z) (t : table) : prog table :=
  match t.1 !! Z.to_nat rq with
  | None => Undefined
  | Some e =>
    match state e with
    | RUNNING =>
      r ← ask (sys_block (i16 (pid e)));
      if r =? -1 then error "test_processes: ERROR blocking process"
      else mret (<[Z.to_nat rq := mkRq (pid e) BLOCKED]> t.1, t.2)
    | _ => mret t
    end
  end.
(** [randomNext] is called only for a blocked process. *)
Definition unblock_one (rq : Z) (t : table) : prog table :=
  match t.1 !! Z.to_nat rq with
  | None => Undefined
  | Some e =>
    match state e with
    | BLOCKED =>
      next ← randomNext;
      if next mod 2 =? 0 then mret t
      else
        r ← ask (sys_unblock (i16 (pid e)));
        if r =? -1 then error "test_processes: ERROR unblocking process"
        else mret (<[Z.to_nat rq := mkRq (pid e) RUNNING]> t.1, t.2)
    | _ => mret t
    end
  end.
Definition act_one (rq : Z) (t : table) : prog table :=
  next ← randomNext;
  if u8 (next mod 2) =? 0 then kill_one rq t else block_one rq t.

Fixpoint for_each (turns : nat) (one : Z → table → prog table) (max_processes rq : Z) (t : table) : prog table :=
  match turns with
  | O => Later
  | S turns =>
    if rq <? max_processes then t ← one rq t; for_each turns one max_processes (u8 (rq + 1)) t else mret t
  end.

Fixpoint alive_loop (rounds : nat) (max_processes : Z) (t : table) : prog table :=
  match rounds with
  | O => Later
  | S rounds =>
    if 0 <? t.2 then
      t ← for_each TURNS act_one max_processes 0 t;
      t ← for_each TURNS unblock_one max_processes 0 t;
      alive_loop rounds max_processes t
    else mret t
  end.
Fixpoint test_loop (rounds polls : nat) (max_processes : Z) (t : table) : prog unit :=
  match rounds with
  | O => Later
  | S rounds =>
    t ← create_loop TURNS max_processes 0 t;
    t ← alive_loop polls max_processes t;
    test_loop rounds polls max_processes t
  end.

(** [endless_loop] makes no call.  The array of [test_proc_command] starts with no value: every
    entry is set before it is read.  The text of the warning goes with its terminator. *)
Definition endless_loop (argv : list (list Z)) : prog unit := Later.
Definition too_many : list Z := line "test_proc: max_processes demasiado grande, ajustado para el maximo disponible" ++ [0].
Definition test_proc_command (rounds polls : nat) (argv : list (list Z)) : prog unit :=
  match argv with
  | [_; a1] =>
    let parsed := stringToInt a1 in
    most ← ask sys_get_max_processes;
    used ← ask sys_get_processes_count;
    let limit := i64 (most - used) in
    if parsed <=? 0 then _ ← do_ (sys_write STDERR (line "test_proc: invalido")); Exit
    else
      max_processes ← (if limit <? parsed then _ ← do_ (sys_write STDERR too_many); mret (u64 limit) else mret (u64 parsed));
      test_loop rounds polls max_processes (replicate (Z.to_nat max_processes) (mkRq 0 KILLED), 0)
  | _ => _ ← do_ (sys_write STDERR (line "Usage: test_proc <max_processes>")); Exit
  end.

(** ** A system that keeps its processes *)

Inductive status := Alive | Asleep | Dead.
Record world := mkWorld { procs : gmap Z status; rng : Z }.

Section System.
Context (most : Z) (fresh : gmap Z status → Z).

Definition change (w : world) (p : Z) (ok : bool) (f : gmap Z status → gmap Z status) : reply * world :=
  if ok then (mkReply 0 [] [], mkWorld (f (procs w)) (rng w)) else (mkReply (-1) [] [], w).

(** A process can be killed while it lives, waited for when it is dead, blocked when it is not
    blocked and unblocked when it is. *)
Definition answer (w : world) (c : call) : reply * world :=
  match c with
  | sys_create_process _ _ _ =>
    let p := fresh (procs w) in (mkReply p [] [], mkWorld (<[p := Alive]> (procs w)) (rng w))
  | sys_kill p => change w p (match procs w !! p with Some Alive | Some Asleep => true | _ => false end) (λ m, <[p := Dead]> m)
  | sys_waitpid p => change w p (match procs w !! p with Some Dead => true | _ => false end) (λ m, delete p m)
  | sys_block p => change w p (match procs w !! p with Some Alive => true | _ => false end) (λ m, <[p := Asleep]> m)
  | sys_unblock p => change w p (match procs w !! p with Some Asleep => true | _ => false end) (λ m, <[p := Alive]> m)
  | sys_get_max_processes => (mkReply most [] [], w)
  | sys_get_processes_count => (mkReply (Z.of_nat (size (procs w))) [] [], w)
  | load rngCurrent => (mkReply (rng w) [] [], w)
  | store rngCurrent v => (mkReply 0 [] [], mkWorld (procs w) v)
  | _ => (mkReply 0 [] [], w)
  end.

End System.

(** ** The invariant *)

Definition live (e : p_rq) : Z := match state e with KILLED => 0 | _ => 1 end.
Definition status_of (s : State) : status := match s with BLOCKED => Asleep | _ => Alive end.

Section Proof.
Context (most : Z) (fresh : gmap Z status → Z) (base : gmap Z status) (max : Z).
Context (Hfresh : ∀ m, Z.of_nat (size m) < most → m !! fresh m = None ∧ 0 ≤ fresh m < 2 ^ 15).
Context (Hmax : 0 ≤ max ≤ 255) (Hroom : Z.of_nat (size base) + max ≤ most).

Notation run := (run (answer most fresh)).

(** The processes are those of before and, apart from them, those of the array that live; the
    counter is their number. *)
Record good (t : table) (w : world) : Prop := {
  gd_len : length t.1 = Z.to_nat max;
  gd_live : ∀ i e, t.1 !! i = Some e → live e = 1 →
    0 ≤ pid e < 2 ^ 15 ∧ procs w !! pid e = Some (status_of (state e)) ∧ base !! pid e = None;
  gd_one : ∀ i j e f, t.1 !! i = Some e → t.1 !! j = Some f → live e = 1 → live f = 1 → pid e = pid f → i = j;
  gd_base : ∀ p s, base !! p = Some s → procs w !! p = Some s;
  gd_size : Z.of_nat (size (procs w)) = Z.of_nat (size base) + t.2;
  gd_alive : t.2 = total live t.1;
}.

Lemma live_range e : 0 ≤ live e ≤ 1.
Proof. unfold live. destruct (state e); lia. Qed.
Lemma total_len (l : list p_rq) : 0 ≤ total live l ≤ len l.
Proof. induction l as [|e l IH]; cbn [total length]; [lia|]. pose proof (live_range e). lia. Qed.
Lemma alive_range t w : good t w → 0 ≤ t.2 ≤ max.
Proof. intros G. rewrite (gd_alive _ _ G). pose proof (total_len t.1). rewrite (gd_len _ _ G) in *. lia. Qed.

(** The entry [i] becomes [e'], the processes [m]. *)
Lemma good_update t w i e e' m al r : good t w → t.1 !! i = Some e → al = t.2 - live e + live e' →
  (live e' = 1 → 0 ≤ pid e' < 2 ^ 15 ∧ m !! pid e' = Some (status_of (state e')) ∧ base !! pid e' = None) →
  (∀ p, p ≠ pid e → p ≠ pid e' → m !! p = procs w !! p) →
  (live e = 1 → pid e' = pid e) → (live e = 0 → live e' = 1 ∧ procs w !! pid e' = None ∧ (pid e ≠ pid e' → m !! pid e = procs w !! pid e)) →
  Z.of_nat (size m) = Z.of_nat (size base) + al →
  good (<[i := e']> t.1, al) (mkWorld m r).
Proof.
  intros [G1 G2 G3 G4 G5 G6] Hi Hal H1 Hm He Hk Hs.
  assert (Hlt : (i < length t.1)%nat) by (by eapply lookup_lt_Some).
  (* the other entries that live have another pid *)
  assert (Ho : ∀ j f, i ≠ j → t.1 !! j = Some f → live f = 1 → m !! pid f = procs w !! pid f ∧ (live e' = 1 → pid f ≠ pid e')).
  { intros j f Hij Hj Hf. destruct (G2 j f Hj Hf) as (_ & Hp & _). destruct (Z.eq_dec (live e) 1) as [El|El].
    - rewrite (He El) in *. assert (pid f ≠ pid e) by (intros E; destruct Hij; by eapply (G3 i j)). split; [by apply Hm|done].
    - destruct Hk as (_ & Hn & Hsame); [pose proof (live_range e); lia|].
      assert (pid f ≠ pid e') by (intros E; rewrite E, Hn in Hp; discriminate). split; [|done].
      destruct (Z.eq_dec (pid f) (pid e)) as [E|E]; [|by apply Hm]. rewrite E in *. by apply Hsame. }
  split; cbn [fst snd procs].
  - by rewrite length_insert.
  - intros j f Hj Hf. destruct (decide (i = j)) as [<-|Hij].
    + rewrite list_lookup_insert_eq in Hj by done. injection Hj as <-. by apply H1.
    + rewrite list_lookup_insert_ne in Hj by done. rewrite (proj1 (Ho j f Hij Hj Hf)). by apply (G2 j).
  - intros j k f g Hj Hk' Hf Hg E. destruct (decide (i = j)) as [<-|Hij], (decide (i = k)) as [<-|Hik]; try done.
    + rewrite list_lookup_insert_eq in Hj by done. injection Hj as <-. rewrite list_lookup_insert_ne in Hk' by done.
      by destruct (proj2 (Ho k g Hik Hk' Hg) Hf).
    + rewrite list_lookup_insert_eq in Hk' by done. injection Hk' as <-. rewrite list_lookup_insert_ne in Hj by done.
      by destruct (proj2 (Ho j f Hij Hj Hf) Hg).
    + rewrite list_lookup_insert_ne in Hj, Hk' by done. by eapply (G3 j k).
  - intros p s Hb. pose proof (G4 p s Hb) as Hp. destruct (Z.eq_dec (live e) 1) as [El|El].
    + destruct (G2 i e Hi El) as (_ & _ & Hne). rewrite Hm; [done| |]; [intros ->; congruence|rewrite (He El); intros ->; congruence].
    + destruct Hk as (_ & Hn & Hsame); [pose proof (live_range e); lia|]. assert (p ≠ pid e') by (intros ->; congruence).
      destruct (Z.eq_dec p (pid e)) as [->|E]; [|by rewrite Hm]. by rewrite Hsame.
  - done.
  - rewrite (total_insert _ _ _ _ _ Hi). lia.
Qed.

(** A program that comes to an end in a good state. *)
Definition keeps : prog table → world → Prop := returns (answer most fresh) good.

Lemma keeps_ret t w : good t w → keeps (mret t) w.
Proof. apply goes_ret. Qed.
Lemma keeps_call c k w : written STDOUT [c] = [] → keeps (k (answer most fresh w c).1) (answer most fresh w c).2 → keeps (Call c k) w.
Proof. apply goes_call. Qed.

(** The random numbers change nothing. *)
Lemma good_rng t w r : good t w → good t (mkWorld (procs w) r).
Proof. by intros []. Qed.
Lemma keeps_random f w t : good t w → (∀ v w', good t w' → keeps (f v) w') → keeps (randomNext ≫= f) w.
Proof.
  intros G H. apply keeps_call; [done|]. cbn. apply keeps_call; [done|]. cbn. apply H. by apply good_rng.
Qed.

Lemma entry_at t w rq : good t w → 0 ≤ rq < max → ∃ e, t.1 !! Z.to_nat rq = Some e.
Proof. intros G H. apply lookup_lt_is_Some. rewrite (gd_len _ _ G). lia. Qed.

Lemma keeps_kill t w rq : good t w → 0 ≤ rq < max → keeps (kill_one rq t) w.
Proof.
  intros G H. destruct (entry_at t w rq G H) as [e He]. unfold kill_one. rewrite He. pose proof (alive_range t w G) as Ha.
  assert (Hgo : live e = 1 → keeps (r ← ask (sys_kill (i16 (pid e))); if r =? -1 then error "test_processes: ERROR killing process"
    else _ ← do_ (sys_waitpid (i16 (pid e))); mret (<[Z.to_nat rq := mkRq (pid e) KILLED]> t.1, u8 (t.2 - 1))) w).
  { intros El. destruct (gd_live _ _ G _ _ He El) as (Hp & Hs & Hb). rewrite i16_small by lia.
    apply keeps_call; [done|]. cbn. rewrite Hs.
    replace (match status_of (state e) with Dead => false | _ => true end) with true by (by destruct (state e)). cbn.
    apply keeps_call; [done|]. cbn. rewrite lookup_insert_eq. cbn.
    assert (Hal : 1 ≤ t.2). { rewrite (gd_alive _ _ G). pose proof (total_elem live t.1 _ e (λ e, proj1 (live_range e)) He). lia. }
    rewrite u8_small by lia. apply keeps_ret. apply (good_update t w _ e); try done.
    - unfold live at 2. cbn. lia.
    - intros p Hne _. by rewrite lookup_delete_ne, lookup_insert_ne.
    - intros El'. congruence.
    - rewrite map_size_delete_Some, map_size_insert_Some by (first [by rewrite lookup_insert_eq | by eexists]).
      pose proof (gd_size _ _ G). assert (size (procs w) ≠ 0%nat) by (apply (map_size_ne_0_lookup_2 _ (pid e)); by eexists). lia. }
  destruct (state e) eqn:Es; [apply Hgo|apply Hgo|by apply keeps_ret]; unfold live; by rewrite Es.
Qed.

Lemma keeps_status t w rq e st s : good t w → t.1 !! Z.to_nat rq = Some e → live e = 1 → st ≠ KILLED → s = status_of st →
  keeps (mret (<[Z.to_nat rq := mkRq (pid e) st]> t.1, t.2)) (mkWorld (<[pid e := s]> (procs w)) (rng w)).
Proof.
  intros G He El Hst ->. destruct (gd_live _ _ G _ _ He El) as (Hp & Hs & Hb). apply keeps_ret. apply (good_update t w _ e); try done.
  - unfold live at 2. cbn. destruct st; lia || done.
  - intros _. cbn. by rewrite lookup_insert_eq.
  - intros p Hne _. by rewrite lookup_insert_ne.
  - intros El'. congruence.
  - rewrite map_size_insert_Some by (by eexists). apply (gd_size _ _ G).
Qed.

Lemma keeps_block t w rq : good t w → 0 ≤ rq < max → keeps (block_one rq t) w.
Proof.
  intros G H. destruct (entry_at t w rq G H) as [e He]. unfold block_one. rewrite He.
  destruct (state e) eqn:Es; try by apply keeps_ret.
  assert (El : live e = 1) by (unfold live; by rewrite Es). destruct (gd_live _ _ G _ _ He El) as (Hp & Hs & Hb). rewrite Es in Hs.
  rewrite i16_small by lia. apply keeps_call; [done|]. cbn. rewrite Hs. cbn. by apply keeps_status.
Qed.
Lemma keeps_unblock t w rq : good t w → 0 ≤ rq < max → keeps (unblock_one rq t) w.
Proof.
  intros G H. destruct (entry_at t w rq G H) as [e He]. unfold unblock_one. rewrite He.
  destruct (state e) eqn:Es; try by apply keeps_ret. apply (keeps_random _ _ t); [done|]. intros v w' G'.
  destruct (_ =? 0); [by apply keeps_ret|].
  assert (El : live e = 1) by (unfold live; by rewrite Es). destruct (gd_live _ _ G' _ _ He El) as (Hp & Hs & Hb). rewrite Es in Hs.
  rewrite i16_small by lia. apply keeps_call; [done|]. cbn. rewrite Hs. cbn. by apply keeps_status.
Qed.
Lemma keeps_act t w rq : good t w → 0 ≤ rq < max → keeps (act_one rq t) w.
Proof.
  intros G H. apply (keeps_random _ _ t); [done|]. intros v w' G'. destruct (_ =? 0); [by apply keeps_kill|by apply keeps_block].
Qed.

Lemma keeps_for_each one turns : (∀ t w rq, good t w → 0 ≤ rq < max → keeps (one rq t) w) → ∀ rq t w,
  good t w → 0 ≤ rq ≤ max → max - rq < Z.of_nat turns → keeps (for_each turns one max rq t) w.
Proof.
  intros Hone. induction turns as [|turns IH]; intros rq t w G H Ht; [lia|]. cbn [for_each].
  destruct (Z.ltb_spec rq max); [|by apply keeps_ret]. eapply goes_bind; [apply Hone; [done|lia]|]. intros t' w' G'.
  rewrite u8_small by lia. apply IH; [done|lia|lia].
Qed.

(** All the entries are free at the start. *)
Lemma keeps_create turns : ∀ rq t w, good t w → 0 ≤ rq ≤ max → t.2 = rq →
  (∀ i e, rq ≤ Z.of_nat i → t.1 !! i = Some e → live e = 0) → max - rq < Z.of_nat turns → keeps (create_loop turns max rq t) w.
Proof.
  induction turns as [|turns IH]; intros rq t w G H Hal Hfree Ht; [lia|]. cbn [create_loop].
  destruct (Z.ltb_spec rq max); [|by apply keeps_ret]. destruct (entry_at t w rq G) as [e He]; [lia|].
  assert (Hd : live e = 0) by (eapply Hfree; [|exact He]; lia).
  destruct (Hfresh (procs w)) as [Hf Hp]; [rewrite (gd_size _ _ G); lia|].
  apply keeps_call; [done|]. cbn. rewrite i32_small by lia. rewrite (proj2 (Z.eqb_neq _ _)) by lia.
  rewrite !u8_small by lia. apply IH; cbn; try lia.
  - apply (good_update t w _ e); try done.
    + cbn. lia.
    + intros _. cbn. split; [done|]. rewrite lookup_insert_eq. split; [done|].
      destruct (base !! fresh (procs w)) as [s|] eqn:Eb; [|done]. rewrite (gd_base _ _ G _ _ Eb) in Hf. done.
    + intros p _ Hne. by rewrite lookup_insert_ne by (cbn in Hne; congruence).
    + rewrite Hd. done.
    + intros _. split; [done|]. split; [done|]. intros Hne. rewrite lookup_insert_ne; [done|]. cbn in Hne. congruence.
    + rewrite map_size_insert_None by done. pose proof (gd_size _ _ G). lia.
  - intros i f Hi Hf'. rewrite list_lookup_insert_ne in Hf' by lia. eapply Hfree; [|exact Hf']. lia.
Qed.

(** The processes of before are as they were. *)
Definition others_stay (w : world) : Prop := ∀ p s, base !! p = Some s → procs w !! p = Some s.
Notation safely := (goes (answer most fresh) others_stay).

Lemma alive_safely rounds : ∀ t w, good t w → safely (λ t w, good t w ∧ t.2 = 0) (alive_loop rounds max t) w.
Proof.
  induction rounds as [|rounds IH]; intros t w G; cbn [alive_loop]; [apply goes_later; exact (gd_base _ _ G)|].
  destruct (Z.ltb_spec 0 t.2).
  - eapply goes_after; [apply keeps_for_each; [apply keeps_act|done|lia|unfold TURNS; lia]|]. intros t1 w1 G1.
    eapply goes_after; [apply keeps_for_each; [apply keeps_unblock|done|lia|unfold TURNS; lia]|]. intros t2 w2 G2. by apply IH.
  - apply goes_ret. split; [done|]. pose proof (alive_range t w G). lia.
Qed.

Lemma test_safely rounds polls : ∀ t w, good t w → t.2 = 0 → safely (λ _ _, False) (test_loop rounds polls max t) w.
Proof.
  induction rounds as [|rounds IH]; intros t w G H0; cbn [test_loop]; [apply goes_later; exact (gd_base _ _ G)|].
  eapply goes_after.
  { apply keeps_create; [done|lia|done| |unfold TURNS; lia]. intros i e _ He. rewrite (gd_alive _ _ G) in H0.
    apply (total_zero live _ (λ e, proj1 (live_range e)) H0 i e He). }
  intros t1 w1 G1. eapply goes_bind; [by apply alive_safely|]. intros t2 w2 [G2 H2]. by apply IH.
Qed.

End Proof.

Lemma good_start base max r : 0 ≤ max → good base max (replicate (Z.to_nat max) (mkRq 0 KILLED), 0) (mkWorld base r).
Proof.
  intros Hm. assert (Hk : ∀ i e, replicate (Z.to_nat max) (mkRq 0 KILLED) !! i = Some e → live e = 0).
  { intros i e H. apply lookup_replicate in H as [-> _]. done. }
  split; cbn [fst snd procs].
  - by rewrite length_replicate.
  - intros i e H E. rewrite (Hk i e H) in E. done.
  - intros i j e f H _ E. rewrite (Hk i e H) in E. done.
  - done.
  - lia.
  - symmetry. apply total_same. intros e He. apply list_elem_of_lookup_1 in He as [i He]. by eapply Hk.
Qed.

(** C28. On a system that keeps its processes as it should, whatever the pids it gives and the
    random numbers, the test goes on for ever: it never reports an error, never kills, blocks,
    unblocks or waits for a process that is not its own, and the other processes stay as they
    are. *)
Theorem test_proc_passes most fresh base r a0 a1 rounds polls :
  (∀ m, Z.of_nat (size m) < most → m !! fresh m = None ∧ 0 ≤ fresh m < 2 ^ 15) →
  Z.of_nat (size base) ≤ most ≤ 255 → 0 < stringToInt a1 →
  ∃ tr w', run (answer most fresh) (mkWorld base r) (test_proc_command rounds polls [a0; a1]) = (tr, Ongoing, w') ∧
    written STDOUT tr = [] ∧ ∀ p s, base !! p = Some s → procs w' !! p = Some s.
Proof.
  intros Hf Hm Hp. unfold test_proc_command. cbn [run]. rewrite !runs_bind. cbn [run ask answer ret procs].
  rewrite runs_bind. cbn [run ask answer ret procs]. unfold i64. rewrite swrap_small by lia.
  rewrite (proj2 (Z.leb_gt _ _)) by lia. set (limit := most - Z.of_nat (size base)).
  assert (Hrest : ∀ max, 0 ≤ max ≤ limit → ∃ tr w', run (answer most fresh) (mkWorld base r)
      (test_loop rounds polls max (replicate (Z.to_nat max) (mkRq 0 KILLED), 0)) = (tr, Ongoing, w') ∧
      written STDOUT tr = [] ∧ ∀ p s, base !! p = Some s → procs w' !! p = Some s).
  { intros max Hx. destruct (test_safely most fresh base max Hf ltac:(lia) ltac:(lia) rounds polls _ _ (good_start base max r ltac:(lia)) eq_refl)
      as (tr & o & w' & E & Ew & [[-> Hb]|(a & -> & [])]). by exists tr, w'. }
  rewrite runs_bind. destruct (Z.ltb_spec limit (stringToInt a1)).
  - rewrite runs_bind, run_do. cbn [snd answer run mret prog_ret]. rewrite u64_small by lia.
    destruct (Hrest limit) as (tr & w' & -> & Ew & Hb); [lia|]. by eexists _, w'.
  - cbn [run mret prog_ret]. rewrite u64_small by lia. destruct (Hrest (stringToInt a1)) as (tr & w' & -> & Ew & Hb); [lia|]. by eexists _, w'.
Qed.

(** The least pid that is free, among 64. *)
Definition first_free (m : gmap Z status) : Z := default 0 (head (List.filter (λ p, bool_decide (m !! p = None)) (seqZ 0 64))).
Lemma first_free_ok m : Z.of_nat (size m) < 64 → m !! first_free m = None ∧ 0 ≤ first_free m < 2 ^ 15.
Proof.
  intros Hs. unfold first_free. destruct (List.filter _ (seqZ 0 64)) as [|p l] eqn:E.
  - exfalso. assert (Hsub : list_to_set (seqZ 0 64) ⊆ dom m).
    { intros p Hp. apply elem_of_list_to_set in Hp. apply elem_of_dom. destruct (m !! p) eqn:Ep; [by eexists|].
      assert (Hin : In p (List.filter (λ p, bool_decide (m !! p = None)) (seqZ 0 64))).
      { apply filter_In. split; [by apply list_elem_of_In|by rewrite bool_decide_true]. }
      rewrite E in Hin. done. }
    apply subseteq_size in Hsub. rewrite size_dom, size_list_to_set in Hsub by apply NoDup_seqZ. rewrite length_seqZ in Hsub. lia.
  - cbn. assert (Hin : In p (List.filter (λ p, bool_decide (m !! p = None)) (seqZ 0 64))) by (rewrite E; by left).
    apply filter_In in Hin as [Hin Hp]. split; [by apply bool_decide_eq_true in Hp|]. apply list_elem_of_In, elem_of_seqZ in Hin. lia.
Qed.

Lemma test_proc_passes_witness : ∃ tr w', run (answer 64 first_free) (mkWorld {[0 := Alive]} 7) (test_proc_command 2 9 [msg "test_proc"; msg "3"]) = (tr, Ongoing, w') ∧
  procs w' !! 0 = Some Alive.
Proof.
  destruct (test_proc_passes 64 first_free {[0 := Alive]} 7 (msg "test_proc") (msg "3") 2 9) as (tr & w' & E & _ & H).
  - intros m Hm. by apply first_free_ok.
  - done.
  - done.
  - exists tr, w'. split; [exact E|]. apply H. reflexivity.
Defined.

End TestProc.
