(* ===== verification/TestPrio.v ===== *)
(** * The test of the priorities ([Userland/SampleCodeModule/test_prio.c])

    Three processes that count up to the same number, three times: with the same priority, with
    other priorities, and with other priorities given while they are blocked. *)

From stdpp Require Import strings.
From S2P Require Import Prelude CStandard Shell Userland.
Import CStandard Userland.
#[local] Open Scope Z_scope.

Module TestPrio.

Definition LOWEST : Z := 1.
Definition MEDIUM : Z := 2.
Definition HIGHEST : Z := 4.
Definition prio : list Z := [LOWEST; MEDIUM; HIGHEST].
Definition TOTAL_PROCESSES : nat := 3.


(** [while (value++ != max_value);]: the variable is volatile, and is read at most [polls]
    times. *)
Fixpoint count_loop (polls : nat) (value : Z) : prog unit :=
  match polls with
  | O => Later
  | S polls => m ← ask (load max_value); if value =? m then mret () else count_loop polls (u64 (value + 1))
  end.
Definition zero_to_max (polls : nat) (argv : list (list Z)) : prog unit :=
  _ ← count_loop polls 0;
  pid ← ask sys_getpid;
  _ ← printf (line "PROCESS %d DONE!") [AInt (i16 pid)];
  Exit.

Definition spawn : prog Z := pid ← ask (sys_create_process Userland.zero_to_max [] (msg "zero_to_max")); mret (i16 pid).

Fixpoint spawn_loop (n : nat) : prog (list Z) :=
  match n with O => mret [] | S n => p ← spawn; ps ← spawn_loop n; mret (p :: ps) end.
Fixpoint wait_each (pids : list Z) : prog unit :=
  match pids with [] => mret () | p :: pids => _ ← do_ (sys_waitpid p); wait_each pids end.
Fixpoint unblock_each (pids : list Z) : prog unit :=
  match pids with [] => mret () | p :: pids => _ ← do_ (sys_unblock p); unblock_each pids end.

Definition announce (pid prio : Z) : prog unit := printf (line "  PROCESS %d NEW PRIORITY: %d") [AInt pid; AInt (i32 prio)].
(** [blocked]: the priority is given to a blocked process. *)
Fixpoint nice_loop (blocked : bool) (prios : list Z) : prog (list Z) :=
  match prios with
  | [] => mret []
  | q :: prios =>
    p ← spawn;
    _ ← (if blocked then do_ (sys_block p) else mret ());
    _ ← do_ (sys_nice p (u8 q));
    _ ← announce p q;
    ps ← nice_loop blocked prios;
    mret (p :: ps)
  end.

(** The counts passed to [sys_write] are those of the texts. *)
Definition test_prio_command (argv : list (list Z)) : prog unit :=
  match argv with
  | [_; a1] =>
    let parsed := stringToInt a1 in
    if parsed <=? 0 then _ ← do_ (sys_write STDERR (line "test_prio: invalido")); Exit
    else
      _ ← do_ (store max_value (u64 parsed));
      _ ← printf (line "SAME PRIORITY...") [];
      pids ← spawn_loop TOTAL_PROCESSES;
      _ ← wait_each pids;
      _ ← printf (line "SAME PRIORITY, THEN CHANGE IT...") [];
      pids ← nice_loop false prio;
      _ ← wait_each pids;
      _ ← printf (line "SAME PRIORITY, THEN CHANGE IT WHILE BLOCKED...") [];
      pids ← nice_loop true prio;
      _ ← unblock_each pids;
      _ ← wait_each pids;
      _ ← printf (line "test_prio OK") [];
      Exit
  | _ => _ ← do_ (sys_write STDERR (line "Usage: test_prio <max_value>")); Exit
  end.

Section Ends.
Context {W : Type} (answer : W → call → reply * W) (m pid : Z).
Context (Hmax : ∀ w, answer w (load max_value) = (mkReply m [] [], w)) (Hpid : ∀ w, answer w sys_getpid = (mkReply pid [] [], w)).

Lemma count_loop_ends n : ∀ v polls w, v + Z.of_nat n = m → 0 ≤ v → m < 2 ^ 64 → (n < polls)%nat →
  run answer w (count_loop polls v) = (replicate (S n) (load max_value), Returned (), w).
Proof.
  induction n as [|n IH]; intros v [|polls] w Hv H0 Hm Hp; try lia; cbn [count_loop]; rewrite runs_bind; cbn [run ask]; rewrite Hmax; cbn [ret].
  - by rewrite (proj2 (Z.eqb_eq _ _)) by lia.
  - rewrite (proj2 (Z.eqb_neq _ _)) by lia. rewrite u64_small by lia. by rewrite IH by lia.
Qed.

(** While the limit [m] stays, a counting process reads it [m + 1] times and says that it is
    done: the loop ends, and stops at the limit. *)
Lemma zero_to_max_ends polls w argv : writes_pass answer → 0 ≤ m < 2 ^ 63 → (Z.to_nat m < polls)%nat →
  ∃ tr, run answer w (zero_to_max polls argv) = (replicate (S (Z.to_nat m)) (load max_value) ++ [sys_getpid] ++ tr, Exited, w) ∧
    written STDOUT tr = msg "PROCESS " ++ numToString (i32 (i16 pid)) ++ line " DONE!".
Proof.
  intros Hp Hm Hn. unfold zero_to_max. rewrite runs_bind, (count_loop_ends (Z.to_nat m)) by lia.
  rewrite runs_bind. cbn [run ask]. rewrite Hpid. cbn [ret].
  destruct (run_printf answer (line "PROCESS %d DONE!") [AInt (i16 pid)] _ Hp eq_refl w) as (tr & E & Ew).
  rewrite runs_bind, E. cbn [run]. exists tr. split; [by rewrite app_nil_r|]. exact Ew.
Qed.
End Ends.

End TestPrio.
