(* ===== verification/TestMM.v ===== *)
(** * The test of the memory manager ([Userland/SampleCodeModule/test_mm.c])

    The test takes blocks, fills them, and looks whether they kept what was written.  Over any
    manager that keeps its contract ([MemoryManager.v]) it never reports an error. *)

From stdpp Require Import strings.
From S2P Require Import Prelude MemoryManager FreeList CStandard Shell Userland.
Import CStandard Userland.
#[local] Open Scope Z_scope.

Module TestMM.

Definition MAX_BLOCKS : Z := 128.
Record mm_rq := mkRq { address : Z; size : Z }.

(** The bytes from [i] on, [n] of them left. *)
Fixpoint memset_loop (n : nat) (dst v i : Z) : prog unit :=
  match n with O => mret () | S n => _ ← do_ (poke (dst + i) v); memset_loop n dst v (i + 1) end.
Definition mm_memset (dst v n : Z) : prog unit := memset_loop (Z.to_nat n) dst v 0.

Fixpoint memcheck_loop (n : nat) (dst v i : Z) : prog Z :=
  match n with
  | O => mret (-1)
  | S n => b ← ask (peek (dst + i)); if b =? v then memcheck_loop n dst v (i + 1) else mret i
  end.
Definition mm_memcheck (dst v n : Z) : prog Z := memcheck_loop (Z.to_nat n) dst v 0.

(** The requests so far and their total; a request that fails leaves nothing that is read. *)
Fixpoint take_loop (polls : nat) (max_memory : Z) (rqs : list mm_rq) (total : Z) : prog (list mm_rq) :=
  match polls with
  | O => Later
  | S polls =>
    if (len rqs <? MAX_BLOCKS) && (total <? max_memory) then
      r ← randomRange 1 (i64 (max_memory - total));
      let sz := u32 r in
      a ← ask (sys_malloc sz);
      if a =? 0 then take_loop polls max_memory rqs total
      else take_loop polls max_memory (rqs ++ [mkRq a sz]) (u32 (total + sz))
    else mret rqs
  end.

Fixpoint fill_loop (rqs : list mm_rq) (i : Z) : prog unit :=
  match rqs with
  | [] => mret ()
  | q :: rqs =>
    _ ← (if address q =? 0 then mret () else mm_memset (address q) (u8 i) (size q));
    fill_loop rqs (i + 1)
  end.

Fixpoint free_loop (rqs : list mm_rq) : prog unit :=
  match rqs with
  | [] => mret ()
  | q :: rqs => _ ← (if address q =? 0 then mret () else do_ (sys_free (address q))); free_loop rqs
  end.

(** Whether every block has what was written. *)
Fixpoint check_loop (rqs : list mm_rq) (i : Z) : prog bool :=
  match rqs with
  | [] => mret true
  | q :: rqs =>
    r ← (if address q =? 0 then mret (-1) else mm_memcheck (address q) (u8 i) (size q));
    if 0 <=? r then mret false else check_loop rqs (i + 1)
  end.

Fixpoint test_loop (rounds polls : nat) (max_memory : Z) : prog unit :=
  match rounds with
  | O => Later
  | S rounds =>
    rqs ← take_loop polls max_memory [] 0;
    _ ← fill_loop rqs 0;
    ok ← check_loop rqs 0;
    if ok : bool then
      _ ← free_loop rqs;
      test_loop rounds polls max_memory
    else
      _ ← printf (line "test_mm ERROR") [];
      _ ← free_loop rqs;
      Exit
  end.

Definition test_mm_command (rounds polls : nat) (argv : list (list Z)) : prog unit :=
  match argv with
  | [_; a1] =>
    let parsed := stringToInt a1 in
    if parsed <=? 0 then _ ← do_ (sys_write STDERR (line "test_mm: max_memory invalido")); Exit
    else test_loop rounds polls (u64 parsed)
  | _ => _ ← do_ (sys_write STDERR (line "Usage: test_mm <max_memory_bytes>")); Exit
  end.

(** ** A machine with a memory manager *)

Section Machine.
Context {M : Type} `{L : MemoryManagerLaws M}.

(** [broken] tells that a byte outside the blocks was touched, that what was freed was no block,
    or that the manager itself failed. *)
Record world := mkWorld { heap : M; bytes : Z → Z; rng : Z; broken : bool }.

Definition owned (m : gmap Z Z) (a : Z) : bool := existsb (λ '(p, s), (p <=? a) && (a <? p + s)) (map_to_list m).

Definition answer (w : world) (c : call) : reply * world :=
  match c with
  | sys_malloc n =>
    match mm_alloc n (heap w) with
    | Some (p, h) => (mkReply p [] [], mkWorld h (bytes w) (rng w) (broken w))
    | None => (mkReply 0 [] [], mkWorld (heap w) (bytes w) (rng w) true)
    end
  | sys_free p =>
    match mm_free p (heap w) with
    | Some h => (mkReply 0 [] [], mkWorld h (bytes w) (rng w) (broken w || bool_decide (mm_live (heap w) !! p = None)))
    | None => (mkReply 0 [] [], mkWorld (heap w) (bytes w) (rng w) true)
    end
  | peek a => (mkReply (bytes w a) [] [], mkWorld (heap w) (bytes w) (rng w) (broken w || negb (owned (mm_live (heap w)) a)))
  | poke a v =>
    (mkReply 0 [] [], mkWorld (heap w) (λ b, if b =? a then v else bytes w b) (rng w) (broken w || negb (owned (mm_live (heap w)) a)))
  | load rngCurrent => (mkReply (rng w) [] [], w)
  | store rngCurrent v => (mkReply 0 [] [], mkWorld (heap w) (bytes w) v (broken w))
  | _ => (mkReply 0 [] [], w)
  end.

Notation run := (run answer).

Lemma owned_block m p s a : m !! p = Some s → p ≤ a < p + s → owned m a = true.
Proof.
  intros Hp Ha. apply existsb_exists. exists (p, s). split; [by apply list_elem_of_In, elem_of_map_to_list|].
  rewrite andb_true_iff, Z.leb_le, Z.ltb_lt. lia.
Qed.

(** ** The blocks of the test *)

Section Blocks.
Context (L0 : gmap Z Z) (B0 : Z → Z) (max : Z).

(** The blocks of others are as they were, those of the test are these. *)
Record good (rqs : list mm_rq) (w : world) : Prop := {
  gd_inv : mm_inv (heap w);
  gd_max : max ≤ mm_max (heap w);
  gd_rng : 0 ≤ rng w ≤ RANDOM_MAX;
  gd_live : ∀ q, q ∈ rqs → 0 < size q ∧ L0 !! address q = None ∧ ∃ s, mm_live (heap w) !! address q = Some s ∧ size q ≤ s;
  gd_one : NoDup (map address rqs);
  gd_rest : ∀ p, p ∉ map address rqs → mm_live (heap w) !! p = L0 !! p;
  gd_bytes : ∀ p s a, L0 !! p = Some s → p ≤ a < p + s → bytes w a = B0 a;
  gd_whole : broken w = false;
}.

(** The blocks of others, which stay. *)
Definition unharmed (w : world) : Prop :=
  broken w = false ∧ ∀ p s, L0 !! p = Some s → mm_live (heap w) !! p = Some s ∧ ∀ a, p ≤ a < p + s → bytes w a = B0 a.

Lemma good_unharmed rqs w : good rqs w → unharmed w.
Proof.
  intros [? ? ? Hl ? Hr Hb Hw]. split; [done|]. intros p s Hp. split; [|by intros a; apply Hb].
  rewrite Hr; [done|]. intros Hin. apply list_elem_of_fmap in Hin as (q & -> & Hq). destruct (Hl q Hq) as (_ & Hn & _). congruence.
Qed.

(** Two blocks do not overlap. *)
Lemma good_apart rqs w q p s a b : good rqs w → q ∈ rqs → p ≠ address q → mm_live (heap w) !! p = Some s →
  p ≤ a < p + s → address q ≤ b < address q + size q → a ≠ b.
Proof.
  intros G Hq Hp Hs Ha Hb. destruct (gd_live _ _ G q Hq) as (_ & _ & t & Ht & Hle).
  destruct (mm_disjoint (heap w) p s (address q) t (gd_inv _ _ G) Hs Ht Hp); lia.
Qed.

(** A write in a block of the test. *)
Lemma good_poke rqs w q a v : good rqs w → q ∈ rqs → address q ≤ a < address q + size q → good rqs (answer w (poke a v)).2.
Proof.
  intros G Hq Ha. pose proof (gd_live _ _ G q Hq) as (_ & _ & t & Ht & Hle). pose proof (good_unharmed _ _ G) as [_ Hu].
  destruct G as [? ? ? Hl ? Hr Hb Hw] eqn:EG. split; cbn; try done.
  - intros p s b Hp Hin. destruct (Z.eqb_spec b a) as [->|]; [|by eapply Hb]. destruct (Hl q Hq) as (_ & Hn & _).
    destruct (good_apart rqs w q p s a a G Hq); [congruence|by apply Hu|done|done|done].
  - rewrite Hw, (owned_block _ (address q) t a Ht) by lia. done.
Qed.

Lemma memset_fills rqs q v n : ∀ w i, good rqs w → q ∈ rqs → 0 ≤ i → i + Z.of_nat n ≤ size q →
  returns answer (λ _ w', good rqs w' ∧ heap w' = heap w ∧
    ∀ a, bytes w' a = if (address q + i <=? a) && (a <? address q + i + Z.of_nat n) then v else bytes w a)
    (memset_loop n (address q) v i) w.
Proof.
  induction n as [|n IH]; intros w i G Hq Hi Hn; cbn [memset_loop].
  - apply goes_ret. split; [done|]. split; [done|]. intros a.
    destruct (Z.leb_spec (address q + i) a), (Z.ltb_spec a (address q + i + Z.of_nat 0)); cbn; try done. lia.
  - apply goes_call; [done|]. eapply goes_mono; cycle 2; [apply IH; [apply (good_poke rqs w q); [done|done|lia]|done|lia|lia]|done|].
    intros [] w' (G' & Hh & Hb). split; [done|]. split; [done|]. intros a. rewrite Hb. cbn.
    destruct (Z.leb_spec (address q + (i + 1)) a), (Z.ltb_spec a (address q + (i + 1) + Z.of_nat n)), (Z.eqb_spec a (address q + i)),
      (Z.leb_spec (address q + i) a), (Z.ltb_spec a (address q + i + Z.of_nat (S n))); cbn; try done; lia.
Qed.

(** The block has this byte all over. *)
Definition filled (w : world) (q : mm_rq) (v : Z) : Prop := ∀ a, address q ≤ a < address q + size q → bytes w a = v.

Lemma fill_fills rqs suf : ∀ pre w, good rqs w → rqs = pre ++ suf → (∀ j q, pre !! j = Some q → filled w q (u8 (Z.of_nat j))) →
  returns answer (λ _ w', good rqs w' ∧ ∀ j q, rqs !! j = Some q → filled w' q (u8 (Z.of_nat j))) (fill_loop suf (len pre)) w.
Proof.
  induction suf as [|q suf IH]; intros pre w G E Hpre; cbn [fill_loop].
  - apply goes_ret. split; [done|]. by rewrite E, app_nil_r.
  - assert (Hq : q ∈ rqs) by (rewrite E; set_solver).
    destruct (gd_live _ _ G q Hq) as (Hs & _ & t & Ht & _). destruct (mm_bounds _ _ _ (gd_inv _ _ G) Ht) as (H0 & _).
    rewrite (proj2 (Z.eqb_neq _ _)) by done. eapply goes_after.
    { apply memset_fills; [exact G|exact Hq|done|lia]. }
    intros [] w' (G' & Hh & Hb). replace (len pre + 1) with (len (pre ++ [q])) by (rewrite length_app; cbn; lia).
    apply IH; [done|by rewrite E, <- app_assoc|]. intros j q' Hj. apply lookup_app_Some in Hj as [Hj|[Hlen Hj]].
    + intros a Ha. rewrite Hb. destruct (Hpre j q' Hj a Ha).
      assert (Hq' : q' ∈ rqs) by (rewrite E; apply elem_of_app; left; by eapply list_elem_of_lookup_2).
      assert (Hne : address q' ≠ address q).
      { pose proof (gd_one _ _ G) as Hd. rewrite E, map_app in Hd. apply list.NoDup_app in Hd as (_ & Hd & _). intros Ea.
        apply (Hd (address q')); [apply list_elem_of_fmap_2; by eapply list_elem_of_lookup_2|]. rewrite Ea. cbn. by left. }
      destruct (gd_live _ _ G q' Hq') as (_ & _ & t' & Ht' & Hle').
      destruct (Z.leb_spec (address q + 0) a), (Z.ltb_spec a (address q + 0 + Z.of_nat (Z.to_nat (size q)))); cbn; try done.
      destruct (good_apart rqs w q (address q') t' a a G Hq Hne Ht'); lia.
    + destruct (j - length pre)%nat eqn:Ej; [|by destruct n]. injection Hj as <-. intros a Ha. rewrite Hb.
      rewrite (proj2 (Z.leb_le _ _)), (proj2 (Z.ltb_lt _ _)) by lia. cbn. f_equal. lia.
Qed.

Lemma memcheck_passes rqs q v n : ∀ w i, good rqs w → q ∈ rqs → filled w q v → 0 ≤ i → i + Z.of_nat n ≤ size q →
  returns answer (λ r w', r = -1 ∧ w' = w) (memcheck_loop n (address q) v i) w.
Proof.
  induction n as [|n IH]; intros w i G Hq Hf Hi Hn; cbn [memcheck_loop]; [by apply goes_ret|].
  apply goes_call; [done|]. cbn. rewrite (Hf (address q + i)), Z.eqb_refl by lia.
  destruct (gd_live _ _ G q Hq) as (_ & _ & t & Ht & Hle). rewrite (owned_block _ (address q) t) by (done || lia).
  replace (mkWorld (heap w) (bytes w) (rng w) (broken w || negb true)) with w; [apply IH; (done || lia)|].
  destruct w; cbn. by rewrite orb_false_r.
Qed.

Lemma check_passes rqs suf : ∀ w i, good rqs w → (∀ q, q ∈ suf → q ∈ rqs) →
  (∀ j q, suf !! j = Some q → filled w q (u8 (i + Z.of_nat j))) →
  returns answer (λ ok w', ok = true ∧ w' = w) (check_loop suf i) w.
Proof.
  induction suf as [|q suf IH]; intros w i G Hin Hf; cbn [check_loop]; [by apply goes_ret|].
  assert (Hq : q ∈ rqs) by (apply Hin; set_solver).
  destruct (gd_live _ _ G q Hq) as (Hs & _ & t & Ht & _). destruct (mm_bounds _ _ _ (gd_inv _ _ G) Ht) as (H0 & _).
  rewrite (proj2 (Z.eqb_neq _ _)) by done. eapply goes_after.
  { apply (memcheck_passes rqs); [done|done| |done|lia]. specialize (Hf 0%nat q eq_refl). by rewrite Z.add_0_r in Hf. }
  intros r w' [-> ->]. cbn. apply IH; [done|set_solver|]. intros j q' Hj. specialize (Hf (S j) q' Hj).
  by replace (i + 1 + Z.of_nat j) with (i + Z.of_nat (S j)) by lia.
Qed.

Lemma free_frees rqs : ∀ w, good rqs w → returns answer (λ _ w', good [] w') (free_loop rqs) w.
Proof.
  induction rqs as [|q rqs IH]; intros w G; cbn [free_loop]; [by apply goes_ret|].
  destruct (gd_live _ _ G q ltac:(set_solver)) as (Hs & Hn & t & Ht & _). destruct (mm_bounds _ _ _ (gd_inv _ _ G) Ht) as (H0 & _).
  rewrite (proj2 (Z.eqb_neq _ _)) by done. destruct (mm_free_ok _ _ _ (gd_inv _ _ G) Ht) as (h & Ef & Hinv & _ & _ & Hmx & Hl).
  apply goes_call; [done|]. cbn. rewrite Ef. cbn. apply IH. destruct G as [? ? ? G1 G2 G3 G4 G5].
  cbn [map] in G2. apply list.NoDup_cons in G2 as [Hnotin Hd]. split; cbn; try done.
  - by rewrite Hmx.
  - intros q' Hq'. destruct (G1 q' ltac:(set_solver)) as (? & ? & s & Hs' & Hle). split; [done|]. split; [done|]. exists s.
    rewrite Hl, lookup_delete_ne; [done|]. intros E. apply Hnotin. rewrite E. by apply list_elem_of_fmap_2.
  - intros p Hp. rewrite Hl. destruct (Z.eq_dec p (address q)) as [->|Hne]; [by rewrite lookup_delete_eq|].
    rewrite lookup_delete_ne by done. apply G3. cbn. by rewrite not_elem_of_cons.
  - rewrite G5, Ht. by rewrite bool_decide_false.
Qed.

Lemma rng_range x : 0 ≤ CStandard.rng x ≤ RANDOM_MAX.
Proof.
  unfold CStandard.rng, RANDOM_MAX. assert (Hu : ∀ y, 0 ≤ u16 y ≤ 65535) by (intros y; pose proof (wrap_range 16 y ltac:(lia)); unfold u16; lia).
  destruct (_ =? 0); [destruct (_ =? 43605)|]; try apply Hu. lia.
Qed.

Lemma take_takes max_memory polls : 0 < max_memory < 2 ^ 31 - 1 → max_memory < max → ∀ rqs total w, good rqs w → 0 ≤ total →
  goes answer unharmed good (take_loop polls max_memory rqs total) w.
Proof.
  intros Hm Hmax. induction polls as [|polls IH]; intros rqs total w G Ht; cbn [take_loop]; [apply goes_later; by eapply good_unharmed|].
  destruct (len rqs <? MAX_BLOCKS); cbn [andb]; [|by apply goes_ret]. destruct (Z.ltb_spec total max_memory); [|by apply goes_ret].
  apply goes_call; [done|]. cbn [answer fst snd ret]. unfold i64. rewrite swrap_small by lia.
  pose proof (randomRange_bounds 1 (max_memory - total) (rng w) ltac:(lia) ltac:(lia) (gd_rng _ _ G)) as [Hr _]. cbn zeta in Hr.
  destruct (CStandard.randomRange 1 (max_memory - total) (rng w)) as [r st] eqn:Er. cbn [fst] in Hr.
  assert (Hst : st = CStandard.rng (rng w)) by (unfold CStandard.randomRange, CStandard.randomNext in Er; by injection Er).
  apply goes_call; [done|]. cbn [answer fst snd pbind mret prog_ret]. rewrite u32_small by lia.
  pose proof (gd_max _ _ G) as Gm. destruct (mm_alloc_ok (heap w) r (gd_inv _ _ G)) as (p & h & Ea & Hinv & _ & _ & Hmx & Hcase); [lia|].
  apply goes_call; [done|]. cbn [answer heap]. rewrite Ea. cbn [fst snd ret]. cbn.
  destruct Hcase as [[-> Hl]|(Hp & Hnone & s & Hle & Hl)].
  - cbn. apply IH; [|done]. destruct G as [? ? ? G1 G2 G3 G4 G5]. split; cbn; rewrite ?Hl, ?Hmx, ?Hst; try done. apply rng_range.
  - rewrite (proj2 (Z.eqb_neq _ _)) by done. apply IH; [|apply u32_range]. pose proof (gd_live _ _ G) as G1. destruct G as [? ? ? _ G2 G3 G4 G5].
    assert (Hout : p ∉ map address rqs).
    { intros Hin. apply list_elem_of_fmap in Hin as (q & -> & Hq). destruct (G1 q Hq) as (_ & _ & t & Ht' & _). congruence. }
    split; cbn; rewrite ?Hl, ?Hmx, ?Hst; try done.
    + apply rng_range.
    + intros q Hq. apply elem_of_app in Hq as [Hq|Hq].
      * destruct (G1 q Hq) as (? & ? & t & Ht' & ?). split; [done|]. split; [done|]. exists t. rewrite lookup_insert_ne; [done|].
        intros ->. congruence.
      * apply list_elem_of_singleton in Hq as ->. cbn. split; [lia|]. rewrite <- (G3 p Hout). split; [done|]. exists s. by rewrite lookup_insert_eq.
    + rewrite map_app. apply list.NoDup_app. split; [done|]. split; [|apply NoDup_singleton]. cbn. set_solver.
    + intros p' Hp'. rewrite map_app, elem_of_app in Hp'. cbn in Hp'. rewrite lookup_insert_ne by set_solver. apply G3. tauto.
Qed.

Lemma test_unharmed rounds polls max_memory : 0 < max_memory < 2 ^ 31 - 1 → max_memory < max → ∀ w, good [] w →
  goes answer unharmed (λ _ _, False) (test_loop rounds polls max_memory) w.
Proof.
  intros Hm Hmax. induction rounds as [|rounds IH]; intros w G; cbn [test_loop]; [apply goes_later; by eapply good_unharmed|].
  eapply goes_bind; [by apply take_takes|]. intros rqs w1 G1.
  eapply goes_after; [by apply (fill_fills rqs rqs [])|]. intros [] w2 [G2 Hf].
  eapply goes_after; [apply (check_passes rqs rqs w2 0 G2); done|]. intros ok w3 [-> ->].
  eapply goes_after; [by apply free_frees|]. intros [] w4 G4. by apply IH.
Qed.

End Blocks.


End Machine.


End TestMM.
