(* ===== verification/Commands.v ===== *)
(** * The commands of the shell ([Userland/SampleCodeModule/commands.c])

    Each command is a program of system calls.  An endless loop does [rounds] turns, and a
    busy wait reads the clock at most [polls] times. *)

From stdpp Require Import strings.
From S2P Require Import Prelude KState ProcTable LibC CStandard Shell Userland Music.
Import CStandard Userland.
#[local] Open Scope Z_scope.

Module Commands.

Definition SIZE_BUFFER : Z := 128.
Definition PS_MAX_PROCS : Z := 64.

Definition writeStr (fd : Z) (s : list Z) : prog unit := do_ (sys_write fd s).
(** A complaint or an answer, and the end of the process. *)
Definition says (fd : Z) (s : list Z) : prog unit := _ ← writeStr fd s; Exit.

Definition COLOR_FG (hex6 : string) : list Z := [27; 102] ++ msg hex6 ++ [59].
Definition COLOR_RESET : list Z := [27; 114; 59].

Definition terminalClear : prog unit := do_ (sys_write STDOUT [12]).
Definition clearCommand (argv : list (list Z)) : prog unit := _ ← terminalClear; Exit.

Fixpoint echo_loop (args : list (list Z)) : prog unit :=
  match args with
  | [] => mret ()
  | [a] => writeStr STDOUT a
  | a :: args => _ ← writeStr STDOUT a; _ ← do_ (sys_write STDOUT [32]); echo_loop args
  end.
Definition echoCommand (argv : list (list Z)) : prog unit :=
  _ ← echo_loop (tail argv); _ ← do_ (sys_write STDOUT [10]); Exit.

Definition weekdays : list string := ["Sun"; "Mon"; "Tue"; "Wed"; "Thu"; "Fri"; "Sat"]%string.

(** [wd - 1] may be out of the array. *)
Definition datetimeCommand (argv : list (list Z)) : prog unit :=
  Call sys_date (λ date, Call sys_time (λ time,
    match data date, data time with
    | [wd; d; mo; y], [h; m; s] =>
      if (wd - 1 <? 0) || (7 <=? wd - 1) then Undefined
      else
        _ ← printf (line "%d:%d:%d %s %d/%d/%d")
              [AInt h; AInt m; AInt s; AStr (msg <$> weekdays !! Z.to_nat (wd - 1)); AInt d; AInt mo; AInt y];
        Exit
    | _, _ => Undefined
    end)).

Definition registersCommand (argv : list (list Z)) : prog unit :=
  r ← ask sys_print_registers;
  _ ← (if r =? 0 then writeStr STDERR (line "No snapshot taken. Press F6 at any moment to take one.") else mret ());
  Exit.

Definition zeroCommand (argv : list (list Z)) : prog unit := Trap 0.
(** [test_invalid_opcode] is the instruction [ud2]. *)
Definition invalidCommand (argv : list (list Z)) : prog unit := Trap 6.

Definition lsCommand (songs : Music.Songs) (argv : list (list Z)) : prog unit :=
  _ ← writeStr STDERR (line "Of course there is no file system");
  _ ← Music.play_song (Music.get_rickroll_song songs);
  Exit.

Definition musicCommand (songs : Music.Songs) (argv : list (list Z)) : prog unit :=
  match argv with
  | _ :: a1 :: _ =>
    let c := default 0 (head a1) in
    _ ← (if c =? 114 then
           _ ← writeStr STDOUT (line "Now playing: Rickroll Intro");
           Music.play_song (Music.get_rickroll_song songs)
         else if c =? 99 then
           _ ← writeStr STDOUT (line "Now playing: Coffin Dance");
           _ ← Music.play_song (Music.get_coffin_intro songs);
           Music.play_song (Music.get_coffin_chorus songs)
         else writeStr STDERR (line "Use r for Rickroll, c for Coffin Dance"));
    Exit
  | _ => says STDERR (line "Usage: music <r|c>")
  end.

(** *** Processes *)

Definition stateName (s : KState.State) : list Z :=
  match s with
  | KState.READY => msg "READY"
  | KState.RUNNING => msg "RUNNING"
  | KState.BLOCKED => msg "BLOCKED"
  | KState.ZOMBIE => msg "ZOMBIE"
  end.

Definition hexChars : list Z := msg "0123456789ABCDEF".
Definition hex64 (value : Z) : list Z :=
  [48; 120] ++ map (λ i, default 0 (hexChars !! Z.to_nat (Z.land (Z.shiftr value ((15 - i) * 4)) 0xF))) (seqZ 0 16).
Definition writeHex64 (fd value : Z) : prog unit := do_ (sys_write fd (hex64 value)).

Definition padTo (currentLen target : Z) : prog unit :=
  putAll (replicate (Z.to_nat (target - currentLen)) 32).

Definition cell (text : list Z) (width : Z) : prog unit :=
  _ ← do_ (sys_write STDOUT text); padTo (strlen text) width.

Definition ps_row (p : ProcTable.ProcessInfo) : prog unit :=
  _ ← cell (numToString (ProcTable.i_pid p)) 5;
  _ ← cell (numToString (ProcTable.i_ppid p)) 5;
  _ ← cell (numToString (ProcTable.i_priority p)) 5;
  _ ← do_ (sys_write STDOUT (if ProcTable.i_inForeground p then msg "YES " else msg "NO  "));
  _ ← cell (stateName (ProcTable.i_state p)) 8;
  _ ← writeHex64 STDOUT (ProcTable.i_rsp p); _ ← putChar 32;
  _ ← writeHex64 STDOUT (ProcTable.i_stackBase p); _ ← putChar 32;
  printf (line "%s") [AStr (Some (ProcTable.i_name p))].

Fixpoint ps_loop (ps : list ProcTable.ProcessInfo) : prog unit :=
  match ps with [] => mret () | p :: ps => _ ← ps_row p; ps_loop ps end.

Definition ps_header : list Z := line "PID  PPID PRIO FG  STATE   RSP                STACKBASE          NAME".
Definition psCommand (argv : list (list Z)) : prog unit :=
  Call (sys_ps PS_MAX_PROCS) (λ r,
    _ ← printf ps_header [];
    _ ← ps_loop (take (Z.to_nat (i32 (ret r))) (infos r));
    Exit).

(** [sys_mem_status] stores four numbers. *)
Definition memCommand (argv : list (list Z)) : prog unit :=
  Call sys_mem_status (λ r,
    match data r with
    | [total; occupied; free; fragments] =>
      _ ← printf (line "Memoria (bytes):") [];
      _ ← printf (line "  total    : %d") [AInt (i32 total)];
      _ ← printf (line "  ocupada  : %d") [AInt (i32 occupied)];
      _ ← printf (line "  libre    : %d") [AInt (i32 free)];
      _ ← printf (line "  fragments: %d") [AInt (i32 fragments)];
      Exit
    | _ => Undefined
    end).

Definition killCommand (argv : list (list Z)) : prog unit :=
  match argv with
  | _ :: a1 :: _ =>
    let pid := stringToInt a1 in
    r ← (if pid <? 0 then mret (-1) else ask (sys_kill (i16 pid)));
    _ ← (if r <? 0 then printf (line "kill: no se pudo matar al pid %d") [AInt (i32 pid)]
         else printf (line "kill: pid %d terminado") [AInt (i32 pid)]);
    Exit
  | _ => says STDERR (line "Usage: kill <pid>")
  end.

Definition niceCommand (argv : list (list Z)) : prog unit :=
  match argv with
  | _ :: a1 :: a2 :: _ =>
    let pid := stringToInt a1 in
    let prio := stringToInt a2 in
    r ← (if (pid <? 0) || (prio <? 1) then mret (-1) else ask (sys_nice (i16 pid) (u8 prio)));
    _ ← (if r <? 0 then printf (line "nice: argumentos invalidos o pid %d no existe") [AInt (i32 pid)]
         else printf (line "nice: pid %d -> prioridad %d") [AInt (i32 pid); AInt (i32 prio)]);
    Exit
  | _ => says STDERR (line "Usage: nice <pid> <priority>")
  end.

Fixpoint clock_loop (polls : nat) (target : Z) : prog unit :=
  match polls with
  | O => Later
  | S polls => t ← ask sys_kernel_time; if t <? target then clock_loop polls target else mret ()
  end.
Fixpoint hello_loop (rounds polls : nat) (pid secs : Z) : prog unit :=
  match rounds with
  | O => Later
  | S rounds =>
    _ ← printf (line "Hola del PID %d") [AInt pid];
    start ← ask sys_kernel_time;
    _ ← clock_loop polls (u64 (start + u64 (i32 (secs * 1000))));
    hello_loop rounds polls pid secs
  end.
Definition loopCommand (rounds polls : nat) (argv : list (list Z)) : prog unit :=
  let secs := match argv with _ :: a1 :: _ => let v := stringToInt a1 in if 0 <? v then i32 v else 1 | _ => 1 end in
  pid ← ask sys_getpid;
  hello_loop rounds polls (i16 pid) secs.

Definition blockCommand (argv : list (list Z)) : prog unit :=
  match argv with
  | _ :: a1 :: _ =>
    let pid := stringToInt a1 in
    if pid <? 0 then says STDERR (line "block: pid invalido")
    else
      r ← ask (sys_block (i16 pid));
      if r =? 0 then _ ← printf (line "block: pid %d bloqueado") [AInt (i32 pid)]; Exit
      else
        r ← ask (sys_unblock (i16 pid));
        if r =? 0 then _ ← printf (line "block: pid %d desbloqueado") [AInt (i32 pid)]; Exit
        else _ ← printf (line "block: no se pudo (pid %d)") [AInt (i32 pid)]; Exit
  | _ => says STDERR (line "Usage: block <pid>")
  end.

(** *** Filters: programs from [STDIN] to [STDOUT] *)

Fixpoint cat_loop (rounds : nat) : prog unit :=
  match rounds with
  | O => Later
  | S rounds =>
    Call (sys_read STDIN 64) (λ r,
      let n := i32 (ret r) in
      if n <=? 0 then mret ()
      else _ ← do_ (sys_write STDOUT (take (Z.to_nat n) (data r))); cat_loop rounds)
  end.
Definition catCommand (rounds : nat) (argv : list (list Z)) : prog unit := _ ← cat_loop rounds; Exit.

(** Lines, words and characters so far, and whether the last one was in a word. *)
Definition wc_char (st : Z * Z * Z * bool) (c : Z) : Z * Z * Z * bool :=
  let '(lines, words, chars, inWord) := st in
  let chars := i32 (chars + 1) in
  let lines := if c =? 10 then i32 (lines + 1) else lines in
  if (c =? 32) || (c =? 10) || (c =? 9) then (lines, words, chars, false)
  else if negb inWord then (lines, i32 (words + 1), chars, true)
  else (lines, words, chars, inWord).

Fixpoint wc_loop (rounds : nat) (st : Z * Z * Z * bool) : prog (Z * Z * Z * bool) :=
  match rounds with
  | O => Later
  | S rounds =>
    Call (sys_read STDIN SIZE_BUFFER) (λ r,
      let n := i32 (ret r) in
      if n <=? 0 then mret st else wc_loop rounds (foldl wc_char st (take (Z.to_nat n) (data r))))
  end.
Definition wcCommand (rounds : nat) (argv : list (list Z)) : prog unit :=
  match argv with
  | _ :: _ :: _ => says STDERR (line "wc does not allow parameters")
  | _ =>
    '(lines, words, chars, _) ← wc_loop rounds (0, 0, 0, false);
    _ ← printf ([10] ++ line " %d lineas, %d palabras, %d caracteres") [AInt lines; AInt words; AInt chars];
    Exit
  end.

Definition isVowel (c : Z) : bool :=
  let c := toLower c in (c =? 97) || (c =? 101) || (c =? 105) || (c =? 111) || (c =? 117).

Fixpoint filter_loop (rounds : nat) : prog unit :=
  match rounds with
  | O => Later
  | S rounds =>
    Call (sys_read STDIN 128) (λ r,
      let n := i32 (ret r) in
      if n <=? 0 then mret ()
      else
        let out := List.filter (λ c, negb (isVowel c)) (take (Z.to_nat n) (data r)) in
        _ ← (if 0 <? len out then do_ (sys_write STDOUT out) else mret ());
        filter_loop rounds)
  end.
Definition filterCommand (rounds : nat) (argv : list (list Z)) : prog unit :=
  match argv with
  | _ :: _ :: _ => says STDERR (line "Filter does not allow parameter")
  | _ => _ ← filter_loop rounds; Exit
  end.

(** *** The table *)

Record CommandEntry := mkEntry { name : list Z; entry : ProcessEntry; description : list Z; isTest : bool }.

Definition command (n : string) (e : ProcessEntry) (d : string) (t : bool) : CommandEntry := mkEntry (msg n) e (msg d) t.

Definition validCommands : list CommandEntry := [
  command "help" Userland.helpCommand "Lista los comandos disponibles" false;
  command "clear" Userland.clearCommand "Limpia la pantalla" false;
  command "echo" Userland.echoCommand "Imprime sus argumentos" false;
  command "datetime" Userland.datetimeCommand "Imprime la fecha y hora actuales" false;
  command "registers" Userland.registersCommand "Imprime el snapshot de registros (toma uno con F6)" false;
  command "ls" Userland.lsCommand "Lista los archivos en el directorio actual" false;
  command "music" Userland.musicCommand "Reproduce una cancion (r=Rickroll, c=Coffin)" false;
  command "zero" Userland.zeroCommand "Provoca una division por cero (excepcion)" false;
  command "invalid" Userland.invalidCommand "Provoca un opcode invalido (excepcion)" false;
  command "ps" Userland.psCommand "Lista los procesos del sistema" false;
  command "mem" Userland.memCommand "Estado del heap" false;
  command "loop" Userland.loopCommand "Imprime su PID cada N segundos (espera activa)" false;
  command "kill" Userland.killCommand "Mata un proceso por PID" false;
  command "nice" Userland.niceCommand "Cambia la prioridad de un proceso" false;
  command "block" Userland.blockCommand "Bloquea/desbloquea un proceso (toggle)" false;
  command "cat" Userland.catCommand "Lee de stdin y escribe a stdout" false;
  command "wc" Userland.wcCommand "Cuenta lineas, palabras y caracteres de stdin" false;
  command "filter" Userland.filterCommand "Filtra las vocales de stdin" false;
  command "mvar" Userland.mvarCommand "MVar de Haskell: lectores/escritores sobre variable compartida (Usage: mvar <writers> <readers>)" false;
  command "test_mm" Userland.test_mm_command "Stress del memory manager (Usage: test_mm <max_bytes>)" true;
  command "test_proc" Userland.test_proc_command "Stress del scheduler crea/bloquea/mata procesos (Usage: test_proc <max_procs>)" true;
  command "test_prio" Userland.test_prio_command "Tres procesos con prioridades distintas (Usage: test_prio <max_value>)" true;
  command "test_sync" Userland.test_sync_command "Race conditions con y sin semaforos (Usage: test_sync <n_procesos> <n_iter> <use_sem>)" true].

Definition COMMAND_COUNT : Z := len validCommands.

Fixpoint help_loop (color : string) (tests : bool) (cs : list CommandEntry) : prog unit :=
  match cs with
  | [] => mret ()
  | c :: cs =>
    if Bool.eqb (isTest c) tests then
      _ ← printf (msg "  " ++ COLOR_FG color ++ msg "%s" ++ COLOR_RESET ++ line " - %s") [AStr (Some (name c)); AStr (Some (description c))];
      help_loop color tests cs
    else help_loop color tests cs
  end.
Definition helpCommand (argv : list (list Z)) : prog unit :=
  _ ← writeStr STDOUT ([10] ++ COLOR_FG "00FFFF" ++ msg "Available commands:" ++ COLOR_RESET ++ [10]);
  _ ← help_loop "80FF80" false validCommands;
  _ ← writeStr STDOUT ([10] ++ COLOR_FG "FFFF60" ++ msg "Tests provistos por la catedra:" ++ COLOR_RESET ++ [10]);
  _ ← help_loop "FFFF60" true validCommands;
  _ ← do_ (sys_write STDOUT [10]);
  Exit.

(** The index of the first entry of that name, counted from [i]. *)
Fixpoint index_loop (n : list Z) (i : Z) (cs : list CommandEntry) : Z :=
  match cs with
  | [] => -1
  | c :: cs => if strcmp n (name c) =? 0 then i else index_loop n (i + 1) cs
  end.
(** [None] is the null pointer. *)
Definition getCommandIndex (n : option (list Z)) : Z :=
  match n with None | Some [] => -1 | Some n => index_loop n 0 validCommands end.
Definition getCommandEntry (idx : Z) : option ProcessEntry :=
  if (idx <? 0) || (COMMAND_COUNT <=? idx) then None else entry <$> validCommands !! Z.to_nat idx.
Definition getCommandName (idx : Z) : option (list Z) :=
  if (idx <? 0) || (COMMAND_COUNT <=? idx) then None else name <$> validCommands !! Z.to_nat idx.
Definition getCommandCount : Z := COMMAND_COUNT.
(** ** Filters *)

(** A block that a read of [size] bytes can bring. *)
Definition block_ok (size : Z) (b : list Z) : Prop := 0 < len b ≤ size.

Lemma read_block size (b : list Z) (bs : list (list Z)) {A} (k : reply → prog A) :
  run console (b :: bs) (Call (sys_read STDIN size) k) =
    let '(tr, o, w) := run console bs (k (mkReply (len b) b [])) in (sys_read STDIN size :: tr, o, w).
Proof. done. Qed.
Lemma read_end size {A} (k : reply → prog A) :
  run console [] (Call (sys_read STDIN size) k) =
    let '(tr, o, w) := run console [] (k (mkReply 0 [] [])) in (sys_read STDIN size :: tr, o, w).
Proof. done. Qed.

Lemma block_count size (b : list Z) : block_ok size b → size ≤ 2 ^ 16 → i32 (len b) = len b ∧ (len b <=? 0) = false ∧ take (Z.to_nat (len b)) b = b.
Proof.
  intros [H1 H2] Hs. rewrite i32_small by lia. split; [done|]. split; [by apply Z.leb_gt|].
  rewrite Nat2Z.id. by apply firstn_all2.
Qed.

Lemma written_read fd fd' n tr : written fd (sys_read fd' n :: tr) = written fd tr.
Proof. done. Qed.

Lemma cat_loop_copies blocks : Forall (block_ok 64) blocks → ∀ rounds, (length blocks < rounds)%nat →
  ∃ tr, run console blocks (cat_loop rounds) = (tr, Returned (), []) ∧ written STDOUT tr = concat blocks.
Proof.
  induction 1 as [|b bs Hb _ IH]; intros [|rounds] Hr; cbn [length] in Hr; try lia; cbn [cat_loop].
  - by eexists.
  - rewrite read_block. cbn [ret data]. destruct (block_count 64 b Hb ltac:(lia)) as (E1 & E2 & E3). rewrite E1, E2, E3.
    rewrite runs_bind, run_do, console_passes. destruct (IH rounds ltac:(lia)) as (tr & -> & E). eexists. split; [reflexivity|].
    rewrite written_read, written_app, written_here, E. done.
Qed.

Definition consonants (text : list Z) : list Z := List.filter (λ c, negb (isVowel c)) text.

Lemma consonants_app t1 t2 : consonants (t1 ++ t2) = consonants t1 ++ consonants t2.
Proof. unfold consonants. induction t1 as [|x l IH]; cbn; [done|]. destruct (isVowel x); cbn; by rewrite IH. Qed.

Lemma filter_loop_filters blocks : Forall (block_ok 128) blocks → ∀ rounds, (length blocks < rounds)%nat →
  ∃ tr, run console blocks (filter_loop rounds) = (tr, Returned (), []) ∧ written STDOUT tr = consonants (concat blocks).
Proof.
  induction 1 as [|b bs Hb _ IH]; intros [|rounds] Hr; cbn [length] in Hr; try lia; cbn [filter_loop].
  - by eexists.
  - rewrite read_block. cbn [ret data]. destruct (block_count 128 b Hb ltac:(lia)) as (E1 & E2 & E3). rewrite E1, E2, E3.
    fold (consonants b). destruct (IH rounds ltac:(lia)) as (tr & Et & E). cbn [concat]. rewrite consonants_app.
    destruct (Z.ltb_spec 0 (len (consonants b))) as [Hp|Hp].
    + rewrite runs_bind, run_do, console_passes, Et. eexists. split; [reflexivity|].
      by rewrite written_read, written_app, written_here, E.
    + rewrite runs_bind. cbn [run mret prog_ret]. rewrite Et. eexists. split; [reflexivity|].
      rewrite written_read. cbn [app]. rewrite E. fold (consonants b). destruct (consonants b); [done|cbn in Hp; lia].
Qed.



(** *** [wc] *)

Definition separator (c : Z) : bool := (c =? 32) || (c =? 10) || (c =? 9).
Definition text_lines (text : list Z) : Z := len (List.filter (Z.eqb 10) text).
Definition text_words (text : list Z) : Z := len (List.filter Shell.nonempty (Shell.pieces separator text)).

(** The words of the rest of a text, after a character of a word or not. *)
Definition more_words (inWord : bool) (text : list Z) : Z :=
  match Shell.pieces separator text with
  | [] => 0
  | t :: ts => (if inWord then 0 else if Shell.nonempty t then 1 else 0) + len (List.filter Shell.nonempty ts)
  end.
Lemma more_words_false text : more_words false text = text_words text.
Proof.
  unfold more_words, text_words. destruct (Shell.pieces separator text) as [|t ts]; [done|]. cbn. destruct (Shell.nonempty t); cbn; lia.
Qed.
Lemma more_words_bounds b text : 0 ≤ more_words b text ≤ len text.
Proof.
  revert b. induction text as [|c text IH]; intros b; [by destruct b|]. unfold more_words in *. cbn [Shell.pieces].
  pose proof (IH true). pose proof (IH false). destruct (Shell.pieces_cons separator text) as (t & ts & E). rewrite E in *. cbn [length] in *.
  destruct (separator c); cbn; destruct b; cbn; destruct (Shell.nonempty t); cbn in *; lia.
Qed.
Lemma text_lines_bounds text : 0 ≤ text_lines text ≤ len text.
Proof. unfold text_lines. induction text as [|c text IH]; [cbn; lia|]. cbn [List.filter]. destruct (10 =? c); cbn [length]; lia. Qed.

Lemma wc_fold text : ∀ L W C b, 0 ≤ L → 0 ≤ W → 0 ≤ C → L + len text < 2 ^ 31 → W + len text < 2 ^ 31 → C + len text < 2 ^ 31 →
  ∃ b', foldl wc_char (L, W, C, b) text = (L + text_lines text, W + more_words b text, C + len text, b').
Proof.
  induction text as [|c text IH]; intros L W C b HL HW HC H1 H2 H3; cbn [length] in *.
  - exists b. cbn. rewrite !Z.add_0_r. destruct b; cbn; by rewrite !Z.add_0_r.
  - cbn [foldl]. unfold wc_char at 2. fold (separator c). cbn zeta.
    assert (E0 : text_lines (c :: text) = (if c =? 10 then 1 else 0) + text_lines text).
    { unfold text_lines. cbn [List.filter]. rewrite Z.eqb_sym. destruct (c =? 10); cbn [length]; lia. }
    assert (EL : (if c =? 10 then i32 (L + 1) else L) = L + (if c =? 10 then 1 else 0)) by (destruct (c =? 10); rewrite ?i32_small by lia; lia).
    rewrite EL, (i32_small (C + 1)) by lia. unfold more_words. cbn [Shell.pieces].
    destruct (Shell.pieces_cons separator text) as (t & ts & Ep).
    destruct (separator c) eqn:Es; [|destruct b; cbn [negb]].
    + destruct (IH (L + (if c =? 10 then 1 else 0)) W (C + 1) false) as (b' & ->); [destruct (c =? 10); lia..|]. exists b'.
      f_equal. rewrite more_words_false. unfold text_words. cbn [Shell.nonempty]. f_equal; [f_equal|]; [lia|destruct b; lia|lia].
    + destruct (IH (L + (if c =? 10 then 1 else 0)) W (C + 1) true) as (b' & ->); [destruct (c =? 10); lia..|]. exists b'.
      unfold more_words. rewrite Ep. f_equal. f_equal; [f_equal|]; lia.
    + rewrite i32_small by lia. destruct (IH (L + (if c =? 10 then 1 else 0)) (W + 1) (C + 1) true) as (b' & ->); [destruct (c =? 10); lia..|]. exists b'.
      unfold more_words. rewrite Ep. cbn [Shell.nonempty]. f_equal. f_equal; [f_equal|]; lia.
Qed.

Lemma wc_loop_folds blocks : Forall (block_ok SIZE_BUFFER) blocks → ∀ rounds st, (length blocks < rounds)%nat →
  ∃ tr, run console blocks (wc_loop rounds st) = (tr, Returned (foldl wc_char st (concat blocks)), []) ∧ written STDOUT tr = [].
Proof.
  induction 1 as [|b bs Hb _ IH]; intros [|rounds] st Hr; cbn [length] in Hr; try lia; cbn [wc_loop].
  - by eexists.
  - rewrite read_block. cbn [ret data]. destruct (block_count SIZE_BUFFER b Hb ltac:(done)) as (E1 & E2 & E3). rewrite E1, E2, E3.
    destruct (IH rounds (foldl wc_char st b) ltac:(lia)) as (tr & -> & E). eexists. split; [|by rewrite written_read].
    cbn [concat]. by rewrite foldl_app.
Qed.

Lemma wc_text l w c : vprintf ([10] ++ line " %d lineas, %d palabras, %d caracteres") [AInt l; AInt w; AInt c] =
  Some ([10; 32] ++ numToString (i32 l) ++ msg " lineas, " ++ numToString (i32 w) ++ msg " palabras, " ++ numToString (i32 c) ++
    line " caracteres").
Proof. reflexivity. Qed.

(** C31. [wc] counts: however the input is cut into blocks, the line it prints has the number of
    its line ends, of its words (the maximal runs of characters that are no separator) and of
    its characters, as long as the text has less than 2^31. *)
Theorem wc_counts blocks argv rounds : (length blocks < rounds)%nat → Forall (block_ok SIZE_BUFFER) blocks →
  (length argv <= 1)%nat → len (concat blocks) < 2 ^ 31 →
  let text := concat blocks in
  ∃ tr, run console blocks (wcCommand rounds argv) = (tr, Exited, []) ∧
    written STDOUT tr = [10; 32] ++ numToString (text_lines text) ++ msg " lineas, " ++ numToString (text_words text) ++
      msg " palabras, " ++ numToString (len text) ++ line " caracteres".
Proof.
  intros Hr Hb Ha Hl text. change (concat blocks) with text in Hl. destruct (wc_loop_folds blocks Hb rounds (0, 0, 0, false) Hr) as (tr & E & Ew).
  destruct (wc_fold text 0 0 0 false) as (b' & Ef); [lia..|]. fold text in E. rewrite Ef, more_words_false in E.
  assert (Ep : wcCommand rounds argv = ('(lines, words, chars, _) ← wc_loop rounds (0, 0, 0, false);
    _ ← printf ([10] ++ line " %d lineas, %d palabras, %d caracteres") [AInt lines; AInt words; AInt chars]; Exit))
    by (destruct argv as [|a0 [|a1 l]]; [done..|cbn in Ha; lia]).
  rewrite Ep, runs_bind, E. pose proof (text_lines_bounds text). pose proof (more_words_bounds false text) as Hw. rewrite more_words_false in Hw.
  assert (Ev : vprintf ([10] ++ line " %d lineas, %d palabras, %d caracteres") [AInt (0 + text_lines text); AInt (0 + text_words text); AInt (0 + len text)] =
    Some ([10; 32] ++ numToString (text_lines text) ++ msg " lineas, " ++ numToString (text_words text) ++
      msg " palabras, " ++ numToString (len text) ++ line " caracteres")).
  { rewrite !Z.add_0_l. assert (Hi : ∀ z, 0 ≤ z ≤ len text → i32 z = z) by (intros z Hz; apply i32_small; lia).
    by rewrite wc_text, !Hi by lia. }
  destruct (run_printf console _ _ _ console_passes Ev []) as (tr' & E' & Ew'). rewrite runs_bind, E'.
  eexists. split; [reflexivity|]. by rewrite !written_app, Ew, Ew', app_nil_r.
Qed.

Lemma wc_counts_witness : ∃ tr, run console [msg "uno  dos"; msg "tres" ++ [10]] (wcCommand 3 [msg "wc"]) = (tr, Exited, []) ∧
  written STDOUT tr = [10] ++ line " 1 lineas, 2 palabras, 13 caracteres".
Proof.
  destruct (wc_counts [msg "uno  dos"; msg "tres" ++ [10]] [msg "wc"] 3) as (tr & E & Ew);
    [cbn; lia|constructor; [by split|constructor; [by split|constructor]]|cbn; lia|done|].
  exists tr. split; [done|]. rewrite Ew. reflexivity.
Defined.

(** ** The table *)

Lemma strcmp_equal s1 s2 : LibC.cstr s1 → LibC.cstr s2 → (strcmp s1 s2 =? 0) = bool_decide (s1 = s2).
Proof.
  intros H1 H2. change (strcmp s1 s2) with (LibC.strcmp s1 s2). pose proof (LibC.strcmp_zero s1 s2 H1 H2) as E.
  destruct (Z.eqb_spec (LibC.strcmp s1 s2) 0) as [E0|E0]; [rewrite bool_decide_true|rewrite bool_decide_false]; tauto.
Qed.

Definition cstr_check (s : list Z) : bool := forallb (λ c, (0 <? c) && (c <? 256)) s.
Lemma cstr_checked s : cstr_check s = true → LibC.cstr s.
Proof.
  intros H c Hc. unfold cstr_check in H. rewrite forallb_forall in H. specialize (H c ltac:(by apply list_elem_of_In)).
  rewrite andb_true_iff, !Z.ltb_lt in H. lia.
Qed.

(** The names are strings, no two are equal and none is empty. *)
Lemma names_ok : Forall LibC.cstr (map name validCommands) ∧ NoDup (map name validCommands) ∧ [] ∉ map name validCommands.
Proof.
  assert (H : forallb (λ c, cstr_check (name c) && Shell.nonempty (name c)) validCommands = true) by reflexivity.
  rewrite forallb_forall in H. split; [|split].
  - apply Forall_forall. intros n (c & <- & Hc)%in_map_iff. specialize (H c Hc). apply andb_true_iff in H as [H _]. by apply cstr_checked.
  - apply (bool_decide_unpack (NoDup (map name validCommands))). reflexivity.
  - intros Hn. apply list_elem_of_In, in_map_iff in Hn as (c & En & Hc). specialize (H c Hc). rewrite En in H. by rewrite andb_false_r in H.
Qed.

Lemma index_loop_spec n : LibC.cstr n → ∀ cs i, Forall LibC.cstr (map name cs) → 0 ≤ i →
  (index_loop n i cs = -1 ∧ n ∉ map name cs) ∨
  (∃ k, index_loop n i cs = i + Z.of_nat k ∧ map name cs !! k = Some n ∧ ∀ j, map name cs !! j = Some n → (k <= j)%nat).
Proof.
  intros Hn cs. induction cs as [|c cs IH]; intros i Hcs Hi; cbn [index_loop map].
  - left. split; [done|]. apply not_elem_of_nil.
  - apply list.Forall_cons in Hcs as [Hc Hcs]. rewrite strcmp_equal by done. case_bool_decide as E.
    + right. exists 0%nat. split; [lia|]. split; [by rewrite E|]. intros. lia.
    + destruct (IH (i + 1) Hcs ltac:(lia)) as [[E1 E2]|(k & E1 & E2 & E3)]; [left|right].
      * split; [done|]. rewrite not_elem_of_cons. done.
      * exists (S k). split; [lia|]. split; [done|]. intros [|j] Hj; [cbn in Hj; congruence|]. specialize (E3 j Hj). lia.
Qed.

Lemma name_at i : getCommandName i = if decide (0 ≤ i) then map name validCommands !! Z.to_nat i else None.
Proof.
  unfold getCommandName. destruct (decide _) as [H|H]; [|by rewrite (proj2 (Z.ltb_lt _ _)) by lia].
  rewrite (proj2 (Z.ltb_ge _ _)) by lia. cbn [orb]. destruct (Z.leb_spec COMMAND_COUNT i) as [Hi|Hi]; [|by rewrite list_lookup_fmap].
  symmetry. apply lookup_ge_None_2. rewrite length_map. unfold COMMAND_COUNT in Hi. lia.
Qed.

(** The table answers both ways: a name has the index [i], which is not negative, exactly if
    the command of index [i] has that name, so that no two commands answer to a name; a name of
    no command has the index -1, which has no entry; every index from 0 to the count, and no
    other, has an entry. *)
Theorem command_table n i : LibC.cstr n →
  (0 ≤ i → getCommandIndex (Some n) = i ↔ getCommandName i = Some n) ∧
  (getCommandIndex (Some n) = -1 ↔ ∀ j, getCommandName j ≠ Some n) ∧
  getCommandIndex None = -1 ∧ getCommandEntry (-1) = None ∧
  (is_Some (getCommandEntry i) ↔ 0 ≤ i < getCommandCount) ∧
  (is_Some (getCommandName i) ↔ 0 ≤ i < getCommandCount).
Proof.
  intros Hn. destruct names_ok as (Hc & Hd & He).
  assert (Hx : (getCommandIndex (Some n) = -1 ∧ n ∉ map name validCommands) ∨
    ∃ k, getCommandIndex (Some n) = Z.of_nat k ∧ map name validCommands !! k = Some n).
  { destruct n as [|c n]; [by left|]. cbn [getCommandIndex]. destruct (index_loop_spec (c :: n) Hn validCommands 0 Hc ltac:(lia)) as [H|(k & E & H & _)]; [by left|].
    right. exists k. split; [lia|done]. }
  assert (Hget : ∀ {A} (f : CommandEntry → A), is_Some (if (i <? 0) || (COMMAND_COUNT <=? i) then None else f <$> validCommands !! Z.to_nat i) ↔ 0 ≤ i < getCommandCount).
  { intros A f. unfold getCommandCount. destruct (Z.ltb_spec i 0), (Z.leb_spec COMMAND_COUNT i); cbn [orb]; rewrite ?fmap_is_Some, ?lookup_lt_is_Some;
      unfold COMMAND_COUNT in *; try (split; [intros [? [=]]|lia]); lia. }
  split; [|split; [|split_and!; try done; apply Hget]].
  - intros Hi. rewrite name_at, decide_True by done. destruct Hx as [[-> Hno]|(k & -> & Hk)].
    + split; [lia|]. intros H. destruct Hno. by eapply list_elem_of_lookup_2.
    + split; [intros <-; by rewrite Nat2Z.id|]. intros H. pose proof (NoDup_lookup _ _ _ _ Hd Hk H). lia.
  - destruct Hx as [[-> Hno]|(k & -> & Hk)].
    + split; [|done]. intros _ j H. rewrite name_at in H. destruct (decide _); [|done]. destruct Hno. by eapply list_elem_of_lookup_2.
    + split; [lia|]. intros H. destruct (H (Z.of_nat k)). rewrite name_at, decide_True by lia. by rewrite Nat2Z.id.
Qed.

Lemma command_table_witness : getCommandIndex (Some (msg "wc")) = 16 ∧ getCommandEntry 16 = Some Userland.wcCommand.
Proof.
  split; [|reflexivity]. apply (command_table (msg "wc") 16); [by apply cstr_checked|lia|reflexivity].
Defined.

(** ** [ps] *)

(** The digits are those of the kernel's [uint64ToHex]. *)
Lemma hex64_kernel v : hex64 v = LibC.uint64ToHex v.
Proof. reflexivity. Qed.
Lemma hex64_len v : len (hex64 v) = 18.
Proof. done. Qed.

Definition pad (text : list Z) (width : Z) : list Z := text ++ replicate (Z.to_nat (width - strlen text)) 32.
(** The columns before the name. *)
Definition cells (p : ProcTable.ProcessInfo) : list Z :=
  pad (numToString (ProcTable.i_pid p)) 5 ++ pad (numToString (ProcTable.i_ppid p)) 5 ++ pad (numToString (ProcTable.i_priority p)) 5 ++
  (if ProcTable.i_inForeground p then msg "YES " else msg "NO  ") ++ pad (stateName (ProcTable.i_state p)) 8 ++
  hex64 (ProcTable.i_rsp p) ++ [32] ++ hex64 (ProcTable.i_stackBase p) ++ [32].
Definition row (p : ProcTable.ProcessInfo) : list Z := cells p ++ ProcTable.i_name p ++ [10].

Section Table.
Context {W : Type} (answer : W → call → reply * W) (Hpass : writes_pass answer).

(** A program that writes [text] to the standard output and leaves the rest alone. *)
Definition writes (m : prog unit) (text : list Z) : Prop :=
  ∀ w, ∃ tr, run answer w m = (tr, Returned (), w) ∧ written STDOUT tr = text.

Lemma writes_bind m f t1 t2 : writes m t1 → writes (f ()) t2 → writes (m ≫= f) (t1 ++ t2).
Proof.
  intros H1 H2 w. destruct (H1 w) as (tr1 & E1 & W1). destruct (H2 w) as (tr2 & E2 & W2). exists (tr1 ++ tr2).
  rewrite runs_bind, E1, E2. split; [done|]. by rewrite written_app, W1, W2.
Qed.
Lemma writes_do text : writes (do_ (sys_write STDOUT text)) text.
Proof. intros w. exists [sys_write STDOUT text]. rewrite run_do, Hpass. split; [done|]. apply written_here. Qed.
Lemma writes_printf format args text : vprintf format args = Some text → writes (printf format args) text.
Proof. intros E w. by apply run_printf. Qed.
Lemma writes_cell text width : writes (cell text width) (pad text width).
Proof. apply writes_bind; [apply writes_do|]. intros w. by apply run_putAll. Qed.
Lemma writes_char c : writes (putChar c) [c].
Proof. apply writes_do. Qed.

Lemma writes_row p : writes (ps_row p) (row p).
Proof.
  unfold row, cells. rewrite <- !app_assoc. do 9 (apply writes_bind; [first [apply writes_cell | apply writes_do]|]).
  by apply writes_printf.
Qed.
Lemma writes_rows ps : writes (ps_loop ps) (concat (map row ps)).
Proof.
  induction ps as [|p ps IH]; cbn [ps_loop map concat]; [intros w; by exists []|]. apply writes_bind; [apply writes_row|done].
Qed.
End Table.

(** Small numbers fit in their columns. *)
Lemma small_digits n : -1 ≤ n < 10000 → (length (numToString n) <= 4)%nat.
Proof.
  intros H. assert (Hall : forallb (λ n, (length (numToString n) <=? 4)%nat) (seqZ (-1) 10001) = true) by (vm_compute; reflexivity).
  rewrite forallb_forall in Hall. apply Nat.leb_le, Hall, list_elem_of_In, elem_of_seqZ. lia.
Qed.
Lemma pad_len text width : strlen text ≤ width → length (pad text width) = Z.to_nat width.
Proof. unfold pad, strlen. intros H. rewrite length_app, length_replicate. lia. Qed.
Lemma cells_width p : -1 ≤ ProcTable.i_pid p < 10000 → -1 ≤ ProcTable.i_ppid p < 10000 → 0 ≤ ProcTable.i_priority p < 10000 →
  length (cells p) = 65%nat.
Proof.
  intros H1 H2 H3. pose proof (small_digits _ H1). pose proof (small_digits _ H2). pose proof (small_digits (ProcTable.i_priority p) ltac:(lia)).
  unfold cells. rewrite !length_app, !pad_len by (first [unfold strlen; lia | by destruct (ProcTable.i_state p)]).
  by destruct (ProcTable.i_inForeground p).
Qed.

(** [ps] prints a table: the header, and a line for every process that the kernel reports, in
    its order; the names are all in the column of the header, as long as the pids and the
    priorities have at most four digits. *)
Theorem ps_table {W} (answer : W → call → reply * W) w w' r argv : writes_pass answer →
  answer w (sys_ps PS_MAX_PROCS) = (r, w') → ret r = len (infos r) → len (infos r) ≤ PS_MAX_PROCS →
  (∃ tr, run answer w (psCommand argv) = (tr, Exited, w') ∧ written STDOUT tr = ps_header ++ concat (map row (infos r))) ∧
  drop 65 ps_header = line "NAME" ∧
  (∀ p, p ∈ infos r → -1 ≤ ProcTable.i_pid p < 10000 → -1 ≤ ProcTable.i_ppid p < 10000 → 0 ≤ ProcTable.i_priority p < 10000 →
    drop 65 (row p) = ProcTable.i_name p ++ [10]).
Proof.
  intros Hpass Ha Hr Hmax. split; [|split; [reflexivity|]].
  - unfold psCommand. cbn [run]. rewrite Ha, Hr, i32_small, Nat2Z.id, firstn_all by (unfold PS_MAX_PROCS in *; lia).
    pose proof (writes_bind answer _ (λ _, ps_loop (infos r)) _ _ (writes_printf answer Hpass ps_header [] ps_header eq_refl) (writes_rows answer Hpass (infos r))) as H.
    destruct (H w') as (tr & E & Ew). rewrite runs_bind in E |- *.
    destruct (run answer w' (printf ps_header [])) as [[tr1 [[]| | | |]] w1]; try discriminate E. rewrite runs_bind.
    destruct (run answer w1 (ps_loop (infos r))) as [[tr2 [[]| | | |]] w2]; try discriminate E. injection E as <- <-.
    eexists. split; [reflexivity|]. by rewrite written_cons, !written_app, app_nil_r, <- written_app.
  - intros p _ H1 H2 H3. unfold row. rewrite (drop_app_length' (cells p)); [done|]. symmetry. by apply cells_width.
Qed.

(** A system with one process, the shell. *)
Definition lone_shell : ProcTable.ProcessInfo := ProcTable.mkInfo 2 1 KState.RUNNING (msg "shell") 1 true 0x1A2B 0xFFF0.
Definition one_process (w : unit) (c : call) : reply * unit :=
  match c with sys_ps _ => (mkReply 1 [] [lone_shell], w) | _ => (mkReply 0 [] [], w) end.

Lemma ps_table_witness : ∃ tr, run one_process () (psCommand []) = (tr, Exited, ()) ∧
  written STDOUT tr = ps_header ++ line "2    1    1    YES RUNNING 0x0000000000001A2B 0x000000000000FFF0 shell".
Proof.
  destruct (ps_table one_process () () (mkReply 1 [] [lone_shell]) []) as ((tr & E & Ew) & _); [done|done|done|done|].
  exists tr. split; [done|]. rewrite Ew. reflexivity.
Defined.
End Commands.
