(* ===== verification/Session.v ===== *)
(** * A session of the shell ([Userland/SampleCodeModule/shell.c], [_loader.c], [sampleCodeModule.c])

    What the shell does from its start: it puts the terminal between itself and the screen, and
    runs the lines it reads until the end of the input. *)

From stdpp Require Import strings.
From S2P Require Import Prelude LibC CStandard Shell Userland Commands.
Import CStandard Shell.
#[local] Open Scope Z_scope.

Module Session.

Definition PROMPT : list Z := Commands.COLOR_FG "00FFFF" ++ msg "[SHELL]" ++ Commands.COLOR_RESET ++ msg " > ".
Definition WELCOME : list Z :=
  Commands.COLOR_FG "00FF80" ++ msg "Welcome to TP2 SO G18 shell." ++ Commands.COLOR_RESET ++ msg " Type `help`." ++ [10].

(** A token is never the null pointer. *)
Definition getCommandIndex (name : list Z) : Z := Commands.getCommandIndex (Some name).

Definition terminalClear : prog unit := do_ (sys_write STDOUT [12]).

(** The shell's output goes to a pipe, and the terminal, the only other process that has it, reads
    it. *)
Definition launchTerminal : prog unit :=
  _ ← do_ (sys_dup STDIN STDOUT);
  _ ← do_ (sys_dup STDIN STDERR);
  Call sys_pipe (λ r,
    if i64 (ret r) <? 0 then mret ()
    else
      _ ← do_ (sys_dup (fd1 r) STDOUT);
      _ ← do_ (sys_dup (fd1 r) STDERR);
      _ ← do_ (sys_close (fd1 r));
      _ ← do_ (sys_create_terminal [mkOverride STDIN (fd0 r); mkOverride STDOUT (-1); mkOverride STDERR (-1); mkOverride (fd0 r) (-1)]);
      do_ (sys_close (fd0 r))).

Fixpoint putAll (s : list Z) : prog unit := match s with [] => mret () | c :: s => _ ← putChar c; putAll s end.

(** [input] are the characters that the keyboard will bring; every turn reads a line of them. *)
Fixpoint shellLoop (turns : nat) (input : list Z) : prog unit :=
  match turns with
  | O => mret ()
  | S turns =>
    _ ← do_ sys_reap_zombies;
    _ ← do_ (sys_write STDOUT PROMPT);
    let '(n, line, echo, rest) := readLine input MAX_COMMAND_LENGTH in
    _ ← putAll echo;
    if n <? 0 then mret ()
    else if n =? 0 then shellLoop turns rest
    else _ ← runLine getCommandIndex line; shellLoop turns rest
  end.

(** A line takes at least a character. *)
Definition shellProcess (input : list Z) : prog unit :=
  _ ← launchTerminal;
  _ ← do_ sys_yield;
  _ ← terminalClear;
  _ ← do_ (sys_write STDOUT WELCOME);
  shellLoop (S (length input)) input.

(** [_start] clears the zeroed data of the module. *)
Definition main (input : list Z) : prog unit := shellProcess input.
Definition _start (bss endOfBinary : Z) (input : list Z) (m : LibC.memory) : LibC.memory * prog unit :=
  (LibC.memset bss 0 (u64 (endOfBinary - bss)) m, main input).

(** ** What a session runs *)

(** The lines that the user ends, as the editor leaves them, and what is typed after the last. *)
Definition typed (chunk : list Z) : list Z := foldl (edit MAX_COMMAND_LENGTH) [] chunk.

(** Each line in turn: nothing for an empty one. *)
Fixpoint script (chunks : list (list Z)) (last : list Z) : prog unit :=
  match chunks with
  | [] => _ ← do_ sys_reap_zombies; _ ← do_ (sys_write STDOUT PROMPT); putAll (readLine last MAX_COMMAND_LENGTH).1.2
  | c :: chunks =>
    _ ← do_ sys_reap_zombies;
    _ ← do_ (sys_write STDOUT PROMPT);
    _ ← putAll (readLine (c ++ [10]) MAX_COMMAND_LENGTH).1.2;
    _ ← (if len (typed c) =? 0 then mret () else runLine getCommandIndex (typed c));
    script chunks last
  end.

Fixpoint input_of (chunks : list (list Z)) (last : list Z) : list Z :=
  match chunks with [] => last | c :: chunks => c ++ 10 :: input_of chunks last end.

(** Two programs that make the same calls. *)
Definition same {A} (m n : prog A) : Prop := ∀ h past, run h past m = run h past n.

Lemma readLine_end last : 10 ∉ last → ∀ line, len line < MAX_COMMAND_LENGTH →
  ∃ l e, readLine_loop last line MAX_COMMAND_LENGTH = (-1, l, e, []).
Proof.
  induction last as [|c last IH]; intros Hn line Hl; cbn [readLine_loop]; [by eexists _, _|].
  apply not_elem_of_cons in Hn as [Hc Hn]. specialize (IH Hn). destruct (c =? 0); [by apply IH|]. rewrite (proj2 (Z.eqb_neq _ _)) by done.
  destruct (c =? 8).
  - destruct (0 <? len line); [|by apply IH]. destruct (IH (removelast line)) as (l & e & ->); [|by eexists _, _].
    pose proof (edit_len MAX_COMMAND_LENGTH line 8 Hl) as H. exact H.
  - destruct (_ && _) eqn:E; [|by apply IH]. destruct (IH (line ++ [c])) as (l & e & ->); [|by eexists _, _].
    apply andb_true_iff in E as [E _]. apply Z.ltb_lt in E. rewrite length_app. cbn. lia.
Qed.

Lemma input_len chunks last : (length chunks < S (length (input_of chunks last)))%nat.
Proof. induction chunks as [|c chunks IH]; cbn; [lia|]. rewrite length_app. cbn. lia. Qed.

Lemma run_after {A B} h past (m : prog A) (f g : A → prog B) : (∀ a past, run h past (f a) = run h past (g a)) →
  run h past (m ≫= f) = run h past (m ≫= g).
Proof. intros H. rewrite !run_bind. destruct (run h past m). apply H. Qed.

Lemma shellLoop_script chunks last : Forall (λ c, 10 ∉ c) chunks → 10 ∉ last → ∀ turns, (length chunks < turns)%nat →
  same (shellLoop turns (input_of chunks last)) (script chunks last).
Proof.
  intros Hc Hl. induction Hc as [|c chunks Hc _ IH]; intros [|turns] Ht h past; cbn [length] in Ht; try lia; cbn [shellLoop script input_of].
  - apply run_after. intros [] past1. apply run_after. intros [] past2.
    destruct (readLine_end last Hl [] ltac:(done)) as (l & e & E). unfold readLine. rewrite E. cbn [fst snd].
    rewrite run_bind. by destruct (run h past2 (putAll e)) as [p []].
  - destruct (readLine_go c MAX_COMMAND_LENGTH) with (line := @nil Z) as (e & E & _); [by rewrite <- list_elem_of_In|done|].
    apply run_after. intros [] past1. apply run_after. intros [] past2. unfold readLine. rewrite (E (input_of chunks last)), (E []).
    cbn [fst snd]. fold (typed c). rewrite (proj2 (Z.ltb_ge _ _)) by lia.
    apply run_after. intros [] past3. destruct (len (typed c) =? 0); [apply IH; lia|]. apply run_after. intros [] past4. apply IH. lia.
Qed.

(** ** What a session leaves behind *)

Section Ledger.
Context (h : list (call * reply) → call → reply).
Notation does := (does h).

(** Every descriptor opened is closed, and what was shown in the foreground was waited for. *)
Definition tidy (L : ledger) : Prop := L_opened L ≡ₚ L_closed L ∧ L_fg L = L_waited L.

Lemma tidy_nil : tidy (book []).
Proof. done. Qed.
Lemma tidy_add L1 L2 : tidy L1 → tidy L2 → tidy (add L1 L2).
Proof. intros [H1 H2] [H3 H4]. split; cbn; [by rewrite H1, H3|by rewrite H2, H4]. Qed.
Lemma tidy_settled bg L : settled bg L → tidy L.
Proof. intros (H1 & H2 & H3 & _). split; [done|]. by rewrite H2, H3. Qed.

Definition tidies (m : prog unit) : Prop := does m (λ L _, tidy L).

Lemma tidies_ret : tidies (mret ()).
Proof. by apply does_ret. Qed.
Lemma tidies_bind m f : tidies m → tidies (f ()) → tidies (m ≫= f).
Proof.
  intros H1 H2 past. destruct (H1 past) as (t1 & [] & E1 & T1). destruct (H2 (past ++ t1)) as (t2 & a & E2 & T2).
  exists (t1 ++ t2), a. rewrite run_bind, E1, E2, app_assoc. split; [done|]. rewrite book_app. by apply tidy_add.
Qed.
(** The calls that the ledger does not count. *)
Definition uncounted (c : call) : bool :=
  match c with sys_dup _ _ | sys_create_terminal _ | sys_yield | sys_reap_zombies | sys_write _ _ => true | _ => false end.
Lemma tidies_do c : uncounted c = true → tidies (do_ c).
Proof. intros Hc. apply does_do_last. intros r. by destruct c. Qed.
Lemma tidies_line line : tidies (runLine getCommandIndex line).
Proof.
  intros past. destruct (settled_runLine getCommandIndex h line past) as (tr & a & E & H). exists tr, a. split; [done|]. by eapply tidy_settled.
Qed.
Lemma tidies_putAll s : tidies (putAll s).
Proof. induction s as [|c s IH]; cbn [putAll]; [apply tidies_ret|]. apply tidies_bind; [by apply tidies_do|done]. Qed.

Lemma tidies_launch : tidies launchTerminal.
Proof.
  unfold launchTerminal. apply tidies_bind; [by apply tidies_do|]. apply tidies_bind; [by apply tidies_do|].
  apply does_call. intros r. destruct (i64 (ret r) <? 0) eqn:E.
  - apply does_ret. unfold tidy, book, all, opened. cbn. by rewrite E.
  - do 4 (apply does_do; intros ?). apply does_do_last. intros ?. unfold tidy, book, all, opened. cbn. rewrite E. cbn.
    split; [apply perm_swap|done].
Qed.

Lemma tidies_script chunks last : tidies (script chunks last).
Proof.
  induction chunks as [|c chunks IH]; cbn [script]; (apply tidies_bind; [by apply tidies_do|]; apply tidies_bind; [by apply tidies_do|]).
  - apply tidies_putAll.
  - apply tidies_bind; [apply tidies_putAll|]. apply tidies_bind; [|done].
    destruct (_ =? 0); [apply tidies_ret|apply tidies_line].
Qed.

End Ledger.


(** A system where everything succeeds. *)
Definition willing (past : list (call * reply)) (c : call) : reply :=
  match c with sys_pipe => mkReply 0 3 4 | sys_reopen _ => mkReply 5 0 0 | sys_create _ _ _ => mkReply 7 0 0 | _ => mkReply 0 0 0 end.


End Session.
